(* ===== verification/_CoqProject ===== *)
-Q . S2P
Prelude.v
Posix.v
Solace.v
Objects.v
Memory.v
Version.v
IOObject.v
File.v
FileStore.v
Duplex.v
DuplexStore.v
PipeContents.v
Selector.v
PollSelector.v
EPollSelector.v
Pollers.v
SelectorEquivalence.v
IPAddress.v
SharedMemory.v
SegmentStore.v
SignalDispatcher.v
SignalReentrancy.v
Serial.v
Filesystem.v
SerialPorts.v
SerialMonitor.v
MonitorContents.v
Asio.v
AsyncObjects.v
StreamSockets.v
Datagrams.v
Acceptors.v
AsyncServer.v
EchoServer.v
EchoContents.v
EchoProgram.v
EchoMain.v
SerialReader.v
Reactor.v
Liveness.v
Lifetimes.v
