(* ===== verification/Prelude.v ===== *)
(** * libcadence: a verification library

    libcadence is a C++ library for input and output on POSIX systems: files, pipes, selectors,
    shared memory, signals, serial ports, the file system (synchronous part), and sockets,
    timers, acceptors and a server over Asio (asynchronous part).  This development models
    the whole of the library's own code and proves what makes each part correct; where the
    code does not do what it means to, the theorem states what it does.

    ** The method

    A method of a C++ object is a program [prog E S A] (this file): it takes the state [S] of
    [*this], may call the environment [E], and returns an [A], raises an exception, or is
    stuck where the C++ text has no defined behaviour (null or dangling pointers, writes
    outside arrays, exceptions that leave a destructor).  The environment is any function
    [world E] from the calls made so far to the answer of the next one, so every theorem holds
    for all answers of the system, errors and short counts included.  The trace of calls is
    part of the result; the theorems on descriptors and call orders are about it.

    Machine integers are integers of type Z, with the conversions of the source written out
    ([u8] to [s64]).  Code outside the repository is an environment or a class: the system
    calls and the C library ([Posix]), libsolace's buffers, paths, strings and errors
    ([Solace], with the laws that the theorems use and an instance that satisfies them), Asio
    ([Asio]), [inet_pton] and [inet_ntop] (class [Inet] in [IPAddress]).

    ** The files

    - [Prelude] (this one): programs, integers, automation ([unfold_prog], [emits_tac],
      [steady_tac], [idle_tac], [case_if]), the predicates [emits], [steady], [idle] and the Hoare
      triples.
    - [Posix]: the operations of the system and the C library, and worlds for examples.
    - [Solace]: what is used of libsolace.
    - [Memory]: a memory of bytes, and what storing and loading runs of it do; [Objects]: clients
      that hold many objects, and the ledger that compares what they hold with the calls of a
      trace.  Neither has code of its own.
    - [Version]: version.hpp, version.cpp.
    - [IOObject]: ioobject.hpp, ioobject.cpp.  Reads and writes of byte streams over the
      class of I/O objects.
    - [File]: io/file.hpp, io/file.cpp, io/selectable.hpp.  One file.
    - [FileStore]: clients with many files that are opened, wrapped, moved, swapped, used, closed
      and destroyed; no code of its own.
    - [Duplex]: io/duplex.hpp, io/duplex.cpp, io/pipe.hpp, io/pipe.cpp; [DuplexStore]:
      clients with many pipes; [PipeContents]: the bytes that go through a pipe.
    - [Selector]: io/selector.hpp, io/selector_impl.hpp, io/selector.cpp: the facade and its
      iterator over the class [IPollerImpl], which [PollSelector] (io/selector_poll.cpp) and
      [EPollSelector] (io/selector_epoll.cpp) implement.  The latter models the storage of the
      vector into which the kernel holds pointers.  [Pollers] is the contract of
      [IPollerImpl], the class [Poller], with both implementations as instances;
      [SelectorEquivalence] compares what the two report.
    - [IPAddress]: ipaddress.hpp, ipendpoint.hpp, unixDomainEndpoint.hpp, networkEndpoint.hpp,
      ipendpoint.cpp.  The union of the two address families is a list of bytes, of which an
      IPv4 address uses four; [≡] is the equality operator of the source.
    - [SharedMemory]: io/sharedMemory.hpp, io/sharedMemory.cpp; [SegmentStore]: clients with many
      segments.
    - [SignalDispatcher]: io/signalDispatcher.hpp, io/signalDispatcher.cpp;
      [SignalReentrancy]: the same dispatch over iterators, while handlers attach handlers,
      and a signal that arrives inside [attachHandler].
    - [Serial]: io/serial.hpp, io/serial.cpp, as built on Linux; [SerialPorts]:
      io/serial_list_ports.cpp.
    - [Filesystem]: io/filesystem.hpp, io/platformFilesystem.hpp, io/platformFilesystem.cpp.
    - [Asio]: async/asio_helper.hpp, asynErrorDomain.hpp, asyncSystemErrorDomain.cpp,
      channel.hpp: the calls of Asio, the heap of promises, buffers and handlers, and what
      the channels share.
    - [AsyncObjects]: eventLoop, event, timer, signalSet, pipe and serialChannel (headers and
      sources in async/), a Module each.
    - [StreamSockets]: streamsocket, tcpsocket, streamdomainsocket, asio_helper_tcp; the class
      [StreamSocketImpl] has the TCP and the Unix instances.
    - [Datagrams]: udpsocket, datagramdomainsocket.
    - [Acceptors]: acceptor, tcpacceptor, streamdomainacceptor.
    - [AsyncServer]: asyncServer.hpp, asyncServer.cpp, and the bodies of the lambdas that the
      channels pass to Asio.
    - [Reactor]: the transition system in which clients call the asynchronous operations, Asio
      completes operations in any order, and handlers run; [Liveness]: that it can go on.
    - [Lifetimes]: the same reactor, with clients that destroy channels, free buffers and
      destroy servers while operations are under way.
    - [SerialMonitor], [SerialReader] and [EchoMain]: the three programs over the library,
      examples/serial.cpp, examples/async_serial.cpp and examples/async_server.cpp.  Of the last,
      [EchoServer] has the sessions and one of them by itself, [EchoProgram] all of them together
      while the loop runs, and [EchoMain] the main program, which ends with the destruction of the
      loop and of what is under way.  [MonitorContents] and [EchoContents] add the contents of the
      buffers: what the monitor prints, and what the echo server answers.  The reader calls both the system and Asio: [embed]
      (this file) makes a program over one environment a part of one over both.

    ** What the theorems show

    - Ownership.  [descriptors_conserved], [no_use_after_close]: no descriptor is closed
      twice, and none is used but when it was got more often than closed, whatever a client does
      with its files; [pipes_conserved]: the same conservation for pipes; [segments_conserved],
      [names_conserved]: and for the descriptors and the names of shared memory, with the two
      ways in which descriptors leak, counted exactly, and those in which names are left behind;
      [buffered_file_lifecycle], [serial_open_strong], and the lemmas [segment_lifecycle],
      [create_descriptor]: the life of streams, ports and segments; [futures_resolved_once],
      [futures_can_resolve]: in every history of the reactor a pending promise has one owner, a
      future is resolved once, and Asio can always go on until all are; [handler_needs],
      [disciplined_clients], [destroyed_futures_fail]: what a handler refers to, that clients
      which do not take it away are safe, and how the futures of a destroyed channel end.
    - Contents.  [pipe_delivers], [monitor_output], [echo_answers]: over the bytes of the memory,
      a pipe delivers what was sent, the monitor prints what it read (nothing, as its main program
      registers the port), and the echo server answers each read with its hexadecimal text.
    - Refinement.  [poll_table_refinement]: two vectors implement one table of
      registrations; [signal_dispatch], [reentrant_dispatch]: the multimap implements the lists
      of handlers in order of attachment, also while handlers are attached.
    - Interfaces.  [selector_safe]: a client of the selector, against the contract that both
      implementations fulfil; [selectors_agree]: the two report the same.
    - Functional behaviour on every branch.  [poll_reports_ready], [file_stream_io],
      [map_requests], [accept_loop], [tcp_open_calls], and the lemmas [transfer_completion],
      [epoll_reports_ready], [local_open_calls], [buffered_io], [wait_readable],
      [enumerate_ports].
    - Types and conversions.  [address_values], [address_equality],
      [address_text_roundtrip], [serial_framing], and the lemmas [poll_mask_roundtrip],
      [address_classes], [endpoint_roundtrip], [endpoint_text], [custom_baud].
    - Errors and order.  [open_retries], [configure_last], [serial_channel_open], and the
      lemmas [epoll_poll_interruptions], [duplex_close_order], [acceptor_one_shot].
    - Faults of the code, stated as what it does: [epoll_growth_dangles],
      [epoll_remove_redirects], [reentrant_hazards], [unix_names], and the lemmas
      [udp_write_to_closed], [receive_from_race], [moved_server_fault].
    - Programs.  [monitor_echoes] and the lemmas [monitor_gives_up], [monitor_releases]: the
      serial monitor, through Serial, Selector and IOObject; the lemma [serial_reader_once]: the
      asynchronous reader; [session_dialog]: a session of the echo server, through the stream
      sockets, promises and handlers; [echo_server_runs]: the whole of the server, from its
      set-up, with all its sessions, in every order of completions; [echo_main_ends]: how it ends.

    ** Fuel

    [File_open] repeats [open] while it is interrupted: [open_retries] shows that any fuel
    above the number of interruptions gives the result, and that there is none when every call
    is interrupted.  The iteration over a selector's answer takes as fuel one more than the
    number of entries, which [poll_reports_ready], [epoll_reports_ready] and [selectors_agree] show
    to be enough.
    [walk_loop], the dispatch over iterators, ends with any fuel above the number of handlers
    when the conditions of [reentrant_dispatch] hold, and never for a handler that attaches
    itself ([reentrant_hazards]).  The loop of the serial monitor has no bound by design:
    [monitor_echoes] holds for every fuel.  Everything else is structural; [serve], in
    [EchoServer], [events], in [EchoMain], and [run_loop], in [SerialReader], follow the list of
    completions.  [snprintf_hu] has fuel for twenty digits, of which a port uses five.

    ** What is not modelled

    The contents of the buffers that are read and written, but for pipes, the serial monitor and
    the echo server (elsewhere the calls carry addresses and sizes only); threads, and signals
    that arrive in the middle of a method other than [attachHandler]; what becomes of the
    operations when Asio's context is destroyed, but for the echo server ([EchoMain]), whose
    sessions live in their closures; the unwinding of a main program that an exception leaves,
    which the standard leaves open; the parser of the arguments of the example programs, another
    library's, whose answer is an input of their mains; the unit that compiles Asio. *)
From stdpp Require Export base tactics option list numbers strings.
From Stdlib Require Export ZArith.

#[global] Open Scope Z_scope.

(** ** Machine integers *)

Definition wrap_unsigned (w x : Z) : Z := x `mod` 2 ^ w.
Definition u8 : Z → Z := wrap_unsigned 8.
Definition u16 : Z → Z := wrap_unsigned 16.
Definition u32 : Z → Z := wrap_unsigned 32.
Definition u64 : Z → Z := wrap_unsigned 64.

Definition wrap_signed (w x : Z) : Z := (x + 2 ^ (w - 1)) `mod` 2 ^ w - 2 ^ (w - 1).
Definition s16 : Z → Z := wrap_signed 16.
Definition s32 : Z → Z := wrap_signed 32.
Definition s64 : Z → Z := wrap_signed 64.

(** C++ converts an [int] to [bool] in a condition. *)
Definition truthy (x : Z) : bool := negb (x =? 0).

(** [x & m] is non zero, [x | m], and [x & ~m] on flag words. *)
Definition has_flag (x m : Z) : bool := truthy (Z.land x m).
Definition set_flags (x m : Z) : Z := Z.lor x m.
Definition clear_flags (x m : Z) : Z := Z.ldiff x m.

(** ** Exceptions and undefined behaviour *)

Inductive exn :=
  | IOException (code : Z) (tag : string)
  | IOExceptionMsg (msg : string)
  | NotOpen
  | IllegalArgumentException (msg : string)
  | IndexOutOfRangeException (what : string)
  | GenericException (msg : string)
  | AsioError (code : Z).

(** Ways in which the C++ text leaves the language: reading through a null or
    dangling pointer, writing outside an array, an exception that leaves a
    destructor, and a loop that has used its fuel. *)
Inductive fault :=
  | NullPointer
  | DanglingPointer
  | OutOfBounds
  | Terminate
  | OutOfFuel.

Inductive outcome (A : Type) :=
  | Ret (a : A)
  | Raise (e : exn)
  | Stuck (u : fault).
Arguments Ret {A} a.
Arguments Raise {A} e.
Arguments Stuck {A} u.

#[global] Instance exn_eq_dec : EqDecision exn.
Proof. solve_decision. Defined.
#[global] Instance fault_eq_dec : EqDecision fault.
Proof. solve_decision. Defined.

(** ** Programs over an environment

    [E R] is an operation of the environment that answers with an [R].  A
    [world] is the environment: an arbitrary answer to each operation, which
    may depend on everything that happened before.  The trace holds the
    operations made so far with their answers, newest first. *)

Record event (E : Type → Type) := Event {
  ev_type : Type;
  ev_op : E ev_type;
  ev_res : ev_type }.
Arguments Event {E ev_type} ev_op ev_res.
Arguments ev_type {E} _.
Arguments ev_op {E} _.
Arguments ev_res {E} _.

Abbreviation trace E := (list (event E)).

Definition world (E : Type → Type) : Type := ∀ R : Type, trace E → E R → R.

Record run (E : Type → Type) (S A : Type) := Run {
  out : outcome A;
  st : S;
  tr : trace E }.
Arguments Run {E S A} out st tr.
Arguments out {E S A} _.
Arguments st {E S A} _.
Arguments tr {E S A} _.

(** A method of an object with state [S]. *)
Definition prog (E : Type → Type) (S A : Type) : Type :=
  world E → S → trace E → run E S A.

Section Prog.
Context {E : Type → Type}.

#[global] Instance prog_ret {S} : MRet (prog E S) := λ A a K s t, Run (Ret a) s t.

#[global] Instance prog_bind {S} : MBind (prog E S) := λ A B f m K s t,
  match m K s t with
  | Run (Ret a) s' t' => f a K s' t'
  | Run (Raise e) s' t' => Run (Raise e) s' t'
  | Run (Stuck u) s' t' => Run (Stuck u) s' t'
  end.

(** [raise<X>(...)]. *)
Definition raise {S A} (e : exn) : prog E S A := λ K s t, Run (Raise e) s t.

(** Undefined behaviour, or a call that cannot return. *)
Definition stuck {S A} (u : fault) : prog E S A := λ K s t, Run (Stuck u) s t.

(** The fields of [*this]. *)
Definition get {S} : prog E S S := λ K s t, Run (Ret s) s t.
Definition put {S} (s' : S) : prog E S unit := λ K _ t, Run (Ret tt) s' t.
Definition modify {S} (f : S → S) : prog E S unit := λ K s t, Run (Ret tt) (f s) t.

(** A call into the environment. *)
Definition perform {S R} (op : E R) : prog E S R := λ K s t,
  let r := K R t op in Run (Ret r) s (Event op r :: t).

(** A call of a method of a member [P] of [*this]. *)
Definition zoom {S P A} (view : S → P) (upd : P → S → S) (m : prog E P A) : prog E S A :=
  λ K s t, match m K (view s) t with Run o p t' => Run o (upd p s) t' end.

(** A [noexcept] function (destructors are): an exception that would leave it
    calls [std::terminate]. *)
Definition noexcept {S A} (m : prog E S A) : prog E S A := λ K s t,
  match m K s t with
  | Run (Raise _) s' t' => Run (Stuck Terminate) s' t'
  | r => r
  end.

(** Stack unwinding: when [m] raises, the destructors of what was already built run, and
    the exception goes on. *)
Definition unwind {S A} (m : prog E S A) (cleanup : prog E S unit) : prog E S A := λ K s t,
  match m K s t with
  | Run (Raise e) s' t' =>
      match cleanup K s' t' with
      | Run (Ret _) s'' t'' => Run (Raise e) s'' t''
      | Run (Raise _) s'' t'' => Run (Stuck Terminate) s'' t''
      | Run (Stuck u) s'' t'' => Run (Stuck u) s'' t''
      end
  | r => r
  end.

End Prog.

(** ** C strings *)

(** What a callee sees of the [char const*] of a [std::string]: the characters
    before the first NUL. *)
Fixpoint c_str (s : string) : string :=
  match s with
  | EmptyString => EmptyString
  | String c s' => if Ascii.eqb c Ascii.zero then EmptyString else String c (c_str s')
  end.

(** ** Automation *)

Create HintDb prog.
#[export] Hint Unfold mret mbind prog_ret prog_bind raise stuck get put modify
  perform zoom noexcept : prog.

(** A program over one environment, as a part of a program over a larger one. *)
Section Embed.
Context {E F : Type → Type} (inj : ∀ R, E R → F R).

Definition embed_event (e : event E) : event F := Event (inj _ (ev_op e)) (ev_res e).

Definition embed {S A} (m : prog E S A) : prog F S A := λ K s t,
  match m (λ R t' op, K R (map embed_event t' ++ t) (inj R op)) s [] with
  | Run o s' t' => Run o s' (map embed_event t' ++ t)
  end.

End Embed.

(** Unfolds the state passing of the goal. *)
Ltac unfold_prog :=
  unfold mret, mbind, prog_ret, prog_bind, raise, stuck, get, put, modify,
    perform, zoom, noexcept in *; cbn in *.

(** Runs the program of the goal, splitting on each test it makes. *)
Ltac run_prog := unfold_prog; repeat (case_match; simplify_eq/=).

(** Splits on one boolean test of the goal. *)
Ltac case_if := match goal with
  | |- context [if ?b then _ else _] => let E := fresh "Hif" in destruct b eqn:E; cbn
  end.

(** Boolean tests of the code as propositions. *)
Ltac bool_prop :=
  repeat match goal with
  | H : (_ =? _) = true |- _ => apply Z.eqb_eq in H
  | H : (_ =? _) = false |- _ => apply Z.eqb_neq in H
  | H : (_ <? _) = true |- _ => apply Z.ltb_lt in H
  | H : (_ <? _) = false |- _ => apply Z.ltb_ge in H
  | H : (_ <=? _) = true |- _ => apply Z.leb_le in H
  | H : (_ <=? _) = false |- _ => apply Z.leb_gt in H
  | H : negb _ = true |- _ => apply negb_true_iff in H
  | H : negb _ = false |- _ => apply negb_false_iff in H
  | H : _ && _ = true |- _ => apply andb_true_iff in H as [? ?]
  | H : _ || _ = false |- _ => apply orb_false_iff in H as [? ?]
  end.

(** ** Shared lemmas *)

Section ProgLemmas.
Context {E : Type → Type} {S : Type}.

Lemma bind_ret {A B} (f : A → prog E S B) a K s t : (mret a ≫= f) K s t = f a K s t.
Proof. done. Qed.

Lemma bind_perform {R B} (op : E R) (f : R → prog E S B) K s t :
  (perform op ≫= f) K s t = f (K R t op) K s (Event op (K R t op) :: t).
Proof. done. Qed.

Lemma bind_get {B} (f : S → prog E S B) K s t : (get ≫= f) K s t = f s K s t.
Proof. done. Qed.

(** The rest of a program after a first part whose run is known. *)
Lemma bind_run {A B} (m : prog E S A) (f : A → prog E S B) K s t :
  (m ≫= f) K s t = match m K s t with
                   | Run (Ret a) s' t' => f a K s' t'
                   | Run (Raise e) s' t' => Run (Raise e) s' t'
                   | Run (Stuck u) s' t' => Run (Stuck u) s' t'
                   end.
Proof. done. Qed.

Lemma bind_assoc {A B C} (m : prog E S A) (f : A → prog E S B) (g : B → prog E S C) K s t :
  ((m ≫= f) ≫= g) K s t = (m ≫= λ a, f a ≫= g) K s t.
Proof. unfold_prog. by destruct (m K s t) as [[]]. Qed.

Lemma noexcept_not_raise {A} (m : prog E S A) K s t e : out (noexcept m K s t) ≠ Raise e.
Proof. unfold noexcept. by destruct (m K s t) as [[]]. Qed.

End ProgLemmas.

(** Single-bit masks. *)
Lemma land_bit x k : 0 ≤ k → Z.land x (2 ^ k) = if Z.testbit x k then 2 ^ k else 0.
Proof.
  intros Hk. apply Z.bits_inj'. intros i Hi. rewrite Z.land_spec.
  destruct (decide (i = k)) as [->|Hne].
  - rewrite Z.pow2_bits_true by done. rewrite andb_true_r.
    destruct (Z.testbit x k); [by rewrite Z.pow2_bits_true | by rewrite Z.bits_0].
  - rewrite (Z.pow2_bits_false k i) by done. rewrite andb_false_r.
    destruct (Z.testbit x k); [by rewrite Z.pow2_bits_false | by rewrite Z.bits_0].
Qed.

Lemma has_flag_bit x k : 0 ≤ k → has_flag x (2 ^ k) = Z.testbit x k.
Proof.
  intros Hk. unfold has_flag, truthy. rewrite land_bit by done.
  pose proof (Z.pow_pos_nonneg 2 k ltac:(lia) Hk).
  destruct (Z.testbit x k); cbn; [|done].
  destruct (Z.eqb_spec (2 ^ k) 0); [lia|done].
Qed.

(** ** Which calls a program may make

    [emits P p]: whatever the environment answers, [p] only adds events of [P] to
    the trace. *)

Definition emits {E S A} (P : event E → Prop) (p : prog E S A) : Prop :=
  ∀ K s t, ∃ new, tr (p K s t) = new ++ t ∧ Forall P new.

Create HintDb emits.

Section Emits.
Context {E : Type → Type} (P : event E → Prop).

Lemma emits_pure {S A} (o : S → outcome A) (f : S → S) :
  emits P (λ K s t, Run (o s) (f s) t).
Proof. intros K s t. by exists []. Qed.

Lemma emits_ret {S A} (a : A) : emits P (mret (M := prog E S) a).
Proof. apply emits_pure. Qed.

Lemma emits_raise {S A} e : emits P (raise (S := S) (A := A) e).
Proof. apply emits_pure. Qed.

Lemma emits_stuck {S A} u : emits P (stuck (S := S) (A := A) u).
Proof. apply emits_pure. Qed.

Lemma emits_get {S} : emits P (get (S := S)).
Proof. intros K s t. by exists []. Qed.

Lemma emits_put {S} (s' : S) : emits P (put s').
Proof. apply (emits_pure (λ _, Ret tt) (λ _, s')). Qed.

Lemma emits_modify {S} (f : S → S) : emits P (modify f).
Proof. apply emits_pure. Qed.

Lemma emits_perform {S R} (op : E R) :
  (∀ r, P (Event op r)) → emits P (perform (S := S) op).
Proof. intros HP K s t. eexists [_]. cbn. split; [done|]. by constructor. Qed.

Lemma emits_bind {S A B} (m : prog E S A) (f : A → prog E S B) :
  emits P m → (∀ a, emits P (f a)) → emits P (m ≫= f).
Proof.
  intros Hm Hf K s t. unfold mbind, prog_bind. destruct (Hm K s t) as (n1 & Ht & H1).
  destruct (m K s t) as [[a| |] s' t']; cbn in *; [|by eauto..].
  destruct (Hf a K s' t') as (n2 & -> & H2). exists (n2 ++ n1).
  rewrite Ht, app_assoc. split; [done|]. by apply Forall_app.
Qed.

Lemma emits_zoom {S T A} (view : S → T) upd (m : prog E T A) :
  emits P m → emits P (zoom view upd m).
Proof.
  intros Hm K s t. unfold zoom. destruct (Hm K (view s) t) as (n & Ht & Hn).
  destruct (m K (view s) t). eauto.
Qed.

Lemma emits_noexcept {S A} (m : prog E S A) : emits P m → emits P (noexcept m).
Proof.
  intros Hm K s t. unfold noexcept. destruct (Hm K s t) as (n & Ht & Hn).
  destruct (m K s t) as [[]]; eauto.
Qed.

Lemma emits_unwind {S A} (m : prog E S A) (cleanup : prog E S unit) : emits P m → emits P cleanup → emits P (unwind m cleanup).
Proof.
  intros Hm Hc K s t. unfold unwind. destruct (Hm K s t) as (n1 & Ht & H1).
  destruct (m K s t) as [[a|e|u] s' t']; cbn in Ht; subst; [by exists n1| |by exists n1].
  destruct (Hc K s' (n1 ++ t)) as (n2 & Ht2 & H2). exists (n2 ++ n1). rewrite <- app_assoc, <- Ht2.
  destruct (cleanup K s' (n1 ++ t)) as [[]]; (split; [done|]); by apply Forall_app.
Qed.

End Emits.
#[export] Hint Resolve emits_ret emits_raise emits_stuck emits_get emits_put emits_modify
  emits_bind emits_perform emits_zoom emits_noexcept emits_unwind : emits.

(** Walks through a program; leaves the events it may emit to prove. *)
Ltac emits_tac :=
  repeat (intros; cbn beta iota; first
    [ apply emits_ret | apply emits_raise | apply emits_stuck | apply emits_get
    | apply emits_put | apply emits_modify | apply emits_perform
    | apply emits_bind | apply emits_zoom | apply emits_noexcept | apply emits_unwind
    | case_match ]); intros; try done.

(** ** Programs that only look

    [steady p]: [p] leaves the object as it is and runs into no undefined behaviour. *)

Definition steady {E S A} (p : prog E S A) : Prop :=
  ∀ K s t, st (p K s t) = s ∧ ∀ u, out (p K s t) ≠ Stuck u.

Section Steady.
Context {E : Type → Type} {S : Type}.

Lemma steady_ret {A} (a : A) : steady (mret (M := prog E S) a).
Proof. done. Qed.

Lemma steady_raise {A} e : steady (raise (E := E) (S := S) (A := A) e).
Proof. done. Qed.

Lemma steady_get : steady (get (E := E) (S := S)).
Proof. done. Qed.

Lemma steady_perform {R} (op : E R) : steady (perform (S := S) op).
Proof. done. Qed.

Lemma steady_bind {A B} (m : prog E S A) (f : A → prog E S B) :
  steady m → (∀ a, steady (f a)) → steady (m ≫= f).
Proof.
  intros Hm Hf K s t. unfold mbind, prog_bind. destruct (Hm K s t) as [Hs Ho].
  destruct (m K s t) as [[a|e|u] s' t']; cbn in *; subst; [apply Hf|done|by destruct (Ho u)].
Qed.

End Steady.

Ltac steady_tac :=
  repeat (intros; cbn beta iota; first
    [ apply steady_ret | apply steady_raise | apply steady_get | apply steady_perform
    | apply steady_bind | case_match ]); intros; try done.

(** ** Programs that change nothing

    [idle p]: [p] leaves the object as it is, in whichever way it ends. *)

Definition idle {E S A} (p : prog E S A) : Prop := ∀ K s t, st (p K s t) = s.

Section Idle.
Context {E : Type → Type} {S : Type}.

Lemma idle_ret {A} (a : A) : idle (mret (M := prog E S) a).
Proof. done. Qed.

Lemma idle_raise {A} e : idle (raise (E := E) (S := S) (A := A) e).
Proof. done. Qed.

Lemma idle_stuck {A} u : idle (stuck (E := E) (S := S) (A := A) u).
Proof. done. Qed.

Lemma idle_get : idle (get (E := E) (S := S)).
Proof. done. Qed.

Lemma idle_perform {R} (op : E R) : idle (perform (S := S) op).
Proof. done. Qed.

Lemma idle_bind {A B} (m : prog E S A) (f : A → prog E S B) : idle m → (∀ a, idle (f a)) → idle (m ≫= f).
Proof.
  intros Hm Hf K s t. unfold mbind, prog_bind. specialize (Hm K s t).
  destruct (m K s t) as [[a|e|u] s' t']; cbn in *; subst; [apply Hf|done..].
Qed.

End Idle.

Ltac idle_tac :=
  repeat (intros; cbn beta iota; first
    [ apply idle_ret | apply idle_raise | apply idle_stuck | apply idle_get | apply idle_perform
    | apply idle_bind | case_match ]); intros; try done.

(** ** Hoare triples

    From a state of [P], [m] returns in [Q], raises in [R], or is stuck. *)

Definition triple {E S A} (P : S → Prop) (m : prog E S A) (Q : A → S → Prop) (R : S → Prop) : Prop :=
  ∀ K s t, P s →
    match out (m K s t) with
    | Ret a => Q a (st (m K s t))
    | Raise _ => R (st (m K s t))
    | Stuck _ => True
    end.

Create HintDb triple.

Section Triple.
Context {E : Type → Type} {S : Type} (R : S → Prop).

Lemma triple_ret {A} (a : A) (P : S → Prop) (Q : A → S → Prop) :
  (∀ s, P s → Q a s) → triple P (mret (M := prog E S) a) Q R.
Proof. intros HP K s t Hs. apply HP, Hs. Qed.

Lemma triple_raise {A} e (P : S → Prop) (Q : A → S → Prop) :
  (∀ s, P s → R s) → triple P (raise (E := E) e) Q R.
Proof. intros HP K s t Hs. apply HP, Hs. Qed.

Lemma triple_stuck {A} u (P : S → Prop) (Q : A → S → Prop) : triple P (stuck (E := E) u) Q R.
Proof. done. Qed.

Lemma triple_get (P : S → Prop) (Q : S → S → Prop) :
  (∀ s, P s → Q s s) → triple P (get (E := E)) Q R.
Proof. intros HP K s t Hs. apply HP, Hs. Qed.

Lemma triple_modify f (P : S → Prop) (Q : unit → S → Prop) :
  (∀ s, P s → Q tt (f s)) → triple P (modify (E := E) f) Q R.
Proof. intros HP K s t Hs. apply HP, Hs. Qed.

Lemma triple_perform {X} (op : E X) (P : S → Prop) : triple P (perform op) (λ _, P) R.
Proof. intros K s t Hs. apply Hs. Qed.

Lemma triple_bind {A B} (m : prog E S A) (f : A → prog E S B) P Q1 Q :
  triple P m Q1 R → (∀ a, triple (Q1 a) (f a) Q R) → triple P (m ≫= f) Q R.
Proof.
  intros Hm Hf K s t Hs. rewrite !bind_run. specialize (Hm K s t Hs).
  destruct (m K s t) as [[a|e|u] s' t']; [apply Hf, Hm|exact Hm|done].
Qed.

Lemma triple_weaken {A} (m : prog E S A) (P P' : S → Prop) (Q Q' : A → S → Prop) :
  triple P' m Q' R → (∀ s, P s → P' s) → (∀ a s, Q' a s → Q a s) → triple P m Q R.
Proof.
  intros Hm HP HQ K s t Hs. specialize (Hm K s t (HP s Hs)).
  destruct (m K s t) as [[a|e|u] s' t']; [apply HQ, Hm|exact Hm|done].
Qed.

End Triple.

Section TripleParts.
Context {E : Type → Type} {S : Type}.

(** What changes nothing keeps everything. *)
Lemma triple_idle {A} (m : prog E S A) (P R : S → Prop) : idle m → (∀ s, P s → R s) → triple P m (λ _, P) R.
Proof.
  intros Hm HR K s t Hs. specialize (Hm K s t). destruct (m K s t) as [[a|e|u] s' t']; cbn in *; subst; auto.
Qed.

(** A program on a part of the state. *)
Lemma triple_zoom {T A} (view : S → T) (upd : T → S → S) (m : prog E T A) P Q R (P' : S → Prop) (Q' : A → S → Prop) R' :
  triple P m Q R → (∀ s, P' s → P (view s)) → (∀ a p s, Q a p → Q' a (upd p s)) → (∀ p s, R p → R' (upd p s)) →
  triple P' (zoom view upd m) Q' R'.
Proof.
  intros Hm HP HQ HR K s t Hs. specialize (Hm K (view s) t (HP s Hs)). unfold zoom.
  destruct (m K (view s) t) as [[a|e|u] p t']; cbn in *; auto.
Qed.

(** An exception that goes through a destructor. *)
Lemma triple_unwind {A} (m : prog E S A) cleanup P Q R R' R'' :
  triple P m Q R → triple R cleanup (λ _, R') R'' → triple P (unwind m cleanup) Q R'.
Proof.
  intros Hm Hc K s t Hs. specialize (Hm K s t Hs). unfold unwind.
  destruct (m K s t) as [[a|e|u] s' t']; cbn in *; [done| |done].
  specialize (Hc K s' t' Hm). by destruct (cleanup K s' t') as [[]].
Qed.

End TripleParts.

Lemma wrap_unsigned_range w x : 0 ≤ w → 0 ≤ wrap_unsigned w x < 2 ^ w.
Proof. intros ?. apply Z.mod_pos_bound, Z.pow_pos_nonneg; lia. Qed.

Lemma wrap_unsigned_small w x : 0 ≤ x < 2 ^ w → wrap_unsigned w x = x.
Proof. apply Z.mod_small. Qed.

Lemma wrap_signed_small w x :
  0 < w → - 2 ^ (w - 1) ≤ x < 2 ^ (w - 1) → wrap_signed w x = x.
Proof.
  intros Hw Hx. unfold wrap_signed.
  assert (2 ^ w = 2 * 2 ^ (w - 1)) by (rewrite <- Z.pow_succ_r by lia; f_equal; lia).
  rewrite Z.mod_small; lia.
Qed.

Lemma truthy_true x : truthy x = true ↔ x ≠ 0.
Proof. unfold truthy. rewrite negb_true_iff, Z.eqb_neq. done. Qed.

Lemma truthy_false x : truthy x = false ↔ x = 0.
Proof. unfold truthy. rewrite negb_false_iff, Z.eqb_eq. done. Qed.
