(* ===== verification/Posix.v ===== *)
(** * The operating system

    The system calls and C library calls that src/src/io makes, as the operations
    of one environment, and the constants of the Linux headers the sources name
    (x86-64, glibc).  What a call answers is not defined here: it is the [world]
    that the programs are run in. *)
From S2P Require Import Prelude.

(** The C convention: a return value, and [errno] as it is after the call. *)
Record sysret := Sys { rv : Z; errno : Z }.

(** [struct termios], the words the sources touch. *)
Record termios := Termios {
  c_iflag : Z; c_oflag : Z; c_cflag : Z; c_lflag : Z;
  c_vmin : Z; c_vtime : Z; c_ispeed : Z; c_ospeed : Z }.

(** [struct serial_struct], the fields the sources touch. *)
Record serial_struct := SerialStruct { ss_baud_base : Z; ss_custom_divisor : Z; ss_flags : Z }.

(** [struct stat], the fields the sources touch. *)
Record stat_buf := Stat { st_mode : Z; st_size : Z; st_mtime : Z }.

(** [struct sigaction]: the address of the handler and the flags. *)
Record sigaction_t := Sigaction { sa_handler : Z; sa_flags : Z }.

(** The pointer a client leaves with the kernel: the element [ptr_index] of the
    [ptr_block]-th allocation of a vector. *)
Record vec_ptr := VecPtr { ptr_block : nat; ptr_index : nat }.

(** [struct timespec]. *)
Record timespec := Timespec { tv_sec : Z; tv_nsec : Z }.

(** The third argument of [ioctl]: there is none, or it is a pointer to an [int], which holds a
    value or is still to be written, or a value. *)
Inductive ioctl_arg := No_argument | Pointer_to (v : Z) | Pointer_out | By_value (v : Z).

Inductive posix : Type → Type :=
  (* descriptors *)
  | sys_open (path : string) (flags : Z) : posix sysret
  | sys_close (fd : Z) : posix sysret
  | sys_read (fd addr size : Z) : posix sysret
  | sys_write (fd addr size : Z) : posix sysret
  | sys_lseek (fd offset whence : Z) : posix sysret
  | sys_fsync (fd : Z) : posix sysret
  | sys_pipe : posix (sysret * (Z * Z))
  (* polling *)
  | sys_poll (fds : list (Z * Z)) (msec : Z) : posix (sysret * list Z)
  | sys_epoll_create (size : Z) : posix sysret
  | sys_epoll_ctl (epfd op fd events : Z) (ptr : option vec_ptr) : posix sysret
  | sys_epoll_wait (epfd maxevents msec : Z) : posix (sysret * list (Z * vec_ptr))
  | sys_pselect (nfds : Z) (readfds : list Z) (ts : timespec) : posix (sysret * list Z)
  (* memory *)
  | sys_shm_open (name : string) (oflag mode : Z) : posix sysret
  | sys_shm_unlink (name : string) : posix sysret
  | sys_ftruncate (fd size : Z) : posix sysret
  | sys_fstat (fd : Z) : posix (sysret * stat_buf)
  | sys_mmap (size prot flags fd : Z) : posix sysret
  | sys_munmap (addr size : Z) : posix sysret
  (* signals *)
  | sys_sigaction (signum : Z) (act : sigaction_t) : posix (sysret * sigaction_t)
  | call_handler (addr signum : Z) (siginfo : bool) : posix unit
  (* terminals *)
  | sys_tcgetattr (fd : Z) : posix (sysret * termios)
  | sys_tcsetattr (fd action : Z) (t : termios) : posix sysret
  | sys_cfsetispeed (t : termios) (speed : Z) : posix (sysret * termios)
  | sys_cfsetospeed (t : termios) (speed : Z) : posix (sysret * termios)
  | sys_tcdrain (fd : Z) : posix sysret
  | sys_tcflush (fd queue : Z) : posix sysret
  | sys_tcsendbreak (fd duration : Z) : posix sysret
  | sys_ioctl (fd request : Z) (arg : ioctl_arg) : posix (sysret * Z)
  | sys_ioctl_gserial (fd : Z) : posix (sysret * serial_struct)
  | sys_ioctl_sserial (fd : Z) (ss : serial_struct) : posix sysret
  (* streams and the file system *)
  | c_fopen (path mode : string) : posix sysret
  | c_tmpfile : posix sysret
  | c_fileno (fp : Z) : posix Z
  | c_fclose (fp : Z) : posix sysret
  | c_fread (addr size fp : Z) : posix sysret
  | c_fwrite (addr size fp : Z) : posix sysret
  | c_fseeko (fp offset whence : Z) : posix sysret
  | c_ftell (fp : Z) : posix sysret
  | c_remove (path : string) : posix sysret
  | c_stat (path : string) : posix (sysret * stat_buf)
  | c_realpath (path : string) : posix (option string)
  | c_glob (pattern : string) (append : bool) : posix (Z * list string)
  | c_readlink (path : string) (size : Z) : posix (sysret * string)
  | c_getcwd (size : Z) : posix (sysret * option string)
  | c_chdir (path : string) : posix sysret
  | c_read_line (path : string) : posix (option string)
  (* std::cout and std::cerr *)
  | cout_write (addr size : Z) : posix unit
  | cout_flush : posix unit
  | cout_text (text : string) : posix unit
  | cout_int (n : Z) : posix unit
  | cerr_text (text : string) : posix unit.

(** ** errno values *)
Definition ENOENT : Z := 2.
Definition EINTR : Z := 4.
Definition ENFILE : Z := 23.
Definition EMFILE : Z := 24.

(** ** open(2), lseek(2), mmap(2) *)
Definition O_RDONLY : Z := 0.
Definition O_WRONLY : Z := 1.
Definition O_RDWR : Z := 2.
Definition O_CREAT : Z := 0x40.
Definition O_NOCTTY : Z := 0x100.
Definition O_NONBLOCK : Z := 0x800.
Definition SEEK_SET : Z := 0.
Definition SEEK_CUR : Z := 1.
Definition SEEK_END : Z := 2.
Definition PROT_NONE : Z := 0.
Definition PROT_READ : Z := 1.
Definition PROT_WRITE : Z := 2.
Definition PROT_EXEC : Z := 4.
Definition MAP_SHARED : Z := 1.
Definition MAP_PRIVATE : Z := 2.
Definition MAP_ANONYMOUS : Z := 0x20.
(** [MAP_FAILED] is [(void* ) -1]. *)
Definition MAP_FAILED : Z := -1.

(** ** poll(2), epoll(7) *)
Definition POLLIN : Z := 0x1.
Definition POLLPRI : Z := 0x2.
Definition POLLOUT : Z := 0x4.
Definition POLLERR : Z := 0x8.
Definition POLLHUP : Z := 0x10.
Definition POLLNVAL : Z := 0x20.
Definition POLLRDHUP : Z := 0x2000.
Definition EPOLLIN : Z := 0x1.
Definition EPOLLOUT : Z := 0x4.
Definition EPOLLERR : Z := 0x8.
Definition EPOLLHUP : Z := 0x10.
Definition EPOLL_CTL_ADD : Z := 1.
Definition EPOLL_CTL_DEL : Z := 2.

(** ** sigaction(2) *)
Definition SIG_DFL : Z := 0.
Definition SIG_IGN : Z := 1.
Definition SA_SIGINFO : Z := 4.

(** ** stat(2), glob(3) *)
Definition S_IFMT : Z := 0xF000.
Definition S_IFREG : Z := 0x8000.
Definition S_IFDIR : Z := 0x4000.
Definition S_ISREG (m : Z) : bool := Z.land m S_IFMT =? S_IFREG.
Definition S_ISDIR (m : Z) : bool := Z.land m S_IFMT =? S_IFDIR.
Definition GLOB_NOSPACE : Z := 1.
Definition GLOB_ABORTED : Z := 2.
Definition GLOB_NOMATCH : Z := 3.

(** ** Worlds for running the theorems on inputs *)

Definition sys0 : sysret := Sys 0 0.
Definition failed (e : Z) : sysret := Sys (-1) e.

(** Every call succeeds with zero. *)
Definition zero_answer {R} (op : posix R) : R :=
  match op in posix R return R with
  | sys_pipe => (sys0, (0, 0))
  | sys_poll _ _ | sys_pselect _ _ _ => (sys0, [])
  | sys_epoll_wait _ _ _ => (sys0, [])
  | sys_fstat _ | c_stat _ => (sys0, Stat 0 0 0)
  | sys_sigaction _ _ => (sys0, Sigaction 0 0)
  | call_handler _ _ _ | cout_write _ _ | cout_flush | cout_text _ | cout_int _ | cerr_text _ => tt
  | sys_tcgetattr _ => (sys0, Termios 0 0 0 0 0 0 0 0)
  | sys_cfsetispeed t _ | sys_cfsetospeed t _ => (sys0, t)
  | sys_ioctl _ _ _ => (sys0, 0)
  | sys_ioctl_gserial _ => (sys0, SerialStruct 0 0 0)
  | c_fileno _ => 0
  | c_realpath _ | c_read_line _ => None
  | c_glob _ _ => (0, [])
  | c_readlink _ _ => (sys0, ""%string)
  | c_getcwd _ => (sys0, None)
  | _ => sys0
  end.

(** A world given by its answers to some calls; the others succeed with zero. *)
Definition world_of (f : ∀ R, nat → posix R → option R) : world posix :=
  λ R t op, match f R (length t) op with Some r => r | None => zero_answer op end.

Definition zero_world : world posix := world_of (λ _ _ _, None).
