(* ===== verification/Solace.v ===== *)
(** * The libsolace interface

    libsolace is not part of this repository: what the sources use of it is an
    interface here (type classes of operations, and of the laws its documentation
    states), and every component is parametric in an implementation of it.
    [Concrete], at the end, is one implementation: it exists so that the theorems
    can be run on inputs, and no theorem about a component mentions it. *)
From S2P Require Import Prelude.

(** [Solace::Error]: a category atom, a code and a tag. *)
Record Error := MkError { err_category : string; err_code : Z; err_tag : string }.

(** [Solace::Result<T, Error>]. *)
Inductive Result (T : Type) :=
  | Ok (v : T)
  | Err (e : Error).
Arguments Ok {T} v.
Arguments Err {T} e.

Definition isOk {T} (r : Result T) : bool := match r with Ok _ => true | Err _ => false end.

(** [Solace::MemoryView] and [MutableMemoryView]: a region of memory. *)
Class MemoryView (V : Type) := {
  dataAddress : V → Z;
  view_size : V → Z;
  slice : V → Z → Z → V }.

(** [Solace::ByteReader] and [ByteWriter]: a cursor over a region of memory. *)
Class ByteStream (B V : Type) := {
  viewRemaining : B → V;
  remaining : B → Z;
  advance : Z → B → Result unit * B }.

Class MemoryViewLaws (V : Type) `{MemoryView V} : Prop := {
  view_size_nonneg (v : V) : 0 ≤ view_size v;
  slice_address (v : V) n : dataAddress (slice v 0 n) = dataAddress v;
  slice_size_le (v : V) n : 0 ≤ n → view_size (slice v 0 n) ≤ view_size v;
  slice_size (v : V) n : 0 ≤ n ≤ view_size v → view_size (slice v 0 n) = n }.

Class ByteStreamLaws (B V : Type) `{MemoryView V, !ByteStream B V} : Prop := {
  remaining_view (b : B) : view_size (viewRemaining b) = remaining b;
  advance_result (b : B) n : 0 ≤ n ≤ remaining b → (advance n b).1 = Ok tt;
  advance_remaining (b : B) n :
    0 ≤ n ≤ remaining b → remaining (advance n b).2 = remaining b - n;
  advance_address (b : B) n :
    0 ≤ n ≤ remaining b →
    dataAddress (viewRemaining (advance n b).2) = dataAddress (viewRemaining b) + n;
  advance_too_far (b : B) n : remaining b < n → (advance n b).2 = b }.

(** The part of [Solace::ByteWriter] and [ByteReader] that looks back at what was written, goes
    back to the start, and makes one over a region of memory ([wrapMemory], by address and
    size). *)
Class ByteWriter (B V : Type) `{ByteStream B V} := {
  viewWritten : B → V;
  clear : B → B;
  rewind : B → B;
  wrapMemory : Z → Z → B }.

(** What was written ends where the rest begins; [clear] goes back to the start, whatever was
    written since. *)
Class ByteWriterLaws (B V : Type) `{MemoryView V, !ByteStream B V, !ByteWriter B V} : Prop := {
  written_end (b : B) :
    dataAddress (viewRemaining b) = dataAddress (viewWritten b) + view_size (viewWritten b);
  written_start (b : B) n :
    0 ≤ n ≤ remaining b → dataAddress (viewWritten (advance n b).2) = dataAddress (viewWritten b);
  written_advance (b : B) n :
    0 ≤ n ≤ remaining b → view_size (viewWritten (advance n b).2) = view_size (viewWritten b) + n;
  clear_written (b : B) : view_size (viewWritten (clear b)) = 0;
  clear_clear (b : B) : clear (clear b) = clear b;
  clear_advance (b : B) n : 0 ≤ n ≤ remaining b → clear (advance n b).2 = clear b;
  rewind_advance (b : B) n : 0 ≤ n ≤ remaining b → rewind (advance n b).2 = rewind b;
  clear_wrap addr size : clear (wrapMemory addr size) = wrapMemory addr size;
  rewind_wrap addr size : rewind (wrapMemory addr size) = wrapMemory addr size;
  wrap_remaining addr size : 0 ≤ size → remaining (wrapMemory addr size) = size;
  wrap_address addr size : dataAddress (viewRemaining (wrapMemory addr size)) = addr }.

Section Wrapped.
Context {V B : Type} `{MemoryView V} `{!ByteStream B V} `{!ByteWriter B V}.
Context `{!MemoryViewLaws V, !ByteStreamLaws B V, !ByteWriterLaws B V}.

Lemma wrap_written addr size :
  view_size (viewWritten (wrapMemory (B := B) addr size)) = 0 ∧ dataAddress (viewWritten (wrapMemory (B := B) addr size)) = addr.
Proof.
  assert (view_size (viewWritten (wrapMemory (B := B) addr size)) = 0) as Hw by (rewrite <- clear_wrap; apply clear_written).
  split; [done|]. pose proof (written_end (wrapMemory (B := B) addr size)) as He. rewrite wrap_address, Hw in He. lia.
Qed.

(** What a transfer of [n] bytes leaves of a buffer that was empty. *)
Lemma received_run n addr size :
  0 ≤ size → 0 ≤ n →
  let w := (advance n (wrapMemory (B := B) addr size)).2 in
  clear w = wrapMemory addr size ∧ rewind w = wrapMemory addr size ∧
  dataAddress (viewWritten w) = addr ∧ view_size (viewWritten w) = if n <=? size then n else 0.
Proof.
  intros Hsize Hn. cbn zeta. pose proof (wrap_remaining (B := B) addr size Hsize) as Hr. destruct (wrap_written addr size) as [Hw Ha].
  destruct (Z.leb_spec n size).
  - assert (0 ≤ n ≤ remaining (wrapMemory (B := B) addr size)) by lia.
    rewrite clear_advance, rewind_advance, written_start, written_advance, clear_wrap, rewind_wrap, Hw by done. split_and!; [done..|lia].
  - by rewrite advance_too_far, clear_wrap, rewind_wrap by lia.
Qed.

End Wrapped.

(** [Solace::Path], as far as the sources look into it. *)
Class PathOps (P : Type) := {
  path_toString : P → string;
  path_length : P → Z;
  path_is_set : P → bool;
  path_parse : string → option P;
  path_none : P;
  path_root : P;
  makePath : P → list string → P;
  path_of_string : string → P;
  getBasename : P → string;
  getParent : P → P }.

(** The string builders of libsolace the sources call. *)
Class StringOps := {
  makeString : list string → string;
  makeStringJoin : string → list string → string;
  startsWith : string → string → bool }.

(** Concatenation, and joining with a separator, as documented: the separator is the first
    argument. *)
Class StringLaws `{StringOps} : Prop := {
  make_string l : makeString l = String.concat "" l;
  join_two d a b : makeStringJoin d [a; b] = String.append a (String.append d b) }.

(** The error values the sources make: [makeError(BasicError, tag)] and
    [makeError(SystemErrors, tag)]. *)
Inductive BasicError := InvalidInput.
Inductive SystemErrors := ISCONN.
Class ErrorOps := {
  makeError_basic : BasicError → string → Error;
  makeError_system : SystemErrors → string → Error }.

(** ** An implementation, to run the theorems on *)
Module Concrete.

Record view := View { v_addr : Z; v_size : Z }.

(** A cursor: the address of the next byte and the number of bytes left. *)
Record stream := Stream { s_addr : Z; s_left : Z }.

#[export] Instance view_ops : MemoryView view := {|
  dataAddress := v_addr;
  view_size := λ v, Z.max 0 (v_size v);
  slice := λ v from to,
    View (v_addr v + from) (Z.min to (Z.max 0 (v_size v)) - from) |}.

#[export] Instance stream_ops : ByteStream stream view := {|
  viewRemaining := λ s, View (s_addr s) (s_left s);
  remaining := λ s, Z.max 0 (s_left s);
  advance := λ n s,
    if n <=? Z.max 0 (s_left s) then (Ok tt, Stream (s_addr s + n) (s_left s - n))
    else (Err (MkError "solace" 1 "advance"), s) |}.

#[export] Instance view_laws : MemoryViewLaws view.
Proof. split; cbn; intros; lia. Qed.

#[export] Instance stream_laws : ByteStreamLaws stream view.
Proof.
  split; cbn; intros; try lia;
    destruct (Z.leb_spec n (Z.max 0 (s_left b))); cbn in *; try done; lia.
Qed.

(** A writer: the address of its memory, its size, and how much of it is written. *)
Record writer := Writer { w_addr : Z; w_size : Z; w_pos : nat }.

#[export] Instance writer_stream : ByteStream writer view := {|
  viewRemaining := λ w, View (w_addr w + Z.of_nat (w_pos w)) (w_size w - Z.of_nat (w_pos w));
  remaining := λ w, Z.max 0 (w_size w - Z.of_nat (w_pos w));
  advance := λ n w,
    if n <=? Z.max 0 (w_size w - Z.of_nat (w_pos w)) then (Ok tt, Writer (w_addr w) (w_size w) (w_pos w + Z.to_nat n))
    else (Err (MkError "solace" 1 "advance"), w) |}.

#[export] Instance writer_ops : ByteWriter writer view := {|
  viewWritten := λ w, View (w_addr w) (Z.of_nat (w_pos w));
  clear := λ w, Writer (w_addr w) (w_size w) 0;
  rewind := λ w, Writer (w_addr w) (w_size w) 0;
  wrapMemory := λ addr size, Writer addr size 0 |}.

#[export] Instance writer_stream_laws : ByteStreamLaws writer view.
Proof.
  split; cbn; intros; try lia;
    destruct (Z.leb_spec n (Z.max 0 (w_size b - Z.of_nat (w_pos b)))); cbn in *; try done; lia.
Qed.

#[export] Instance writer_laws : ByteWriterLaws writer view.
Proof.
  split; cbn; intros; try lia; try done;
    destruct (Z.leb_spec n (Z.max 0 (w_size b - Z.of_nat (w_pos b)))); cbn in *; try done; lia.
Qed.

(** Paths as their text. *)
#[export] Instance path_ops : PathOps string := {|
  path_toString := id;
  path_length := λ p, Z.of_nat (String.length p);
  path_is_set := λ p, negb (String.eqb p "");
  path_parse := Some;
  path_none := "";
  path_root := "/";
  makePath := λ p l, foldl (λ p s, String.append p (String.append "/" s)) p l;
  path_of_string := id;
  getBasename := id;
  getParent := id |}.

#[export] Instance string_ops : StringOps := {|
  makeString := String.concat "";
  makeStringJoin := String.concat;
  startsWith := λ s p, String.prefix p s |}.

#[export] Instance string_laws : StringLaws.
Proof. by split. Qed.

#[export] Instance error_ops : ErrorOps := {|
  makeError_basic := λ _ tag, MkError "basic" 22 tag;
  makeError_system := λ _ tag, MkError "posix" 106 tag |}.

End Concrete.
