(* ===== verification/Objects.v ===== *)
(** * Programs with many objects

    A client of a class holds objects by name, constructs, moves, swaps, uses and destroys them.
    A ledger gives each object a weight and compares the weight of all with what the calls of the
    trace account for. *)
From stdpp Require Import gmap.
From S2P Require Import Prelude.

(** A client that goes on after an exception. *)
Fixpoint exec_all {E S O} (exec : O → prog E S unit) (ops : list O) : prog E S unit :=
  match ops with
  | [] => mret tt
  | o :: ops' => λ K m t,
      match exec o K m t with
      | Run (Stuck u) m' t' => Run (Stuck u) m' t'
      | Run _ m' t' => exec_all exec ops' K m' t'
      end
  end.

Section Objects.
Context {E : Type → Type} {X : Type}.

Abbreviation store := (gmap nat X).

Definition construct (x : nat) (s : X) : prog E store unit :=
  m ← get;
  match m !! x with None => put (<[x := s]> m) | Some _ => stuck DanglingPointer end.

(** Runs a method on the object [x]. *)
Definition on_object {A} (x : nat) (p : prog E X A) : prog E store A := λ K m t,
  match m !! x with
  | None => Run (Stuck DanglingPointer) m t
  | Some s => match p K s t with Run o s' t' => Run o (<[x := s']> m) t' end
  end.

(** A method of two objects, which may be the same one. *)
Definition on_two (g : X → X → X * X) (x y : nat) : prog E store unit :=
  m ← get;
  match m !! x, m !! y with
  | Some s, Some s' =>
      if decide (x = y) then put m else put (<[x := (g s s').1]> (<[y := (g s s').2]> m))
  | _, _ => stuck DanglingPointer
  end.

(** A new object that is moved out of [y]. *)
Definition construct_moved (g : X → X * X) (x y : nat) : prog E store unit :=
  m ← get;
  match m !! y with
  | None => stuck DanglingPointer
  | Some s => _ ← put (<[y := (g s).2]> m); construct x (g s).1
  end.

Definition construct_from (x : nat) (p : prog E store X) : prog E store unit := s ← p; construct x s.

(** The constructor [p], run on a new object [s0]: when it raises there is no object. *)
Definition constructor (s0 : X) (p : prog E X unit) : prog E store X := λ K m t,
  match p K s0 t with
  | Run (Ret _) s t' => Run (Ret s) m t'
  | Run (Raise e) _ t' => Run (Raise e) m t'
  | Run (Stuck u) _ t' => Run (Stuck u) m t'
  end.

Definition destruct_object (x : nat) (p : prog E X unit) : prog E store unit :=
  _ ← on_object x p; modify (delete x).

End Objects.

(** ** Counting calls *)

Section Count.
Context {E : Type → Type}.

Definition count (f : event E → bool) (t : trace E) : Z := Z.of_nat (length (filter (λ e, f e) t)).

Lemma count_nil f : count f [] = 0.
Proof. done. Qed.

Lemma count_cons f e t : count f (e :: t) = Z.b2z (f e) + count f t.
Proof. unfold count. rewrite filter_cons. destruct (f e); cbn [Is_true decide length Z.b2z]; case_decide; cbn [length] in *; naive_solver lia. Qed.

Lemma count_app f t1 t2 : count f (t1 ++ t2) = count f t1 + count f t2.
Proof. unfold count. rewrite filter_app, length_app. lia. Qed.

Lemma count_pos f t : 0 ≤ count f t.
Proof. unfold count. lia. Qed.

Lemma count_none f t : Forall (λ e, f e = false) t → count f t = 0.
Proof. induction 1 as [|e t He _ IH]; [done|]. by rewrite count_cons, He, IH. Qed.

End Count.
#[global] Arguments count : simpl never.

(** ** The ledger *)

Section Ledger.
Context {E : Type → Type} {X : Type} (w : X → Z) (paid slack : trace E → Z).

Definition total (m : gmap nat X) : Z := map_fold (λ _ s n, w s + n) 0 m.

Lemma total_empty : total ∅ = 0.
Proof. apply map_fold_empty. Qed.

Lemma total_insert_new x s m : m !! x = None → total (<[x := s]> m) = w s + total m.
Proof. intros. unfold total. rewrite map_fold_insert_L; [done|intros; lia|done]. Qed.

Lemma total_split x s m : m !! x = Some s → total m = w s + total (delete x m).
Proof. intros. unfold total. rewrite (map_fold_delete_L _ _ x s); [done|intros; lia|done]. Qed.

Lemma total_insert x s s' m : m !! x = Some s → total (<[x := s']> m) = total m - w s + w s'.
Proof.
  intros Hx. rewrite <- insert_delete_eq, total_insert_new by apply lookup_delete_eq.
  rewrite (total_split x s m Hx). lia.
Qed.

Lemma total_pos m : (∀ s, 0 ≤ w s) → 0 ≤ total m.
Proof.
  intros Hw. induction m as [|x s m Hx IH] using map_ind; [by rewrite total_empty|].
  rewrite total_insert_new by done. specialize (Hw s). lia.
Qed.

(** The weight that came in by the calls and by the [n] of the client is the weight there is now,
    but for as much as the slack allows. *)
Definition settled (n : Z) (m : gmap nat X) (t : trace E) (m' : gmap nat X) (t' : trace E) : Prop :=
  0 ≤ total m + (paid t' - paid t) + n - total m' ≤ slack t' - slack t.

(** A method of one object. *)
Definition balanced {A} (p : prog E X A) : Prop := ∀ K s t,
  match p K s t with
  | Run (Stuck _) _ _ => True
  | Run _ s' t' => 0 ≤ w s + (paid t' - paid t) - w s' ≤ slack t' - slack t
  end.

Definition accounts {A} (n : Z) (p : prog E (gmap nat X) A) : Prop := ∀ K m t,
  match p K m t with Run (Stuck _) _ _ => True | Run _ m' t' => settled n m t m' t' end.

(** A call that the ledger does not look at. *)
Definition unpaid (e : event E) : Prop := ∀ t, paid (e :: t) = paid t ∧ slack (e :: t) = slack t.

Lemma balanced_idle {A} (p : prog E X A) : idle p → emits unpaid p → balanced p.
Proof.
  intros Hi He K s t. specialize (Hi K s t). destruct (He K s t) as (new & Ht & Hn).
  assert (Hsame : paid (new ++ t) = paid t ∧ slack (new ++ t) = slack t).
  { clear Ht. induction Hn as [|e new He' _ IH]; [done|]. destruct IH as [IH1 IH2], (He' (new ++ t)) as [H1 H2].
    cbn. by rewrite H1, H2, IH1, IH2. }
  destruct (p K s t) as [[] s' t']; cbn in *; subst; [lia..|done].
Qed.

Lemma balanced_bind {A B} (p : prog E X A) (f : A → prog E X B) :
  balanced p → (∀ a, balanced (f a)) → balanced (p ≫= f).
Proof.
  intros Hp Hf K s t. specialize (Hp K s t). rewrite bind_run. destruct (p K s t) as [[a|e|u] s' t']; [|done..].
  specialize (Hf a K s' t'). destruct (f a K s' t') as [[]]; [lia..|done].
Qed.

Lemma accounts_ret {A} (a : A) : accounts 0 (mret a).
Proof. intros K m t. cbn. unfold settled. lia. Qed.

Lemma accounts_bind {A B} (p : prog E (gmap nat X) A) (f : A → prog E (gmap nat X) B) :
  accounts 0 p → (∀ a, accounts 0 (f a)) → accounts 0 (p ≫= f).
Proof.
  intros Hp Hf K m t. specialize (Hp K m t). unfold_prog. destruct (p K m t) as [[a|e|u] m' t']; [|done..].
  specialize (Hf a K m' t'). destruct (f a K m' t') as [[]]; unfold settled in *; try done; lia.
Qed.

Lemma accounts_on_object {A} x (p : prog E X A) : balanced p → accounts 0 (on_object x p).
Proof.
  intros Hp K m t. unfold on_object. destruct (m !! x) as [s|] eqn:Hx; [|done].
  specialize (Hp K s t). destruct (p K s t) as [[] s' t']; unfold settled; rewrite ?(total_insert x s s' m Hx); try done; lia.
Qed.

Lemma accounts_construct x s : accounts (w s) (construct x s).
Proof.
  intros K m t. unfold construct. unfold_prog. destruct (m !! x) eqn:Hx; [done|].
  unfold settled. rewrite total_insert_new by done. lia.
Qed.

Lemma accounts_on_two g x y :
  (∀ s s', w (g s s').1 + w (g s s').2 = w s + w s') → accounts 0 (on_two g x y).
Proof.
  intros Hg K m t. unfold on_two. unfold_prog.
  destruct (m !! x) as [s|] eqn:Hx; [|done]. destruct (m !! y) as [s'|] eqn:Hy; [|done].
  case_decide as Hxy; unfold settled; [lia|]. specialize (Hg s s').
  rewrite (total_insert x s) by (by rewrite lookup_insert_ne). rewrite (total_insert y s') by done. lia.
Qed.

Lemma accounts_moved g x y : (∀ s, w (g s).1 + w (g s).2 = w s) → accounts 0 (construct_moved g x y).
Proof.
  intros Hg K m t. unfold construct_moved, construct. unfold_prog. destruct (m !! y) as [s|] eqn:Hy; [|done].
  destruct (_ !! x) eqn:Hx; [done|]. specialize (Hg s). unfold settled.
  rewrite total_insert_new, (total_insert y s) by done. lia.
Qed.

(** A constructor that calls: what it gains is what its object weighs. *)
Lemma accounts_from x (p : prog E (gmap nat X) X) :
  (∀ K m t, match p K m t with
            | Run (Ret s) m' t' => m' = m ∧ 0 ≤ paid t' - paid t - w s ≤ slack t' - slack t
            | Run (Raise _) m' t' => m' = m ∧ 0 ≤ paid t' - paid t ≤ slack t' - slack t
            | Run (Stuck _) _ _ => True end) →
  accounts 0 (construct_from x p).
Proof.
  intros Hp K m t. specialize (Hp K m t). unfold construct_from. unfold_prog.
  destruct (p K m t) as [[s|e|u] m' t']; [|destruct Hp as [-> Hp]; unfold settled; lia|done]. destruct Hp as [-> Hp].
  unfold construct. unfold_prog. destruct (m !! x) eqn:Hx; [done|]. unfold settled. rewrite total_insert_new by done. lia.
Qed.

(** A destructor leaves nothing. *)
Lemma accounts_destruct x (p : prog E X unit) :
  balanced p →
  (∀ K s t, match p K s t with Run (Ret _) s' _ => w s' = 0 | Run (Raise _) _ _ => False | _ => True end) →
  accounts 0 (destruct_object x p).
Proof.
  intros Hp He K m t. specialize (accounts_on_object x p Hp K m t). unfold destruct_object. unfold_prog.
  unfold on_object. destruct (m !! x) as [s|] eqn:Hx; [|done]. specialize (He K s t).
  destruct (p K s t) as [[] s' t']; [|done..]. unfold settled.
  rewrite (total_split x s' (<[x := s']> m)) by apply lookup_insert_eq. lia.
Qed.

(** The whole client. *)
Definition sum {O} (gain : O → Z) (ops : list O) : Z := foldr (λ o n, gain o + n) 0 ops.

Lemma accounts_all {O} (exec : O → prog E (gmap nat X) unit) (gain : O → Z) ops :
  Forall (λ o, accounts (gain o) (exec o)) ops → accounts (sum gain ops) (exec_all exec ops).
Proof.
  induction 1 as [|o ops Ho _ IH]; [apply accounts_ret|]. intros K m t. cbn [exec_all sum foldr].
  specialize (Ho K m t). destruct (exec o K m t) as [[] m' t']; [..|done].
  all: specialize (IH K m' t'); destruct (exec_all exec ops K m' t') as [[]]; unfold settled, sum in *; try done; lia.
Qed.

End Ledger.

(** A method of a part of the object. *)
Lemma balanced_zoom {E X Y A} (w : X → Z) (w' : Y → Z) (paid slack : trace E → Z) (view : X → Y) upd (p : prog E Y A) :
  (∀ y s, w (upd y s) = w s - w' (view s) + w' y) → balanced w' paid slack p → balanced w paid slack (zoom view upd p).
Proof.
  intros Hw Hp K s t. specialize (Hp K (view s) t). unfold zoom.
  destruct (p K (view s) t) as [[] y t']; [rewrite Hw; lia..|done].
Qed.

(** ** What each operation costs

    A client whose operations may lose weight, each only by the calls that [cost] names. *)

Section Charges.
Context {E : Type → Type} {X O : Type} (exec : O → prog E (gmap nat X) unit) (cost : O → trace E → Z).

(** What the operations of a client cost, one after the other. *)
Fixpoint charged (ops : list O) (K : world E) (m : gmap nat X) (t : trace E) : Z :=
  match ops with
  | [] => 0
  | o :: ops' =>
      match exec o K m t with
      | Run (Stuck _) _ t' => cost o t' - cost o t
      | Run _ m' t' => cost o t' - cost o t + charged ops' K m' t'
      end
  end.

(** When each operation keeps the ledger but for its cost, all of them do. *)
Lemma charged_all (w : X → Z) (paid : trace E → Z) (gain : O → Z) ops K m t :
  Forall (λ o, accounts w (λ t, paid t - cost o t) (λ _, 0) (gain o) (exec o)) ops →
  match exec_all exec ops K m t with
  | Run (Stuck _) _ _ => True
  | Run _ m' t' => total w m + (paid t' - paid t) + sum gain ops = total w m' + charged ops K m t
  end.
Proof.
  intros Hops. revert m t. induction Hops as [|o ops Ho _ IH]; intros m t; [cbn; lia|]. cbn [exec_all charged].
  specialize (Ho K m t). destruct (exec o K m t) as [[] m' t']; [..|done].
  all: specialize (IH m' t'); destruct (exec_all exec ops K m' t') as [[]]; unfold settled, sum in *; cbn [foldr]; try done; lia.
Qed.

End Charges.

(** ** Calls for which an object is needed

    An operation makes no [bad] call, or it makes one call only and does so for an object that
    weighs something. *)

Section Backed.
Context {E : Type → Type} {X : Type} (w : X → Z) (w_pos : ∀ s, 0 ≤ w s) (bad : event E → bool).

Definition harmless (new : trace E) (weight : Z) : Prop :=
  Forall (λ e, bad e = false) new ∨ (length new = 1%nat ∧ 0 < weight).

Definition backed {A} (p : prog E X A) : Prop :=
  ∀ K s t, ∃ new, tr (p K s t) = new ++ t ∧ harmless new (w s).
Definition backed_all {A} (p : prog E (gmap nat X) A) : Prop :=
  ∀ K m t, ∃ new, tr (p K m t) = new ++ t ∧ harmless new (total w m).

Lemma backed_on_object {A} x (p : prog E X A) : backed p → backed_all (on_object x p).
Proof.
  intros Hp K m t. unfold on_object. destruct (m !! x) as [s|] eqn:Hx; [|exists []; by repeat constructor].
  destruct (Hp K s t) as (new & Ht & Hn). exists new. destruct (p K s t) as [u s' t']. cbn in *. split; [done|].
  destruct Hn as [Hn|[Hn Hw]]; [by left|right]. rewrite (total_split w x s m Hx). pose proof (total_pos w (delete x m) w_pos). lia.
Qed.

(** One more step that calls nothing. *)
Lemma backed_then {A B} (p : prog E (gmap nat X) A) (f : A → prog E (gmap nat X) B) :
  backed_all p → (∀ a K m t, tr (f a K m t) = t) → backed_all (p ≫= f).
Proof.
  intros Hp Hf K m t. destruct (Hp K m t) as (new & Ht & Hn). exists new. split; [|done].
  unfold_prog. destruct (p K m t) as [[a|e|u] m' t']; [by rewrite Hf|done..].
Qed.

Lemma backed_harmless {A} (p : prog E (gmap nat X) A) : emits (λ e, bad e = false) p → backed_all p.
Proof. intros Hp K m t. destruct (Hp K m t) as (new & Ht & Hn). exists new. split; [done|by left]. Qed.

Lemma construct_silent x (s : X) K m (t : trace E) : tr (construct x s K m t) = t.
Proof. unfold construct. unfold_prog. by case_match. Qed.

Lemma on_two_silent g x y K (m : gmap nat X) (t : trace E) : tr (on_two g x y K m t) = t.
Proof. unfold on_two. unfold_prog. by repeat case_match. Qed.

Lemma moved_silent g x y K (m : gmap nat X) (t : trace E) : tr (construct_moved g x y K m t) = t.
Proof. unfold construct_moved, construct. unfold_prog. by repeat (case_match; simplify_eq/=). Qed.

Lemma silent_backed {A} (p : prog E (gmap nat X) A) : (∀ K m t, tr (p K m t) = t) → backed_all p.
Proof. intros Hp. apply backed_harmless. intros K m t. exists []. by rewrite Hp. Qed.

(** A bad call is the only one of its operation. *)
Lemma harmless_bad new mid e weight : harmless (new ++ e :: mid) weight → bad e = true → mid = [] ∧ 0 < weight.
Proof.
  intros [Hn|[Hl Hw]] He.
  - apply Forall_app in Hn as [_ Hn]. apply Forall_cons in Hn as [Hn _]. congruence.
  - split; [|done]. rewrite length_app in Hl. cbn in Hl. destruct mid; [done|cbn in Hl; lia].
Qed.

End Backed.
