(* ===== verification/Memory.v ===== *)
(** * The contents of memory

    The calls of the library carry addresses and sizes.  For the theorems on what the bytes are,
    this file has a memory of bytes, with what storing and loading a run of them do; the bytes of
    a run that was not written yet are arbitrary. *)
From S2P Require Import Prelude.

Definition ram : Type := Z → Z.

(** [bs] is written from [addr] on. *)
Definition store (addr : Z) (bs : list Z) (m : ram) : ram :=
  λ a, if addr <=? a then default (m a) (bs !! Z.to_nat (a - addr)) else m a.

(** The [n] bytes from [addr] on. *)
Definition load (addr n : Z) (m : ram) : list Z := map m (seqZ addr n).

Section Ram.
Implicit Types (m : ram) (bs : list Z).

Lemma length_load addr n m : length (load addr n m) = Z.to_nat n.
Proof. unfold load. by rewrite length_map, length_seqZ. Qed.

Lemma load_lookup addr n m (i : nat) : Z.of_nat i < n → load addr n m !! i = Some (m (addr + Z.of_nat i)).
Proof.
  intros Hi. unfold load. change (map m (seqZ addr n)) with (m <$> seqZ addr n). rewrite list_lookup_fmap, lookup_seqZ_lt by done.
  done.
Qed.

(** Loads are compared byte by byte. *)
Lemma load_eq addr n m l :
  length l = Z.to_nat n → (∀ i : nat, Z.of_nat i < n → l !! i = Some (m (addr + Z.of_nat i))) → load addr n m = l.
Proof.
  intros Hl Hi. apply list_eq. intros i. destruct (Z.ltb_spec (Z.of_nat i) n) as [H|H].
  - by rewrite load_lookup, Hi.
  - rewrite !lookup_ge_None_2; [done|lia|rewrite length_load; lia].
Qed.

Lemma store_in addr bs m (i : nat) :
  (i < length bs)%nat → bs !! i = Some (store addr bs m (addr + Z.of_nat i)).
Proof.
  intros Hi. unfold store. destruct (Z.leb_spec addr (addr + Z.of_nat i)); [|lia].
  replace (Z.to_nat (addr + Z.of_nat i - addr)) with i by lia. by destruct (lookup_lt_is_Some_2 bs i Hi) as [x ->].
Qed.

Lemma store_out addr bs m a : a < addr ∨ addr + Z.of_nat (length bs) ≤ a → store addr bs m a = m a.
Proof.
  intros Ha. unfold store. destruct (Z.leb_spec addr a); [|done].
  rewrite lookup_ge_None_2; [done|lia].
Qed.

(** What was stored in the middle of a run. *)
Lemma load_store addr n (k : nat) bs m :
  Z.of_nat (k + length bs) ≤ n →
  load addr n (store (addr + Z.of_nat k) bs m) = take k (load addr n m) ++ bs ++ drop (k + length bs) (load addr n m).
Proof.
  intros Hk. apply load_eq.
  { rewrite !length_app, length_take, length_drop, length_load. lia. }
  intros i Hi. rewrite lookup_app. destruct (decide (i < k)%nat) as [H1|H1].
  { rewrite lookup_take_lt, load_lookup, store_out by lia. done. }
  rewrite lookup_take_ge, length_take, length_load by lia. rewrite Nat.min_l by lia. rewrite lookup_app.
  destruct (decide (i - k < length bs)%nat) as [H2|H2].
  - rewrite (store_in (addr + Z.of_nat k) bs m) by done.
    f_equal. f_equal. lia.
  - rewrite lookup_ge_None_2 by lia. rewrite lookup_drop. replace (k + length bs + (i - k - length bs))%nat with i by lia.
    by rewrite load_lookup, store_out by lia.
Qed.

Lemma load_store_start addr n bs m :
  Z.of_nat (length bs) ≤ n → load addr n (store addr bs m) = bs ++ drop (length bs) (load addr n m).
Proof. intros Hn. rewrite <- (Z.add_0_r addr) at 2. by rewrite (load_store addr n 0). Qed.

Lemma load_store_all addr bs m : load addr (Z.of_nat (length bs)) (store addr bs m) = bs.
Proof. rewrite load_store_start by lia. rewrite drop_ge; [apply app_nil_r|]. rewrite length_load. lia. Qed.

Lemma load_store_apart addr n addr' bs m :
  addr + n ≤ addr' ∨ addr' + Z.of_nat (length bs) ≤ addr → load addr n (store addr' bs m) = load addr n m.
Proof.
  intros Ha. apply load_eq; [apply length_load|]. intros i Hi. by rewrite load_lookup, store_out by lia.
Qed.

Lemma load_ext addr n m m' : (∀ x, addr ≤ x < addr + n → m x = m' x) → load addr n m = load addr n m'.
Proof. intros Hm. apply load_eq; [apply length_load|]. intros i Hi. rewrite load_lookup by done. by rewrite Hm by lia. Qed.

(** A run in two parts. *)
Lemma load_app addr n k m : 0 ≤ n → 0 ≤ k → load addr (n + k) m = load addr n m ++ load (addr + n) k m.
Proof.
  intros Hn Hk. apply load_eq; [rewrite length_app, !length_load; lia|]. intros i Hi. rewrite lookup_app.
  destruct (decide (Z.of_nat i < n)); [by rewrite load_lookup|].
  rewrite lookup_ge_None_2 by (rewrite length_load; lia). rewrite length_load, load_lookup by lia. f_equal. f_equal. lia.
Qed.

End Ram.
