(* ===== verification/Version.v ===== *)
(** * The version of the library

    include/cadence/version.hpp and src/version.cpp. *)
From S2P Require Import Prelude.

Definition CADENCE_VERSION_MAJOR : Z := 0.
Definition CADENCE_VERSION_MINOR : Z := 0.
Definition CADENCE_VERSION_REVISION : Z := 1.
Definition CADENCE_VERSION_BUILD : string := "Proto".

(** The number that clients compare. *)
Definition CADENCE_VERSION : Z :=
  100000 * CADENCE_VERSION_MAJOR + 100 * CADENCE_VERSION_MINOR + CADENCE_VERSION_REVISION.

(** The arguments of the [Solace::Version] that the sources build. *)
Record Version := MkVersion { major : Z; minor : Z; patch : Z; release : string }.

Definition getBuildVersion : Version :=
  MkVersion CADENCE_VERSION_MAJOR CADENCE_VERSION_MINOR CADENCE_VERSION_REVISION CADENCE_VERSION_BUILD.

(** The packing of the macro, of any version. *)
Definition packed (major minor revision : Z) : Z := 100000 * major + 100 * minor + revision.

(** Versions whose minor part is below 1000 and whose revision is below 100 are packed to
    different numbers, in their lexicographic order. *)
Lemma packed_order M m r M' m' r' :
  0 ≤ m < 1000 → 0 ≤ r < 100 → 0 ≤ m' < 1000 → 0 ≤ r' < 100 →
  packed M m r < packed M' m' r' ↔ M < M' ∨ M = M' ∧ (m < m' ∨ m = m' ∧ r < r').
Proof. unfold packed. lia. Qed.

Lemma build_version_packed :
  CADENCE_VERSION = packed (major getBuildVersion) (minor getBuildVersion) (patch getBuildVersion).
Proof. done. Qed.
