(* ===== verification/IOObject.v ===== *)
(** * IOObject: the buffered reads and writes of every I/O object

    include/cadence/ioobject.hpp and src/ioobject.cpp: the non-virtual [read] and
    [write] over a byte stream, defined from the virtual ones over a memory view. *)
From S2P Require Import Prelude Solace.

Abbreviation IOResult := (Result Z).

Section IOObject.
Context {E : Type → Type} {V B : Type} `{MemoryView V} `{!ByteStream B V}.
(** The state of the implementing object, and its virtual [isOpened], [read] and
    [write]. *)
Context {S : Type} (isOpened : S → bool) (read_view write_view : V → prog E S IOResult).

(** [explicit operator bool()]. *)
Definition operator_bool (s : S) : bool := isOpened s.

Definition isClosed (s : S) : bool := negb (isOpened s).

(** [read(ByteWriter& destBuffer, size_type bytesToRead)]. *)
Definition read_n (bytesToRead : Z) : prog E (S * B) IOResult :=
  self ← get;
  let destSlice := slice (viewRemaining self.2) 0 bytesToRead in
  r ← zoom fst (λ s self, (s, self.2)) (read_view destSlice);
  match r with
  | Ok bytesRead =>
      _ ← modify (λ self, (self.1, (advance bytesRead self.2).2));
      mret (Ok bytesRead)
  | Err e => mret (Err e)
  end.

(** [read(ByteWriter& destBuffer)]. *)
Definition read : prog E (S * B) IOResult :=
  self ← get; read_n (remaining self.2).

(** [write(ByteReader& srcBuffer, size_type bytesToWrite)]. *)
Definition write_n (bytesToWrite : Z) : prog E (S * B) IOResult :=
  self ← get;
  r ← zoom fst (λ s self, (s, self.2))
        (write_view (slice (viewRemaining self.2) 0 bytesToWrite));
  match r with
  | Ok bytesRead =>
      _ ← modify (λ self, (self.1, (advance bytesRead self.2).2));
      mret (Ok bytesRead)
  | Err e => mret (Err e)
  end.

(** [write(ByteReader& srcBuffer)]. *)
Definition write : prog E (S * B) IOResult :=
  self ← get; write_n (remaining self.2).

End IOObject.

(** What an implementation owes its callers: it reports at most as many bytes as
    the view it was given holds. *)
Definition bounded_io {E V S} `{MemoryView V} (K : world E) (op : V → prog E S IOResult) : Prop :=
  ∀ v s t n, out (op v K s t) = Ret (Ok n) → 0 ≤ n ≤ view_size v.

Section Lemmas.
Context {E : Type → Type} {V B : Type} `{MemoryView V} `{!ByteStream B V}.
Context `{!MemoryViewLaws V, !ByteStreamLaws B V}.
Context {S : Type}.

Lemma read_n_eq_write_n (op : V → prog E S IOResult) n :
  read_n (B := B) op n = write_n op n.
Proof. done. Qed.

Lemma remaining_nonneg (b : B) : 0 ≤ remaining b.
Proof. rewrite <- remaining_view. apply view_size_nonneg. Qed.

Lemma slice_remaining_le (b : B) n :
  0 ≤ n → view_size (slice (viewRemaining b) 0 n) ≤ remaining b.
Proof. intros. rewrite <- remaining_view. by apply slice_size_le. Qed.

(** How a transfer leaves the stream. *)
Definition stream_after (o : outcome IOResult) (b b' : B) : Prop :=
  match o with
  | Ret (Ok n) =>
      remaining b' = remaining b - n
      ∧ dataAddress (viewRemaining b') = dataAddress (viewRemaining b) + n
  | _ => b' = b
  end.

Lemma read_n_stream (op : V → prog E S IOResult) n K s (b : B) t :
  bounded_io K op → 0 ≤ n →
  let r := read_n op n K (s, b) t in stream_after (out r) b (st r).2.
Proof.
  intros Hb Hn. unfold read_n. unfold_prog.
  destruct (op (slice (viewRemaining b) 0 n) K s t) as [[[k|e]|e|u] s' t'] eqn:Hr;
    cbn; try done.
  assert (0 ≤ k ≤ remaining b).
  { pose proof (Hb (slice (viewRemaining b) 0 n) s t k) as Hk. rewrite Hr in Hk. specialize (Hk eq_refl).
    pose proof (slice_remaining_le b n Hn). lia. }
  split; [by apply advance_remaining | by apply advance_address].
Qed.

End Lemmas.
