(* ===== verification/File.v ===== *)
(** * File: an owned file descriptor

    include/cadence/io/file.hpp, include/cadence/io/selectable.hpp and
    src/io/file.cpp. *)
From S2P Require Import Prelude Posix Solace IOObject.

(** [ISelectable::InvalidFd]. *)
Definition InvalidFd : Z := -1.

(** [enum class AccessMode], [enum class Seek]. *)
Inductive AccessMode := ReadOnly | WriteOnly | ReadWrite.
Inductive Seek := SeekSet | SeekCurrent | SeekEnd.

(** [struct Mode]: the permission bits of a new file. *)
Module Mode.
Definition IRWXU : Z := 0x1c0.
Definition IRUSR : Z := 0x100.
Definition IWUSR : Z := 0x80.
Definition IXUSR : Z := 0x40.
Definition IRWXG : Z := 0x38.
Definition IRGRP : Z := 0x20.
Definition IWGRP : Z := 0x10.
Definition IXGRP : Z := 0x8.
Definition IRWXO : Z := 0x7.
Definition IROTH : Z := 0x4.
Definition IWOTH : Z := 0x2.
Definition IXOTH : Z := 0x1.
End Mode.

(** [struct Flags]: what [open] takes besides the access mode. *)
Module Flags.
Definition Append : Z := 0x400.
Definition Async : Z := 0x2000.
Definition CloseExec : Z := 0x80000.
Definition Direct : Z := 0x4000.
Definition Directory : Z := 0x10000.
Definition DSync : Z := 0x1000.
Definition Exlusive : Z := 0x80.
Definition NoCTTY : Z := 0x100.
Definition NonBlock : Z := 0x800.
Definition Sync : Z := 0x101000.
Definition Trunc : Z := 0x200.
End Flags.

(** The object: its only field is [_fd]. *)
Record File := MkFile { fd : Z }.

#[global] Instance File_eq_dec : EqDecision File.
Proof. solve_decision. Defined.

(** [File(poll_id fd)], [File()], [File::fromFd]. *)
Definition File_fd (fd : Z) : File := MkFile fd.
Definition File_default : File := File_fd InvalidFd.
Definition fromFd (fid : Z) : File := File_fd fid.

(** [File(File&& other)]: the new object, and what is left of [other]. *)
Definition invalidateFd (f : File) : Z * File := (fd f, MkFile InvalidFd).
Definition move_ctor (other : File) : File * File := (MkFile (fd other), (invalidateFd other).2).

(** [swap] and [operator=(File&&)], on [*this] and [rhs]. *)
Definition swap (this rhs : File) : File * File := (MkFile (fd rhs), MkFile (fd this)).
Definition move_assign (this rhs : File) : File * File := swap this rhs.

Definition isOpened (f : File) : bool := negb (fd f =? InvalidFd).
Definition isClosed : File → bool := IOObject.isClosed isOpened.
Definition getSelectId (f : File) : Z := fd f.

(** The loop of [File(Path const& path, int flags)].  [open] is repeated while it is
    interrupted; [fuel] bounds the number of calls. *)
Fixpoint open_loop (fuel : nat) (path : string) (flags : Z) : prog posix File unit :=
  match fuel with
  | O => stuck OutOfFuel
  | S fuel' =>
      r ← perform (sys_open path flags);
      _ ← put (MkFile (rv r));
      if rv r =? -1 then
        if errno r =? EINTR then open_loop fuel' path flags
        else if (errno r =? ENFILE) || (errno r =? EMFILE) then
          raise (IOExceptionMsg "Too many opened file descriptors.")
        else raise (IOException (errno r) "")
      else mret tt
  end.

Definition File_open {P} `{PathOps P} (fuel : nat) (path : P) (flags : Z) : prog posix File unit :=
  open_loop fuel (c_str (path_toString path)) flags.

Definition validateFd : prog posix File Z :=
  f ← get;
  if negb (isOpened f) then raise NotOpen else mret (fd f).

Section Views.
Context {V : Type} `{MemoryView V}.

(** [File::read] and [File::write]. *)
Definition read (buffer : V) : prog posix File IOResult :=
  fd ← validateFd;
  bytesRead ← perform (sys_read fd (dataAddress buffer) (view_size buffer));
  if rv bytesRead <? 0 then raise (IOException (errno bytesRead) "")
  else mret (Ok (rv bytesRead)).

Definition write (buffer : V) : prog posix File IOResult :=
  fd ← validateFd;
  bytesWritten ← perform (sys_write fd (dataAddress buffer) (view_size buffer));
  if rv bytesWritten <? 0 then raise (IOException (errno bytesWritten) "")
  else mret (Ok (rv bytesWritten)).

End Views.

(** [File::seek]: [offset] is a [size_t] that becomes an [off_t], and the new
    position goes the other way. *)
Definition seek (offset : Z) (type : Seek) : prog posix File Z :=
  fd ← validateFd;
  result ← perform (sys_lseek fd (s64 offset)
    match type with SeekSet => SEEK_SET | SeekCurrent => SEEK_CUR | SeekEnd => SEEK_END end);
  if -1 =? rv result then raise (IOException (errno result) "")
  else mret (u64 (rv result)).

Definition close : prog posix File unit :=
  f ← get;
  if isClosed f then mret tt
  else
    fd ← validateFd;
    result ← perform (sys_close fd);
    if truthy (rv result) then raise (IOException (errno result) "")
    else modify (λ f, (invalidateFd f).2).

Definition flush : prog posix File unit :=
  fd ← validateFd;
  result ← perform (sys_fsync fd);
  if truthy (rv result) then raise (IOException (errno result) "") else mret tt.

(** [~File()]: a destructor is [noexcept]. *)
Definition destroy : prog posix File unit :=
  noexcept (f ← get; if isOpened f then close else mret tt).

(** ** Shared facts *)

Lemma isClosed_isOpened f : isClosed f = negb (isOpened f).
Proof. done. Qed.

Lemma isOpened_spec f : isOpened f = true ↔ fd f ≠ InvalidFd.
Proof. unfold isOpened. rewrite negb_true_iff, Z.eqb_neq. done. Qed.

Lemma validateFd_open f K t : fd f ≠ InvalidFd → validateFd K f t = Run (Ret (fd f)) f t.
Proof. intros Hf%isOpened_spec. unfold validateFd. unfold_prog. by rewrite Hf. Qed.

Lemma validateFd_closed f K t : fd f = InvalidFd → validateFd K f t = Run (Raise NotOpen) f t.
Proof. intros Hf. unfold validateFd, isOpened. unfold_prog. by rewrite Hf. Qed.

(** [close] on each branch. *)
Lemma close_closed f K t : fd f = InvalidFd → close K f t = Run (Ret tt) f t.
Proof. intros Hf. unfold close, isClosed, IOObject.isClosed, isOpened. unfold_prog. by rewrite Hf. Qed.

Lemma close_open f K t :
  fd f ≠ InvalidFd →
  close K f t =
    let r := K _ t (sys_close (fd f)) in
    if rv r =? 0 then Run (Ret tt) (MkFile InvalidFd) (Event (sys_close (fd f)) r :: t)
    else Run (Raise (IOException (errno r) "")) f (Event (sys_close (fd f)) r :: t).
Proof.
  intros Hf. assert (Ho : isOpened f = true) by by apply isOpened_spec.
  unfold close. unfold_prog. rewrite isClosed_isOpened, Ho; cbn.
  setoid_rewrite (validateFd_open f K t Hf). cbn. unfold truthy.
  by destruct (rv _ =? 0).
Qed.

(** ** Opening *)

Section Open.
Context (K : world posix) (path : string) (flags : Z).

(** The trace after [n] interrupted calls, and the answer to the next one. *)
Fixpoint interrupted (n : nat) (t : trace posix) : trace posix :=
  match n with
  | O => t
  | S n' => let t' := interrupted n' t in Event (sys_open path flags) (K _ t' (sys_open path flags)) :: t'
  end.

Definition attempt (n : nat) (t : trace posix) : sysret := K _ (interrupted n t) (sys_open path flags).

Definition is_eintr (r : sysret) : Prop := rv r = -1 ∧ errno r = EINTR.

#[global] Instance is_eintr_dec r : Decision (is_eintr r).
Proof. unfold is_eintr. apply _. Defined.

(** What the constructor makes of the first answer that is not an interruption. *)
Definition open_outcome (r : sysret) : outcome unit :=
  if rv r =? -1 then
    if (errno r =? ENFILE) || (errno r =? EMFILE) then
      Raise (IOExceptionMsg "Too many opened file descriptors.")
    else Raise (IOException (errno r) "")
  else Ret tt.

Lemma interrupted_S n t :
  interrupted (S n) t = interrupted n (Event (sys_open path flags) (K _ t (sys_open path flags)) :: t).
Proof. induction n as [|n IH]; cbn; [done|]. cbn in IH. by rewrite IH. Qed.

Lemma open_loop_step fuel f t :
  open_loop (S fuel) path flags K f t =
    let r := K _ t (sys_open path flags) in
    let t' := Event (sys_open path flags) r :: t in
    if decide (is_eintr r) then open_loop fuel path flags K (MkFile (rv r)) t'
    else Run (open_outcome r) (MkFile (rv r)) t'.
Proof.
  cbn. unfold_prog. unfold open_outcome, is_eintr.
  destruct (Z.eqb_spec (rv (K _ t (sys_open path flags))) (-1)) as [E1|E1];
    destruct (Z.eqb_spec (errno (K _ t (sys_open path flags))) EINTR) as [E2|E2];
    case_decide; try tauto; by case_match.
Qed.

Lemma open_loop_finishes n fuel f t :
  (∀ i, (i < n)%nat → is_eintr (attempt i t)) → ¬ is_eintr (attempt n t) → (n < fuel)%nat →
  open_loop fuel path flags K f t =
    Run (open_outcome (attempt n t)) (MkFile (rv (attempt n t))) (interrupted (S n) t).
Proof.
  revert fuel f t. induction n as [|n IH]; intros [|fuel] f t Hi Hn Hfuel; try lia;
    rewrite open_loop_step; cbn zeta.
  - rewrite decide_False by done. done.
  - rewrite decide_True by (apply (Hi 0%nat); lia).
    set (t' := Event _ _ :: t). rewrite (interrupted_S (S n)). fold t'.
    assert (Ha : ∀ i, attempt (S i) t = attempt i t').
    { intros i. unfold attempt. rewrite interrupted_S. done. }
    rewrite Ha. apply IH; [|by rewrite <- Ha|lia].
    intros i ?. rewrite <- Ha. apply Hi. lia.
Qed.

Lemma open_loop_diverges fuel f t :
  (∀ i, (i < fuel)%nat → is_eintr (attempt i t)) →
  out (open_loop fuel path flags K f t) = Stuck OutOfFuel.
Proof.
  revert f t. induction fuel as [|fuel IH]; intros f t Hi; [done|].
  rewrite open_loop_step; cbn zeta. rewrite decide_True by (apply (Hi 0%nat); lia).
  apply IH. intros i ?. unfold attempt. rewrite <- interrupted_S. apply (Hi (S i)). lia.
Qed.

End Open.

(** The loop makes no other call than [open]. *)
Lemma open_loop_emits (P : event posix → Prop) path flags fuel :
  (∀ r, P (Event (sys_open path flags) r)) → emits P (open_loop fuel path flags).
Proof.
  intros HP K f t. revert f t. induction fuel as [|fuel IH]; intros f t; [by exists []|]. rewrite open_loop_step. cbn zeta.
  set (e := Event _ _). assert (He : P e) by apply HP. case_decide; [|exists [e]; by repeat constructor].
  match goal with |- context [open_loop fuel path flags K ?f' _] => destruct (IH f' (e :: t)) as (new & -> & Hn) end.
  exists (new ++ [e]). rewrite <- app_assoc. split; [done|]. apply Forall_app. by repeat constructor.
Qed.

(** C33.  Opening a file.  [open] is repeated exactly as long as it is interrupted: when the
    [n]-th call is the first that is not, the constructor makes [n + 1] calls and its
    outcome is that of the last one (a descriptor, a message of its own for an exhausted
    descriptor table, the error code otherwise); when every call is interrupted it never
    returns, whatever the number of calls allowed to it. *)
Theorem open_retries {P} `{PathOps P} (K : world posix) (path : P) flags f (t : trace posix) :
  let p := c_str (path_toString path) in
  (∀ n fuel, (∀ i, (i < n)%nat → is_eintr (attempt K p flags i t)) →
     ¬ is_eintr (attempt K p flags n t) → (n < fuel)%nat →
     File_open fuel path flags K f t =
       Run (open_outcome (attempt K p flags n t)) (MkFile (rv (attempt K p flags n t)))
         (interrupted K p flags (S n) t)) ∧
  ((∀ i, is_eintr (attempt K p flags i t)) →
     ∀ fuel, out (File_open fuel path flags K f t) = Stuck OutOfFuel).
Proof.
  intros p. unfold File_open. split.
  - intros n fuel. apply open_loop_finishes.
  - intros Hi fuel. apply open_loop_diverges. auto.
Qed.

(** ** Reading and writing through a stream *)

Section Streams.
Context {V B : Type} `{MemoryViewLaws V, !ByteStream B V, !ByteStreamLaws B V}.

Lemma file_transfer_bounded (K : world posix) (op : Z → Z → Z → posix sysret) :
  (∀ t fd a n, rv (K _ t (op fd a n)) ≤ n) →
  ∀ (buffer : V) f (t : trace posix) n,
    out ((fd ← validateFd; r ← perform (op fd (dataAddress buffer) (view_size buffer));
          if rv r <? 0 then raise (IOException (errno r) "") else mret (Ok (rv r))) K f t) = Ret (Ok n) →
    0 ≤ n ≤ view_size buffer.
Proof.
  intros HK buffer f t n. unfold validateFd. unfold_prog. destruct (isOpened f); cbn; [|done].
  destruct (Z.ltb_spec (rv (K _ t (op (fd f) (dataAddress buffer) (view_size buffer)))) 0);
    cbn; [done|]. intros [=<-]. auto.
Qed.

(** C30.  Reading a file into a byte stream, and writing one from it.  On an open file one
    system call is made, for the requested bytes at the cursor; the stream advances by the
    number of bytes the kernel reports, and neither the stream nor the file changes when it
    reports an error or when the file is closed, in which case no call is made. *)
Theorem file_stream_io (K : world posix) f (b : B) n (t : trace posix) :
  (∀ t' d a m, rv (K _ t' (sys_read d a m)) ≤ m ∧ rv (K _ t' (sys_write d a m)) ≤ m) →
  0 ≤ n ≤ remaining b →
  let at_ := dataAddress (viewRemaining b) in
  let moved (r : run posix (File * B) IOResult) (op : posix sysret) :=
    if fd f =? InvalidFd then r = Run (Raise NotOpen) (f, b) t
    else tr r = Event op (K _ t op) :: t ∧ (st r).1 = f ∧
      if rv (K _ t op) <? 0 then out r = Raise (IOException (errno (K _ t op)) "") ∧ (st r).2 = b
      else out r = Ret (Ok (rv (K _ t op))) ∧
        stream_after (out r) b (st r).2 in
  moved (IOObject.read_n read n K (f, b) t) (sys_read (fd f) at_ n) ∧
  moved (IOObject.write_n write n K (f, b) t) (sys_write (fd f) at_ n).
Proof.
  intros HK Hn.
  assert (Hs : dataAddress (slice (viewRemaining b) 0 n) = dataAddress (viewRemaining b) ∧
               view_size (slice (viewRemaining b) 0 n) = n).
  { split; [apply slice_address|]. apply slice_size. rewrite remaining_view. lia. }
  destruct Hs as [Ha Hsz].
  pose proof (read_n_stream read n K f b t
    (file_transfer_bounded K sys_read (λ t' d a m, proj1 (HK t' d a m))) ltac:(lia)) as Hr.
  pose proof (read_n_stream write n K f b t
    (file_transfer_bounded K sys_write (λ t' d a m, proj2 (HK t' d a m))) ltac:(lia)) as Hw.
  unfold write_n, read_n in *. unfold read, write, validateFd, isOpened in *. unfold_prog.
  rewrite Ha, Hsz in *.
  clear HK. split; [clear Hw; revert Hr|clear Hr; revert Hw];
    (destruct (fd f =? InvalidFd); cbn; [done|]; destruct (rv _ <? 0); cbn; tauto).
Qed.

End Streams.

#[local] Existing Instances Concrete.path_ops Concrete.view_ops Concrete.stream_ops
  Concrete.view_laws Concrete.stream_laws.

(** Opening is interrupted once. *)
Lemma open_retries_witness :
  File_open 3 ("/x" : string) O_RDWR (world_of (λ R n op,
      match op with sys_open _ _ => Some (if decide (n = O) then failed EINTR else Sys 5 0) | _ => None end))
    File_default [] =
  Run (Ret tt) (MkFile 5) [Event (sys_open "/x" O_RDWR) (Sys 5 0); Event (sys_open "/x" O_RDWR) (failed EINTR)].
Proof.
  set (K := world_of _). destruct (open_retries K ("/x" : string) O_RDWR File_default []) as [H _].
  rewrite (H 1%nat 3%nat); [done| |by intros [? _]|lia].
  intros i Hi. destruct i; [done|lia].
Defined.

(** The kernel gives three of the four bytes asked for. *)
Lemma file_stream_io_witness :
  let K := world_of (λ R n op, match op with sys_read _ _ m => Some (Sys (Z.min m 3) 0)
    | sys_write _ _ m => Some (Sys (Z.min m 3) 0) | _ => None end) in
  out (IOObject.read_n read 4 K (MkFile 5, Concrete.Stream 100 8) []) = Ret (Ok 3).
Proof.
  intros K.
  destruct (file_stream_io K (MkFile 5) (Concrete.Stream 100 8) 4 []) as [(_ & _ & H & _) _].
  - intros. cbn. lia.
  - cbn. lia.
  - exact H.
Defined.
