(* ===== verification/FileStore.v ===== *)
(** * Clients of File: who owns which descriptor

    A client program is a sequence of constructions, moves, swaps, method calls and
    destructions of named File objects.  Running it gives the conservation law of
    descriptors: each descriptor that was opened or wrapped is either held by exactly one live
    object or has been closed exactly once. *)
From stdpp Require Import gmap.
From S2P Require Import Prelude Posix Solace IOObject File Objects.

Section Client.
Context {V P : Type} `{MemoryView V} `{PathOps P}.

(** The statements of a client; objects are named by numbers. *)
Inductive file_op :=
  | new_open (x fuel : nat) (path : P) (flags : Z)
  | new_fromFd (x : nat) (d : Z)
  | new_default (x : nat)
  | new_moved (x y : nat)
  | do_move_assign (x y : nat)
  | do_swap (x y : nat)
  | do_read (x : nat) (v : V)
  | do_write (x : nat) (v : V)
  | do_seek (x : nat) (offset : Z) (type : Seek)
  | do_flush (x : nat)
  | do_close (x : nat)
  | do_destroy (x : nat).

Definition exec_op (o : file_op) : prog posix (gmap nat File) unit :=
  match o with
  | new_open x fuel path flags => construct_from x (constructor File_default (File_open fuel path flags))
  | new_fromFd x d => construct x (fromFd d)
  | new_default x => construct x File_default
  | new_moved x y => construct_moved move_ctor x y
  | do_move_assign x y => on_two move_assign x y
  | do_swap x y => on_two swap x y
  | do_read x v => _ ← on_object x (read v); mret tt
  | do_write x v => _ ← on_object x (write v); mret tt
  | do_seek x offset type => _ ← on_object x (seek offset type); mret tt
  | do_flush x => on_object x flush
  | do_close x => on_object x close
  | do_destroy x => destruct_object x destroy
  end.

End Client.
Arguments file_op V P : clear implicits.
Abbreviation exec_ops := (exec_all exec_op).

(** ** Counting *)

(** A successful [close] of the descriptor [d]. *)
Definition closes_fd (d : Z) (e : event posix) : bool :=
  match ev_op e in posix T return T → bool with
  | sys_close d' => λ r, (d' =? d) && (rv r =? 0)
  | _ => λ _, false
  end (ev_res e).

Definition closes (d : Z) : trace posix → Z := count (closes_fd d).

(** An [open] that gave [d]. *)
Definition opens_fd (d : Z) (e : event posix) : bool :=
  match ev_op e in posix T return T → bool with sys_open _ _ => λ r, rv r =? d | _ => λ _, false end (ev_res e).

Definition opens (d : Z) : trace posix → Z := count (opens_fd d).

(** The descriptor a call is made on. *)
Definition fd_of (e : event posix) : option Z :=
  match ev_op e with
  | sys_close d | sys_fsync d => Some d
  | sys_read d _ _ | sys_write d _ _ | sys_lseek d _ _ => Some d
  | _ => None
  end.

Definition uses_fd (d : Z) (e : event posix) : bool := bool_decide (fd_of e = Some d).

Definition holds (d : Z) (f : File) : Z := if decide (fd f = d) then 1 else 0.
Definition owners (d : Z) : gmap nat File → Z := total (holds d).

Definition wraps_fd {V P} (d : Z) (o : file_op V P) : bool :=
  match o with new_fromFd _ d' => d' =? d | _ => false end.

(** How often a client hands [d] to an object. *)
Definition wraps {V P} (d : Z) (ops : list (file_op V P)) : Z := sum (λ o, Z.b2z (wraps_fd d o)) ops.

Lemma holds_pos d f : 0 ≤ holds d f.
Proof. unfold holds. case_decide; lia. Qed.

(** [~File()] ends with a closed object, or does not return. *)
Lemma destroy_closed K f t :
  match destroy K f t with
  | Run (Ret _) f' t' => fd f' = InvalidFd
  | Run (Raise _) _ _ => False
  | Run (Stuck _) _ _ => True
  end.
Proof.
  unfold destroy. unfold_prog. destruct (decide (fd f = InvalidFd)) as [Hf|Hf].
  - unfold isOpened. by rewrite Hf.
  - assert (isOpened f = true) as -> by by apply isOpened_spec. rewrite close_open by done. cbn zeta.
    by destruct (rv _ =? 0).
Qed.

(** ** The ledger of a descriptor: what its owners hold was not closed

    [gained] counts how often the descriptor was given to the client, which the calls of an open
    file do not do. *)

Section Conservation.
Context (d : Z) (Hd : d ≠ InvalidFd) (gained : trace posix → Z).
Context (Hgained : ∀ e t, is_Some (fd_of e) → gained (e :: t) = gained t).

Abbreviation balanced := (balanced (holds d) (λ t, gained t - closes d t) (λ _, 0)).
Abbreviation accounts := (accounts (holds d) (λ t, gained t - closes d t) (λ _, 0)).

Lemma holds_invalid : holds d (MkFile InvalidFd) = 0.
Proof. unfold holds. by rewrite decide_False. Qed.

(** A method that makes no call that closes. *)
Ltac balanced_method :=
  unfold validateFd; apply balanced_idle; [idle_tac|emits_tac; intros t; unfold closes; by rewrite count_cons, Hgained by (by eexists)].

Lemma read_balanced {V} `{MemoryView V} (v : V) : balanced (read v).
Proof. unfold read. balanced_method. Qed.
Lemma write_balanced {V} `{MemoryView V} (v : V) : balanced (write v).
Proof. unfold write. balanced_method. Qed.
Lemma seek_balanced offset type : balanced (seek offset type).
Proof. unfold seek. balanced_method. Qed.
Lemma flush_balanced : balanced flush.
Proof. unfold flush. balanced_method. Qed.

Lemma close_balanced : balanced close.
Proof.
  intros K f t. destruct (decide (fd f = InvalidFd)) as [Hf|Hf]; [rewrite close_closed by done; lia|].
  rewrite close_open by done. cbn zeta. unfold closes.
  destruct (rv _ =? 0) eqn:Hr; cbn [st tr]; rewrite count_cons, Hgained by (by eexists); cbn; rewrite Hr; unfold holds; cbn;
    destruct (Z.eqb_spec (fd f) d); repeat case_decide; cbn; try congruence; lia.
Qed.

Lemma destroy_balanced : balanced destroy.
Proof.
  intros K f t. unfold destroy. unfold_prog. destruct (isOpened f); [|lia].
  pose proof (close_balanced K f t) as Hc. by destruct (close K f t) as [[]].
Qed.

End Conservation.

Section Opening.
Context (d : Z) (Hd : d ≠ InvalidFd).

Abbreviation accounts := (accounts (holds d) (λ t, opens d t - closes d t) (λ _, 0)).

(** Repeated opens gain the descriptor that the last one gave. *)
Lemma open_loop_gains path flags fuel K f t :
  match open_loop fuel path flags K f t with
  | Run (Ret _) f' t' => opens d t' - closes d t' = opens d t - closes d t + holds d f'
  | Run (Raise _) _ t' => opens d t' - closes d t' = opens d t - closes d t
  | Run (Stuck _) _ _ => True
  end.
Proof.
  revert f t. induction fuel as [|fuel IH]; intros f t; [done|]. cbn [open_loop]. unfold_prog.
  set (op := sys_open path flags). set (r := K _ t op).
  assert (He : opens d (Event op r :: t) = Z.b2z (rv r =? d) + opens d t ∧ closes d (Event op r :: t) = closes d t)
    by (unfold opens, closes; by rewrite !count_cons).
  destruct He as [Ho Hc]. destruct (Z.eqb_spec (rv r) (-1)) as [Hr|Hr].
  - assert (Hz : Z.b2z (rv r =? d) = 0) by (destruct (Z.eqb_spec (rv r) d); [unfold InvalidFd in Hd; lia|done]).
    destruct (errno r =? EINTR); [|destruct (_ || _); rewrite Ho, Hc, Hz; lia].
    specialize (IH (MkFile (rv r)) (Event op r :: t)). destruct (open_loop _ _ _ _ _ _) as [[] f' t']; [..|done]; lia.
  - rewrite Ho, Hc. unfold holds. cbn. destruct (Z.eqb_spec (rv r) d); case_decide; cbn; lia.
Qed.

Lemma open_accounts {P} `{PathOps P} x fuel (path : P) flags :
  accounts 0 (construct_from x (constructor File_default (File_open fuel path flags))).
Proof.
  apply accounts_from. intros K m t. unfold constructor, File_open.
  pose proof (open_loop_gains (c_str (path_toString path)) flags fuel K File_default t) as Hg.
  destruct (open_loop _ _ _ _ _ _) as [[] f' t']; [split; [done|lia]..|done].
Qed.

Lemma opens_call e t : is_Some (fd_of e) → opens d (e :: t) = opens d t.
Proof. intros [d' He]. unfold opens. rewrite count_cons. destruct e as [R op res]. by destruct op. Qed.

Lemma exec_op_accounts {V P} `{MemoryView V} `{PathOps P} (o : file_op V P) : accounts (Z.b2z (wraps_fd d o)) (exec_op o).
Proof.
  destruct o as [x fuel path flags|x e|x|x y|x y|x y|x v|x v|x off ty|x|x|x]; cbn [exec_op wraps_fd Z.b2z].
  - apply open_accounts.
  - replace (Z.b2z (e =? d)) with (holds d (fromFd e)); [apply accounts_construct|].
    unfold holds, fromFd, File_fd. cbn. destruct (Z.eqb_spec e d); by case_decide.
  - replace 0 with (holds d File_default) by (by apply holds_invalid). apply (accounts_construct (holds d) _ _ x File_default).
  - apply accounts_moved. intros f. pose proof (holds_invalid d Hd) as Hi. unfold move_ctor. cbn. rewrite Hi. unfold holds. cbn. lia.
  - apply accounts_on_two. intros f f'. unfold holds. cbn. lia.
  - apply accounts_on_two. intros f f'. unfold holds. cbn. lia.
  - apply accounts_bind; [apply accounts_on_object, (read_balanced d _ opens_call)|]. intros. apply accounts_ret.
  - apply accounts_bind; [apply accounts_on_object, (write_balanced d _ opens_call)|]. intros. apply accounts_ret.
  - apply accounts_bind; [apply accounts_on_object, (seek_balanced d _ opens_call)|]. intros. apply accounts_ret.
  - apply accounts_on_object, (flush_balanced d _ opens_call).
  - apply accounts_on_object, (close_balanced d Hd _ opens_call).
  - apply accounts_destruct; [apply (destroy_balanced d Hd _ opens_call)|]. intros K f t. pose proof (destroy_closed K f t) as Hc.
    destruct (destroy K f t) as [[] [] t']; try done. cbn in Hc. subst. by apply holds_invalid.
Qed.

End Opening.

(** ** Calls are made on descriptors that are held *)

Section Touch.
Context (d : Z).

Abbreviation backed := (backed (holds d) (uses_fd d)).
Abbreviation backed_all := (backed_all (holds d) (uses_fd d)).

(** A call on the descriptor that the object holds. *)
Lemma harmless_call f e : fd_of e = Some (fd f) → harmless (uses_fd d) [e] (holds d f).
Proof.
  intros He. unfold harmless, holds. destruct (decide (fd f = d)) as [_|Hne]; [right; split; [done|lia]|left].
  constructor; [|done]. apply bool_decide_eq_false. rewrite He. congruence.
Qed.

Ltac backed_method :=
  intros K f t; unfold validateFd; unfold_prog; repeat (case_match; simplify_eq/=);
  first [exists []; split; [done|by left]|eexists [_]; split; [done|by apply harmless_call]].

Lemma read_backed {V} `{MemoryView V} (v : V) : backed (read v).
Proof. unfold read. backed_method. Qed.
Lemma write_backed {V} `{MemoryView V} (v : V) : backed (write v).
Proof. unfold write. backed_method. Qed.
Lemma seek_backed offset type : backed (seek offset type).
Proof. unfold seek. backed_method. Qed.
Lemma flush_backed : backed flush.
Proof. unfold flush. backed_method. Qed.
Lemma close_backed : backed close.
Proof. unfold close. backed_method. Qed.
Lemma destroy_backed : backed destroy.
Proof. unfold destroy, close. backed_method. Qed.

(** An [open] uses no descriptor. *)
Lemma open_loop_uses path flags fuel : emits (λ e, uses_fd d e = false) (open_loop fuel path flags).
Proof. by apply open_loop_emits. Qed.

Lemma opening_backed {P} `{PathOps P} x fuel (path : P) flags :
  backed_all (construct_from x (constructor File_default (File_open fuel path flags))).
Proof.
  apply backed_then; [|intros; apply construct_silent]. apply backed_harmless. intros K m t. unfold constructor, File_open.
  destruct (open_loop_uses (c_str (path_toString path)) flags fuel K File_default t) as (new & Ht & Hn). exists new.
  split; [|done]. by destruct (open_loop _ _ _ _ _ _) as [[]].
Qed.

Lemma exec_op_backed {V P} `{MemoryView V} `{PathOps P} (o : file_op V P) : backed_all (exec_op o).
Proof.
  pose proof (holds_pos d). destruct o; cbn [exec_op].
  1: apply opening_backed.
  1-2: apply silent_backed, construct_silent.
  1: apply silent_backed, moved_silent.
  1-2: apply silent_backed, on_two_silent.
  all: try (apply backed_then; [|done]); apply backed_on_object;
    auto using read_backed, write_backed, seek_backed, flush_backed, close_backed, destroy_backed.
Qed.

End Touch.

(** ** Properties of every client *)

(** C2.  Conservation of descriptors.  Whatever a client does with File objects
    (opening, wrapping, moves, swaps, I/O, close, destruction, exceptions that it
    catches) and whatever the kernel answers, each descriptor that [open] gave it, or
    that it handed to [fromFd], is accounted for: it is held by a live object or it was
    closed successfully, and both counts add up, so no descriptor is closed twice,
    shared or leaked. *)
Theorem descriptors_conserved {V P} `{MemoryView V} `{PathOps P} (d : Z) (ops : list (file_op V P)) (K : world posix) m (t : trace posix) :
  d ≠ InvalidFd → (∀ u, out (exec_ops ops K m t) ≠ Stuck u) →
  closes d (tr (exec_ops ops K m t)) + owners d (st (exec_ops ops K m t)) =
  closes d t + owners d m + wraps d ops + (opens d (tr (exec_ops ops K m t)) - opens d t).
Proof.
  intros Hd Hs. pose proof (accounts_all _ _ _ exec_op _ ops (Forall_true _ _ (exec_op_accounts d Hd)) K m t) as Ha.
  unfold settled in Ha. fold (wraps d ops) in Ha.
  destruct (exec_ops ops K m t) as [[]]; cbn in *; unfold owners; [lia..|]. by destruct (Hs u).
Qed.

(** C14.  No use after close.  Whatever a client did before ([before], from no objects and no
    calls) and whatever the kernel answered, when its next operation calls [read], [write],
    [lseek], [fsync] or [close] on a descriptor, then up to that very call the client had got the
    descriptor, by [open] or [fromFd], more often than it was closed with success.  So no call is
    made on a descriptor that was closed and not got again, none is closed twice, and none that the
    client never had is used; a descriptor number that the kernel gives out again may be used
    again. *)
Theorem no_use_after_close {V P} `{MemoryView V} `{PathOps P} (d : Z) (before : list (file_op V P)) (o : file_op V P)
    (K : world posix) (new mid : trace posix) (e : event posix) :
  let r := exec_ops before K ∅ [] in
  let earlier := mid ++ tr r in
  d ≠ InvalidFd → (∀ u, out r ≠ Stuck u) →
  tr (exec_op o K (st r) (tr r)) = new ++ e :: earlier → fd_of e = Some d →
  closes d earlier < opens d earlier + wraps d before.
Proof.
  cbn zeta. intros Hd Hs Ht He. set (r := exec_ops before K ∅ []) in *.
  assert (Hc : closes d (tr r) + owners d (st r) = wraps d before + opens d (tr r)).
  { pose proof (accounts_all _ _ _ exec_op _ before (Forall_true _ _ (exec_op_accounts d Hd)) K ∅ []) as Ha.
    unfold settled in Ha. rewrite total_empty in Ha. fold r (wraps d before) in Ha. change (closes d []) with 0 in Ha.
    change (opens d []) with 0 in Ha. unfold owners. destruct r as [[] m' t']; cbn in *; [lia..|by destruct (Hs u)]. }
  destruct (exec_op_backed d o K (st r) (tr r)) as (new' & Ht' & Hn). rewrite Ht, app_comm_cons, app_assoc in Ht'.
  apply app_inv_tail in Ht'. subst new'. destruct (harmless_bad _ _ _ _ _ Hn) as [-> Hw]; [by apply bool_decide_eq_true|].
  cbn. unfold owners in Hc. lia.
Qed.

(** ** Witnesses *)

Import Solace.Concrete.

(** Open 0 and wrap 7, move 7, read, close it once through each name, destroy all. *)
Definition demo_client : list (file_op view string) :=
  [new_open 3 1 "/x" O_RDWR; new_fromFd 0 7; new_default 1; do_move_assign 1 0; do_read 1 (View 64 8);
   do_read 0 (View 64 8); do_close 1; do_close 0; do_destroy 1; do_destroy 0; do_destroy 3].

(** What becomes of the descriptor that was opened. *)
Lemma descriptors_conserved_witness :
  let r := exec_ops demo_client zero_world ∅ [] in
  (∀ u, out r ≠ Stuck u) ∧ closes 0 (tr r) + owners 0 (st r) = 0 + 0 + 0 + (opens 0 (tr r) - 0) ∧ opens 0 (tr r) = 1.
Proof.
  intros r. assert (Hs : ∀ u, out r ≠ Stuck u) by (intros u; by vm_compute).
  split; [exact Hs|]. split; [|by vm_compute].
  exact (descriptors_conserved 0 demo_client zero_world ∅ [] ltac:(done) Hs).
Defined.

(** The descriptor 7 is read through the object it was moved to, when it was
    handed over once and not closed; after the close, the same operations call nothing. *)
Lemma no_use_after_close_witness :
  let before := [new_fromFd 0 7; new_default 1; do_move_assign 1 0] : list (file_op view string) in
  let r := exec_ops before zero_world ∅ [] in
  closes 7 (tr r) < opens 7 (tr r) + wraps 7 before ∧ wraps 7 before = 1 ∧
  tr (exec_ops [do_close 1; do_read 1 (View 64 8); do_close 1; do_destroy 1] zero_world (st r) (tr r)) =
    [Event (sys_close 7) sys0].
Proof.
  intros before r. split; [|by vm_compute].
  by apply (no_use_after_close 7 before (do_read 1 (View 64 8)) zero_world [] [] (Event (sys_read 7 64 8) sys0)).
Defined.
