(* ===== verification/Duplex.v ===== *)
(** * Duplex and Pipe: two descriptors as one I/O object

    include/cadence/io/duplex.hpp, include/cadence/io/pipe.hpp, src/io/duplex.cpp
    and src/io/pipe.cpp. *)
From S2P Require Import Prelude Posix Solace IOObject File FileStore.

Record Duplex := MkDuplex { in_ : File; out_ : File }.

Definition set_in (f : File) (d : Duplex) : Duplex := MkDuplex f (out_ d).
Definition set_out (f : File) (d : Duplex) : Duplex := MkDuplex (in_ d) f.

(** [Duplex(poll_id, poll_id)], [Duplex(File&&, File&&)] with what is left of the two
    files, and [Duplex(Duplex&&)]. *)
Definition Duplex_files (inFile outFile : File) : Duplex * (File * File) :=
  (MkDuplex (move_ctor inFile).1 (move_ctor outFile).1,
   ((move_ctor inFile).2, (move_ctor outFile).2)).
Definition Duplex_fds (inFid outFid : Z) : Duplex := (Duplex_files (fromFd inFid) (fromFd outFid)).1.
Definition Duplex_move (rhs : Duplex) : Duplex * Duplex :=
  (MkDuplex (move_ctor (in_ rhs)).1 (move_ctor (out_ rhs)).1,
   MkDuplex (move_ctor (in_ rhs)).2 (move_ctor (out_ rhs)).2).

(** [swap] and [operator=(Duplex&&)]. *)
Definition swap (this rhs : Duplex) : Duplex * Duplex :=
  (MkDuplex (File.swap (in_ this) (in_ rhs)).1 (File.swap (out_ this) (out_ rhs)).1,
   MkDuplex (File.swap (in_ this) (in_ rhs)).2 (File.swap (out_ this) (out_ rhs)).2).

Section Views.
Context {V : Type} `{MemoryView V}.

Definition read (buffer : V) : prog posix Duplex IOResult := zoom in_ set_in (File.read buffer).
Definition write (buffer : V) : prog posix Duplex IOResult := zoom out_ set_out (File.write buffer).

End Views.

Definition isOpened (d : Duplex) : bool := File.isOpened (in_ d) || File.isOpened (out_ d).

Definition close : prog posix Duplex unit :=
  _ ← zoom in_ set_in File.close;
  zoom out_ set_out File.close.

Definition flush : prog posix Duplex unit :=
  _ ← zoom in_ set_in File.flush;
  zoom out_ set_out File.flush.

(** [~Duplex()] is defaulted: the members go in reverse order. *)
Definition destroy : prog posix Duplex unit :=
  _ ← zoom out_ set_out File.destroy;
  zoom in_ set_in File.destroy.

(** ** Pipe *)

(** [createPipe()]: a function of the kernel alone, so it has no object state. *)
Definition createPipe {S} : prog posix S Duplex :=
  '(r, fds) ← perform sys_pipe;
  if rv r <? 0 then raise (IOException (errno r) "pipe")
  else mret (Duplex_fds fds.1 fds.2).

(** [Pipe()], [Pipe(Duplex&&)], [Pipe(Pipe&&)], [Pipe(poll_id, poll_id)]. *)
Definition Pipe_duplex (duplex : Duplex) : Duplex := (Duplex_move duplex).1.
Definition Pipe_new {S} : prog posix S Duplex := d ← createPipe; mret (Pipe_duplex d).
Definition Pipe_move (rhs : Duplex) : Duplex * Duplex := Duplex_move rhs.
Definition Pipe_fds (inFid outFid : Z) : Duplex := Duplex_fds inFid outFid.

(** ** Facts *)

Lemma Pipe_duplex_id d : Pipe_duplex d = d.
Proof. by destruct d as [[] []]. Qed.

(** The calls a read, and a write, may make. *)
Definition is_read_on (d : Z) (e : event posix) : Prop :=
  match ev_op e with sys_read d' _ _ => d' = d | _ => False end.
Definition is_write_on (d : Z) (e : event posix) : Prop :=
  match ev_op e with sys_write d' _ _ => d' = d | _ => False end.

(** Data flows one way: a read of a Duplex makes at most one call, a [read] on the
    descriptor of the read end, a write at most one [write] on the descriptor of the
    write end, and neither changes the object. *)
Lemma duplex_directions {V} `{MemoryView V} (v : V) K d t :
  (∃ new, tr (read v K d t) = new ++ t ∧ (length new ≤ 1)%nat ∧
     Forall (is_read_on (fd (in_ d))) new ∧ st (read v K d t) = d) ∧
  (∃ new, tr (write v K d t) = new ++ t ∧ (length new ≤ 1)%nat ∧
     Forall (is_write_on (fd (out_ d))) new ∧ st (write v K d t) = d).
Proof.
  destruct d as [fi fo]. unfold read, write, File.read, File.write, validateFd.
  unfold_prog. split; repeat (case_match; simplify_eq/=).
  all: first [exists []; (split; [done|]) | eexists [_]; (split; [cbn; done|])].
  all: repeat split; cbn; try lia; repeat constructor.
Qed.

(** [close] closes the read end first.  When that succeeds (or the read end is
    closed already) the write end is attempted; when it fails, the exception leaves
    [close] with the write end still open and no call made on it. *)
Lemma duplex_close_order (K : world posix) (d : Duplex) (t : trace posix) :
  fd (in_ d) ≠ InvalidFd → fd (out_ d) ≠ InvalidFd →
  let r1 := K _ t (sys_close (fd (in_ d))) in
  let t1 := Event (sys_close (fd (in_ d))) r1 :: t in
  let r2 := K _ t1 (sys_close (fd (out_ d))) in
  let t2 := Event (sys_close (fd (out_ d))) r2 :: t1 in
  close K d t =
    if rv r1 =? 0 then
      if rv r2 =? 0 then Run (Ret tt) (MkDuplex (MkFile InvalidFd) (MkFile InvalidFd)) t2
      else Run (Raise (IOException (errno r2) "")) (MkDuplex (MkFile InvalidFd) (out_ d)) t2
    else Run (Raise (IOException (errno r1) "")) d t1.
Proof.
  intros Hi Ho. cbn zeta. destruct d as [fi fo]; cbn in *. unfold close. unfold_prog.
  rewrite (close_open fi) by done. cbn. case_if; [|done].
  rewrite (close_open fo) by done. cbn. by case_if.
Qed.

Lemma duplex_close_order_witness :
  close zero_world (Duplex_fds 3 4) [] =
  Run (Ret tt) (MkDuplex (MkFile (-1)) (MkFile (-1)))
    [Event (sys_close 4) (Sys 0 0); Event (sys_close 3) (Sys 0 0)].
Proof. exact (duplex_close_order zero_world (Duplex_fds 3 4) [] ltac:(by vm_compute) ltac:(by vm_compute)). Defined.
