(* ===== verification/DuplexStore.v ===== *)
(** * Clients of Duplex and Pipe: who owns which descriptor

    A client program creates pipes, wraps pairs of descriptors, moves, swaps, uses, closes and
    destroys named Duplex objects, each of which owns two descriptors; no code of its own. *)
From stdpp Require Import gmap.
From S2P Require Import Prelude Posix Solace IOObject File Objects FileStore Duplex.

Section Client.
Context {V : Type} `{MemoryView V}.

Inductive duplex_op :=
  | pipe_new (x : nat)
  | duplex_fds (x : nat) (inFid outFid : Z)
  | duplex_moved (x y : nat)
  | duplex_assign (x y : nat)
  | duplex_swap (x y : nat)
  | duplex_read (x : nat) (v : V)
  | duplex_write (x : nat) (v : V)
  | duplex_flush (x : nat)
  | duplex_close (x : nat)
  | duplex_destroy (x : nat).

Definition exec_duplex (o : duplex_op) : prog posix (gmap nat Duplex) unit :=
  match o with
  | pipe_new x => construct_from x Pipe_new
  | duplex_fds x inFid outFid => construct x (Duplex_fds inFid outFid)
  | duplex_moved x y => construct_moved Duplex_move x y
  | duplex_assign x y | duplex_swap x y => on_two Duplex.swap x y
  | duplex_read x v => _ ← on_object x (Duplex.read v); mret tt
  | duplex_write x v => _ ← on_object x (Duplex.write v); mret tt
  | duplex_flush x => on_object x Duplex.flush
  | duplex_close x => on_object x Duplex.close
  | duplex_destroy x => destruct_object x Duplex.destroy
  end.

End Client.
Arguments duplex_op V : clear implicits.
Abbreviation exec_duplexes := (exec_all exec_duplex).

(** A [pipe] that gave the descriptor, as its first or as its second. *)
Definition pipe_gives (second : bool) (d : Z) (e : event posix) : bool :=
  match ev_op e in posix T return T → bool with
  | sys_pipe => λ r, negb (rv r.1 <? 0) && ((if second then r.2.2 else r.2.1) =? d)
  | _ => λ _, false
  end (ev_res e).

Definition pipes (d : Z) (t : trace posix) : Z := count (pipe_gives false d) t + count (pipe_gives true d) t.

(** How many of its two files hold the descriptor. *)
Definition holds_duplex (d : Z) (x : Duplex) : Z := holds d (in_ x) + holds d (out_ x).

Definition wraps_duplex {V} (d : Z) (o : duplex_op V) : Z :=
  match o with duplex_fds _ i o => Z.b2z (i =? d) + Z.b2z (o =? d) | _ => 0 end.

Section Conservation.
Context (d : Z) (Hd : d ≠ InvalidFd).

Abbreviation balanced := (balanced (holds_duplex d) (λ t, pipes d t - closes d t) (λ _, 0)).
Abbreviation accounts := (accounts (holds_duplex d) (λ t, pipes d t - closes d t) (λ _, 0)).

Lemma pipes_call e t : is_Some (fd_of e) → pipes d (e :: t) = pipes d t.
Proof. intros [d' He]. unfold pipes. rewrite !count_cons. destruct e as [R op res]. by destruct op. Qed.

(** A method of either file. *)
Lemma on_in {A} (p : prog posix File A) :
  Objects.balanced (holds d) (λ t, pipes d t - closes d t) (λ _, 0) p → balanced (zoom in_ set_in p).
Proof. apply balanced_zoom. intros f [fi fo]. unfold holds_duplex. cbn. lia. Qed.

Lemma on_out {A} (p : prog posix File A) :
  Objects.balanced (holds d) (λ t, pipes d t - closes d t) (λ _, 0) p → balanced (zoom out_ set_out p).
Proof. apply balanced_zoom. intros f [fi fo]. unfold holds_duplex. cbn. lia. Qed.

Lemma holds_fds i o : holds_duplex d (Duplex_fds i o) = Z.b2z (i =? d) + Z.b2z (o =? d).
Proof.
  unfold holds_duplex, holds. cbn. destruct (Z.eqb_spec i d), (Z.eqb_spec o d); repeat case_decide; cbn; congruence.
Qed.

Lemma pipe_gains x : accounts 0 (construct_from x Pipe_new).
Proof.
  apply accounts_from. intros K m t. unfold Pipe_new, createPipe. rewrite bind_assoc, bind_perform.
  set (r := K _ t sys_pipe). set (e := Prelude.Event _ _).
  assert (Hp : pipes d (e :: t) = Z.b2z (negb (rv r.1 <? 0) && (r.2.1 =? d)) + Z.b2z (negb (rv r.1 <? 0) && (r.2.2 =? d)) + pipes d t)
    by (unfold pipes; rewrite !count_cons; cbn; lia).
  assert (Hc : closes d (e :: t) = closes d t) by (unfold closes; by rewrite count_cons).
  destruct r as [r [i o]]. cbn -[Z.b2z Z.add pipes] in Hp. pose proof (holds_fds i o) as Hh.
  cbn -[Z.b2z Z.add Z.sub pipes closes holds_duplex] in Hh |- *.
  destruct (rv r <? 0); cbn -[Z.b2z Z.add Z.sub pipes closes holds_duplex] in Hp |- *; (split; [done|]); rewrite Hp, Hc; cbn [Z.b2z]; [lia|].
  cbn [in_ out_ fd]. rewrite Hh. lia.
Qed.

(** The destructor closes both files, or does not return. *)
Lemma destroyed_holds K s t :
  match Duplex.destroy K s t with Run (Ret _) s' _ => holds_duplex d s' = 0 | Run (Raise _) _ _ => False | _ => True end.
Proof.
  destruct s as [fi fo]. unfold Duplex.destroy. rewrite bind_run. unfold zoom at 1. cbn [out_].
  pose proof (destroy_closed K fo t) as Ho. destruct (File.destroy K fo t) as [[[]|e|u] fo' t1]; [|done..].
  unfold zoom. cbn [in_ set_out]. pose proof (destroy_closed K fi t1) as Hi.
  destruct (File.destroy K fi t1) as [[[]|e|u] fi' t2]; [|done..]. unfold holds_duplex, holds. cbn.
  rewrite Hi, Ho. by rewrite !decide_False.
Qed.

Lemma duplex_accounts {V} `{MemoryView V} (o : duplex_op V) : accounts (wraps_duplex d o) (exec_duplex o).
Proof.
  destruct o as [x|x i o|x y|x y|x y|x v|x v|x|x|x]; cbn [exec_duplex wraps_duplex].
  - apply pipe_gains.
  - rewrite <- holds_fds. apply (accounts_construct (holds_duplex d)).
  - apply accounts_moved. intros [[fi] [fo]]. unfold holds_duplex, holds. cbn. rewrite !(decide_False (P := InvalidFd = d)) by done. lia.
  - apply accounts_on_two. intros [[] []] [[] []]. unfold holds_duplex, holds. cbn. lia.
  - apply accounts_on_two. intros [[] []] [[] []]. unfold holds_duplex, holds. cbn. lia.
  - apply accounts_bind; [apply accounts_on_object, on_in, read_balanced, pipes_call|]. intros. apply accounts_ret.
  - apply accounts_bind; [apply accounts_on_object, on_out, write_balanced, pipes_call|]. intros. apply accounts_ret.
  - apply accounts_on_object, balanced_bind; [apply on_in, flush_balanced, pipes_call|]. intros _. apply on_out, flush_balanced, pipes_call.
  - apply accounts_on_object, balanced_bind; [apply on_in, (close_balanced d Hd _ pipes_call)|]. intros _.
    apply on_out, (close_balanced d Hd _ pipes_call).
  - apply accounts_destruct; [|apply destroyed_holds].
    apply balanced_bind; [apply on_out, (destroy_balanced d Hd _ pipes_call)|]. intros _. apply on_in, (destroy_balanced d Hd _ pipes_call).
Qed.

End Conservation.

(** ** Properties *)

(** C17.  Conservation of the descriptors of pipes.  Whatever a client does with Duplex and Pipe
    objects and whatever the kernel answers, also when the close of one end fails after the other
    was closed, each descriptor that [pipe] gave it, or that it wrapped, is held by one file of one
    live object or was closed with success: none is closed twice, shared or leaked. *)
Theorem pipes_conserved {V} `{MemoryView V} d (ops : list (duplex_op V)) (K : world posix) :
  let r := exec_duplexes ops K ∅ [] in
  d ≠ InvalidFd → (∀ u, out r ≠ Stuck u) →
  closes d (tr r) + total (holds_duplex d) (st r) = pipes d (tr r) + sum (wraps_duplex d) ops.
Proof.
  cbn zeta. intros Hd Hs.
  pose proof (accounts_all _ _ _ exec_duplex _ ops (Forall_true _ _ (duplex_accounts d Hd)) K ∅ []) as Ha.
  unfold settled in Ha. rewrite total_empty in Ha. change (pipes d [] - closes d []) with 0 in Ha.
  destruct (exec_duplexes ops K ∅ []) as [[] m' t']; cbn [tr st] in *; [lia..|]. by destruct (Hs u).
Qed.

(** ** On an input *)

#[local] Existing Instance Concrete.view_ops.

(** [pipe] gives 5 and 6; the first close of 6 fails. *)
Definition demo_pipes : world posix := world_of (λ R n op,
  match op in posix R return option R with
  | sys_pipe => Some (sys0, (5, 6))
  | sys_close 6 => Some (if (n =? 4)%nat then failed 5 else sys0)
  | _ => None end).

Definition demo_ops : list (duplex_op Concrete.view) :=
  [pipe_new 0; duplex_moved 1 0; duplex_write 1 (Concrete.View 64 8); duplex_read 1 (Concrete.View 64 8); duplex_close 1;
   duplex_destroy 0; duplex_destroy 1].

Lemma pipes_conserved_witness :
  let r := exec_duplexes demo_ops demo_pipes ∅ [] in
  closes 6 (tr r) + total (holds_duplex 6) (st r) = pipes 6 (tr r) + sum (wraps_duplex 6) demo_ops ∧
  closes 6 (tr r) = 1 ∧ closes 5 (tr r) = 1.
Proof.
  intros r. split; [|by vm_compute]. apply (pipes_conserved 6 demo_ops demo_pipes); [done|]. intros u. by vm_compute.
Defined.
