(* ===== verification/PipeContents.v ===== *)
(** * What goes through a pipe

    A client that writes one buffer to a pipe and reads the pipe into another one, in pieces of any
    size, with the contents of the buffers and of the pipe. *)
From S2P Require Import Prelude Memory Posix Solace IOObject File Objects Duplex.

Section Kernel.
Context (rfd wfd : Z).

(** The memory, and the bytes that are in the pipe. *)
Record wires := Wires { contents : ram; queue : list Z }.

(** A write puts what it transferred at the end of the pipe, a read takes it from the front; a call
    that fails does nothing. *)
Definition effect (e : event posix) (w : wires) : wires :=
  match ev_op e in posix T return T → wires with
  | sys_write fd addr _ => λ r,
      if (fd =? wfd) && (0 <=? rv r) then Wires (contents w) (queue w ++ load addr (rv r) (contents w)) else w
  | sys_read fd addr _ => λ r,
      if (fd =? rfd) && (0 <=? rv r) then
        Wires (store addr (take (Z.to_nat (rv r)) (queue w)) (contents w)) (drop (Z.to_nat (rv r)) (queue w))
      else w
  | _ => λ _, w
  end (ev_res e).

Definition after (t : trace posix) (w : wires) : wires := foldr effect w t.

(** A call transfers at most what it was asked for, and a read at most what is there. *)
Definition pipe_kernel (K : world posix) (w : wires) : Prop := ∀ t addr n,
  rv (K _ t (sys_write wfd addr n)) ≤ n ∧ rv (K _ t (sys_read rfd addr n)) ≤ n ∧
  rv (K _ t (sys_read rfd addr n)) ≤ Z.of_nat (length (queue (after t w))).

End Kernel.

Section Client.
Context {V B : Type} `{MemoryView V} `{!ByteStream B V}.

(** The pipe, the reader of what is sent, and the writer of what is received. *)
Record client := Client { pipe : Duplex; source : B; sink : B }.

Inductive transfer := send (bytes : Z) | receive (bytes : Z).

Definition exec_transfer (o : transfer) : prog posix client unit :=
  match o with
  | send n =>
      _ ← zoom (λ c, (pipe c, source c)) (λ p c, Client p.1 p.2 (sink c)) (IOObject.write_n Duplex.write n); mret tt
  | receive n =>
      _ ← zoom (λ c, (pipe c, sink c)) (λ p c, Client p.1 (source c) p.2) (IOObject.read_n Duplex.read n); mret tt
  end.

Definition amount (o : transfer) : Z := match o with send n | receive n => n end.

End Client.
Arguments client B : clear implicits.

Section Transfers.
Context {V B : Type} `{MemoryView V} `{!ByteStream B V} `{!MemoryViewLaws V, !ByteStreamLaws B V}.

(** One transfer between a stream and one of the files of the pipe. *)
Definition transferred {S} (op : posix sysret) (f : File) (self : S) (b : B) (K : world posix) (t : trace posix) : run posix (S * B) IOResult :=
  if fd f =? InvalidFd then Run (Raise NotOpen) (self, b) t
  else
    let r := K _ t op in
    if rv r <? 0 then Run (Raise (IOException (errno r) "")) (self, b) (Event op r :: t)
    else Run (Ret (Ok (rv r))) (self, (advance (rv r) b).2) (Event op r :: t).

(** The bytes that are asked for. *)
Definition asked (b : B) (n : Z) : Z := view_size (slice (viewRemaining b) 0 n).

Lemma asked_range b n : 0 ≤ n → 0 ≤ asked b n ≤ remaining b.
Proof. intros Hn. split; [apply view_size_nonneg|by apply slice_remaining_le]. Qed.

Lemma receive_run n (d : Duplex) (b : B) K t :
  IOObject.read_n Duplex.read n K (d, b) t =
    transferred (sys_read (fd (in_ d)) (dataAddress (viewRemaining b)) (asked b n)) (in_ d) d b K t.
Proof.
  destruct d as [[fi] [fo]]. unfold IOObject.read_n, Duplex.read, File.read, validateFd, File.isOpened, transferred, asked.
  rewrite <- (slice_address (viewRemaining b) n). unfold_prog. destruct (fi =? InvalidFd); [done|]. cbn. by destruct (rv _ <? 0).
Qed.

Lemma send_run n (d : Duplex) (b : B) K t :
  IOObject.write_n Duplex.write n K (d, b) t =
    transferred (sys_write (fd (out_ d)) (dataAddress (viewRemaining b)) (asked b n)) (out_ d) d b K t.
Proof.
  destruct d as [[fi] [fo]]. unfold IOObject.write_n, Duplex.write, File.write, validateFd, File.isOpened, transferred, asked.
  rewrite <- (slice_address (viewRemaining b) n). unfold_prog. destruct (fo =? InvalidFd); [done|]. cbn. by destruct (rv _ <? 0).
Qed.

(** *** The invariant *)

Context (rfd wfd : Z) (a N b M : Z) (Hapart : a + N ≤ b ∨ b + M ≤ a) (w0 : wires).
Abbreviation after := (after rfd wfd).

(** [s] bytes were taken from the source and [g] bytes put into the sink: they are the first of what
    was sent, and the rest is in the pipe. *)
Definition flows (s g : Z) (c : client B) (t : trace posix) : Prop :=
  pipe c = Duplex_fds rfd wfd ∧ 0 ≤ s ≤ N ∧ 0 ≤ g ≤ M ∧
  dataAddress (viewRemaining (source c)) = a + s ∧ remaining (source c) = N - s ∧
  dataAddress (viewRemaining (sink c)) = b + g ∧ remaining (sink c) = M - g ∧
  (∀ x, a ≤ x < a + N → contents (after t w0) x = contents w0 x) ∧
  load b g (contents (after t w0)) ++ queue (after t w0) = load a s (contents w0).

Lemma send_flows n s g c K t :
  pipe_kernel rfd wfd K w0 → 0 ≤ n → flows s g c t →
  let r := exec_transfer (send n) K c t in
  (∀ u, out r ≠ Stuck u) ∧ ∃ s', flows s' g (st r) (tr r).
Proof.
  intros HK Hn (Hp & Hs & Hg & Ha & Hr & Hb & Hrb & Hsrc & Hq). cbn zeta. destruct c as [d src dst]. cbn in Hp, Ha, Hr, Hb, Hrb. subst d.
  cbn [exec_transfer]. rewrite bind_run. unfold zoom. cbn [pipe source sink]. rewrite send_run. unfold transferred.
  cbn [out_ Duplex_fds Duplex_files fst snd fd File.move_ctor fromFd File_fd].
  destruct (wfd =? InvalidFd); [split; [done|]; by exists s|]. rewrite Ha.
  set (op := sys_write _ _ _). destruct (HK t (a + s) (asked src n)) as (Hmax & _ & _). fold op in Hmax.
  pose proof (asked_range src n Hn) as Hask. rewrite Hr in Hask.
  assert (He : after (Event op (K _ t op) :: t) w0 = effect rfd wfd (Event op (K _ t op)) (after t w0)) by done.
  unfold effect in He. cbn [ev_op ev_res op] in He. rewrite Z.eqb_refl in He.
  destruct (Z.ltb_spec (rv (K _ t op)) 0) as [Hneg|Hpos]; (split; [done|]); cbn [tr st out mret prog_ret].
  - exists s. unfold flows. cbn [pipe source sink]. rewrite He, (proj2 (Z.leb_gt 0 _) Hneg). cbn [andb]. split_and!; (done || lia).
  - set (k := rv (K _ t op)) in *. exists (s + k). unfold flows. cbn [pipe source sink fst snd]. rewrite He, (proj2 (Z.leb_le 0 _) Hpos).
    cbn [andb contents queue]. rewrite advance_address, advance_remaining by lia. split_and!; try done; try lia.
    rewrite app_assoc, Hq, load_app by lia. f_equal. apply load_ext. intros x Hx. apply Hsrc. lia.
Qed.

Lemma receive_flows n s g c K t :
  pipe_kernel rfd wfd K w0 → 0 ≤ n → flows s g c t →
  let r := exec_transfer (receive n) K c t in
  (∀ u, out r ≠ Stuck u) ∧ ∃ g', flows s g' (st r) (tr r).
Proof.
  intros HK Hn (Hp & Hs & Hg & Ha & Hr & Hb & Hrb & Hsrc & Hq). cbn zeta. destruct c as [d src dst]. cbn in Hp, Ha, Hr, Hb, Hrb. subst d.
  cbn [exec_transfer]. rewrite bind_run. unfold zoom. cbn [pipe source sink]. rewrite receive_run. unfold transferred.
  cbn [in_ Duplex_fds Duplex_files fst snd fd File.move_ctor fromFd File_fd].
  destruct (rfd =? InvalidFd); [split; [done|]; by exists g|]. rewrite Hb.
  set (op := sys_read _ _ _). destruct (HK t (b + g) (asked dst n)) as (_ & Hmax & Havail). fold op in Hmax, Havail.
  pose proof (asked_range dst n Hn) as Hask. rewrite Hrb in Hask.
  assert (He : after (Event op (K _ t op) :: t) w0 = effect rfd wfd (Event op (K _ t op)) (after t w0)) by done.
  unfold effect in He. cbn [ev_op ev_res op] in He. rewrite Z.eqb_refl in He.
  destruct (Z.ltb_spec (rv (K _ t op)) 0) as [Hneg|Hpos]; (split; [done|]); cbn [tr st out mret prog_ret].
  - exists g. unfold flows. cbn [pipe source sink]. rewrite He, (proj2 (Z.leb_gt 0 _) Hneg). cbn [andb]. split_and!; (done || lia).
  - set (k := rv (K _ t op)) in *. set (q := queue (after t w0)) in *. set (bs := take (Z.to_nat k) q) in *.
    assert (Hl : Z.of_nat (length bs) = k) by (unfold bs; rewrite length_take; lia).
    exists (g + k). unfold flows. cbn [pipe source sink fst snd]. rewrite He, (proj2 (Z.leb_le 0 _) Hpos).
    cbn [andb contents queue]. rewrite advance_address, advance_remaining by lia. split_and!; try done; try lia.
    + intros x Hx. rewrite store_out by lia. by apply Hsrc.
    + rewrite load_app, load_store_apart by lia. rewrite <- Hl at 1. rewrite load_store_all, <- app_assoc.
      unfold bs. by rewrite take_drop.
Qed.

Lemma transfers_flow ops s g c K t :
  pipe_kernel rfd wfd K w0 → Forall (λ o, 0 ≤ amount o) ops → flows s g c t →
  let r := exec_all exec_transfer ops K c t in
  out r = Ret tt ∧ ∃ s' g', flows s' g' (st r) (tr r).
Proof.
  intros HK Hops. cbn zeta. revert s g c t. induction Hops as [|o ops Ho _ IH]; intros s g c t Hf; [split; [done|]; by exists s, g|].
  cbn [exec_all]. assert (Hstep : (∀ u, out (exec_transfer o K c t) ≠ Stuck u) ∧
    ∃ s' g', flows s' g' (st (exec_transfer o K c t)) (tr (exec_transfer o K c t))).
  { destruct o as [n|n]; [destruct (send_flows n s g c K t HK Ho Hf) as (Hu & s' & Hf')|
      destruct (receive_flows n s g c K t HK Ho Hf) as (Hu & g' & Hf')]; (split; [exact Hu|]); by do 2 eexists. }
  destruct Hstep as (Hu & s' & g' & Hf'). destruct (exec_transfer o K c t) as [[] c' t']; [by apply (IH s' g')..|by destruct (Hu u)].
Qed.

End Transfers.

(** ** Properties *)

Section Flow.
Context {V B : Type} `{MemoryView V} `{!ByteStream B V} `{!MemoryViewLaws V, !ByteStreamLaws B V}.

(** C18.  A pipe delivers what was sent.  A client writes a buffer to a pipe and reads the pipe into
    another buffer, in any order and in pieces of any size, over a kernel that transfers as much as
    it likes of each and may fail at any time.  No call raises anything that the client cannot
    catch, and at every moment the bytes in the second buffer, followed by those still in the pipe,
    are exactly the bytes that the first buffer has given: in order, none lost and none twice, also
    when a call fails; and the streams have advanced by just as much. *)
Theorem pipe_delivers rfd wfd ops (src dst : B) (w0 : wires) (K : world posix) (t : trace posix) :
  let a := dataAddress (viewRemaining src) in
  let b := dataAddress (viewRemaining dst) in
  a + remaining src ≤ b ∨ b + remaining dst ≤ a →
  pipe_kernel rfd wfd K w0 → queue (after rfd wfd t w0) = [] → contents (after rfd wfd t w0) = contents w0 →
  Forall (λ o, 0 ≤ amount o) ops →
  let r := exec_all exec_transfer ops K (Client (Pipe_fds rfd wfd) src dst) t in
  let sent := remaining src - remaining (source (st r)) in
  let got := remaining dst - remaining (sink (st r)) in
  let w := after rfd wfd (tr r) w0 in
  out r = Ret tt ∧
  load b got (contents w) ++ queue w = load a sent (contents w0) ∧
  dataAddress (viewRemaining (source (st r))) = a + sent ∧ dataAddress (viewRemaining (sink (st r))) = b + got.
Proof.
  cbn zeta. intros Hapart HK Hq Hm Hops. set (a := dataAddress (viewRemaining src)) in *. set (b := dataAddress (viewRemaining dst)) in *.
  pose proof (remaining_nonneg src). pose proof (remaining_nonneg dst).
  destruct (transfers_flow rfd wfd a (remaining src) b (remaining dst) Hapart w0 ops 0 0 (Client (Pipe_fds rfd wfd) src dst) K t HK Hops)
    as (Ho & s & g & Hp & Hs & Hg & Ha & Hr & Hb & Hrb & _ & Heq).
  - unfold flows. rewrite Hq, Hm. cbn [pipe source sink]. split_and!; try done; try lia.
  - rewrite Hr, Hrb, Ha, Hb. replace (remaining src - (remaining src - s)) with s by lia.
    replace (remaining dst - (remaining dst - g)) with g by lia. by split_and!.
Qed.

End Flow.

(** ** On an input *)

#[local] Existing Instances Concrete.view_ops Concrete.stream_ops Concrete.view_laws Concrete.stream_laws.

(** An address holds itself; a write takes at most three bytes, a read at most two of those that are
    there. *)
Definition demo_wires : wires := Wires (λ x, x) [].

Definition demo_kernel : world posix := λ R t op,
  match op in posix R return R with
  | sys_write _ _ n => Sys (Z.min n 3) 0
  | sys_read _ _ n => Sys (Z.min n (Z.min 2 (Z.of_nat (length (queue (after 5 6 t demo_wires)))))) 0
  | op => zero_answer op
  end.

(** Two writes and three reads; one byte is still in the pipe. *)
Lemma pipe_delivers_witness :
  let ops := [send 8; receive 1; send 8; receive 8; receive 8] in
  let r := exec_all exec_transfer ops demo_kernel (Client (Pipe_fds 5 6) (Concrete.Stream 100 8) (Concrete.Stream 200 8)) [] in
  let w := after 5 6 (tr r) demo_wires in
  load 200 5 (contents w) ++ queue w = load 100 6 (λ x, x) ∧ load 200 5 (contents w) = [100; 101; 102; 103; 104].
Proof.
  intros ops r w. split; [|vm_compute; reflexivity].
  destruct (pipe_delivers 5 6 ops (Concrete.Stream 100 8) (Concrete.Stream 200 8) demo_wires demo_kernel []) as (_ & Hl & _).
  - left. cbn. lia.
  - intros t a n. cbn. lia.
  - done.
  - done.
  - repeat constructor; cbn; lia.
  - fold r in Hl. fold w in Hl.
    assert (Hsent : remaining (Concrete.Stream 100 8) - remaining (source (st r)) = 6) by (vm_compute; reflexivity).
    assert (Hgot : remaining (Concrete.Stream 200 8) - remaining (sink (st r)) = 5) by (vm_compute; reflexivity).
    rewrite Hsent, Hgot in Hl. exact Hl.
Defined.
