(* ===== verification/Selector.v ===== *)
(** * Selector: waiting on many descriptors

    include/cadence/io/selector.hpp, src/io/selector_impl.hpp and src/io/selector.cpp:
    the facade, the interface of the implementations, and iteration over the ready
    events. *)
From S2P Require Import Prelude Posix.

(** [enum Events]. *)
Definition Read : Z := 0x001.
Definition Write : Z := 0x004.
Definition EvError : Z := 0x008.
Definition Hup : Z := 0x010.

(** [struct Event]; [data] is the client's [void*]. *)
Record Event := MkEvent { ev_fd : Z; ev_events : Z; ev_data : Z }.

Definition isSet (ev : Event) (e : Z) : bool := has_flag (ev_events ev) e.

(** An [ISelectable*]: its address and what its [getSelectId] answers. *)
Record Selectable := MkSelectable { sel_ptr : Z; getSelectId : Z }.

(** [IPollerImpl::ReadyIdRange]. *)
Record ReadyIdRange := MkRange { firstReady : Z; count : Z }.

(** [class Selector::IPollerImpl]: the virtual functions. *)
Class IPollerImpl (I : Type) := {
  add : Z → Z → Z → prog posix I unit;
  addRaw : Z → Z → Z → prog posix I unit;
  remove : Z → prog posix I unit;
  poll : Z → prog posix I ReadyIdRange;
  getEvent : Z → prog posix I Event;
  advance : Z → prog posix I Z }.

(** [Selector::Iterator]; [pimpl] is the address of the implementation. *)
Record Iterator := MkIterator { it_index : Z; it_size : Z; it_pimpl : Z }.

Section Selector.
Context {I : Type} `{IPollerImpl I}.

(** The overloads on [ISelectable*], the same in both implementations. *)
Definition add_selectable (selectable : Selectable) (events : Z) : prog posix I unit :=
  add (getSelectId selectable) events (sel_ptr selectable).
Definition remove_selectable (selectable : Selectable) : prog posix I unit :=
  remove (getSelectId selectable).

Definition it_begin (it : Iterator) : Iterator := MkIterator (it_index it) (it_size it) (it_pimpl it).
Definition it_end (it : Iterator) : Iterator := MkIterator (it_size it) (it_size it) (it_pimpl it).

Definition it_neq (a b : Iterator) : bool :=
  negb (it_index a =? it_index b) || negb (it_size a =? it_size b) || negb (it_pimpl a =? it_pimpl b).
Definition it_eq (a b : Iterator) : bool :=
  (it_index a =? it_index b) && (it_pimpl a =? it_pimpl b).

(** [swap] and [operator=(Iterator&&)]. *)
Definition it_swap (a b : Iterator) : Iterator * Iterator := (b, a).

(** [assertIndexInRange(index, from, to, tag)] of libsolace: raises outside [from, to). *)
Definition assertIndexInRange {S} (index from to : Z) (tag : string) : prog posix S unit :=
  if (from <=? index) && (index <? to) then mret tt else raise (IndexOutOfRangeException tag).

(** [operator++]. *)
Definition it_incr (it : Iterator) : prog posix I Iterator :=
  _ ← assertIndexInRange (it_index it) 0 (it_size it) "iterator";
  i ← advance (it_index it);
  mret (MkIterator i (it_size it) (it_pimpl it)).

(** [operator->] and [operator*]. *)
Definition it_deref (it : Iterator) : prog posix I Event := getEvent (it_index it).

(** [Selector::poll]. *)
Definition sel_poll (pimpl msec : Z) : prog posix I Iterator :=
  r ← poll msec;
  mret (MkIterator (firstReady r) (count r) pimpl).

(** A client's [for (auto ev : it)]. *)
Fixpoint iterate (fuel : nat) (it : Iterator) : prog posix I (list Event) :=
  match fuel with
  | O => stuck OutOfFuel
  | S fuel' =>
      if it_neq it (it_end it) then
        ev ← it_deref it;
        it' ← it_incr it;
        evs ← iterate fuel' it';
        mret (ev :: evs)
      else mret []
  end.

End Selector.

(** ** The facade *)
Module Facade.
Section Facade.
Context {I : Type} `{IPollerImpl I}.

(** The member [_pimpl], which owns the implementation: null after a move. *)
Definition Selector : Type := option I.

Definition create (impl : I) : Selector := Some impl.

(** The defaulted move constructor: the new selector, and what is left of [rhs]. *)
Definition move (rhs : Selector) : Selector * Selector := (rhs, None).

(** [swap] and [operator=(Selector&&)]. *)
Definition swap (this rhs : Selector) : Selector * Selector := (rhs, this).

(** [_pimpl->method(...)]. *)
Definition on_pimpl {A} (method : prog posix I A) : prog posix Selector A :=
  λ K self t, match self with
              | None => Run (Stuck NullPointer) None t
              | Some i => match method K i t with Run o i' t' => Run o (Some i') t' end
              end.

Definition add_selectable (selectable : Selectable) (events : Z) : prog posix Selector unit :=
  on_pimpl (Selector.add_selectable selectable events).
Definition add (fd events data : Z) : prog posix Selector unit := on_pimpl (Selector.add fd events data).
Definition addRaw (fd events data : Z) : prog posix Selector unit := on_pimpl (Selector.addRaw fd events data).
Definition remove_selectable (selectable : Selectable) : prog posix Selector unit :=
  on_pimpl (Selector.remove_selectable selectable).
Definition remove (fd : Z) : prog posix Selector unit := on_pimpl (Selector.remove fd).
Definition poll (pimpl msec : Z) : prog posix Selector Iterator := on_pimpl (sel_poll pimpl msec).

End Facade.
End Facade.

(** ** Iteration against the interface

    The behaviour an implementation has on the range its last [poll] returned: at each
    index it yields the event [ev] and moves on to the next index. *)
Section Iterate.
Context {I : Type} `{IPollerImpl I} (s : I).

Inductive chain (size : Z) : Z → list Event → Prop :=
  | chain_end : chain size size []
  | chain_step i j ev evs :
      0 ≤ i < size → i < j ≤ size →
      (∀ K t, getEvent i K s t = Run (Ret ev) s t) →
      (∀ K t, advance i K s t = Run (Ret j) s t) →
      chain size j evs → chain size i (ev :: evs).

Lemma iterate_chain size i evs fuel pimpl K t :
  chain size i evs → (length evs < fuel)%nat →
  iterate fuel (MkIterator i size pimpl) K s t = Run (Ret evs) s t.
Proof.
  intros Hc. revert fuel. induction Hc as [|i j ev evs Hi Hj He Ha Hc IH];
    intros [|fuel] Hf; cbn in Hf; try lia; cbn [iterate].
  - unfold it_neq. cbn. rewrite !Z.eqb_refl. done.
  - unfold it_neq. cbn. destruct (Z.eqb_spec i size); [lia|]. cbn.
    unfold it_deref, it_incr, assertIndexInRange. unfold_prog. rewrite He.
    destruct (Z.leb_spec 0 i); [|lia]. destruct (Z.ltb_spec i size); [|lia]. cbn.
    rewrite Ha. rewrite IH by lia. done.
Qed.

Lemma chain_length size i evs : chain size i evs → Z.of_nat (length evs) ≤ size - i.
Proof. induction 1; cbn; lia. Qed.

End Iterate.
