(* ===== verification/PollSelector.v ===== *)
(** * The selector over poll(2)

    src/io/selector_poll.cpp: two vectors kept in step, one of the clients' events, one
    of the [pollfd]s the kernel is given. *)
From S2P Require Import Prelude Posix Selector.

Record pollfd := PollFd { p_fd : Z; p_events : Z; p_revents : Z }.

(** The members of [PollSelectorImpl]. *)
Record PollSelectorImpl := MkPoll { selectables : list Event; pollfds : list pollfd }.

(** The constructor only reserves capacity. *)
Definition PollSelectorImpl_new (maxPollables : Z) : PollSelectorImpl := MkPoll [] [].

(** The native mask of an event mask, and back ([getEvent]). *)
Definition native_events (events : Z) : Z :=
  let pollEvents := 0 in
  let pollEvents := if has_flag events Read then set_flags pollEvents (Z.lor POLLIN POLLPRI) else pollEvents in
  let pollEvents := if has_flag events Write then set_flags pollEvents POLLOUT else pollEvents in
  if has_flag events Hup then set_flags pollEvents POLLRDHUP else pollEvents.

Definition client_events (revents : Z) : Z :=
  let e := 0 in
  let e := if has_flag revents POLLIN || has_flag revents POLLPRI then set_flags e Read else e in
  let e := if has_flag revents POLLOUT then set_flags e Write else e in
  let e := if has_flag revents POLLERR then set_flags e EvError else e in
  if has_flag revents POLLRDHUP then set_flags e Hup else e.

(** [addRaw].  The [events] of the stored [Event] is left unset by the code; it is
    never read back, and stands as 0 here. *)
Definition poll_addRaw (fd nativeEvents data : Z) : prog posix PollSelectorImpl unit :=
  let pollEvent := PollFd fd (s16 nativeEvents) 0 in
  let ev := MkEvent fd 0 data in
  modify (λ s, MkPoll (selectables s ++ [ev]) (pollfds s ++ [pollEvent])).

Definition poll_add (fd events data : Z) : prog posix PollSelectorImpl unit :=
  poll_addRaw fd (native_events events) data.

Definition poll_remove (fd : Z) : prog posix PollSelectorImpl unit :=
  modify (λ s, MkPoll (filter (λ x, ev_fd x ≠ fd) (selectables s))
                      (filter (λ x, p_fd x ≠ fd) (pollfds s))).

(** The kernel writes the [revents] of the array it is passed. *)
Fixpoint write_revents (ps : list pollfd) (rs : list Z) : list pollfd :=
  match ps, rs with
  | p :: ps', r :: rs' => PollFd (p_fd p) (p_events p) (s16 r) :: write_revents ps' rs'
  | _, _ => ps
  end.

(** The loop of [findFirstReady], [n] being the number of indices left. *)
Fixpoint find_loop (n : nat) (i pollCount : Z) : prog posix PollSelectorImpl Z :=
  match n with
  | O => mret pollCount
  | S n' =>
      s ← get;
      match pollfds s !! Z.to_nat i with
      | None => stuck OutOfBounds
      | Some p => if truthy (p_revents p) then mret i else find_loop n' (u32 (i + 1)) pollCount
      end
  end.

Definition findFirstReady (offsetIndex pollCount : Z) : prog posix PollSelectorImpl Z :=
  find_loop (Z.to_nat (pollCount - offsetIndex)) offsetIndex pollCount.

Definition poll_poll (msec : Z) : prog posix PollSelectorImpl ReadyIdRange :=
  s ← get;
  '(r, revents) ← perform (sys_poll (map (λ p, (p_fd p, p_events p)) (pollfds s)) msec);
  _ ← modify (λ s, MkPoll (selectables s) (write_revents (pollfds s) revents));
  if rv r <? 0 then raise (IOException (errno r) "")
  else if rv r =? 0 then mret (MkRange 0 0)
  else
    s ← get;
    let pollCount := Z.of_nat (length (pollfds s)) in
    first ← findFirstReady 0 (u32 pollCount);
    mret (MkRange first (u32 pollCount)).

Definition poll_getEvent (i : Z) : prog posix PollSelectorImpl Event :=
  s ← get;
  match pollfds s !! Z.to_nat i, selectables s !! Z.to_nat i with
  | Some ev, Some selected =>
      mret (MkEvent (ev_fd selected) (client_events (p_revents ev)) (ev_data selected))
  | _, _ => stuck OutOfBounds
  end.

Definition poll_advance (offsetIndex : Z) : prog posix PollSelectorImpl Z :=
  s ← get;
  let pollCount := Z.of_nat (length (pollfds s)) in
  if pollCount <=? offsetIndex then mret (u32 pollCount)
  else findFirstReady (u32 (offsetIndex + 1)) (u32 pollCount).

#[export] Instance PollSelector_impl : IPollerImpl PollSelectorImpl := {|
  add := poll_add;
  addRaw := poll_addRaw;
  remove := poll_remove;
  poll := poll_poll;
  getEvent := poll_getEvent;
  advance := poll_advance |}.

(** [Selector::createPoll]. *)
Definition createPoll (eventSize : Z) : PollSelectorImpl := PollSelectorImpl_new eventSize.

(** ** The contract: an ordered table of registrations *)

Record registration := Reg { r_fd : Z; r_events : Z; r_data : Z }.

(** The state of a poll selector against the table it implements. *)
Definition abs (s : PollSelectorImpl) : list registration :=
  zip_with (λ e p, Reg (ev_fd e) (p_events p) (ev_data e)) (selectables s) (pollfds s).

(** The two vectors speak of the same descriptors, in the same order. *)
Definition aligned (s : PollSelectorImpl) : Prop := map ev_fd (selectables s) = map p_fd (pollfds s).

(** What a poll reports: each registration the kernel marked, in the order of the table. *)
Definition event_of (r : registration) (revents : Z) : Event :=
  MkEvent (r_fd r) (client_events (s16 revents)) (r_data r).

Fixpoint ready_events (rs : list registration) (revents : list Z) : list Event :=
  match rs, revents with
  | r :: rs', x :: revents' =>
      (if truthy (s16 x) then [event_of r x] else []) ++ ready_events rs' revents'
  | _, _ => []
  end.

(** The statements of a client that manages the table. *)
Inductive table_op := t_add (fd events data : Z) | t_addRaw (fd native data : Z) | t_remove (fd : Z).

Definition table_step (o : table_op) : prog posix PollSelectorImpl unit :=
  match o with
  | t_add fd events data => add fd events data
  | t_addRaw fd native data => addRaw fd native data
  | t_remove fd => remove fd
  end.

Definition table_spec (o : table_op) (rs : list registration) : list registration :=
  match o with
  | t_add fd events data => rs ++ [Reg fd (s16 (native_events events)) data]
  | t_addRaw fd native data => rs ++ [Reg fd (s16 native) data]
  | t_remove fd => filter (λ r, r_fd r ≠ fd) rs
  end.

(** ** Facts *)

Lemma zip_filter_fd fd es ps :
  map ev_fd es = map p_fd ps →
  zip_with (λ e p, Reg (ev_fd e) (p_events p) (ev_data e))
    (filter (λ x, ev_fd x ≠ fd) es) (filter (λ x, p_fd x ≠ fd) ps) =
  filter (λ r, r_fd r ≠ fd)
    (zip_with (λ e p, Reg (ev_fd e) (p_events p) (ev_data e)) es ps)
  ∧ map ev_fd (filter (λ x, ev_fd x ≠ fd) es) = map p_fd (filter (λ x, p_fd x ≠ fd) ps).
Proof.
  revert ps. induction es as [|e es IH]; intros [|p ps] Ha; try done.
  cbn in Ha. injection Ha as He Ha. destruct (IH ps Ha) as [IH1 IH2].
  cbn [zip_with]. rewrite !filter_cons. cbn. rewrite <- He.
  repeat case_decide; cbn; try done. rewrite IH1, IH2, He. done.
Qed.

Lemma aligned_length s : aligned s → length (selectables s) = length (pollfds s).
Proof. intros Ha%(f_equal length). by rewrite !length_map in Ha. Qed.

Lemma table_step_run o K s t :
  aligned s →
  out (table_step o K s t) = Ret tt ∧ tr (table_step o K s t) = t ∧
  aligned (st (table_step o K s t)) ∧
  abs (st (table_step o K s t)) = table_spec o (abs s).
Proof.
  intros Ha. destruct s as [es ps].
  destruct o as [fd ev data|fd nat data|fd]; cbn; unfold aligned, abs in *; cbn in *.
  - rewrite !map_app, Ha. repeat split. rewrite zip_with_app; [done|].
    apply (f_equal length) in Ha. by rewrite !length_map in Ha.
  - rewrite !map_app, Ha. repeat split. rewrite zip_with_app; [done|].
    apply (f_equal length) in Ha. by rewrite !length_map in Ha.
  - repeat split; by apply zip_filter_fd.
Qed.

Lemma write_revents_length ps rs : length (write_revents ps rs) = length ps.
Proof. revert rs. induction ps; intros []; cbn; auto. Qed.

Lemma write_revents_fd ps rs : map p_fd (write_revents ps rs) = map p_fd ps.
Proof. revert rs. induction ps; intros []; cbn; f_equal; auto. Qed.

(** *** The scan for the next ready descriptor *)

Fixpoint first_off (ps : list pollfd) : nat :=
  match ps with
  | [] => O
  | p :: ps' => if truthy (p_revents p) then O else S (first_off ps')
  end.

Fixpoint out_events (es : list Event) (ps : list pollfd) : list Event :=
  match es, ps with
  | e :: es', p :: ps' =>
      (if truthy (p_revents p) then [MkEvent (ev_fd e) (client_events (p_revents p)) (ev_data e)] else [])
        ++ out_events es' ps'
  | _, _ => []
  end.

Section Scan.
Context (s : PollSelectorImpl).
Let len : Z := Z.of_nat (length (pollfds s)).
Hypothesis Hlen : len < 2 ^ 32.

Lemma first_off_le ps : (first_off ps ≤ length ps)%nat.
Proof. induction ps as [|p ps IH]; cbn; [lia|]. case_match; lia. Qed.

Lemma find_loop_spec n k K t :
  (k + n = length (pollfds s))%nat →
  find_loop n (Z.of_nat k) len K s t =
    Run (Ret (Z.of_nat (k + first_off (drop k (pollfds s))))) s t.
Proof.
  revert k. induction n as [|n IH]; intros k Hk.
  - rewrite drop_ge by lia. cbn. unfold_prog. f_equal. f_equal. unfold len. lia.
  - destruct (lookup_lt_is_Some_2 (pollfds s) k) as [p Hp]; [lia|].
    cbn [find_loop]. unfold_prog. rewrite Nat2Z.id, Hp, (drop_S _ p k Hp). cbn.
    case_if; [by rewrite Nat.add_0_r|].
    assert (u32 (Z.of_nat k + 1) = Z.of_nat (S k)) as ->.
    { unfold u32. rewrite wrap_unsigned_small; [lia|]. unfold len in Hlen. lia. }
    rewrite (IH (S k)) by lia. f_equal. f_equal. lia.
Qed.

Lemma findFirstReady_spec k K t :
  (k ≤ length (pollfds s))%nat →
  findFirstReady (Z.of_nat k) len K s t =
    Run (Ret (Z.of_nat (k + first_off (drop k (pollfds s))))) s t.
Proof. intros Hk. unfold findFirstReady. apply find_loop_spec. unfold len. lia. Qed.

Lemma u32_len : u32 len = len.
Proof. apply wrap_unsigned_small. unfold len in *. lia. Qed.

Lemma chain_from k :
  aligned s → (k ≤ length (pollfds s))%nat →
  chain s len (Z.of_nat (k + first_off (drop k (pollfds s))))
    (out_events (drop k (selectables s)) (drop k (pollfds s))).
Proof.
  intros Ha. remember (length (pollfds s) - k)%nat as m eqn:Hm.
  revert k Hm. induction m as [|m IH]; intros k Hm Hk.
  - rewrite !drop_ge by (rewrite ?aligned_length by done; lia). cbn.
    replace (Z.of_nat (k + 0)) with len by (unfold len; lia). constructor.
  - destruct (lookup_lt_is_Some_2 (pollfds s) k) as [p Hp]; [lia|].
    destruct (lookup_lt_is_Some_2 (selectables s) k) as [e He]; [rewrite aligned_length by done; lia|].
    specialize (IH (S k) ltac:(lia) ltac:(lia)).
    rewrite (drop_S _ p k Hp), (drop_S _ e k He). cbn. case_if.
    + rewrite Nat.add_0_r. pose proof (first_off_le (drop (S k) (pollfds s))) as Hle.
      rewrite length_drop in Hle. cbn. eapply chain_step; [unfold len; lia| | | |exact IH].
      * unfold len. lia.
      * intros K t. unfold getEvent; cbn. unfold poll_getEvent. unfold_prog.
        by rewrite Nat2Z.id, Hp, He.
      * intros K t. unfold advance; cbn. unfold poll_advance. unfold_prog. fold len.
        destruct (Z.leb_spec len (Z.of_nat k)); [unfold len in *; lia|].
        rewrite u32_len. assert (u32 (Z.of_nat k + 1) = Z.of_nat (S k)) as ->.
        { unfold u32. rewrite wrap_unsigned_small; [lia|]. unfold len in *. lia. }
        apply findFirstReady_spec. lia.
    + cbn. replace (k + S (first_off (drop (S k) (pollfds s))))%nat
        with (S k + first_off (drop (S k) (pollfds s)))%nat by lia. exact IH.
Qed.

End Scan.

Lemma out_events_write es ps rs :
  map ev_fd es = map p_fd ps → length rs = length ps →
  out_events es (write_revents ps rs) =
  ready_events (zip_with (λ e p, Reg (ev_fd e) (p_events p) (ev_data e)) es ps) rs.
Proof.
  revert ps rs. induction es as [|e es IH]; intros [|p ps] [|r rs] Ha Hl; try done; cbn.
  injection Ha as He Ha. injection Hl as Hl. rewrite IH by done. by case_if.
Qed.

(** Iterating over the answer of a poll that found something. *)
Lemma poll_reports s msec revents (K : world posix) (t : trace posix) fuel pimpl :
  aligned s → Z.of_nat (length (pollfds s)) < 2 ^ 32 →
  let ask := sys_poll (map (λ p, (p_fd p, p_events p)) (pollfds s)) msec in
  (K _ t ask).2 = revents → length revents = length (pollfds s) → 0 < rv (K _ t ask).1 →
  (length (pollfds s) < fuel)%nat →
  let r := (it ← sel_poll pimpl msec; iterate fuel it) K s t in
  out r = Ret (ready_events (abs s) revents) ∧
  selectables (st r) = selectables s ∧ map p_fd (pollfds (st r)) = map p_fd (pollfds s).
Proof.
  intros Ha Hlen ask Hrev Hl Hpos Hfuel. cbn zeta.
  set (s' := MkPoll (selectables s) (write_revents (pollfds s) revents)).
  assert (Ha' : aligned s') by (unfold aligned, s'; cbn; by rewrite write_revents_fd).
  assert (Hlen' : length (pollfds s') = length (pollfds s)) by apply write_revents_length.
  pose proof (u32_len s' ltac:(by rewrite Hlen')) as Hu.
  assert (Hfind : ∀ K' t', findFirstReady 0 (Z.of_nat (length (pollfds s'))) K' s' t' =
      Run (Ret (Z.of_nat (first_off (pollfds s')))) s' t').
  { intros K' t'. apply (findFirstReady_spec s' ltac:(by rewrite Hlen') 0 K' t'). lia. }
  assert (Hrun : sel_poll pimpl msec K s t =
    Run (Ret (MkIterator (Z.of_nat (first_off (pollfds s'))) (Z.of_nat (length (pollfds s'))) pimpl))
      s' (Prelude.Event ask (K _ t ask) :: t)).
  { unfold sel_poll, poll; cbn. unfold poll_poll. unfold_prog. fold ask.
    destruct (K _ t ask) as [r0 rs]; cbn in *. subst rs. fold s'.
    destruct (Z.ltb_spec (rv r0) 0); [lia|]. destruct (Z.eqb_spec (rv r0) 0); [lia|]. cbn.
    rewrite Hu.
    by rewrite Hfind. }
  unfold mbind, prog_bind. rewrite Hrun.
  pose proof (chain_from s' ltac:(by rewrite Hlen') 0 Ha' ltac:(lia)) as Hc.
  rewrite !drop_0 in Hc. cbn [plus] in Hc.
  rewrite (iterate_chain _ _ _ _ _ _ _ _ Hc).
  - cbn. rewrite out_events_write by done. split_and!; try done. apply write_revents_fd.
  - pose proof (chain_length _ _ _ _ Hc). lia.
Qed.

(** ** Properties *)

(** C3.  Refinement of the registration table: starting from [createPoll], whatever
    sequence of [add], [addRaw] and [remove] a client makes, no call raises or reaches
    undefined behaviour, the two vectors stay in step, and what they represent is the
    table the same operations build. *)
Theorem poll_table_refinement ops n K t :
  let r := foldl (λ s o, st (table_step o K s t)) (createPoll n) ops in
  aligned r ∧ abs r = foldl (λ rs o, table_spec o rs) [] ops ∧
  ∀ o, out (table_step o K r t) = Ret tt.
Proof.
  cbn zeta.
  assert (Hgen : ∀ s, aligned s →
    aligned (foldl (λ s o, st (table_step o K s t)) s ops) ∧
    abs (foldl (λ s o, st (table_step o K s t)) s ops) =
      foldl (λ rs o, table_spec o rs) (abs s) ops).
  { induction ops as [|o ops IH]; intros s Ha; cbn [foldl]; [done|].
    destruct (table_step_run o K s t Ha) as (_ & _ & Ha' & Habs).
    destruct (IH _ Ha') as [IH1 IH2]. by rewrite IH2, Habs. }
  destruct (Hgen (createPoll n)) as [H1 H2]; [done|].
  split; [done|]. split; [done|]. intros o. by apply (table_step_run o K _ t H1).
Qed.

(** C21.  Polling reports exactly the ready descriptors.  When poll(2) marks the table's
    entries with [revents] and answers a positive number, iterating over the result ends
    after visiting exactly the entries with a non zero [revents], once each, in the order
    of the table, with the registered descriptor and data and the decoded events; no
    index is out of range, whatever the next answers of the kernel. *)
Theorem poll_reports_ready s msec revents (K : world posix) (t : trace posix) fuel pimpl :
  aligned s → Z.of_nat (length (pollfds s)) < 2 ^ 32 →
  let ask := sys_poll (map (λ p, (p_fd p, p_events p)) (pollfds s)) msec in
  (K _ t ask).2 = revents → length revents = length (pollfds s) → 0 < rv (K _ t ask).1 →
  (length (pollfds s) < fuel)%nat →
  let r := (it ← sel_poll pimpl msec; iterate fuel it) K s t in
  out r = Ret (ready_events (abs s) revents) ∧
  selectables (st r) = selectables s ∧ map p_fd (pollfds (st r)) = map p_fd (pollfds s).
Proof. apply poll_reports. Qed.

(** Event masks.  What a client asks for survives the translation to poll(2) and back:
    the [events] field (a [short]) holds the native mask without loss, and an answer that
    marks all of it decodes to the requested events.  A hang-up or an invalid descriptor,
    which poll(2) always reports, decodes to no event at all. *)
Lemma poll_mask_roundtrip events fd data :
  s16 (native_events events) = native_events events ∧
  client_events (native_events events) = Z.land events (Z.lor Read (Z.lor Write Hup)) ∧
  event_of (Reg fd (native_events events) data) POLLHUP = MkEvent fd 0 data ∧
  event_of (Reg fd (native_events events) data) POLLNVAL = MkEvent fd 0 data.
Proof.
  assert (Hr : has_flag events Read = Z.testbit events 0) by apply (has_flag_bit _ 0 ltac:(done)).
  assert (Hw : has_flag events Write = Z.testbit events 2) by apply (has_flag_bit _ 2 ltac:(done)).
  assert (Hh : has_flag events Hup = Z.testbit events 4) by apply (has_flag_bit _ 4 ltac:(done)).
  assert (Hm : Z.land events (Z.lor Read (Z.lor Write Hup)) =
    Z.lor (if Z.testbit events 0 then 1 else 0)
      (Z.lor (if Z.testbit events 2 then 4 else 0) (if Z.testbit events 4 then 16 else 0))).
  { rewrite !Z.land_lor_distr_r. change Read with (2 ^ 0). change Write with (2 ^ 2).
    change Hup with (2 ^ 4). by rewrite !land_bit. }
  unfold native_events. rewrite Hm, Hr, Hw, Hh.
  by destruct (Z.testbit events 0), (Z.testbit events 2), (Z.testbit events 4).
Qed.

(** ** Witnesses *)

Definition demo_selector : PollSelectorImpl :=
  foldl (λ s o, st (table_step o zero_world s [])) (createPoll 4)
    [t_add 3 Read 100; t_add 4 Write 101; t_add 5 Read 102; t_remove 4; t_add 6 Write 103].

(** Descriptors 3 and 6 are ready. *)
Definition demo_world : world posix := world_of (λ R n op,
  match op in posix R return option R with
  | sys_poll _ _ => Some (Sys 2 0, [1; 0; 4])
  | _ => None
  end).

Lemma poll_reports_ready_witness :
  aligned demo_selector ∧
  out ((it ← sel_poll 0 (-1); iterate 4 it) demo_world demo_selector []) =
    Ret [MkEvent 3 Read 100; MkEvent 6 Write 103].
Proof.
  split; [by vm_compute|].
  refine (proj1 (poll_reports_ready demo_selector (-1) [1; 0; 4] demo_world [] 4 0 _ _ _ _ _ _)).
  all: by vm_compute.
Defined.
