(* ===== verification/EPollSelector.v ===== *)
(** * The selector over epoll(7)

    src/io/selector_epoll.cpp.  The kernel is given pointers into the vector
    [_selectables] and hands them back from [epoll_wait]; the vector is modelled with
    its storage, so that a pointer can outlive the element it was taken from. *)
From S2P Require Import Prelude Posix Selector.

(** A [std::vector<Selector::Event>]: the allocation in use, its capacity, the elements. *)
Record event_vector := MkVec { block : nat; capacity : nat; elems : list Event }.

(** libstdc++: a vector that is full moves to a new allocation, of twice the size. *)
Definition push_back (e : Event) (v : event_vector) : event_vector :=
  if decide (length (elems v) = capacity v) then
    MkVec (S (block v)) (Nat.max 1 (2 * capacity v)) (elems v ++ [e])
  else MkVec (block v) (capacity v) (elems v ++ [e]).

(** [reserve(n)] on a fresh vector. *)
Definition reserve (n : nat) : event_vector := MkVec O n [].

(** [&v.back()]. *)
Definition back_ptr (v : event_vector) : vec_ptr := VecPtr (block v) (pred (length (elems v))).

(** Reading through a pointer: only into the live elements of the current allocation. *)
Definition deref (v : event_vector) (p : vec_ptr) : option Event :=
  if decide (ptr_block p = block v) then elems v !! ptr_index p else None.

(** The members of [EPollSelectorImpl]: the vector, the array of [epoll_event]s, of a
    fixed size, that [epoll_wait] fills ([None] is a zeroed entry), and the epoll
    descriptor. *)
Record EPollSelectorImpl := MkEPoll {
  selectables : event_vector;
  evlist : list (option (Z * vec_ptr));
  epfd : Z }.

(** The constructor; [maxReportedEvents] is a [uint32], [epoll_create] takes an [int]. *)
Definition EPollSelectorImpl_new (maxReportedEvents : Z) : prog posix EPollSelectorImpl unit :=
  r ← perform (sys_epoll_create (s32 maxReportedEvents));
  if -1 =? rv r then raise (IOException (errno r) "")
  else put (MkEPoll (reserve (Z.to_nat maxReportedEvents))
              (replicate (Z.to_nat maxReportedEvents) None) (rv r)).

(** [Selector::createEPoll]; when it raises there is no selector. *)
Definition createEPoll (eventSize : Z) : prog posix (option EPollSelectorImpl) unit :=
  λ K self t,
    match EPollSelectorImpl_new eventSize K (MkEPoll (reserve 0) [] 0) t with
    | Run (Ret tt) i t' => Run (Ret tt) (Facade.create i) t'
    | Run o _ t' => Run o self t'
    end.

Definition epoll_native_events (events : Z) : Z :=
  let e := 0 in
  let e := if has_flag events Read then set_flags e EPOLLIN else e in
  let e := if has_flag events Write then set_flags e EPOLLOUT else e in
  let e := if has_flag events EvError then set_flags e EPOLLERR else e in
  if has_flag events Hup then set_flags e EPOLLHUP else e.

Definition epoll_client_events (native : Z) : Z :=
  let e := 0 in
  let e := if has_flag native EPOLLIN then set_flags e Read else e in
  let e := if has_flag native EPOLLOUT then set_flags e Write else e in
  let e := if has_flag native EPOLLERR then set_flags e EvError else e in
  if has_flag native EPOLLHUP then set_flags e Hup else e.

Definition epoll_addRaw (fd nativeEvents data : Z) : prog posix EPollSelectorImpl unit :=
  let ev := MkEvent fd 0 data in
  _ ← modify (λ s, MkEPoll (push_back ev (selectables s)) (evlist s) (epfd s));
  s ← get;
  r ← perform (sys_epoll_ctl (epfd s) EPOLL_CTL_ADD fd nativeEvents (Some (back_ptr (selectables s))));
  if -1 =? rv r then raise (IOException (errno r) "") else mret tt.

Definition epoll_add (fd events data : Z) : prog posix EPollSelectorImpl unit :=
  epoll_addRaw fd (epoll_native_events events) data.

(** [erase(remove_if(...), end())]: the elements after a removed one move down, in the
    same allocation. *)
Definition vec_remove (fd : Z) (v : event_vector) : event_vector :=
  MkVec (block v) (capacity v) (filter (λ x, ev_fd x ≠ fd) (elems v)).

Definition epoll_remove (fd : Z) : prog posix EPollSelectorImpl unit :=
  s ← get;
  r ← perform (sys_epoll_ctl (epfd s) EPOLL_CTL_DEL fd 0 None);
  _ ← (if -1 =? rv r then
         if negb (errno r =? ENOENT) then raise (IOException (errno r) "") else mret tt
       else mret tt);
  modify (λ s, MkEPoll (vec_remove fd (selectables s)) (evlist s) (epfd s)).

(** The kernel overwrites the first entries of the array. *)
Definition write_events (evs : list (Z * vec_ptr)) (l : list (option (Z * vec_ptr))) :
    list (option (Z * vec_ptr)) :=
  take (length l) (map Some evs) ++ drop (length evs) l.

(** The loop of [poll]: [tries] more attempts, each interruption costs one. *)
Fixpoint epoll_loop (tries : nat) (msec : Z) : prog posix EPollSelectorImpl ReadyIdRange :=
  match tries with
  | O => mret (MkRange 0 0)
  | S tries' =>
      s ← get;
      '(r, evs) ← perform (sys_epoll_wait (epfd s) (Z.of_nat (length (evlist s))) msec);
      _ ← modify (λ s, MkEPoll (selectables s) (write_events evs (evlist s)) (epfd s));
      if rv r <? 0 then
        if negb (errno r =? EINTR) then raise (IOException (errno r) "")
        else epoll_loop tries' msec
      else mret (MkRange 0 (u32 (rv r)))
  end.

Definition epoll_poll (msec : Z) : prog posix EPollSelectorImpl ReadyIdRange := epoll_loop 3 msec.

Definition epoll_getEvent (i : Z) : prog posix EPollSelectorImpl Event :=
  s ← get;
  match evlist s !! Z.to_nat i with
  | None => stuck OutOfBounds
  | Some None => stuck NullPointer
  | Some (Some (native, ptr)) =>
      match deref (selectables s) ptr with
      | None => stuck DanglingPointer
      | Some selected =>
          mret (MkEvent (ev_fd selected) (epoll_client_events native) (ev_data selected))
      end
  end.

Definition epoll_advance (offsetIndex : Z) : prog posix EPollSelectorImpl Z :=
  mret (u32 (offsetIndex + 1)).

#[export] Instance EPollSelector_impl : IPollerImpl EPollSelectorImpl := {|
  add := epoll_add;
  addRaw := epoll_addRaw;
  remove := epoll_remove;
  poll := epoll_poll;
  getEvent := epoll_getEvent;
  advance := epoll_advance |}.

(** [~EPollSelectorImpl()]. *)
Definition epoll_destroy : prog posix EPollSelectorImpl unit :=
  s ← get; _ ← perform (sys_close (epfd s)); mret tt.

(** ** What the kernel holds *)

(** The descriptor and the pointer of an [EPOLL_CTL_ADD]. *)
Definition registered (e : event posix) : option (Z * vec_ptr) :=
  match ev_op e with
  | sys_epoll_ctl _ op fd _ (Some p) => if op =? EPOLL_CTL_ADD then Some (fd, p) else None
  | _ => None
  end.

(** Every pointer given to the kernel still leads to the event of its descriptor. *)
Definition pointers_valid (s : EPollSelectorImpl) (t : trace posix) : Prop :=
  Forall (λ e, ∀ fd p, registered e = Some (fd, p) →
    ∃ ev, deref (selectables s) p = Some ev ∧ ev_fd ev = fd) t.

(** Registrations of a client, in order. *)
Fixpoint add_all (l : list (Z * Z * Z)) : prog posix EPollSelectorImpl unit := λ K s t,
  match l with
  | [] => Run (Ret tt) s t
  | (fd, events, data) :: l' =>
      match add fd events data K s t with Run _ s' t' => add_all l' K s' t' end
  end.

(** ** Facts *)

Lemma add_run fd events data K s t :
  let v := push_back (MkEvent fd 0 data) (selectables s) in
  let s' := MkEPoll v (evlist s) (epfd s) in
  let op := sys_epoll_ctl (epfd s) EPOLL_CTL_ADD fd (epoll_native_events events) (Some (back_ptr v)) in
  ∃ o r, add fd events data K s t = Run o s' (Prelude.Event op r :: t).
Proof.
  cbn zeta. unfold add; cbn. unfold epoll_add, epoll_addRaw. unfold_prog.
  case_if; eexists _, _; reflexivity.
Qed.

Lemma push_back_elems e v : elems (push_back e v) = elems v ++ [e].
Proof. unfold push_back. by case_decide. Qed.

Lemma push_back_full e v :
  length (elems v) = capacity v →
  push_back e v = MkVec (S (block v)) (Nat.max 1 (2 * capacity v)) (elems v ++ [e]).
Proof. intros. unfold push_back. by rewrite decide_True. Qed.

Lemma push_back_room e v :
  length (elems v) ≠ capacity v → push_back e v = MkVec (block v) (capacity v) (elems v ++ [e]).
Proof. intros. unfold push_back. by rewrite decide_False. Qed.

(** Below the capacity, no pointer moves, and the new pointer is good. *)
Lemma push_back_deref e v p ev :
  length (elems v) ≠ capacity v → deref v p = Some ev → deref (push_back e v) p = Some ev.
Proof.
  intros Hc. rewrite push_back_room by done. unfold deref. cbn. case_decide; [|done]. intros Hp. by apply lookup_app_l_Some.
Qed.

Lemma back_ptr_deref e v : deref (push_back e v) (back_ptr (push_back e v)) = Some e.
Proof.
  unfold deref, back_ptr. cbn. rewrite decide_True by done. rewrite push_back_elems.
  rewrite length_app. cbn. replace (pred (length (elems v) + 1)) with (length (elems v)) by lia.
  by rewrite lookup_app_r, Nat.sub_diag by lia.
Qed.

Lemma pointers_valid_add fd events data K s t :
  length (elems (selectables s)) ≠ capacity (selectables s) →
  pointers_valid s t →
  let r := add fd events data K s t in
  pointers_valid (st r) (tr r) ∧ elems (selectables (st r)) = elems (selectables s) ++ [MkEvent fd 0 data]
  ∧ capacity (selectables (st r)) = capacity (selectables s).
Proof.
  intros Hc Hv. cbn zeta. destruct (add_run fd events data K s t) as (o & r & ->). cbn.
  split_and!; [|by rewrite push_back_elems|unfold push_back; by rewrite decide_False].
  constructor.
  - intros fd' p Hr. cbn in Hr. injection Hr as <- <-. eexists. split; [apply back_ptr_deref|done].
  - eapply Forall_impl; [exact Hv|]. cbn. intros e He fd' p Hr.
    destruct (He fd' p Hr) as (ev & Hd & Hf). exists ev. split; [|done].
    by apply push_back_deref.
Qed.

Lemma add_all_valid l K s t :
  (length (elems (selectables s)) + length l ≤ capacity (selectables s))%nat →
  pointers_valid s t →
  let r := add_all l K s t in
  pointers_valid (st r) (tr r) ∧
  elems (selectables (st r)) = elems (selectables s) ++ map (λ x, MkEvent x.1.1 0 x.2) l.
Proof.
  revert s t. induction l as [|[[fd ev] data] l IH]; intros s t Hl Hv; cbn [add_all].
  { cbn. by rewrite app_nil_r. }
  cbn [length] in Hl.
  destruct (pointers_valid_add fd ev data K s t ltac:(lia) Hv) as (Hv' & He & Hc).
  destruct (add fd ev data K s t) as [o s' t']; cbn in *.
  destruct (IH s' t') as [IH1 IH2]; [rewrite Hc, He, length_app; cbn; lia|done|].
  split; [done|]. rewrite IH2, He. by rewrite <- app_assoc.
Qed.

Lemma filter_unregistered fd (es : list Event) : Forall (λ e, ev_fd e ≠ fd) es → filter (λ e, ev_fd e ≠ fd) es = es.
Proof. induction 1; [done|]. rewrite filter_cons_True by done. by f_equal. Qed.

Arguments vec_remove : simpl never.

(** *** Iteration over the events of the kernel *)

Fixpoint decode (v : event_vector) (evs : list (Z * vec_ptr)) : option (list Event) :=
  match evs with
  | [] => Some []
  | (native, p) :: evs' =>
      match deref v p, decode v evs' with
      | Some e, Some es => Some (MkEvent (ev_fd e) (epoll_client_events native) (ev_data e) :: es)
      | _, _ => None
      end
  end.

Lemma write_events_lookup evs l i :
  (length evs ≤ length l)%nat → (i < length evs)%nat →
  write_events evs l !! i = Some <$> evs !! i.
Proof.
  intros Hl Hi. unfold write_events. rewrite take_ge by (rewrite length_map; lia).
  rewrite lookup_app_l by (rewrite length_map; lia). apply list_lookup_fmap.
Qed.

Lemma decode_chain s evs es k :
  Z.of_nat (length evs) < 2 ^ 32 → (length evs ≤ length (evlist s))%nat →
  (∀ i, (i < length evs)%nat → evlist s !! i = Some <$> evs !! i) →
  (k ≤ length evs)%nat → decode (selectables s) (drop k evs) = Some es →
  chain s (Z.of_nat (length evs)) (Z.of_nat k) es.
Proof.
  intros H32 Hle Hlk. remember (length evs - k)%nat as m eqn:Hm.
  revert k es Hm. induction m as [|m IH]; intros k es Hm Hk Hd.
  - rewrite drop_ge in Hd by lia. injection Hd as <-. replace k with (length evs) by lia. constructor.
  - destruct (lookup_lt_is_Some_2 evs k) as [[nat p] Hp]; [lia|].
    rewrite (drop_S _ _ k Hp) in Hd. cbn in Hd.
    destruct (deref (selectables s) p) as [e|] eqn:He; [|done].
    destruct (decode (selectables s) (drop (S k) evs)) as [es'|] eqn:Hes; [|done].
    injection Hd as <-. eapply (chain_step _ _ _ (Z.of_nat (S k))); try lia.
    + intros K t. unfold getEvent; cbn. unfold epoll_getEvent. unfold_prog.
      rewrite Nat2Z.id, Hlk, Hp by lia. cbn. by rewrite He.
    + intros K t. unfold advance; cbn. unfold epoll_advance. unfold_prog. f_equal. f_equal.
      unfold u32. rewrite wrap_unsigned_small; lia.
    + apply (IH (S k)); [lia|lia|done].
Qed.

(** ** Properties *)

(** Pointer safety within the reserved capacity.  A client that registers at most
    [maxReportedEvents] descriptors, and removes none, leaves the kernel with pointers
    that all lead to the event of the descriptor they were registered for, whatever the
    kernel answered to each registration. *)
Lemma epoll_pointers_valid n l K s0 :
  out (EPollSelectorImpl_new n K s0 []) = Ret tt → (length l ≤ Z.to_nat n)%nat →
  let s := st (EPollSelectorImpl_new n K s0 []) in
  let t := tr (EPollSelectorImpl_new n K s0 []) in
  pointers_valid (st (add_all l K s t)) (tr (add_all l K s t)) ∧
  elems (selectables (st (add_all l K s t))) = map (λ x, MkEvent x.1.1 0 x.2) l.
Proof.
  intros Ho Hl. cbn zeta.
  assert (Hs : selectables (st (EPollSelectorImpl_new n K s0 [])) = reserve (Z.to_nat n)).
  { revert Ho. unfold EPollSelectorImpl_new. unfold_prog. by case_if. }
  pose proof (add_all_valid l K (st (EPollSelectorImpl_new n K s0 []))
    (tr (EPollSelectorImpl_new n K s0 []))) as Hv.
  rewrite Hs in Hv. cbn [elems capacity reserve length app] in Hv. apply Hv; [done|].
  revert Ho. unfold EPollSelectorImpl_new. unfold_prog. case_if; [done|]. intros _.
  constructor; [|constructor]. by intros fd p.
Qed.

(** C34.  Growth beyond the capacity leaves dangling pointers.  When the vector is full,
    the next registration moves it: no pointer registered before leads anywhere any
    more, and an event the kernel reports through one of them is undefined behaviour. *)
Theorem epoll_growth_dangles fd events data K s t p e :
  length (elems (selectables s)) = capacity (selectables s) →
  deref (selectables s) p = Some e →
  let s' := st (add fd events data K s t) in
  deref (selectables s') p = None ∧
  ∀ i native K' t', evlist s' !! Z.to_nat i = Some (Some (native, p)) →
    out (getEvent i K' s' t') = Stuck DanglingPointer.
Proof.
  intros Hfull Hp. cbn zeta. destruct (add_run fd events data K s t) as (o & r & ->). cbn.
  assert (Hn : deref (push_back (MkEvent fd 0 data) (selectables s)) p = None).
  { rewrite push_back_full by done. unfold deref in *. cbn. case_decide as Hb; [|done].
    rewrite decide_False by lia. done. }
  split; [done|]. intros i native K' t' Hi. unfold epoll_getEvent. unfold_prog.
  by rewrite Hi, Hn.
Qed.

(** Removing the descriptor that is registered once takes its element out; the kernel may say that
    it does not know it. *)
Lemma remove_run fd pre e0 es (K : world posix) s (t : trace posix) :
  elems (selectables s) = pre ++ e0 :: es →
  ev_fd e0 = fd → Forall (λ e, ev_fd e ≠ fd) pre → Forall (λ e, ev_fd e ≠ fd) es →
  let a := K _ t (sys_epoll_ctl (epfd s) EPOLL_CTL_DEL fd 0 None) in
  rv a ≠ -1 ∨ errno a = ENOENT →
  st (remove fd K s t) = MkEPoll (MkVec (block (selectables s)) (capacity (selectables s)) (pre ++ es)) (evlist s) (epfd s).
Proof.
  intros He H0 Hpre Hes a Ha. change (remove fd K s t) with (epoll_remove fd K s t). unfold epoll_remove.
  rewrite bind_get, bind_perform. fold a.
  assert (Hv : vec_remove fd (selectables s) = MkVec (block (selectables s)) (capacity (selectables s)) (pre ++ es)).
  { unfold vec_remove. f_equal. rewrite He, filter_app, filter_cons_False by (rewrite H0; tauto).
    by rewrite !filter_unregistered. }
  rewrite (Z.eqb_sym (-1)). destruct (Z.eqb_spec (rv a) (-1)) as [Hr|Hr].
  - destruct Ha as [|Ha]; [done|]. rewrite Ha, Z.eqb_refl. cbn [negb]. rewrite bind_ret. cbn -[vec_remove]. by rewrite Hv.
  - rewrite bind_ret. cbn -[vec_remove]. by rewrite Hv.
Qed.

(** C35.  Removal redirects pointers.  When a descriptor that is registered once is removed, and
    the kernel forgets it or never knew it, the pointers that the kernel was given for elements
    before it lead to the same elements; but each pointer from its own on leads to the element
    after its own.  So an event of a descriptor that is still registered, if it was added later, is
    reported with the descriptor and data of the next one, and the pointer of the last one leads
    nowhere. *)
Theorem epoll_remove_redirects fd pre e0 es (K : world posix) s (t : trace posix) :
  elems (selectables s) = pre ++ e0 :: es →
  ev_fd e0 = fd → Forall (λ e, ev_fd e ≠ fd) pre → Forall (λ e, ev_fd e ≠ fd) es →
  let a := K _ t (sys_epoll_ctl (epfd s) EPOLL_CTL_DEL fd 0 None) in
  rv a ≠ -1 ∨ errno a = ENOENT →
  let s' := st (remove fd K s t) in
  let pointer i := VecPtr (block (selectables s)) i in
  (∀ i, (i < length pre)%nat → deref (selectables s') (pointer i) = deref (selectables s) (pointer i)) ∧
  (∀ i, (length pre ≤ i)%nat → deref (selectables s') (pointer i) = deref (selectables s) (pointer (S i))) ∧
  (∀ n native i e K' t', evlist s !! n = Some (Some (native, pointer i)) → (length pre ≤ i)%nat →
     deref (selectables s) (pointer (S i)) = Some e →
     out (getEvent (Z.of_nat n) K' s' t') = Ret (MkEvent (ev_fd e) (epoll_client_events native) (ev_data e))) ∧
  (∀ n native K' t', evlist s !! n = Some (Some (native, pointer (length pre + length es)%nat)) →
     out (getEvent (Z.of_nat n) K' s' t') = Stuck DanglingPointer).
Proof.
  intros He H0 Hpre Hes a Ha. cbn zeta. rewrite (remove_run fd pre e0 es) by done.
  assert (Hd : ∀ i, deref (MkVec (block (selectables s)) (capacity (selectables s)) (pre ++ es)) (VecPtr (block (selectables s)) i) = (pre ++ es) !! i)
    by (intros; unfold deref; cbn; by rewrite decide_True).
  assert (Hs : ∀ i, deref (selectables s) (VecPtr (block (selectables s)) i) = (pre ++ e0 :: es) !! i)
    by (intros; unfold deref; cbn; by rewrite decide_True, He).
  assert (Hnext : ∀ i, (length pre ≤ i)%nat → (pre ++ es) !! i = (pre ++ e0 :: es) !! S i).
  { intros i Hi. rewrite !lookup_app_r by lia. by replace (S i - length pre)%nat with (S (i - length pre)) by lia. }
  split; [|split; [|split]].
  - intros i Hi. cbn [selectables]. by rewrite Hd, Hs, !lookup_app_l by done.
  - intros i Hi. cbn [selectables]. rewrite Hd, Hs. by apply Hnext.
  - intros n native i e K' t' Hl Hi Hi'. unfold getEvent; cbn. unfold epoll_getEvent. unfold_prog.
    rewrite Nat2Z.id. cbn [evlist selectables]. rewrite Hl, Hd, Hnext, <- Hs, Hi' by done. done.
  - intros n native K' t' Hl. unfold getEvent; cbn. unfold epoll_getEvent. unfold_prog.
    rewrite Nat2Z.id. cbn [evlist selectables]. rewrite Hl, Hd, lookup_ge_None_2; [done|]. rewrite length_app. lia.
Qed.

(** Polling through valid pointers.  When [epoll_wait] reports [evs], no more than the
    array holds, and their pointers lead to live elements, iterating over the result ends
    after exactly one event for each of them, in the order of the kernel, with the
    registered descriptor and data and the decoded events. *)
Lemma epoll_reports_ready s msec evs es (K : world posix) (t : trace posix) fuel pimpl :
  let ask := sys_epoll_wait (epfd s) (Z.of_nat (length (evlist s))) msec in
  K _ t ask = (Sys (Z.of_nat (length evs)) 0, evs) →
  (length evs ≤ length (evlist s))%nat → Z.of_nat (length evs) < 2 ^ 32 →
  decode (selectables s) evs = Some es → (length evs < fuel)%nat →
  out ((it ← sel_poll pimpl msec; iterate fuel it) K s t) = Ret es.
Proof.
  intros ask Hk Hle H32 Hd Hfuel.
  set (s' := MkEPoll (selectables s) (write_events evs (evlist s)) (epfd s)).
  assert (Hu : u32 (Z.of_nat (length evs)) = Z.of_nat (length evs)) by (apply wrap_unsigned_small; lia).
  assert (Hrun : sel_poll pimpl msec K s t =
    Run (Ret (MkIterator 0 (Z.of_nat (length evs)) pimpl)) s' (Prelude.Event ask (K _ t ask) :: t)).
  { unfold sel_poll, poll; cbn. unfold epoll_poll. cbn [epoll_loop]. unfold_prog. fold ask.
    rewrite Hk. cbn. destruct (Z.ltb_spec (Z.of_nat (length evs)) 0); [lia|]. by rewrite Hu. }
  unfold mbind, prog_bind. rewrite Hrun.
  assert (Hc : chain s' (Z.of_nat (length evs)) (Z.of_nat 0) es).
  { apply (decode_chain s' evs); try done; [|intros; by apply write_events_lookup|lia].
    cbn. unfold write_events. rewrite length_app, length_take, length_drop, length_map. lia. }
  rewrite (iterate_chain _ _ _ _ _ _ _ _ Hc); [done|].
  pose proof (chain_length _ _ _ _ Hc). lia.
Qed.

Lemma write_events_length evs l : length (write_events evs l) = length l.
Proof. unfold write_events. rewrite length_app, length_take, length_drop, length_map. lia. Qed.

Section Retry.
Context (K : world posix) (ask : posix (sysret * list (Z * vec_ptr))).

(** The trace after [n] interrupted waits. *)
Fixpoint waits (n : nat) (t : trace posix) : trace posix :=
  match n with
  | O => t
  | S n' => waits n' (Prelude.Event ask (K _ t ask) :: t)
  end.

Definition answer (n : nat) (t : trace posix) : sysret := (K _ (waits n t) ask).1.

Definition wait_outcome (r : sysret) : outcome ReadyIdRange :=
  if rv r <? 0 then Raise (IOException (errno r) "") else Ret (MkRange 0 (u32 (rv r))).

Definition interrupted_wait (r : sysret) : bool := (rv r <? 0) && (errno r =? EINTR).

End Retry.

Lemma epoll_loop_outcome n tries msec K s t :
  let ask := sys_epoll_wait (epfd s) (Z.of_nat (length (evlist s))) msec in
  (∀ i, (i < n)%nat → interrupted_wait (answer K ask i t) = true) →
  (n < tries)%nat → interrupted_wait (answer K ask n t) = false →
  out (epoll_loop tries msec K s t) = wait_outcome (answer K ask n t) ∧
  tr (epoll_loop tries msec K s t) = waits K ask (S n) t.
Proof.
  cbn zeta. revert n s t. induction tries as [|tries IH]; intros n s t Hi Hn Hlast; [lia|].
  cbn [epoll_loop]. unfold_prog.
  set (ask := sys_epoll_wait _ _ _) in *.
  destruct (K _ t ask) as [r evs] eqn:Hk. cbn.
  destruct n as [|n].
  - assert (Ha : answer K ask 0 t = r) by (unfold answer; cbn; by rewrite Hk).
    rewrite Ha in *. unfold interrupted_wait, wait_outcome in *.
    destruct (rv r <? 0); cbn in *; [rewrite Hlast; cbn|]; by rewrite ?Hk.
  - pose proof (Hi 0%nat ltac:(lia)) as H0. unfold answer in H0; cbn in H0. rewrite Hk in H0.
    unfold interrupted_wait in H0; cbn in H0. apply andb_true_iff in H0 as [-> ->]. cbn.
    set (s' := MkEPoll _ _ _). set (t' := _ :: t).
    assert (Hask : sys_epoll_wait (epfd s') (Z.of_nat (length (evlist s'))) msec = ask).
    { unfold s'; cbn. by rewrite write_events_length. }
    assert (Ht : ∀ i, answer K ask (S i) t = answer K ask i t').
    { intros i. unfold answer. cbn. by rewrite Hk. }
    destruct (IH n s' t') as [IH1 IH2]; rewrite ?Hask.
    + intros i ?. rewrite <- Ht. apply Hi. lia.
    + lia.
    + by rewrite <- Ht.
    + rewrite Hask in IH1, IH2. rewrite IH1, IH2, Ht. split; [done|]. cbn. by rewrite ?Hk.
Qed.

Lemma epoll_loop_interrupted tries msec K s t :
  let ask := sys_epoll_wait (epfd s) (Z.of_nat (length (evlist s))) msec in
  (∀ i, (i < tries)%nat → interrupted_wait (answer K ask i t) = true) →
  out (epoll_loop tries msec K s t) = Ret (MkRange 0 0) ∧
  tr (epoll_loop tries msec K s t) = waits K ask tries t.
Proof.
  cbn zeta. revert s t. induction tries as [|tries IH]; intros s t Hi; [done|].
  cbn [epoll_loop]. unfold_prog. set (ask := sys_epoll_wait _ _ _) in *.
  destruct (K _ t ask) as [r evs] eqn:Hk. cbn.
  pose proof (Hi 0%nat ltac:(lia)) as H0. unfold answer in H0; cbn in H0. rewrite Hk in H0.
  unfold interrupted_wait in H0; cbn in H0. apply andb_true_iff in H0 as [-> ->]. cbn.
  set (s' := MkEPoll _ _ _). set (t' := _ :: t).
  assert (Hask : sys_epoll_wait (epfd s') (Z.of_nat (length (evlist s'))) msec = ask).
  { unfold s'; cbn. by rewrite write_events_length. }
  destruct (IH s' t') as [IH1 IH2]; rewrite ?Hask.
  - intros i ?. specialize (Hi (S i) ltac:(lia)). unfold answer in *. cbn in Hi. by rewrite Hk in Hi.
  - rewrite Hask in IH2. rewrite IH1, IH2. cbn. by rewrite ?Hk.
Qed.

(** Interruptions of [epoll_wait].  [poll] makes at most three waits.  The first
    answer that is not an interruption decides the result: its count of events, or an
    IOException with its error; three interruptions in a row are reported as no event. *)
Lemma epoll_poll_interruptions msec (K : world posix) s (t : trace posix) :
  let ask := sys_epoll_wait (epfd s) (Z.of_nat (length (evlist s))) msec in
  (∃ n, (n < 3)%nat ∧ (∀ i, (i < n)%nat → interrupted_wait (answer K ask i t) = true) ∧
    interrupted_wait (answer K ask n t) = false ∧
    out (poll msec K s t) = wait_outcome (answer K ask n t) ∧
    tr (poll msec K s t) = waits K ask (S n) t) ∨
  ((∀ i, (i < 3)%nat → interrupted_wait (answer K ask i t) = true) ∧
    out (poll msec K s t) = Ret (MkRange 0 0) ∧ tr (poll msec K s t) = waits K ask 3 t).
Proof.
  cbn zeta. set (ask := sys_epoll_wait _ _ _).
  assert (Hcase : ∀ n, (n < 3)%nat → (∀ i, (i < n)%nat → interrupted_wait (answer K ask i t) = true) →
    interrupted_wait (answer K ask n t) = false → out (poll msec K s t) = wait_outcome (answer K ask n t) ∧
    tr (poll msec K s t) = waits K ask (S n) t) by (intros; by apply epoll_loop_outcome).
  assert (Hleft : ∀ n, (n < 3)%nat →
    (∀ i, (i < n)%nat → interrupted_wait (answer K ask i t) = true) →
    interrupted_wait (answer K ask n t) = false →
    ∃ n, (n < 3)%nat ∧ (∀ i, (i < n)%nat → interrupted_wait (answer K ask i t) = true) ∧
      interrupted_wait (answer K ask n t) = false ∧
      out (poll msec K s t) = wait_outcome (answer K ask n t) ∧ tr (poll msec K s t) = waits K ask (S n) t)
    by (intros n ???; exists n; by split_and!; try apply Hcase).
  destruct (interrupted_wait (answer K ask 0 t)) eqn:H0.
  2: { left. apply (Hleft 0%nat); [lia| |done]. intros; lia. }
  destruct (interrupted_wait (answer K ask 1 t)) eqn:H1.
  2: { left. apply (Hleft 1%nat); [lia| |done]. intros [|]; [done|lia]. }
  destruct (interrupted_wait (answer K ask 2 t)) eqn:H2.
  2: { left. apply (Hleft 2%nat); [lia| |done]. intros [|[|]]; [done|done|lia]. }
  right. assert (∀ i, (i < 3)%nat → interrupted_wait (answer K ask i t) = true) as Hall
    by (intros [|[|[|]]]; [done|done|done|lia]).
  split; [done|]. by apply epoll_loop_interrupted.
Qed.

(** One registration in a selector created for one event, then a second one. *)
Definition demo_full : EPollSelectorImpl := MkEPoll (MkVec 0 1 [MkEvent 3 0 100]) [None] 9.

Lemma epoll_growth_dangles_witness :
  deref (selectables demo_full) (VecPtr 0 0) = Some (MkEvent 3 0 100) ∧
  deref (selectables (st (add 4 Read 101 zero_world demo_full []))) (VecPtr 0 0) = None.
Proof.
  split; [done|].
  exact (proj1 (epoll_growth_dangles 4 Read 101 zero_world demo_full [] (VecPtr 0 0)
    (MkEvent 3 0 100) eq_refl eq_refl)).
Defined.

(** Descriptors 3, 4, 5 and 6 are registered; 4 is removed: the pointer of 3 is right, that of 5
    leads to 6, and the event of 6 can not be got. *)
Lemma epoll_remove_redirects_witness :
  let s := MkEPoll (MkVec 0 4 [MkEvent 3 0 100; MkEvent 4 0 101; MkEvent 5 0 102; MkEvent 6 0 103])
             [Some (EPOLLIN, VecPtr 0 2); Some (EPOLLIN, VecPtr 0 3)] 9 in
  let s' := st (remove 4 zero_world s []) in
  deref (selectables s') (VecPtr 0 0) = Some (MkEvent 3 0 100) ∧
  out (getEvent 0 zero_world s' []) = Ret (MkEvent 6 1 103) ∧
  out (getEvent 1 zero_world s' []) = Stuck DanglingPointer.
Proof.
  intros s s'.
  destruct (epoll_remove_redirects 4 [MkEvent 3 0 100] (MkEvent 4 0 101) [MkEvent 5 0 102; MkEvent 6 0 103] zero_world s [])
    as (Hb & _ & Hn & Hd); [done|done|by repeat constructor|by repeat constructor|by left|].
  split; [exact (Hb 0%nat ltac:(cbn; lia))|]. split.
  - exact (Hn 0%nat EPOLLIN 2%nat (MkEvent 6 0 103) zero_world [] eq_refl ltac:(cbn; lia) eq_refl).
  - exact (Hd 1%nat EPOLLIN zero_world [] eq_refl).
Defined.
