(* ===== verification/Pollers.v ===== *)
(** * What a poller promises to the selector

    The contract of [Selector::IPollerImpl], as a class: registrations and polls are safe and
    only report what was registered.  Both implementations fulfil it, and a client of the
    selector is proved against it alone.  [remove] is no part of the contract: the epoll
    implementation does not keep its pointers through it ([epoll_remove_redirects]). *)
From stdpp Require Import sets.
From S2P Require Import Prelude Posix Selector PollSelector EPollSelector.

(** No undefined behaviour, and no exception but [IOException]. *)
Definition safely {A} (o : outcome A) (Q : A → Prop) : Prop :=
  match o with Ret a => Q a | Raise (IOException _ _) => True | _ => False end.

Lemma safely_mono {A} (o : outcome A) (P Q : A → Prop) : (∀ a, P a → Q a) → safely o P → safely o Q.
Proof. destruct o as [|[]|]; cbn; auto. Qed.

(** [kernel]: the worlds whose kernel behaves as documented; [sound]: the invariant, of the
    state and of what the kernel was told; [room s n]: [n] more registrations are allowed;
    [table]: the descriptors registered, with their data, in order. *)
Class Poller (I : Type) `{IPollerImpl I} := {
  kernel : world posix → Prop;
  sound : I → trace posix → Prop;
  room : I → nat → Prop;
  table : I → list (Z * Z);
  add_contract K s t fd events data n :
    sound s t → room s (S n) →
    let r := add fd events data K s t in
    safely (out r) (λ _, True) ∧ sound (st r) (tr r) ∧ room (st r) n ∧ table (st r) = table s ++ [(fd, data)];
  poll_contract K s t msec n :
    kernel K → sound s t → room s n →
    let r := poll msec K s t in
    safely (out r) (λ range, ∃ evs, chain (st r) (count range) (firstReady range) evs ∧
      Forall (λ e, (ev_fd e, ev_data e) ∈ table s) evs) ∧
    sound (st r) (tr r) ∧ room (st r) n ∧ table (st r) = table s }.

(** ** A client *)

Section Client.
Context {I : Type} `{Poller I}.

(** [for (auto ev : it)]: the range bounds the number of rounds. *)
Definition for_each (it : Iterator) : prog posix I (list Event) := iterate (S (Z.to_nat (it_size it))) it.

(** Registrations: descriptor, events, data. *)
Fixpoint register (l : list (Z * Z * Z)) : prog posix (Facade.Selector (I := I)) unit :=
  match l with
  | [] => mret tt
  | (fd, events, data) :: l' => _ ← Facade.add fd events data; register l'
  end.

(** Rounds of [for (auto ev : selector.poll(msec))]. *)
Fixpoint rounds (n : nat) (pimpl msec : Z) : prog posix (Facade.Selector (I := I)) (list (list Event)) :=
  match n with
  | O => mret []
  | S n' =>
      it ← Facade.poll pimpl msec;
      evs ← Facade.on_pimpl (for_each it);
      rest ← rounds n' pimpl msec;
      mret (evs :: rest)
  end.

(** The state of a selector between the calls: [tbl] has all that is registered. *)
Definition serving (tbl : list (Z * Z)) (n : nat) (s : I) (t : trace posix) : Prop :=
  sound s t ∧ room s n ∧ table s ⊆ tbl.

(** A call that keeps it, up to an exception; [Q] holds of what it returns. *)
Definition kept {A} (tbl : list (Z * Z)) (n : nat) (Q : A → I → Prop) (r : run posix (Facade.Selector (I := I)) A) : Prop :=
  ∃ s, st r = Some s ∧ sound s (tr r) ∧ table s ⊆ tbl ∧ safely (out r) (λ a, room s n ∧ Q a s).

Lemma kept_ret {A} tbl n (Q : A → I → Prop) a K s t :
  serving tbl n s t → Q a s → kept tbl n Q (mret (M := prog posix _) a K (Some s) t).
Proof. intros (Hs & Hr & Ht) HQ. exists s. by split_and!. Qed.

Lemma kept_bind {A B} tbl n k (P : A → I → Prop) (Q : B → I → Prop) (m : prog posix _ A) f K s t :
  kept tbl n P (m K s t) →
  (∀ a s' t', P a s' → serving tbl n s' t' → kept tbl k Q (f a K (Some s') t')) →
  kept tbl k Q ((m ≫= f) K s t).
Proof.
  intros (s' & Hs & Hsound & Htbl & Ho) Hf. rewrite bind_run.
  destruct (m K s t) as [[a|e|u] s1 t1]; cbn in *; subst.
  - destruct Ho as [Hr HP]. by apply Hf.
  - by exists s'.
  - done.
Qed.

Lemma kept_add tbl n fd events data K s t :
  serving tbl (S n) s t → (fd, data) ∈ tbl →
  kept tbl n (λ _ _, True) (Facade.add fd events data K (Some s) t).
Proof.
  intros (Hs & Hr & Ht) Hin. unfold Facade.add, Facade.on_pimpl.
  destruct (add_contract K s t fd events data n Hs Hr) as (Ho & Hs' & Hr' & Htbl).
  destruct (add fd events data K s t) as [o s' t']; cbn in *. exists s'. split_and!; [done..| |].
  - cbn. rewrite Htbl. intros x Hx. apply elem_of_app in Hx as [?|?%list_elem_of_singleton]; subst; auto.
  - by eapply safely_mono, Ho.
Qed.

Lemma kept_register tbl n l K s t :
  serving tbl (length l + n) s t → Forall (λ x, (x.1.1, x.2) ∈ tbl) l →
  kept tbl n (λ _ _, True) (register l K (Some s) t).
Proof.
  revert s t. induction l as [|[[fd events] data] l IH]; intros s t Hs Hl; [by apply kept_ret|].
  inversion_clear Hl. cbn [register]. eapply kept_bind; [by apply (kept_add tbl (length l + n))|]. intros [] s' t' _ Hs'. by apply IH.
Qed.

(** The events of a round lead from one index to the next, and are of the table. *)
Lemma kept_poll tbl n pimpl msec K s t :
  kernel K → serving tbl n s t →
  kept tbl n (λ it s', ∃ evs, chain s' (it_size it) (it_index it) evs ∧ Forall (λ e, (ev_fd e, ev_data e) ∈ tbl) evs)
    (Facade.poll pimpl msec K (Some s) t).
Proof.
  intros Hk (Hs & Hr & Ht). unfold Facade.poll, Facade.on_pimpl, sel_poll. rewrite bind_run.
  destruct (poll_contract K s t msec n Hk Hs Hr) as (Ho & Hs' & Hr' & Htbl).
  destruct (poll msec K s t) as [[range|e|u] s' t']; cbn in *; exists s'; cbn; rewrite Htbl; [|by split_and!..].
  split_and!; [done..|]. destruct Ho as (evs & Hc & He). exists evs. split; [done|].
  eapply Forall_impl; [exact He|]. intros e He'. by apply Ht.
Qed.

Lemma chain_fuel s size i evs : chain s size i evs → (length evs < S (Z.to_nat size))%nat.
Proof. intros Hc. pose proof (chain_length _ _ _ _ Hc). destruct Hc; cbn in *; lia. Qed.

Lemma kept_for_each tbl n it evs K s t :
  serving tbl n s t → chain s (it_size it) (it_index it) evs →
  kept tbl n (λ r _, r = evs) (Facade.on_pimpl (for_each it) K (Some s) t).
Proof.
  intros Hs Hc. unfold Facade.on_pimpl, for_each. destruct it as [i size pimpl]. cbn [it_index it_size] in *.
  rewrite (iterate_chain s size i evs _ pimpl K t Hc (chain_fuel _ _ _ _ Hc)).
  by apply (kept_ret tbl n (λ r _, r = evs) evs K s t).
Qed.

Lemma kept_rounds tbl k n pimpl msec K s t :
  kernel K → serving tbl k s t →
  kept tbl k (λ evss _, length evss = n ∧ Forall (Forall (λ e, (ev_fd e, ev_data e) ∈ tbl)) evss)
    (rounds n pimpl msec K (Some s) t).
Proof.
  intros Hk. revert s t. induction n as [|n IH]; intros s t Hs; [by apply kept_ret|]. cbn [rounds].
  eapply kept_bind; [by apply kept_poll|]. intros it s1 t1 (evs & Hc & He) Hs1.
  eapply kept_bind; [apply (kept_for_each _ _ _ evs); done|].
  intros r s2 t2 -> Hs2. eapply kept_bind; [by apply IH|]. intros evss s3 t3 [Hl Hall] Hs3.
  apply kept_ret; [done|]. split; [by cbn; f_equal|by constructor].
Qed.

(** C8.  The contract is enough for a client.  On any implementation that fulfils it, over any
    kernel that behaves as documented, a client that registers descriptors while there is room,
    and then polls and goes through the events any number of times, reaches no undefined
    behaviour and no exception but IOException; whatever it is reported is a descriptor that it
    registered, with the data it gave. *)
Theorem selector_safe (l : list (Z * Z * Z)) n pimpl msec (s : I) K t :
  kernel K → sound s t → room s (length l) → table s = [] →
  let r := (_ ← register l; rounds n pimpl msec) K (Facade.create s) t in
  safely (out r) (λ evss, length evss = n ∧
    Forall (Forall (λ e, ∃ events, (ev_fd e, events, ev_data e) ∈ l)) evss).
Proof.
  intros Hk Hs Hr Ht. cbn zeta.
  set (tbl := map (λ x : Z * Z * Z, (x.1.1, x.2)) l).
  assert (kept tbl 0 (λ evss _, length evss = n ∧ Forall (Forall (λ e, (ev_fd e, ev_data e) ∈ tbl)) evss)
    ((_ ← register l; rounds n pimpl msec) K (Facade.create s) t)) as (s' & _ & _ & _ & Ho).
  { eapply kept_bind; [apply (kept_register tbl 0)|].
    - rewrite Nat.add_0_r. split_and!; [done..|]. rewrite Ht. set_solver.
    - apply Forall_forall. intros x Hx. apply list_elem_of_fmap. by exists x.
    - intros [] s1 t1 _ Hs1. by apply kept_rounds. }
  eapply safely_mono, Ho. intros evss (_ & Hn & Hall). split; [done|].
  eapply Forall_impl; [exact Hall|]. intros evs Hevs. eapply Forall_impl; [exact Hevs|].
  intros e He. apply list_elem_of_fmap in He as ([[fd events] data] & [= -> ->] & Hin). by exists events.
Qed.

End Client.

(** ** poll(2) *)

Definition named (e : Event) : Z * Z := (ev_fd e, ev_data e).

Lemma out_events_named es ps : Forall (λ e, named e ∈ map named es) (out_events es ps).
Proof.
  revert ps. induction es as [|e es IH]; intros [|p ps]; try by constructor. cbn [out_events].
  apply Forall_app. split; [case_match; repeat constructor|].
  eapply Forall_impl; [apply IH|]. cbn. intros e' ?. by right.
Qed.

(** Nothing is asked of the kernel, and there is room for what an index counts. *)
#[export] Program Instance poll_poller : Poller PollSelectorImpl := {|
  kernel := λ _, True;
  sound := λ s _, aligned s;
  room := λ s n, Z.of_nat (length (pollfds s) + n) < 2 ^ 32;
  table := λ s, map named (PollSelector.selectables s) |}.
Next Obligation.
  intros K s t fd events data n Hs Hr. destruct (table_step_run (t_add fd events data) K s t Hs) as (Ho & _ & Ha & _).
  change (add fd events data K s t) with (table_step (t_add fd events data) K s t) in *.
  split_and!; [by rewrite Ho|done| |]; cbn; rewrite ?length_app, ?map_app; [cbn in *; lia|done].
Qed.
Next Obligation.
  intros K s t msec n _ Ha Hr. cbn zeta. unfold poll; cbn [PollSelector_impl]. unfold poll_poll. rewrite bind_get, bind_perform.
  set (ans := K _ t _). destruct ans as [r revents]. set (t' := Prelude.Event _ _ :: t).
  set (s' := MkPoll (PollSelector.selectables s) (write_revents (pollfds s) revents)).
  assert (Ha' : aligned s') by (unfold aligned, s'; cbn; by rewrite write_revents_fd).
  assert (Hlen : length (pollfds s') = length (pollfds s)) by apply write_revents_length.
  assert (H32 : Z.of_nat (length (pollfds s')) < 2 ^ 32) by (rewrite Hlen; cbn in Hr; lia).
  rewrite bind_run. unfold modify. fold s'. destruct (rv r <? 0); [cbn; by rewrite write_revents_length|].
  destruct (rv r =? 0); [cbn; rewrite write_revents_length; split_and!; [exists []; by repeat constructor|done..]|].
  rewrite bind_get, (u32_len s' H32), bind_run.
  pose proof (findFirstReady_spec s' H32 0 K t' ltac:(lia)) as Hf. change (Z.of_nat 0) with 0 in Hf.
  rewrite Hf. pose proof (chain_from s' H32 0 Ha' ltac:(lia)) as Hc. rewrite !drop_0 in *. cbn in *.
  split_and!; [|done|by rewrite write_revents_length|done]. eexists. split; [exact Hc|]. apply out_events_named.
Qed.

(** ** epoll(7) *)

(** A wait reports no more than there is room for, and hands back pointers that it was given. *)
Definition epoll_kernel (K : world posix) : Prop :=
  ∀ t ep n ms, 0 ≤ n → let a := K _ t (sys_epoll_wait ep n ms) in
    rv a.1 < 2 ^ 31 ∧ (0 ≤ rv a.1 → rv a.1 = Z.of_nat (length a.2) ∧ rv a.1 ≤ n) ∧
    Forall (λ x, ∃ e fd, e ∈ t ∧ registered e = Some (fd, x.2)) a.2.

(** The events that the kernel reports can be read, and are of the table. *)
Lemma decode_known s t evs :
  pointers_valid s t → Forall (λ x, ∃ e fd, e ∈ t ∧ registered e = Some (fd, x.2)) evs →
  ∃ es, decode (selectables s) evs = Some es ∧ Forall (λ e, named e ∈ map named (elems (selectables s))) es.
Proof.
  intros Hv. induction 1 as [|[native p] evs (e & fd & Hin & Hreg) _ (es & Hd & Hes)]; [by exists []|].
  destruct (proj1 (Forall_forall _ _) Hv e Hin fd p Hreg) as (ev & Hp & _). cbn [decode]. rewrite Hp, Hd.
  eexists. split; [done|]. constructor; [|done]. unfold deref in Hp. case_decide; [|done].
  apply (list_elem_of_fmap_2 named _ ev). by eapply list_elem_of_lookup_2.
Qed.

Lemma epoll_loop_contract tries msec K s t :
  epoll_kernel K → pointers_valid s t →
  let r := epoll_loop tries msec K s t in
  safely (out r) (λ range, ∃ evs, chain (st r) (count range) (firstReady range) evs ∧
    Forall (λ e, named e ∈ map named (elems (selectables s))) evs) ∧
  pointers_valid (st r) (tr r) ∧ selectables (st r) = selectables s.
Proof.
  intros Hk. revert s t. induction tries as [|tries IH]; intros s t Hv; cbn [epoll_loop].
  { split_and!; [exists []; by repeat constructor|done..]. }
  rewrite bind_get, bind_perform. set (ask := sys_epoll_wait _ _ _).
  destruct (Hk t (epfd s) (Z.of_nat (length (evlist s))) msec ltac:(lia)) as (H31 & Hn & Hreg). fold ask in H31, Hn, Hreg.
  set (ans := K _ t ask) in *. set (t' := Prelude.Event ask ans :: t). destruct ans as [r evs] eqn:Hans. cbn [fst snd] in *.
  set (s' := MkEPoll (selectables s) (write_events evs (evlist s)) (epfd s)).
  assert (Hv' : pointers_valid s' t') by (constructor; [by intros|exact Hv]).
  rewrite bind_run. unfold modify. fold s'. destruct (Z.ltb_spec (rv r) 0).
  { destruct (negb _); [done|]. exact (IH s' t' Hv'). }
  destruct Hn as [Hn Hmax]; [lia|]. destruct (decode_known s t evs Hv Hreg) as (es & Hd & Hes).
  split_and!; [|done..]. exists es. split; [|done]. cbn [st count firstReady mret prog_ret].
  unfold u32. rewrite wrap_unsigned_small, Hn by lia. apply (decode_chain s' evs es 0); try done; try lia.
  - cbn. rewrite write_events_length. lia.
  - intros i Hi. apply write_events_lookup; lia.
Qed.

#[export] Program Instance epoll_poller : Poller EPollSelectorImpl := {|
  kernel := epoll_kernel;
  sound := pointers_valid;
  room := λ s n, (length (elems (selectables s)) + n ≤ capacity (selectables s))%nat;
  table := λ s, map named (elems (selectables s)) |}.
Next Obligation.
  intros K s t fd events data n Hs Hr. cbn in Hr.
  destruct (pointers_valid_add fd events data K s t ltac:(lia) Hs) as (Hv & He & Hc). cbn zeta.
  rewrite He, Hc, length_app, map_app. split_and!; [|done|cbn; lia|done].
  unfold add; cbn. unfold epoll_add, epoll_addRaw. unfold_prog. by case_if.
Qed.
Next Obligation.
  intros K s t msec n Hk Hs Hr. destruct (epoll_loop_contract 3 msec K s t Hk Hs) as (Ho & Hv & Hsel).
  cbn zeta in *. change (poll msec K s t) with (epoll_loop 3 msec K s t). by rewrite Hsel.
Qed.

(** ** The beginning *)

Lemma createPoll_ready n k t :
  Z.of_nat k < 2 ^ 32 → sound (createPoll n) t ∧ room (createPoll n) k ∧ table (createPoll n) = [].
Proof. by intros. Qed.

(** A new epoll selector has room for what it was created for. *)
Lemma createEPoll_ready n K s :
  out (createEPoll n K None []) = Ret tt → st (createEPoll n K None []) = Some s →
  sound s (tr (createEPoll n K None [])) ∧ room s (Z.to_nat n) ∧ table s = [].
Proof.
  unfold createEPoll, EPollSelectorImpl_new. unfold_prog. case_if; cbn; [done|]. intros _ [= <-].
  split_and!; [by repeat constructor|done..].
Qed.

(** ** On an input *)

(** A kernel that reports what it was given, the last registrations first. *)
Definition echo_kernel : world posix := λ R t op,
  match op in posix R return R with
  | sys_epoll_wait _ n _ =>
      let l := take (Z.to_nat (Z.min n 3)) (omap registered t) in
      (Sys (Z.of_nat (length l)) 0, map (λ x, (EPOLLIN, x.2)) l)
  | sys_poll fds _ => (Sys (Z.of_nat (length fds)) 0, map (λ _, POLLIN) fds)
  | op => zero_answer op
  end.

Lemma echo_kernel_ok : epoll_kernel echo_kernel.
Proof.
  intros t ep n ms Hn. cbn zeta. unfold echo_kernel. cbn. rewrite length_map, length_take. split_and!; [lia|lia|].
  apply Forall_fmap, Forall_forall. intros [fd p] Hx. apply elem_of_take in Hx as (i & Hx%list_elem_of_lookup_2 & _).
  apply list_elem_of_omap in Hx as (e & He & Hr). by exists e, fd.
Qed.

(** Two descriptors and two rounds, on either implementation. *)
Lemma selector_safe_witness :
  let l := [(3, Read, 100); (4, Write, 101)] in
  let run {I} `{Poller I} (s : I) t := (_ ← register l; rounds 2 7 (-1)) echo_kernel (Facade.create s) t in
  let given evss := length evss = 2%nat ∧ Forall (Forall (λ e, ∃ events, (ev_fd e, events, ev_data e) ∈ l)) evss in
  safely (out (run (createPoll 2) [])) given ∧
  safely (out (run (MkEPoll (reserve 2) [None; None] 9) [])) given ∧
  out (run (MkEPoll (reserve 2) [None; None] 9) []) =
    Ret [[MkEvent 4 Read 101; MkEvent 3 Read 100]; [MkEvent 4 Read 101; MkEvent 3 Read 100]].
Proof.
  intros l run given. split_and!.
  - by apply (selector_safe l 2 7 (-1) (createPoll 2) echo_kernel []).
  - apply (selector_safe l 2 7 (-1) (MkEPoll (reserve 2) [None; None] 9) echo_kernel []);
      [exact echo_kernel_ok|by constructor|cbn; lia|reflexivity].
  - reflexivity.
Defined.
