(* ===== verification/SelectorEquivalence.v ===== *)
(** * poll and epoll report the same

    Both implementations of the selector, from their creation to the events that a client sees,
    over a kernel that does what the manual pages of poll(2) and epoll(7) say of the same set of
    conditions. *)
From stdpp Require Import list.
From S2P Require Import Prelude Posix Selector PollSelector EPollSelector Pollers.

(** The conditions that hold of each descriptor, in the bits that both interfaces share. *)
Section Conditions.
Context (cond : Z → Z).

(** An error and a hang-up are reported whether or not they were asked for. *)
Definition unasked : Z := Z.lor POLLERR POLLHUP.

(** *** poll(2) *)

Definition marks (p : Z * Z) : Z := Z.land (cond p.1) (Z.lor p.2 unasked).

Definition poll_kernel (K : world posix) : Prop := ∀ t fds msec,
  K _ t (sys_poll fds msec) = (Sys (Z.of_nat (length (filter (λ x, x ≠ 0) (map marks fds)))) 0, map marks fds).

(** *** epoll(7) *)

(** What an [EPOLL_CTL_ADD] to [ep] registers. *)
Definition interest (ep : Z) (e : event posix) : option (Z * Z * vec_ptr) :=
  match ev_op e with
  | sys_epoll_ctl ep' op fd mask (Some p) => if (ep' =? ep) && (op =? EPOLL_CTL_ADD) then Some (fd, mask, p) else None
  | _ => None
  end.

(** The calls of a set-up. *)
Definition setup (e : event posix) : Prop :=
  match ev_op e with sys_epoll_create _ => True | sys_epoll_ctl _ op _ _ _ => op = EPOLL_CTL_ADD | _ => False end.

Definition ready_entry (x : Z * Z * vec_ptr) : option (Z * vec_ptr) :=
  let native := marks x.1 in if truthy native then Some (native, x.2) else None.

(** A descriptor can be added once; when there is room for all that is ready, a wait reports all of
    it, in some order. *)
Definition wait_kernel (K : world posix) : Prop := ∀ t ep, Forall setup t →
  (∀ fd mask p, fd ∉ map (λ x, x.1.1) (omap (interest ep) t) →
    rv (K _ t (sys_epoll_ctl ep EPOLL_CTL_ADD fd mask (Some p))) = 0) ∧
  ∀ n msec, let ready := omap ready_entry (omap (interest ep) t) in
    Z.of_nat (length ready) ≤ n →
    ∃ evs, evs ≡ₚ ready ∧ K _ t (sys_epoll_wait ep n msec) = (Sys (Z.of_nat (length evs)) 0, evs).

(** ** What a client should see of a registration *)

Definition poll_report (x : Z * Z * Z) : option Event :=
  let revents := marks (x.1.1, native_events x.1.2) in
  if truthy revents then Some (MkEvent x.1.1 (client_events revents) x.2) else None.

Definition epoll_report (x : Z * Z * Z) : option Event :=
  let native := marks (x.1.1, epoll_native_events x.1.2) in
  if truthy native then Some (MkEvent x.1.1 (epoll_client_events native) x.2) else None.

(** Nothing but input, room for output, and errors. *)
Definition plain (c : Z) : Prop := Z.land c (Z.lor POLLIN (Z.lor POLLOUT POLLERR)) = c.

Lemma plain_cases c : plain c → c = 0 ∨ c = 1 ∨ c = 4 ∨ c = 5 ∨ c = 8 ∨ c = 9 ∨ c = 12 ∨ c = 13.
Proof.
  intros <-. set (m := Z.lor _ _).
  assert (Hm : ∀ c, Z.land c m = (if Z.testbit c 0 then 1 else 0) + (if Z.testbit c 2 then 4 else 0) + (if Z.testbit c 3 then 8 else 0)).
  { intros c'. unfold m. rewrite !Z.land_lor_distr_r. change POLLIN with (2 ^ 0). change POLLOUT with (2 ^ 2). change POLLERR with (2 ^ 3).
    rewrite !land_bit by done. by destruct (Z.testbit c' 0), (Z.testbit c' 2), (Z.testbit c' 3). }
  rewrite Hm. destruct (Z.testbit c 0), (Z.testbit c 2), (Z.testbit c 3); cbn; lia.
Qed.

(** Of these, both make the same. *)
Lemma reports_agree x : plain (cond x.1.1) → poll_report x = epoll_report x.
Proof.
  intros Hp%plain_cases. unfold poll_report, epoll_report, marks, native_events, epoll_native_events. cbn [fst snd].
  destruct (has_flag x.1.2 Read), (has_flag x.1.2 Write), (has_flag x.1.2 EvError), (has_flag x.1.2 Hup);
    destruct Hp as [->|[->|[->|[->|[->|[->|[->| ->]]]]]]]; reflexivity.
Qed.

End Conditions.

(** ** A client *)

(** Registrations, one poll, and the events of the iteration. *)
Definition watch_once {I} `{Poller I} (fuel : nat) (l : list (Z * Z * Z)) (pimpl msec : Z) :
    prog posix (Facade.Selector (I := I)) (list Event) :=
  _ ← register l;
  it ← Facade.poll pimpl msec;
  Facade.on_pimpl (iterate fuel it).

Lemma watch_run {I} `{Poller I} fuel l pimpl msec (s s' : I) K t t' :
  register l K (Some s) t = Run (Ret tt) (Some s') t' →
  out (watch_once fuel l pimpl msec K (Some s) t) = out ((it ← sel_poll pimpl msec; iterate fuel it) K s' t').
Proof.
  intros Hl. unfold watch_once. rewrite bind_run, Hl. unfold Facade.poll, Facade.on_pimpl.
  rewrite !bind_run. destruct (sel_poll pimpl msec K s' t') as [[it|e|u] s1 t1]; [|done..].
  by destruct (iterate fuel it K s1 t1).
Qed.

(** The stored event of a registration. *)
Definition stored (x : Z * Z * Z) : Event := MkEvent x.1.1 0 x.2.

(** *** poll(2) *)

Section Poll.
Context (cond : Z → Z) (K : world posix) (HK : poll_kernel cond K).

Definition watched (x : Z * Z * Z) : pollfd := PollFd x.1.1 (native_events x.1.2) 0.

Lemma poll_register l (s : PollSelectorImpl) (t : trace posix) :
  register l K (Some s) t =
    Run (Ret tt) (Some (MkPoll (PollSelector.selectables s ++ map stored l) (pollfds s ++ map watched l))) t.
Proof.
  revert s. induction l as [|[[fd events] data] l IH]; intros [es ps]; [cbn; by rewrite !app_nil_r|]. cbn [register].
  change (Facade.add fd events data) with (Facade.on_pimpl (poll_add fd events data)).
  rewrite bind_run. cbn -[native_events]. rewrite (proj1 (poll_mask_roundtrip events 0 0)), IH. cbn.
  by rewrite <- !app_assoc.
Qed.

Lemma marks_short fd events : s16 (marks cond (fd, native_events events)) = marks cond (fd, native_events events).
Proof.
  unfold marks. cbn [fst snd]. set (m := Z.lor _ _).
  assert (Hm : Z.land m (Z.ones 15) = m).
  { unfold m, native_events. by destruct (has_flag events Read), (has_flag events Write), (has_flag events Hup). }
  apply wrap_signed_small; [lia|]. rewrite <- Hm, Z.land_assoc, Z.land_ones by lia.
  pose proof (Z.mod_pos_bound (Z.land (cond fd) m) (2 ^ 15) ltac:(lia)). lia.
Qed.

(** The entries that the kernel marks are those that are reported. *)
Lemma ready_reports l :
  ready_events (zip_with (λ e p, Reg (ev_fd e) (p_events p) (ev_data e)) (map stored l) (map watched l))
    (map (marks cond) (map (λ x, (x.1.1, native_events x.1.2)) l)) = omap (poll_report cond) l.
Proof.
  induction l as [|[[fd events] data] l IH]; [done|]. cbn [map zip_with ready_events omap list_omap].
  rewrite IH. unfold event_of, poll_report, stored, watched. cbn -[marks s16 native_events client_events].
  rewrite marks_short. by destruct (truthy _).
Qed.

Lemma none_ready l :
  Z.of_nat (length (filter (λ x, x ≠ 0) (map (marks cond) (map (λ x, (x.1.1, native_events x.1.2)) l)))) = 0 →
  omap (poll_report cond) l = [].
Proof.
  induction l as [|x l IH]; [done|]. cbn [map]. rewrite filter_cons. case_decide as Hx; [done|]. intros Hl.
  cbn. unfold poll_report at 1. destruct (Z.eq_dec (marks cond (x.1.1, native_events x.1.2)) 0) as [->|]; [by apply IH|done].
Qed.

Lemma poll_once l n fuel pimpl msec t :
  Z.of_nat (length l) < 2 ^ 32 → (length l < fuel)%nat →
  out (watch_once fuel l pimpl msec K (Facade.create (createPoll n)) t) = Ret (omap (poll_report cond) l).
Proof.
  intros Hl Hf. rewrite (watch_run fuel l pimpl msec (createPoll n) _ K t t (poll_register l _ t)).
  cbn [PollSelector.selectables pollfds createPoll PollSelectorImpl_new app].
  set (s := MkPoll _ _). set (fds := map (λ p, (p_fd p, p_events p)) (pollfds s)).
  assert (Hfds : fds = map (λ x, (x.1.1, native_events x.1.2)) l) by (unfold fds, s; cbn; by rewrite map_map).
  pose proof (HK t fds msec) as Hask. set (rs := map (marks cond) fds) in Hask. set (n0 := Z.of_nat _) in Hask.
  destruct (Z.eq_dec n0 0) as [H0|H0].
  - rewrite none_ready by (rewrite <- Hfds; exact H0). unfold sel_poll. rewrite bind_run, bind_run.
    assert (Hp : poll msec K s t = Run (Ret (MkRange 0 0)) (MkPoll (PollSelector.selectables s) (write_revents (pollfds s) rs))
      (Prelude.Event (sys_poll fds msec) (K _ t (sys_poll fds msec)) :: t)).
    { unfold poll; cbn [PollSelector_impl]. unfold poll_poll. rewrite bind_get, bind_perform. fold fds. rewrite Hask, H0. done. }
    rewrite Hp. cbn [mret prog_ret firstReady Selector.count]. rewrite (iterate_chain _ 0 0 []); [done|constructor|cbn; lia].
  - destruct (poll_reports s msec rs K t fuel pimpl) as [Ho _].
    + unfold aligned, s. cbn. by rewrite !map_map.
    + unfold s. cbn. by rewrite length_map.
    + fold fds. by rewrite Hask.
    + unfold rs, fds. by rewrite !length_map.
    + fold fds. rewrite Hask. cbn. unfold n0 in *. lia.
    + unfold s. cbn. by rewrite length_map.
    + rewrite Ho. f_equal. unfold rs. rewrite Hfds. apply ready_reports.
Qed.

End Poll.

(** *** epoll(7) *)

Section EPoll.
Context (cond : Z → Z) (K : world posix) (HK : wait_kernel cond K).

(** What the kernel holds of registrations whose events are stored from index [k] on. *)
Fixpoint entries (b k : nat) (l : list (Z * Z * Z)) : list (Z * Z * vec_ptr) :=
  match l with
  | [] => []
  | x :: l' => (x.1.1, epoll_native_events x.1.2, VecPtr b k) :: entries b (S k) l'
  end.

Lemma entries_fds b k l : map (λ x, x.1.1) (entries b k l) = map (λ x, x.1.1) l.
Proof. revert k. induction l as [|x l IH]; intros k; [done|]. cbn. by rewrite IH. Qed.

Lemma epoll_register l (s : EPollSelectorImpl) (t : trace posix) :
  (length (elems (selectables s)) + length l ≤ capacity (selectables s))%nat →
  Forall setup t → NoDup (map (λ x, x.1.1) (omap (interest (epfd s)) t) ++ map (λ x, x.1.1) l) →
  let v := selectables s in
  ∃ t', register l K (Some s) t =
      Run (Ret tt) (Some (MkEPoll (MkVec (block v) (capacity v) (elems v ++ map stored l)) (evlist s) (epfd s))) t' ∧
    Forall setup t' ∧
    omap (interest (epfd s)) t' ≡ₚ omap (interest (epfd s)) t ++ entries (block v) (length (elems v)) l.
Proof.
  cbn zeta. revert s t. induction l as [|[[fd events] data] l IH]; intros [[b cap es] lst ep] t Hroom Hset Hnd; cbn in Hroom.
  { exists t. cbn. rewrite !app_nil_r. by split_and!. }
  cbn [selectables elems block capacity evlist epfd map fst snd entries] in *.
  assert (Hpush : push_back (MkEvent fd 0 data) (MkVec b cap es) = MkVec b cap (es ++ [MkEvent fd 0 data]))
    by (apply push_back_room; cbn; lia).
  assert (Hback : back_ptr (MkVec b cap (es ++ [MkEvent fd 0 data])) = VecPtr b (length es))
    by (unfold back_ptr; cbn; rewrite length_app; cbn; f_equal; lia).
  set (op := sys_epoll_ctl ep EPOLL_CTL_ADD fd (epoll_native_events events) (Some (VecPtr b (length es)))).
  destruct (HK t ep Hset) as [Hadd _].
  assert (Hr : rv (K _ t op) = 0).
  { apply Hadd. intros Hin. apply NoDup_app in Hnd as (_ & Hno & _). apply (Hno fd Hin). by left. }
  set (t1 := Prelude.Event op (K _ t op) :: t).
  assert (Hstep : Facade.add fd events data K (Some (MkEPoll (MkVec b cap es) lst ep)) t =
    Run (Ret tt) (Some (MkEPoll (MkVec b cap (es ++ [MkEvent fd 0 data])) lst ep)) t1).
  { unfold Facade.add, Facade.on_pimpl, add; cbn [EPollSelector_impl]. unfold epoll_add, epoll_addRaw, modify.
    rewrite bind_run. cbn [selectables evlist epfd]. rewrite Hpush, bind_get, bind_perform. cbn [selectables epfd].
    rewrite Hback. fold op. by rewrite Hr. }
  cbn [register]. rewrite bind_run, Hstep.
  assert (Hin1 : omap (interest ep) t1 = (fd, epoll_native_events events, VecPtr b (length es)) :: omap (interest ep) t)
    by (unfold t1, op; cbn; by rewrite Z.eqb_refl).
  destruct (IH (MkEPoll (MkVec b cap (es ++ [MkEvent fd 0 data])) lst ep) t1) as (t' & Ht' & Hset' & Hperm).
  - cbn. rewrite length_app. cbn. lia.
  - by constructor.
  - cbn [epfd]. rewrite Hin1. cbn [map fst]. rewrite <- app_comm_cons.
    eapply NoDup_Permutation_proper; [|exact Hnd]. apply Permutation_middle.
  - exists t'. rewrite Ht'. cbn [selectables elems block capacity evlist epfd] in *. split_and!; [|done|].
    + by rewrite <- app_assoc.
    + rewrite Hperm, Hin1, length_app. cbn [length]. rewrite Nat.add_1_r, <- app_comm_cons. apply Permutation_middle.
Qed.

(** The events of the ready entries, read through the pointers. *)
Definition read_entry (v : event_vector) (x : Z * vec_ptr) : Event :=
  let e := default (MkEvent 0 0 0) (deref v x.2) in MkEvent (ev_fd e) (epoll_client_events x.1) (ev_data e).

Lemma decode_all v evs : Forall (λ x, is_Some (deref v x.2)) evs → decode v evs = Some (map (read_entry v) evs).
Proof.
  induction 1 as [|[native p] evs [e He] _ IH]; [done|]. cbn [decode map]. rewrite IH. unfold read_entry. cbn in *.
  by rewrite He.
Qed.

Lemma entries_read v b es l :
  block v = b → (∀ i, (es ++ map stored l) !! i = elems v !! i) →
  map (read_entry v) (omap (ready_entry cond) (entries b (length es) l)) = omap (epoll_report cond) l ∧
  Forall (λ x, is_Some (deref v x.2)) (omap (ready_entry cond) (entries b (length es) l)).
Proof.
  intros Hb. revert es. induction l as [|x l IH]; intros es Hv; [by split; [|constructor]|].
  destruct (IH (es ++ [stored x])) as [IH1 IH2]; [intros i; rewrite <- Hv; by rewrite <- app_assoc|].
  rewrite length_app in IH1, IH2. cbn [length] in IH1, IH2. rewrite Nat.add_1_r in IH1, IH2.
  assert (Hd : deref v (VecPtr b (length es)) = Some (stored x)).
  { unfold deref. cbn. rewrite decide_True by done. rewrite <- Hv, lookup_app_r by lia. by rewrite Nat.sub_diag. }
  set (native := marks cond (x.1.1, epoll_native_events x.1.2)). set (p := VecPtr b (length es)) in *.
  assert (Hr : ready_entry cond (x.1.1, epoll_native_events x.1.2, p) = if truthy native then Some (native, p) else None) by done.
  assert (Hx : epoll_report cond x = if truthy native then Some (MkEvent x.1.1 (epoll_client_events native) x.2) else None) by done.
  cbn [entries omap list_omap]. fold p. rewrite Hr, Hx. destruct (truthy native); [|by split].
  split; [cbn [map]; f_equal; [unfold read_entry; cbn [fst snd]; by rewrite Hd|exact IH1]|].
  constructor; [|done]. cbn. by rewrite Hd.
Qed.

Lemma omap_length {A B} (f : A → option B) l : (length (omap f l) ≤ length l)%nat.
Proof. induction l as [|x l IH]; [done|]. cbn. destruct (f x); cbn; unfold omap in *; lia. Qed.

Lemma epoll_once l n fuel pimpl msec (s : EPollSelectorImpl) t :
  createEPoll n K None [] = Run (Ret tt) (Some s) t →
  NoDup (map (λ x, x.1.1) l) → Z.of_nat (length l) ≤ n < 2 ^ 32 → (length l < fuel)%nat →
  ∃ evs, out (watch_once fuel l pimpl msec K (Some s) t) = Ret evs ∧ evs ≡ₚ omap (epoll_report cond) l.
Proof.
  unfold createEPoll, EPollSelectorImpl_new. unfold_prog. case_if; [done|]. intros [= <- <-] Hnd Hl Hf.
  set (ep := rv _) in *. set (t0 := [_]). set (N := Z.to_nat n).
  destruct (epoll_register l (MkEPoll (reserve N) (replicate N None) ep) t0) as (t' & Hreg & Hset & Hperm).
  - cbn. lia.
  - by repeat constructor.
  - exact Hnd.
  - cbn [selectables reserve elems block capacity evlist epfd app length] in *. rewrite (watch_run _ _ _ _ _ _ _ _ _ Hreg).
    set (v := MkVec 0 N (map stored l)). set (s := MkEPoll v (replicate N None) ep).
    destruct (entries_read v 0 [] l eq_refl ltac:(done)) as [Hread Hptr]. cbn [length] in Hread, Hptr.
    destruct (HK t' ep Hset) as [_ Hwait].
    assert (Hready : omap (ready_entry cond) (omap (interest ep) t') ≡ₚ omap (ready_entry cond) (entries 0 0 l))
      by by rewrite Hperm.
    assert (Hlen : (length (omap (ready_entry cond) (entries 0 0 l)) ≤ length l)%nat).
    { etransitivity; [apply omap_length|]. pose proof (f_equal length (entries_fds 0 0 l)) as Hfds. rewrite !length_map in Hfds. lia. }
    destruct (Hwait (Z.of_nat (length (replicate N (@None (Z * vec_ptr))))) msec) as (evs & Hp & Hans).
    { rewrite length_replicate, Hready. lia. }
    assert (Hevs : evs ≡ₚ omap (ready_entry cond) (entries 0 0 l)) by by rewrite Hp.
    exists (map (read_entry v) evs). split; [|by rewrite Hevs, Hread].
    apply Permutation_length in Hevs as Hle. apply (epoll_reports_ready s msec evs); [exact Hans| | | |lia].
    + cbn. rewrite length_replicate. lia.
    + lia.
    + apply decode_all. by rewrite Hevs.
Qed.

End EPoll.
(** A hang-up reaches the client of epoll; the client of poll gets an event without events. *)
Lemma hang_up_reports cond x :
  cond x.1.1 = POLLHUP →
  poll_report cond x = Some (MkEvent x.1.1 0 x.2) ∧ epoll_report cond x = Some (MkEvent x.1.1 Hup x.2).
Proof.
  intros Hc. unfold poll_report, epoll_report, marks, native_events, epoll_native_events. cbn [fst snd]. rewrite Hc.
  by destruct (has_flag x.1.2 Read), (has_flag x.1.2 Write), (has_flag x.1.2 EvError), (has_flag x.1.2 Hup).
Qed.

(** ** Properties *)

(** C22.  The two selectors are equivalent.  A client that creates a selector, registers different
    descriptors, no more than the selector was made for, polls once and iterates gets, over a
    kernel in which the same conditions hold, exactly the reports of what is ready: from poll in the
    order of the registrations, from epoll in the order of the kernel.  When the conditions are
    input, room for output and errors, they are the same events with the same data, whatever was
    asked for.  They part at a hang-up, which only epoll reports as [Hup]. *)
Theorem selectors_agree (cond : Z → Z) (Kp Ke : world posix) l n fuel pimpl msec (s : EPollSelectorImpl) t tp :
  poll_kernel cond Kp → wait_kernel cond Ke →
  createEPoll n Ke None [] = Run (Ret tt) (Some s) t →
  NoDup (map (λ x, x.1.1) l) → Z.of_nat (length l) ≤ n < 2 ^ 32 → (length l < fuel)%nat →
  out (watch_once fuel l pimpl msec Kp (Facade.create (createPoll n)) tp) = Ret (omap (poll_report cond) l) ∧
  ∃ evs, out (watch_once fuel l pimpl msec Ke (Some s) t) = Ret evs ∧ evs ≡ₚ omap (epoll_report cond) l ∧
    (Forall (λ x, plain (cond x.1.1)) l → evs ≡ₚ omap (poll_report cond) l) ∧
    ∀ x, cond x.1.1 = POLLHUP →
      poll_report cond x = Some (MkEvent x.1.1 0 x.2) ∧ epoll_report cond x = Some (MkEvent x.1.1 Hup x.2).
Proof.
  intros HKp HKe Hc Hnd Hl Hf. split; [apply poll_once; [done|lia|done]|].
  destruct (epoll_once cond Ke HKe l n fuel pimpl msec s t Hc Hnd Hl Hf) as (evs & Ho & Hp).
  exists evs. split_and!; [done..| |intros x; apply hang_up_reports]. intros Hplain. rewrite Hp.
  assert (He : omap (poll_report cond) l = omap (epoll_report cond) l).
  { apply list_omap_ext, Forall_Forall2_diag. eapply Forall_impl; [exact Hplain|]. intros x. apply reports_agree. }
  by rewrite He.
Qed.

(** ** On an input *)

(** Descriptor 3 has input, 4 has room, and 5 has an error. *)
Definition demo_cond (fd : Z) : Z := if fd =? 3 then POLLIN else if fd =? 4 then POLLOUT else if fd =? 5 then POLLERR else 0.

Definition demo_both : world posix := λ R t op,
  match op in posix R return R with
  | sys_epoll_wait ep n _ =>
      let l := omap (ready_entry demo_cond) (omap (interest ep) t) in (Sys (Z.of_nat (length l)) 0, l)
  | sys_poll fds _ => (Sys (Z.of_nat (length (filter (λ x, x ≠ 0) (map (marks demo_cond) fds)))) 0, map (marks demo_cond) fds)
  | op => zero_answer op
  end.

Lemma demo_waits : wait_kernel demo_cond demo_both.
Proof. intros t ep _. split; [done|]. intros n msec ready _. by exists ready. Qed.

(** Who waits for room on 3 gets nothing; the error is reported although it was not asked for; the
    order differs. *)
Lemma selectors_agree_witness :
  let l := [(4, Write, 100); (3, Write, 101); (5, Read, 102)] in
  let s := MkEPoll (reserve 3) [None; None; None] 0 in
  let t := [Prelude.Event (sys_epoll_create 3) sys0] in
  out (watch_once 5 l 0 (-1) demo_both (Facade.create (createPoll 3)) []) = Ret [MkEvent 4 Write 100; MkEvent 5 EvError 102] ∧
  ∃ evs, out (watch_once 5 l 0 (-1) demo_both (Some s) t) = Ret evs ∧ evs ≡ₚ [MkEvent 4 Write 100; MkEvent 5 EvError 102] ∧
    evs = [MkEvent 5 EvError 102; MkEvent 4 Write 100].
Proof.
  intros l s t.
  destruct (selectors_agree demo_cond demo_both demo_both l 3 5 0 (-1) s t []) as (Hp & evs & He & _ & Hag & _).
  - done.
  - exact demo_waits.
  - reflexivity.
  - apply (bool_decide_eq_true_1 _). vm_compute. reflexivity.
  - cbn. lia.
  - cbn. lia.
  - split; [exact Hp|]. exists evs. split; [exact He|]. split; [apply Hag; by repeat constructor|].
    assert (Ret evs = Ret [MkEvent 5 EvError 102; MkEvent 4 Write 100]) as [= ->] by (rewrite <- He; vm_compute; reflexivity).
    reflexivity.
Defined.
