(* ===== verification/IPAddress.v ===== *)
(** * Network addresses

    include/cadence/ipaddress.hpp, ipendpoint.hpp, unixDomainEndpoint.hpp,
    networkEndpoint.hpp and src/ipendpoint.cpp.  An address is a union of 16 bytes and
    a flag; [s_addr] is the number the host reads from the first four bytes, so the
    definitions that use it depend on the byte order of the host. *)
From S2P Require Import Prelude Solace.

(** ** Host words *)

Inductive endian := LittleEndian | BigEndian.

(** The four bytes of a word, most significant first, and the word of four bytes. *)
Definition be_bytes (v : Z) : list Z :=
  [u8 (Z.shiftr v 24); u8 (Z.shiftr v 16); u8 (Z.shiftr v 8); u8 v].
Definition be_word (bs : list Z) : Z :=
  match bs with
  | [a; b; c; d] => a * 2 ^ 24 + b * 2 ^ 16 + c * 2 ^ 8 + d
  | _ => 0
  end.

(** How the host reads and writes a [uint32_t] in memory. *)
Definition load32 (e : endian) (bs : list Z) : Z :=
  match e with BigEndian => be_word bs | LittleEndian => be_word (rev bs) end.
Definition store32 (e : endian) (v : Z) : list Z :=
  match e with BigEndian => be_bytes v | LittleEndian => rev (be_bytes v) end.

(** [htonl]: the word whose bytes in memory are those of [v], most significant first. *)
Definition htonl (e : endian) (v : Z) : Z := load32 e (be_bytes v).

Definition INADDR_ANY : Z := 0.
Definition INADDR_LOOPBACK : Z := 0x7F000001.
Definition INADDR_BROADCAST : Z := 0xFFFFFFFF.

(** ** IPAddress *)

Record IPAddress := MkIP { addr_bytes : list Z; isV4 : bool }.

Definition isV6 (a : IPAddress) : bool := negb (isV4 a).

(** Overwrites the first bytes of the union; [junk] is what the memory held before. *)
Definition overwrite (bs junk : list Z) : list Z := bs ++ drop (length bs) junk.

(** The constructors; an [in_addr] is given by its bytes in memory.  Those from an IPv4 address leave the other 12 bytes of the union
    as they find them. *)
Definition IPAddress_default (junk : list Z) : IPAddress := MkIP (overwrite [0; 0; 0; 0] junk) false.
Definition IPAddress_in_addr (in_addr junk : list Z) : IPAddress := MkIP (overwrite in_addr junk) true.
Definition IPAddress_in6_addr (addr : list Z) : IPAddress := MkIP addr false.
Definition IPAddress_bytes4 (addr junk : list Z) : IPAddress := MkIP (overwrite addr junk) true.
Definition IPAddress_bytes16 (addr : list Z) : IPAddress := MkIP addr false.

(** The move constructor and move assignment copy both fields. *)
Definition IPAddress_copy (other : IPAddress) : IPAddress := MkIP (addr_bytes other) (isV4 other).

Definition getBytes_v4 (a : IPAddress) : list Z := take 4 (addr_bytes a).
Definition getBytes_v6 (a : IPAddress) : list Z := take 16 (addr_bytes a).

Definition any (e : endian) (junk : list Z) : IPAddress := IPAddress_in_addr (store32 e (htonl e INADDR_ANY)) junk.
Definition loopback (e : endian) (junk : list Z) : IPAddress :=
  IPAddress_in_addr (store32 e (htonl e INADDR_LOOPBACK)) junk.
Definition broadcast (e : endian) (junk : list Z) : IPAddress :=
  IPAddress_in_addr (store32 e (htonl e INADDR_BROADCAST)) junk.

(** [_addr.ipv4.s_addr] and [_addr.ipv6.s6_addr[i]]. *)
Definition s_addr (e : endian) (a : IPAddress) : Z := load32 e (getBytes_v4 a).
Definition s6_addr (a : IPAddress) (i : nat) : Z := nth i (getBytes_v6 a) 0.

Definition isLoopback (e : endian) (a : IPAddress) : bool :=
  if isV4 a then s_addr e a =? htonl e INADDR_LOOPBACK
  else forallb (λ i, s6_addr a i =? 0) (seq 0 15) && (s6_addr a 15 =? 1).

Definition isUnspecified (e : endian) (a : IPAddress) : bool :=
  if isV4 a then s_addr e a =? 0
  else forallb (λ i, s6_addr a i =? 0) (seq 0 15) && (s6_addr a 15 =? 0).

Definition isMulticast (e : endian) (a : IPAddress) : bool :=
  if isV4 a then Z.land (s_addr e a) 0xF0000000 =? 0xE0000000
  else s6_addr a 0 =? 0xff.

(** [operator==]. *)
Definition addr_eqb (lhs rhs : IPAddress) : bool :=
  if isV4 lhs && isV4 rhs then bool_decide (getBytes_v4 lhs = getBytes_v4 rhs)
  else if isV6 lhs && isV6 rhs then bool_decide (getBytes_v6 lhs = getBytes_v6 rhs)
  else false.

(** ** Text *)

Inductive address_family := AF_INET | AF_INET6.

(** <arpa/inet.h>: [inet_pton] answers its return value and the bytes it stored. *)
Class Inet := {
  inet_pton : address_family → string → Z * list Z;
  inet_ntop : address_family → list Z → option string }.

Section Text.
Context `{Inet} `{!StringOps} `{!ErrorOps}.

Definition IPAddress_toString (a : IPAddress) : string :=
  let res := if isV4 a then inet_ntop AF_INET (getBytes_v4 a) else inet_ntop AF_INET6 (getBytes_v6 a) in
  match res with Some s => s | None => "" end.

(** [str.data()] is not terminated: [inet_pton] reads on, into what follows the view in memory
    ([after]), up to a NUL. *)
Definition parseIPAddress (str after : string) (junk : list Z) : Result IPAddress :=
  let text := c_str (String.append str after) in
  let '(r4, ip4_addr) := inet_pton AF_INET text in
  if truthy r4 then Ok (IPAddress_in_addr ip4_addr junk)
  else
    let '(r6, ip6_addr) := inet_pton AF_INET6 text in
    if truthy r6 then Ok (IPAddress_in6_addr ip6_addr)
    else Err (makeError_basic InvalidInput "parseIPAddress").

(** ** IPEndpoint, UnixEndpoint, NetworkEndpoint *)

Record IPEndpoint := MkEndpoint { port : Z; ipAddress : IPAddress }.

Definition getAddress (p : IPEndpoint) : IPAddress := ipAddress p.
Definition getPort (p : IPEndpoint) : Z := port p.

(** [%hu] of [snprintf]: the digits, most significant first, of a 16-bit number. *)
Fixpoint digits (fuel : nat) (n : Z) : list Z :=
  match fuel with
  | O => []
  | S fuel' => if n <? 10 then [n] else digits fuel' (n / 10) ++ [n mod 10]
  end.

Fixpoint text_of_digits (l : list Z) : string :=
  match l with
  | [] => ""
  | d :: l' => String (Ascii.ascii_of_nat (Z.to_nat (48 + d))) (text_of_digits l')
  end.

(** [snprintf] keeps the characters that fit before the final NUL of the buffer. *)
Definition snprintf_hu (size : nat) (n : Z) : string :=
  text_of_digits (take (pred size) (digits 20 (u16 n))).

Definition IPEndpoint_toString (p : IPEndpoint) : string :=
  let buffer := snprintf_hu 6 (port p) in
  makeStringJoin (IPAddress_toString (ipAddress p)) [":"%string; buffer].

Definition parseIPEndpoint (e : endian) (str : string) (junk : list Z) : Result IPEndpoint :=
  Ok (MkEndpoint 0 (any e junk)).

End Text.

Record UnixEndpoint := MkUnix { unix_str : string }.
Definition UnixEndpoint_toString (u : UnixEndpoint) : string := unix_str u.

(** [std::variant<IPEndpoint, UnixEndpoint>]. *)
Inductive NetworkEndpoint :=
  | NE_IP (p : IPEndpoint)
  | NE_Unix (u : UnixEndpoint).

(** ** Facts *)

Definition is_byte (x : Z) : Prop := 0 ≤ x < 256.

(** [n] bytes of memory. *)
Definition bytes (n : nat) (l : list Z) : Prop := length l = n ∧ Forall is_byte l.

(** What the manual of <arpa/inet.h> says: a conversion that succeeds answers 1 and stores an
    address of the family, one that fails answers 0; the text of an address has no NUL, it is read
    back as the address, and that of an IPv6 address is not an IPv4 address. *)
Class InetLaws `{Inet} : Prop := {
  pton_bytes f s r bs :
    inet_pton f s = (r, bs) → r = 0 ∨ r = 1 ∧ bytes (match f with AF_INET => 4 | AF_INET6 => 16 end) bs;
  ntop_pton4 bs : bytes 4 bs →
    ∃ s, inet_ntop AF_INET bs = Some s ∧ c_str s = s ∧ inet_pton AF_INET s = (1, bs);
  ntop_pton6 bs : bytes 16 bs →
    ∃ s, inet_ntop AF_INET6 bs = Some s ∧ c_str s = s ∧ (inet_pton AF_INET s).1 = 0 ∧
      inet_pton AF_INET6 s = (1, bs) }.

Lemma u8_range x : is_byte (u8 x).
Proof. apply (wrap_unsigned_range 8). lia. Qed.

Lemma be_word_bytes v : 0 ≤ v < 2 ^ 32 → be_word (be_bytes v) = v.
Proof.
  intros Hv. unfold be_bytes, be_word, u8, wrap_unsigned.
  rewrite !Z.shiftr_div_pow2 by lia.
  change (2 ^ 24) with 16777216. change (2 ^ 16) with 65536. change (2 ^ 8) with 256.
  change (2 ^ 32) with 4294967296 in Hv. Z.to_euclidean_division_equations. lia.
Qed.

Lemma be_bytes_word a b c d :
  is_byte a → is_byte b → is_byte c → is_byte d → be_bytes (be_word [a; b; c; d]) = [a; b; c; d].
Proof.
  unfold is_byte. intros. unfold be_bytes, be_word, u8, wrap_unsigned.
  rewrite !Z.shiftr_div_pow2 by lia.
  change (2 ^ 24) with 16777216. change (2 ^ 16) with 65536. change (2 ^ 8) with 256.
  repeat f_equal; Z.to_euclidean_division_equations; lia.
Qed.

Lemma be_word_inj l1 l2 :
  length l1 = 4%nat → length l2 = 4%nat → Forall is_byte l1 → Forall is_byte l2 →
  be_word l1 = be_word l2 → l1 = l2.
Proof.
  intros H1 H2 F1 F2 He.
  destruct l1 as [|a1 [|b1 [|c1 [|d1 [|]]]]]; try done.
  destruct l2 as [|a2 [|b2 [|c2 [|d2 [|]]]]]; try done.
  rewrite !Forall_cons in F1, F2. destruct F1 as (?&?&?&?&_), F2 as (?&?&?&?&_).
  rewrite <- (be_bytes_word a1 b1 c1 d1), <- (be_bytes_word a2 b2 c2 d2) by done. by rewrite He.
Qed.

Lemma load32_length e bs : load32 e bs = be_word (match e with BigEndian => bs | LittleEndian => rev bs end).
Proof. by destruct e. Qed.

Lemma load32_inj e l1 l2 :
  length l1 = 4%nat → length l2 = 4%nat → Forall is_byte l1 → Forall is_byte l2 →
  load32 e l1 = load32 e l2 → l1 = l2.
Proof.
  intros H1 H2 F1 F2. destruct e; cbn; [|by apply be_word_inj].
  intros Hr%be_word_inj; try (by rewrite length_rev); try by apply Forall_rev.
  by apply rev_inj.
Qed.

(** The union is 16 bytes long. *)
Definition valid (a : IPAddress) : Prop := bytes 16 (addr_bytes a).

Lemma overwrite_take bs junk : take (length bs) (overwrite bs junk) = bs.
Proof. unfold overwrite. by rewrite take_app_length. Qed.

(** Equality of addresses is coarser than equality of the objects: the unused bytes of
    the union do not matter. *)
#[export] Instance address_equiv : Equiv IPAddress := λ a b, addr_eqb a b = true.

Lemma addr_eqb_spec a b :
  a ≡ b ↔ isV4 a = isV4 b ∧
    if isV4 a then getBytes_v4 a = getBytes_v4 b else getBytes_v6 a = getBytes_v6 b.
Proof.
  unfold equiv, address_equiv, addr_eqb, isV6.
  destruct (isV4 a), (isV4 b); cbn; rewrite ?bool_decide_eq_true; naive_solver.
Qed.

#[export] Instance address_equivalence : Equivalence (≡@{IPAddress}).
Proof.
  split.
  - intros a. apply addr_eqb_spec. by destruct (isV4 a).
  - intros a b [Hv Hb]%addr_eqb_spec. apply addr_eqb_spec. split; [done|].
    rewrite <- Hv. by destruct (isV4 a).
  - intros a b c [Hv Hb]%addr_eqb_spec [Hv' Hb']%addr_eqb_spec. apply addr_eqb_spec.
    split; [congruence|]. rewrite <- Hv in Hb'. destruct (isV4 a); congruence.
Qed.

Lemma v4_prefix_of_v6 a : getBytes_v4 a = take 4 (getBytes_v6 a).
Proof. unfold getBytes_v4, getBytes_v6. by rewrite take_take. Qed.

#[export] Instance isV4_proper : Proper ((≡) ==> (=)) isV4.
Proof. by intros a b [Hv _]%addr_eqb_spec. Qed.

(** A classification that looks at the four bytes of a v4 address and at the sixteen of a
    v6 one respects equality. *)
Lemma classifier_proper {T} (f4 f6 : list Z → T) :
  Proper ((≡) ==> (=)) (λ a, if isV4 a then f4 (getBytes_v4 a) else f6 (getBytes_v6 a)).
Proof. intros a b [Hv Hb]%addr_eqb_spec. rewrite <- Hv. destruct (isV4 a); by rewrite Hb. Qed.

#[export] Instance isLoopback_proper e : Proper ((≡) ==> (=)) (isLoopback e).
Proof.
  apply (classifier_proper (λ bs, load32 e bs =? htonl e INADDR_LOOPBACK)
    (λ bs, forallb (λ i, nth i bs 0 =? 0) (seq 0 15) && (nth 15 bs 0 =? 1))).
Qed.

#[export] Instance isUnspecified_proper e : Proper ((≡) ==> (=)) (isUnspecified e).
Proof.
  apply (classifier_proper (λ bs, load32 e bs =? 0)
    (λ bs, forallb (λ i, nth i bs 0 =? 0) (seq 0 15) && (nth 15 bs 0 =? 0))).
Qed.

#[export] Instance isMulticast_proper e : Proper ((≡) ==> (=)) (isMulticast e).
Proof.
  apply (classifier_proper (λ bs, Z.land (load32 e bs) 0xF0000000 =? 0xE0000000)
    (λ bs, nth 0 bs 0 =? 0xff)).
Qed.

#[export] Instance toString_proper `{Inet} : Proper ((≡) ==> (=)) IPAddress_toString.
Proof.
  intros a b [Hv Hb]%addr_eqb_spec. unfold IPAddress_toString.
  rewrite <- Hv. destruct (isV4 a); by rewrite Hb.
Qed.

Lemma land_top_nibble x : 0 ≤ x < 2 ^ 32 → Z.land x 0xF0000000 = x / 2 ^ 28 * 2 ^ 28.
Proof.
  intros Hx. change 0xF0000000 with (Z.shiftl (Z.ones 4) 28).
  rewrite <- Z.shiftl_mul_pow2, <- Z.shiftr_div_pow2 by lia.
  apply Z.bits_inj'. intros i Hi. rewrite Z.land_spec, !Z.shiftl_spec by lia.
  destruct (Z.ltb_spec i 28).
  - rewrite !(Z.testbit_neg_r _ (i - 28)) by lia. by rewrite andb_false_r.
  - rewrite Z.shiftr_spec by lia. replace (i - 28 + 28) with i by lia.
    rewrite Z.testbit_ones_nonneg by lia.
    destruct (Z.ltb_spec (i - 28) 4); [by rewrite andb_true_r|rewrite andb_false_r].
    symmetry. destruct (decide (x = 0)) as [->|]; [apply Z.testbit_0_l|].
    apply Z.bits_above_log2; [lia|]. apply Z.log2_lt_pow2; [lia|].
    apply (Z.lt_le_trans _ (2 ^ 32)); [lia|]. apply Z.pow_le_mono_r; lia.
Qed.

Lemma multicast_word a b c d :
  is_byte a → is_byte b → is_byte c → is_byte d →
  (Z.land (be_word [a; b; c; d]) 0xF0000000 =? 0xE0000000) = (224 <=? a) && (a <? 240).
Proof.
  unfold is_byte. intros. cbn [be_word].
  change (2 ^ 24) with 16777216. change (2 ^ 16) with 65536. change (2 ^ 8) with 256.
  set (x := a * 16777216 + b * 65536 + c * 256 + d).
  rewrite land_top_nibble by (change (2 ^ 32) with 4294967296; lia).
  assert (Hq : x / 2 ^ 28 = a / 16).
  { change (2 ^ 28) with 268435456. Z.to_euclidean_division_equations. lia. }
  rewrite Hq. change (2 ^ 28) with 268435456.
  destruct (Z.eqb_spec (a / 16 * 268435456) 3758096384) as [E|E];
    destruct (Z.leb_spec 224 a); destruct (Z.ltb_spec a 240); try done;
    exfalso; Z.to_euclidean_division_equations; lia.
Qed.

Lemma nth_bytes6 (l : list Z) z :
  length l = 16%nat →
  forallb (λ i, nth i l 0 =? 0) (seq 0 15) && (nth 15 l 0 =? z) = true ↔ l = replicate 15 0 ++ [z].
Proof.
  intros Hl. do 17 (destruct l as [|? l]; try done). cbn.
  rewrite !andb_true_iff, !Z.eqb_eq. split; [naive_solver|]. intros [=]. by subst.
Qed.

Lemma be_word_eq_bytes l v :
  length l = 4%nat → Forall is_byte l → 0 ≤ v < 2 ^ 32 → be_word l = v ↔ l = be_bytes v.
Proof.
  intros Hl Hb Hv. split; [|intros ->; by apply be_word_bytes].
  intros <-. destruct l as [|a [|b [|c [|d [|]]]]]; try done.
  rewrite !Forall_cons in Hb. destruct Hb as (?&?&?&?&_). by rewrite be_bytes_word.
Qed.

(** A host word equals [htonl v] when its bytes in memory are those of [v]. *)
Lemma load32_htonl e l v :
  length l = 4%nat → Forall is_byte l → 0 ≤ v < 2 ^ 32 →
  (load32 e l =? htonl e v) = true ↔ l = be_bytes v.
Proof.
  intros Hl Hb Hv. rewrite Z.eqb_eq. unfold htonl. split; [|by intros ->].
  apply load32_inj; try done. repeat constructor; apply u8_range.
Qed.

Lemma bytes_take n m l : bytes m l → bytes (n `min` m) (take n l).
Proof. intros [Hl Hb]. split; [by rewrite length_take, Hl|by apply Forall_take]. Qed.

Lemma valid_v4 a : valid a → bytes 4 (getBytes_v4 a).
Proof. apply (bytes_take 4 16). Qed.

Lemma valid_v6 a : valid a → bytes 16 (getBytes_v6 a).
Proof. apply (bytes_take 16 16). Qed.

Lemma bytes_overwrite n m l junk : bytes n l → bytes m junk → (n ≤ m)%nat → bytes m (overwrite l junk).
Proof.
  intros [Hl Hb] [Hj Hjb] Hle. unfold overwrite. split.
  - rewrite length_app, length_drop. lia.
  - apply Forall_app. split; [done|by apply Forall_drop].
Qed.

Lemma bytes_store32 e v : bytes 4 (store32 e v).
Proof. destruct e; (split; [done|]); repeat constructor; apply u8_range. Qed.

Lemma parse_cases `{Inet, !InetLaws, !ErrorOps} str after junk :
  let text := c_str (String.append str after) in
  (∃ bs, inet_pton AF_INET text = (1, bs) ∧ bytes 4 bs ∧
     parseIPAddress str after junk = Ok (IPAddress_in_addr bs junk)) ∨
  (inet_pton AF_INET text).1 = 0 ∧
  ((∃ bs, inet_pton AF_INET6 text = (1, bs) ∧ bytes 16 bs ∧
      parseIPAddress str after junk = Ok (IPAddress_in6_addr bs)) ∨
   (inet_pton AF_INET6 text).1 = 0 ∧
   parseIPAddress str after junk = Err (makeError_basic InvalidInput "parseIPAddress")).
Proof.
  cbn zeta. unfold parseIPAddress. set (text := c_str _).
  destruct (inet_pton AF_INET text) as [r4 b4] eqn:E4, (inet_pton AF_INET6 text) as [r6 b6] eqn:E6.
  apply pton_bytes in E4, E6. destruct E4 as [->|[-> H4]]; [|left; by exists b4].
  right. split; [done|]. destruct E6 as [->|[-> H6]]; [by right|left; by exists b6].
Qed.

Lemma c_str_append s after : c_str s = s → c_str (String.append s after) = String.append s (c_str after).
Proof.
  induction s as [|c s IH]; [done|]. change (String.append (String c s) after) with (String c (String.append s after)).
  cbn [c_str]. destruct (Ascii.eqb c Ascii.zero); [done|]. intros Hs. injection Hs as Hs. by rewrite (IH Hs).
Qed.

Lemma string_append_nil s : String.append s "" = s.
Proof. induction s as [|c s IH]; [done|]. exact (f_equal (String c) IH). Qed.

(** ** Decimal text of a port *)

Fixpoint value (l : list Z) (acc : Z) : Z :=
  match l with [] => acc | d :: l' => value l' (10 * acc + d) end.

Lemma value_app l1 l2 acc : value (l1 ++ l2) acc = value l2 (value l1 acc).
Proof. revert acc. induction l1; cbn; auto. Qed.

Lemma digits_value fuel n : 0 ≤ n < 10 ^ Z.of_nat fuel → value (digits fuel n) 0 = n.
Proof.
  revert n. induction fuel as [|fuel IH]; intros n Hn; cbn [digits].
  - cbn in *. lia.
  - rewrite Nat2Z.inj_succ, Z.pow_succ_r in Hn by lia.
    destruct (Z.ltb_spec n 10); [done|]. rewrite value_app, IH.
    + cbn. Z.to_euclidean_division_equations. lia.
    + split; [apply Z.div_pos; lia|]. apply Z.div_lt_upper_bound; lia.
Qed.

Lemma digits_length k fuel n : 0 ≤ n < 10 ^ Z.of_nat k → (0 < k)%nat → (length (digits fuel n) ≤ k)%nat.
Proof.
  revert k n. induction fuel as [|fuel IH]; intros k n Hn Hk; cbn [digits]; [cbn; lia|].
  destruct (Z.ltb_spec n 10); [cbn; lia|]. rewrite length_app. cbn.
  destruct k as [|[|k]]; [lia|cbn in Hn; lia|].
  assert (length (digits fuel (n / 10)) ≤ S k)%nat; [|lia].
  apply IH; [|lia]. rewrite Nat2Z.inj_succ, Z.pow_succ_r in Hn by lia.
  split; [apply Z.div_pos; lia|]. apply Z.div_lt_upper_bound; lia.
Qed.

(** ** Properties *)

Lemma multicast_spec e a :
  valid a →
  isMulticast e a =
    (let byte i := nth i (addr_bytes a) 0 in
     let tested := match e with BigEndian => byte 0%nat | LittleEndian => byte 3%nat end in
     if isV4 a then (224 <=? tested) && (tested <? 240) else byte 0%nat =? 255).
Proof.
  intros Hv. destruct (valid_v4 a Hv) as [_ Hb]. destruct Hv as [Hl _]. unfold isMulticast, s_addr.
  destruct a as [bs v4]. cbn [addr_bytes isV4] in *.
  destruct bs as [|b0 [|b1 [|b2 [|b3 rest]]]]; try done.
  unfold getBytes_v4 in *. cbn in Hb. rewrite !Forall_cons in Hb. destruct Hb as (?&?&?&?&_).
  destruct v4; [|done]. destruct e; by apply multicast_word.
Qed.

Lemma from_bytes a junk : valid a →
  (if isV4 a then IPAddress_bytes4 (getBytes_v4 a) junk else IPAddress_bytes16 (getBytes_v6 a)) ≡ a.
Proof.
  intros Hv. destruct (valid_v4 a Hv) as [Hl _]. apply addr_eqb_spec.
  destruct (isV4 a) eqn:E; cbn; (split; [done|]).
  - unfold getBytes_v4 at 1. cbn. rewrite <- Hl at 1. apply overwrite_take.
  - unfold getBytes_v6 at 1. cbn. unfold getBytes_v6. by rewrite take_take.
Qed.

Lemma c_str_idem s : c_str (c_str s) = c_str s.
Proof.
  induction s as [|c s IH]; [done|]. cbn [c_str]. destruct (Ascii.eqb c Ascii.zero) eqn:E; [done|].
  cbn [c_str]. by rewrite E, IH.
Qed.

(** C36.  Equality of addresses.  [operator==] compares the families and then the bytes that the
    family uses, four or sixteen: two IPv4 addresses of the same four bytes are equal whatever the
    other twelve bytes of the union hold, and addresses of different families never are.  It is an
    equivalence; equal addresses print the same and are classified the same, on hosts of either
    byte order. *)
Theorem address_equality `{Inet} :
  Equivalence (λ a b, addr_eqb a b = true) ∧
  (∀ a b, addr_eqb a b = true ↔
     isV4 a = isV4 b ∧ let n := if isV4 a then 4%nat else 16%nat in take n (addr_bytes a) = take n (addr_bytes b)) ∧
  (∀ bs junk junk', length bs = 4%nat → addr_eqb (IPAddress_bytes4 bs junk) (IPAddress_bytes4 bs junk') = true) ∧
  ∀ a b, addr_eqb a b = true →
    isV4 a = isV4 b ∧ IPAddress_toString a = IPAddress_toString b ∧
    ∀ e, isLoopback e a = isLoopback e b ∧ isUnspecified e a = isUnspecified e b ∧
      isMulticast e a = isMulticast e b.
Proof.
  split; [apply address_equivalence|]. split; [|split].
  - intros a b. rewrite (addr_eqb_spec a b). by destruct (isV4 a).
  - intros bs junk junk' Hl. apply (addr_eqb_spec _ _). split; [done|]. cbn [isV4 IPAddress_bytes4].
    unfold getBytes_v4. cbn [addr_bytes IPAddress_bytes4]. rewrite <- Hl. by rewrite !overwrite_take.
  - intros a b Hab. change (a ≡ b) in Hab. repeat split; by rewrite Hab.
Qed.

(** C32.  Round trips.  The bytes of an address build an equal address, in whatever memory; and
    the text of an address is parsed back to an equal address, when a NUL (or nothing) follows
    it in memory.  Otherwise what is parsed is the text with what follows it up to a NUL. *)
Theorem address_text_roundtrip `{Inet, !InetLaws, !ErrorOps} (a : IPAddress) (after : string) (junk : list Z) :
  valid a →
  (if isV4 a then IPAddress_bytes4 (getBytes_v4 a) junk else IPAddress_bytes16 (getBytes_v6 a)) ≡ a ∧
  (c_str after = "" →
     ∃ b, parseIPAddress (IPAddress_toString a) after junk = Ok b ∧ b ≡ a) ∧
  parseIPAddress (IPAddress_toString a) after junk =
    parseIPAddress (String.append (IPAddress_toString a) (c_str after)) "" junk.
Proof.
  intros Hv. pose proof (ntop_pton4 _ (valid_v4 a Hv)) as (s4 & Hn4 & Hc4 & Hp4).
  pose proof (ntop_pton6 _ (valid_v6 a Hv)) as (s6 & Hn6 & Hc6 & Hz6 & Hp6).
  assert (c_str (IPAddress_toString a) = IPAddress_toString a) as Hc
    by (unfold IPAddress_toString; destruct (isV4 a); by rewrite ?Hn4, ?Hn6).
  split_and!.
  - by apply from_bytes.
  - intros Hafter. unfold parseIPAddress. rewrite c_str_append, Hafter, string_append_nil by done.
    unfold IPAddress_toString. destruct (isV4 a) eqn:E.
    + rewrite Hn4, Hp4. eexists. split; [done|]. pose proof (from_bytes a junk Hv) as Hb. by rewrite E in Hb.
    + rewrite Hn6, Hp6. destruct (inet_pton AF_INET s6) as [r bs]. cbn in Hz6. subst r.
      eexists. split; [done|]. pose proof (from_bytes a junk Hv) as Hb. by rewrite E in Hb.
  - unfold parseIPAddress. by rewrite string_append_nil, !c_str_append, c_str_idem.
Qed.

(** The classifications, whatever the unused bytes of the union hold.  [isMulticast] does not
    convert the word in memory to host order. *)
Lemma address_classes e a :
  valid a →
  (isLoopback e a = true ↔
     if isV4 a then getBytes_v4 a = [127; 0; 0; 1] else getBytes_v6 a = replicate 15 0 ++ [1]) ∧
  (isUnspecified e a = true ↔
     if isV4 a then getBytes_v4 a = [0; 0; 0; 0] else getBytes_v6 a = replicate 15 0 ++ [0]) ∧
  isMulticast e a =
    (let byte i := nth i (addr_bytes a) 0 in
     let tested := match e with BigEndian => byte 0%nat | LittleEndian => byte 3%nat end in
     if isV4 a then (224 <=? tested) && (tested <? 240) else byte 0%nat =? 255).
Proof.
  intros Hv. destruct (valid_v4 a Hv) as [Hl Hb]. destruct (valid_v6 a Hv) as [H6 _].
  split; [|split; [|by apply multicast_spec]].
  - unfold isLoopback, s_addr. destruct (isV4 a).
    + by apply (load32_htonl e _ INADDR_LOOPBACK).
    + by apply nth_bytes6.
  - unfold isUnspecified, s_addr. destruct (isV4 a).
    + pose proof (load32_htonl e _ INADDR_ANY Hl Hb ltac:(done)) as Hz.
      by replace (htonl e INADDR_ANY) with 0 in Hz by by destruct e.
    + by apply nth_bytes6.
Qed.

(** Every way to make an address gives a union of sixteen bytes, when the memory it is built in is
    one. *)
Lemma in_addr_valid bs junk : bytes 16 junk → bytes 4 bs → valid (IPAddress_in_addr bs junk).
Proof. intros Hj Hb. by apply (bytes_overwrite 4); [| |lia]. Qed.

(** The family of an address, and the bytes that it uses. *)
Definition family (a : IPAddress) : address_family := if isV4 a then AF_INET else AF_INET6.
Definition used_bytes (a : IPAddress) : list Z := if isV4 a then getBytes_v4 a else getBytes_v6 a.

(** C29.  The values of addresses, on hosts of either byte order.  [any], [loopback] and
    [broadcast] are the IPv4 addresses 0.0.0.0, 127.0.0.1 and 255.255.255.255.  [isLoopback]
    recognises exactly 127.0.0.1 and ::1, [isUnspecified] exactly 0.0.0.0 and ::; [isMulticast]
    of an IPv4 address tests the first byte on a big-endian host (224 to 239, the multicast block)
    but the last byte on a little-endian one, and of an IPv6 address that the first byte is 255.
    [parseIPAddress] answers an address whose family and bytes are what [inet_pton] reads of the
    text, as IPv4 if that can be and as IPv6 otherwise, and fails with its error exactly when
    neither can be read.  All these are unions of sixteen bytes. *)
Theorem address_values `{Inet, !InetLaws, !ErrorOps} e (junk : list Z) (a : IPAddress) (str after : string) :
  bytes 16 junk → valid a →
  let text := c_str (String.append str after) in
  let is_address b bs := isV4 b = true ∧ getBytes_v4 b = bs ∧ valid b in
  is_address (any e junk) [0; 0; 0; 0] ∧ is_address (loopback e junk) [127; 0; 0; 1] ∧
  is_address (broadcast e junk) [255; 255; 255; 255] ∧
  (isLoopback e a = true ↔ used_bytes a = if isV4 a then [127; 0; 0; 1] else replicate 15 0 ++ [1]) ∧
  (isUnspecified e a = true ↔ used_bytes a = if isV4 a then [0; 0; 0; 0] else replicate 16 0) ∧
  isMulticast e a =
    (let byte i := nth i (addr_bytes a) 0 in
     let tested := match e with BigEndian => byte 0%nat | LittleEndian => byte 3%nat end in
     if isV4 a then (224 <=? tested) && (tested <? 240) else byte 0%nat =? 255) ∧
  match parseIPAddress str after junk with
  | Ok b => valid b ∧ inet_pton (family b) text = (1, used_bytes b) ∧
      (isV4 b = false → (inet_pton AF_INET text).1 = 0)
  | Err err => err = makeError_basic InvalidInput "parseIPAddress" ∧
      (inet_pton AF_INET text).1 = 0 ∧ (inet_pton AF_INET6 text).1 = 0
  end.
Proof.
  intros Hj Ha. cbn zeta. destruct (address_classes e a Ha) as (Hl & Hu & Hm).
  pose proof (bytes_store32 e) as Hs. unfold used_bytes.
  split; [|split; [|split; [|split; [|split; [|split; [exact Hm|]]]]]].
  1-3: split_and!; [done|by destruct e|by apply in_addr_valid].
  1-2: by destruct (isV4 a).
  destruct (parse_cases str after junk) as [(bs & Hp & Hb & ->)|(H4 & [(bs & Hp & Hb & ->)|(H6 & ->)])].
  - split_and!; [by apply in_addr_valid| |done]. cbn. rewrite Hp. unfold getBytes_v4. cbn.
    by rewrite <- (proj1 Hb), overwrite_take.
  - split_and!; [done| |done]. cbn. rewrite Hp. unfold getBytes_v6. cbn. by rewrite take_ge by (rewrite (proj1 Hb); lia).
  - done.
Qed.

(** A port always fits the six bytes of [IPEndpoint::toString]: nothing is cut, and the
    text is the decimal numeral of the port. *)
Lemma port_text_complete p :
  0 ≤ p < 2 ^ 16 →
  ∃ l, snprintf_hu 6 p = text_of_digits l ∧ (length l ≤ 5)%nat ∧ value l 0 = p.
Proof.
  intros Hp. unfold snprintf_hu. unfold u16. rewrite wrap_unsigned_small by done.
  change (2 ^ 16) with 65536 in Hp.
  assert (Hl : (length (digits 20 p) ≤ 5)%nat) by (apply digits_length; [change (10 ^ Z.of_nat 5) with 100000|]; lia).
  exists (digits 20 p). rewrite take_ge by lia. split_and!; [done|done|].
  apply digits_value. change (10 ^ Z.of_nat 20) with 100000000000000000000. lia.
Qed.

(** [IPEndpoint::toString] passes the address where the joining function takes its
    separator: the text is ":", the address, the port, instead of the address, ":", the
    port.  The port always fits the six bytes it is printed to: nothing is cut, and what is
    printed is its decimal numeral. *)
Lemma endpoint_text `{Inet, !StringOps, !StringLaws} (p : IPEndpoint) :
  0 ≤ port p < 2 ^ 16 →
  ∃ numeral, (length numeral ≤ 5)%nat ∧ value numeral 0 = port p ∧
    IPEndpoint_toString p =
    String.append ":" (String.append (IPAddress_toString (ipAddress p)) (text_of_digits numeral)).
Proof.
  intros (l & Hs & Hl & Hv)%port_text_complete. exists l. split_and!; [done..|].
  unfold IPEndpoint_toString. by rewrite <- Hs, join_two.
Qed.

(** ** An implementation of <arpa/inet.h>, to run the theorems on

    The text of an address is two letters for each byte; the families have texts of different
    lengths. *)
Module LetterInet.

Definition letter (x : Z) : Ascii.ascii := Ascii.ascii_of_nat (Z.to_nat (97 + x)).
Definition unletter (c : Ascii.ascii) : option Z :=
  let x := Z.of_nat (Ascii.nat_of_ascii c) - 97 in if (0 <=? x) && (x <? 16) then Some x else None.

Fixpoint print (bs : list Z) : string :=
  match bs with [] => "" | b :: bs' => String (letter (b / 16)) (String (letter (b mod 16)) (print bs')) end.
Fixpoint scan (s : string) : option (list Z) :=
  match s with
  | EmptyString => Some []
  | String c (String d s') =>
      x ← unletter c; y ← unletter d; bs ← scan s'; Some (16 * x + y :: bs)
  | String _ EmptyString => None
  end.

Definition size (f : address_family) : nat := match f with AF_INET => 4 | AF_INET6 => 16 end.

#[export] Instance inet : Inet := {|
  inet_pton := λ f s,
    match scan s with Some bs => if (length bs =? size f)%nat then (1, bs) else (0, []) | None => (0, []) end;
  inet_ntop := λ f bs, Some (print bs) |}.

Lemma unletter_letter x : 0 ≤ x < 16 → unletter (letter x) = Some x.
Proof.
  intros Hx. unfold unletter, letter. rewrite Ascii.nat_ascii_embedding by lia.
  rewrite Z2Nat.id by lia. replace (97 + x - 97) with x by lia.
  rewrite (proj2 (Z.leb_le 0 x)), (proj2 (Z.ltb_lt x 16)) by lia. done.
Qed.

Lemma unletter_range c x : unletter c = Some x → 0 ≤ x < 16.
Proof. unfold unletter. case_match eqn:E; [|done]. intros [= <-]. lia. Qed.

Lemma byte_digits b : is_byte b → 0 ≤ b / 16 < 16 ∧ 0 ≤ b mod 16 < 16 ∧ 16 * (b / 16) + b mod 16 = b.
Proof. unfold is_byte. intros. Z.to_euclidean_division_equations. lia. Qed.

Lemma scan_print bs : Forall is_byte bs → scan (print bs) = Some bs.
Proof.
  induction 1 as [|b bs Hb Hbs IH]; [done|]. destruct (byte_digits b Hb) as (? & ? & He).
  cbn [print scan]. rewrite !unletter_letter by done. cbn. rewrite IH. cbn. by rewrite He.
Qed.

Lemma letter_not_zero x : 0 ≤ x < 16 → Ascii.eqb (letter x) Ascii.zero = false.
Proof.
  intros Hx. apply Ascii.eqb_neq. intros E. pose proof (unletter_letter x Hx) as Hu. by rewrite E in Hu.
Qed.

Lemma c_str_print bs : Forall is_byte bs → c_str (print bs) = print bs.
Proof.
  induction 1 as [|b bs Hb Hbs IH]; [done|]. destruct (byte_digits b Hb) as (? & ? & _).
  cbn [print c_str]. by rewrite !letter_not_zero, IH.
Qed.

Lemma scan_bytes_aux n s bs : (String.length s ≤ n)%nat → scan s = Some bs → Forall is_byte bs.
Proof.
  revert s bs. induction n as [|n IH]; intros s bs Hn Hs.
  - destruct s; [|cbn in Hn; lia]. injection Hs as <-. constructor.
  - destruct s as [|c [|d s]]; cbn in Hs; [injection Hs as <-; constructor|done|].
    destruct (unletter c) as [x|] eqn:Ex; [|done]. destruct (unletter d) as [y|] eqn:Ey; [|done]. cbn in Hs.
    destruct (scan s) as [rest|] eqn:Er; [|done]. injection Hs as <-.
    apply unletter_range in Ex, Ey. constructor; [unfold is_byte; lia|].
    apply (IH s); [cbn in Hn; lia|done].
Qed.

#[export] Instance inet_laws : InetLaws.
Proof.
  split.
  - intros f s r bs. cbn. destruct (scan s) as [l|] eqn:E; [|intros [= <- <-]; by left].
    destruct (Nat.eqb_spec (length l) (size f)) as [Hl|]; intros [= <- <-]; [right|by left].
    split; [done|]. split; [by destruct f|by apply (scan_bytes_aux (String.length s) s)].
  - intros bs [Hl Hb]. exists (print bs). cbn. by rewrite scan_print, Hl, c_str_print.
  - intros bs [Hl Hb]. exists (print bs). cbn. by rewrite scan_print, Hl, c_str_print.
Qed.

End LetterInet.

Lemma address_values_witness :
  isLoopback LittleEndian (loopback LittleEndian (replicate 16 7)) = true ∧
  match @parseIPAddress LetterInet.inet Concrete.error_ops "hpaaaaab" "" (replicate 16 7) with
  | Ok b => valid b ∧ LetterInet.inet.(inet_pton) (family b) "hpaaaaab" = (1, used_bytes b) ∧
      (isV4 b = false → (LetterInet.inet.(inet_pton) AF_INET "hpaaaaab").1 = 0)
  | Err _ => False
  end.
Proof.
  assert (bytes 16 (replicate 16 7)) as H16 by (split; [done|by repeat constructor]).
  assert (valid (loopback LittleEndian (replicate 16 7))) as Hv by (split; [done|by repeat constructor]).
  pose proof (@address_values LetterInet.inet LetterInet.inet_laws Concrete.error_ops LittleEndian
    (replicate 16 7) (loopback LittleEndian (replicate 16 7)) "hpaaaaab" "" H16 Hv) as (_ & _ & _ & Hl & _ & _ & Hp).
  split; [by apply Hl|exact Hp].
Defined.

(** 127.0.0.1 is read back; with an "a" after the view, it is not read at all. *)
Lemma address_text_roundtrip_witness :
  let a := loopback LittleEndian (replicate 16 7) in
  (∃ b, @parseIPAddress LetterInet.inet Concrete.error_ops (@IPAddress_toString LetterInet.inet a) "" [] = Ok b ∧
     b ≡ a) ∧
  isOk (@parseIPAddress LetterInet.inet Concrete.error_ops (@IPAddress_toString LetterInet.inet a) "a" []) = false.
Proof.
  intros a. assert (valid a) as Hv by (split; [done|by repeat constructor]). split.
  - by apply (@address_text_roundtrip LetterInet.inet LetterInet.inet_laws Concrete.error_ops a "" [] Hv).
  - reflexivity.
Defined.
