(* ===== verification/SharedMemory.v ===== *)
(** * SharedMemory: named shared memory segments and their mappings

    include/cadence/io/sharedMemory.hpp and src/io/sharedMemory.cpp. *)
From S2P Require Import Prelude Posix Solace File.

Definition NAME_MAX : Z := 255.

(** [struct Protection], [enum class Access]. *)
Module Protection.
Definition None_ : Z := PROT_NONE.
Definition Read : Z := PROT_READ.
Definition Write : Z := PROT_WRITE.
Definition Exec : Z := PROT_EXEC.
End Protection.

Inductive Access := Shared | Private.

(** What [wrapMemory(addr, memSize)] and the disposer hold. *)
Record MemoryResource := MkResource { mem_addr : Z; mem_size : Z }.

(** [mapMemory], of the anonymous namespace. *)
Definition mapMemory {S} (memSize protection : Z) (mapping : Access) (fd : Z) : prog posix S Z :=
  if memSize =? 0 then raise (IllegalArgumentException "size")
  else
    let flags := if fd =? -1 then MAP_ANONYMOUS else 0 in
    let flags := set_flags flags match mapping with Private => MAP_PRIVATE | Shared => MAP_SHARED end in
    addr ← perform (sys_mmap memSize protection flags fd);
    if rv addr =? MAP_FAILED then raise (IOException (errno addr) "mmap") else mret (rv addr).

(** [MappedMemoryDisposer::dispose]. *)
Definition dispose {S} (view : MemoryResource) : prog posix S unit :=
  if truthy (mem_addr view) && (0 <? mem_size view) then
    result ← perform (sys_munmap (mem_addr view) (mem_size view));
    if truthy (rv result) then raise (IOException (errno result) "munmap") else mret tt
  else mret tt.

(** [SharedMemory::mapMem] and [createAnon]. *)
Definition mapMem {S} (fd memSize : Z) (mapping : Access) (protection : Z) : prog posix S MemoryResource :=
  addr ← mapMemory memSize protection mapping fd;
  mret (MkResource addr memSize).

Definition createAnon {S} (size : Z) (mapping : Access) (protection : Z) : prog posix S MemoryResource :=
  mapMem (-1) size mapping protection.

(** The access mode in the flags of [shm_open]. *)
Definition access_flags (mode : AccessMode) : Z :=
  match mode with ReadOnly => O_RDONLY | WriteOnly => O_WRONLY | ReadWrite => O_RDWR end.

Section SharedMemory.
Context {P : Type} `{PathOps P}.

Record SharedMemory := MkShm { shm_fd : Z; linkedPath : P }.

Definition SharedMemory_fd (fd : Z) : SharedMemory := MkShm fd path_none.
Definition SharedMemory_default : SharedMemory := SharedMemory_fd InvalidFd.
Definition SharedMemory_path (fd : Z) (path : P) : SharedMemory := MkShm fd path.
Definition shm_fromFd (fid : Z) : SharedMemory := SharedMemory_fd fid.

Definition shm_invalidateFd (s : SharedMemory) : Z * SharedMemory :=
  (shm_fd s, MkShm InvalidFd (linkedPath s)).

(** The move constructor; [left] is what moving leaves of a path. *)
Definition shm_move (left : P) (other : SharedMemory) : SharedMemory * SharedMemory :=
  (MkShm (shm_fd other) (linkedPath other), (shm_invalidateFd (MkShm (shm_fd other) left)).2).

Definition shm_swap (this rhs : SharedMemory) : SharedMemory * SharedMemory :=
  (MkShm (shm_fd rhs) (linkedPath rhs), MkShm (shm_fd this) (linkedPath this)).
Definition shm_move_assign (this rhs : SharedMemory) : SharedMemory * SharedMemory := shm_swap this rhs.

Definition shm_isClosed (s : SharedMemory) : bool := shm_fd s =? InvalidFd.
Definition shm_isOpened (s : SharedMemory) : bool := negb (shm_isClosed s).
Definition shm_getSelectId (s : SharedMemory) : Z := shm_fd s.

Definition shm_validateFd : prog posix SharedMemory Z :=
  s ← get;
  if negb (shm_isOpened s) then raise NotOpen else mret (shm_fd s).

Definition shm_close : prog posix SharedMemory unit :=
  fd ← shm_validateFd;
  result ← perform (sys_close fd);
  if truthy (rv result) then raise (IOException (errno result) "close")
  else modify (λ s, (shm_invalidateFd s).2).

(** The size is an [off_t]; it comes back as a [size_t]. *)
Definition shm_size : prog posix SharedMemory Z :=
  fd ← shm_validateFd;
  r ← perform (sys_fstat fd);
  if truthy (rv r.1) then raise (IOException (errno r.1) "fstat")
  else if st_size r.2 <? 0 then raise (IOException (errno r.1) "fstat: negative size")
  else mret (u64 (st_size r.2)).

(** [~SharedMemory()]: the answers of both calls are ignored. *)
Definition shm_destroy : prog posix SharedMemory unit :=
  noexcept (
    s ← get;
    if negb (shm_fd s =? InvalidFd) then
      _ ← perform (sys_close (shm_fd s));
      _ ← modify (λ s, (shm_invalidateFd s).2);
      if path_is_set (linkedPath s) then
        _ ← perform (sys_shm_unlink (c_str (path_toString (linkedPath s))));
        mret tt
      else mret tt
    else mret tt).

(** [SharedMemory::create], [open] and [unlink] are static: [S] is the state of the caller. *)
Definition shm_create {S} (pathname : P) (memSize : Z) (mode : AccessMode) (permissionsMode : Z) :
    prog posix S SharedMemory :=
  if memSize =? 0 then raise (IOExceptionMsg "Invalid size")
  else if NAME_MAX <=? path_length pathname then raise (IOExceptionMsg "Name too long")
  else
    let oflags := access_flags mode in
    fd ← perform (sys_shm_open (c_str (path_toString pathname)) (set_flags O_CREAT oflags) (u32 permissionsMode));
    if rv fd =? -1 then raise (IOException (errno fd) "shm_open")
    else
      r ← perform (sys_ftruncate (rv fd) (s64 memSize));
      if rv r =? -1 then raise (IOException (errno r) "ftruncate")
      else mret (SharedMemory_path (rv fd) pathname).

Definition shm_open {S} (pathname : P) (mode : AccessMode) : prog posix S SharedMemory :=
  if NAME_MAX <=? path_length pathname then raise (IOExceptionMsg "Name too long")
  else
    let oflags := access_flags mode in
    fd ← perform (sys_shm_open (c_str (path_toString pathname)) oflags 0);
    if rv fd =? -1 then raise (IOException (errno fd) "shm_open")
    else mret (SharedMemory_fd (rv fd)).

Definition unlink {S} (pathname : P) : prog posix S unit :=
  r ← perform (sys_shm_unlink (c_str (path_toString pathname)));
  if truthy (rv r) then raise (IOException (errno r) "shm_unlink") else mret tt.

Definition map (mapping : Access) (access mapSize : Z) : prog posix SharedMemory MemoryResource :=
  fd ← shm_validateFd;
  mapSize ← (if mapSize =? 0 then shm_size else mret mapSize);
  mapMem fd mapSize mapping access.

End SharedMemory.
Arguments SharedMemory P : clear implicits.

(** ** Properties *)

Definition is_close (e : event posix) : Prop := match ev_op e with sys_close _ => True | _ => False end.
Definition is_unlink (e : event posix) : Prop := match ev_op e with sys_shm_unlink _ => True | _ => False end.

(** A [mmap] of this protection and sharing: never of zero bytes, anonymous exactly when there is
    no descriptor. *)
Definition mmap_wellformed (mapping : Access) (access fd : Z) (e : event posix) : Prop :=
  match ev_op e with
  | sys_mmap size prot flags d =>
      size ≠ 0 ∧ prot = access ∧ d = fd ∧ has_flag flags MAP_ANONYMOUS = (fd =? -1) ∧
      has_flag flags MAP_SHARED = match mapping with Shared => true | Private => false end ∧
      has_flag flags MAP_PRIVATE = match mapping with Shared => false | Private => true end
  | _ => True
  end.

(** Closes the goals [emits_tac] leaves. *)
Ltac by_event := intros; unfold not, is_close; cbn; tauto.

Section Lifecycle.
Context {P : Type} `{PathOps P}.

Lemma mapMem_wellformed {S} fd n mapping access :
  emits (mmap_wellformed mapping access fd) (mapMem (S := S) fd n mapping access).
Proof.
  unfold mapMem, mapMemory. destruct (Z.eqb_spec n 0); emits_tac.
  all: unfold mmap_wellformed; cbn; destruct (fd =? -1), mapping; by split_and!.
Qed.

Lemma size_wellformed mapping access fd : emits (mmap_wellformed mapping access fd) (shm_size (P := P)).
Proof. unfold shm_size, shm_validateFd. by emits_tac. Qed.

(** A segment's life.  Destroying an object that [create] returned closes its
    descriptor and unlinks its name, in this order; one that [open] returned only has its
    descriptor closed; and an object that was closed first makes no call at all when it is
    destroyed, so a created segment that is closed keeps its name. *)
Lemma segment_lifecycle (K : world posix) (path : P) d (t : trace posix) :
  path_is_set path = true → path_is_set (path_none : P) = false → d ≠ InvalidFd →
  let unlink_op := sys_shm_unlink (c_str (path_toString path)) in
  let t1 := Event (sys_close d) (K _ t (sys_close d)) :: t in
  shm_destroy K (SharedMemory_path d path) t =
    Run (Ret tt) (SharedMemory_path InvalidFd path) (Event unlink_op (K _ t1 unlink_op) :: t1) ∧
  shm_destroy K (SharedMemory_fd d) t = Run (Ret tt) (SharedMemory_default (P := P)) t1 ∧
  (rv (K _ t (sys_close d)) = 0 →
   (shm_close ≫= λ _, shm_destroy) K (SharedMemory_path d path) t =
     Run (Ret tt) (SharedMemory_path InvalidFd path) t1).
Proof.
  intros Hp Hn Hd%Z.eqb_neq. cbn zeta.
  unfold shm_destroy, shm_close, shm_validateFd, shm_isOpened, shm_isClosed. unfold_prog.
  rewrite Hd. cbn. rewrite Hp, Hn. cbn. split_and!; [done..|]. intros ->. done.
Qed.

(** Creating a segment.  No branch of [create] closes anything: when [ftruncate]
    fails after [shm_open] gave a descriptor, the exception leaves with the descriptor
    open and no object owning it.  Otherwise the object returned owns the descriptor, and
    the name, and the segment was given its size. *)
Lemma create_descriptor {S} (K : world posix) (s : S) (t : trace posix) (path : P) n mode perms :
  n ≠ 0 → path_length path < NAME_MAX →
  let open_op := sys_shm_open (c_str (path_toString path)) (Z.lor O_CREAT (access_flags mode)) (u32 perms) in
  let fd := rv (K _ t open_op) in
  let t1 := Event open_op (K _ t open_op) :: t in
  let r := shm_create path n mode perms K s t in
  emits (λ e, ¬ is_close e) (shm_create (S := S) path n mode perms) ∧
  (fd = -1 → out r = Raise (IOException (errno (K _ t open_op)) "shm_open") ∧ tr r = t1) ∧
  (fd ≠ -1 →
    let trunc := K _ t1 (sys_ftruncate fd (s64 n)) in
    tr r = Event (sys_ftruncate fd (s64 n)) trunc :: t1 ∧
    out r = if rv trunc =? -1 then Raise (IOException (errno trunc) "ftruncate")
            else Ret (MkShm fd path)).
Proof.
  intros Hn Hl. cbn zeta. split.
  { unfold shm_create. emits_tac; by_event. }
  unfold shm_create. rewrite (proj2 (Z.eqb_neq _ _) Hn), (proj2 (Z.leb_gt _ _) Hl).
  unfold_prog. unfold set_flags. split.
  - intros ->. done.
  - intros Hfd%Z.eqb_neq. rewrite Hfd. cbn. by case_match.
Qed.

(** C37.  Mapping a segment.  Every [mmap] that [map] makes is of a positive number of
    bytes, with the protection, the sharing and the descriptor asked for, and is not
    anonymous; without a size it is of the size [fstat] reports. *)
Theorem map_requests (K : world posix) (s : SharedMemory P) mapping access n (t : trace posix) :
  shm_fd s ≠ InvalidFd →
  (∃ new, tr (map mapping access n K s t) = new ++ t ∧ Forall (mmap_wellformed mapping access (shm_fd s)) new) ∧
  (let stat := K _ t (sys_fstat (shm_fd s)) in
   let t1 := Event (sys_fstat (shm_fd s)) stat :: t in
   n = 0 → rv stat.1 = 0 → 0 < st_size stat.2 < 2 ^ 63 →
   map mapping access n K s t = mapMem (shm_fd s) (st_size stat.2) mapping access K s t1) ∧
  (n ≠ 0 → map mapping access n K s t = mapMem (shm_fd s) n mapping access K s t).
Proof.
  intros Hfd%Z.eqb_neq.
  assert (Hv : ∀ K t, shm_validateFd K s t = Run (Ret (shm_fd s)) s t).
  { intros. unfold shm_validateFd, shm_isOpened, shm_isClosed. unfold_prog. by rewrite Hfd. }
  split_and!.
  - destruct (emits_bind (mmap_wellformed mapping access (shm_fd s))
      (if n =? 0 then shm_size (P := P) else mret n) (λ m, mapMem (shm_fd s) m mapping access))
      with (K := K) (s := s) (t := t) as (new & Ht & Hnew).
    + case_match; [apply size_wellformed|apply emits_ret].
    + intros. apply mapMem_wellformed.
    + exists new. split; [|done]. rewrite <- Ht. unfold map, mbind at 1, prog_bind at 1. by rewrite Hv.
  - intros stat t1 -> Hr Hs. unfold map, mbind at 1, prog_bind at 1. rewrite Hv. cbn [Z.eqb].
    unfold shm_size at 1, mbind at 1, prog_bind at 1, mbind at 1, prog_bind at 1. rewrite Hv.
    unfold mbind at 1, prog_bind at 1, perform. fold stat. rewrite Hr. cbn [truthy Z.eqb negb].
    destruct (Z.ltb_spec (st_size stat.2) 0); [lia|]. unfold mret, prog_ret.
    unfold u64. by rewrite wrap_unsigned_small by lia.
  - intros Hn%Z.eqb_neq. unfold map, mbind at 1, prog_bind at 1. by rewrite Hv, Hn.
Qed.

End Lifecycle.

#[local] Existing Instance Concrete.path_ops.

Lemma map_requests_witness :
  let K := world_of (λ R n op, match op with
    | sys_fstat _ => Some (sys0, Stat 0 4096 0) | sys_mmap _ _ _ _ => Some (Sys 0x1000 0) | _ => None end) in
  out (map Shared (Z.lor Protection.Read Protection.Write) 0 K (SharedMemory_fd (P := string) 5) []) =
  Ret (MkResource 0x1000 4096).
Proof.
  intros K.
  destruct (map_requests K (SharedMemory_fd (P := string) 5) Shared 3 0 [] ltac:(done)) as (_ & H & _).
  cbn zeta in H. change (Z.lor Protection.Read Protection.Write) with 3.
  rewrite (H eq_refl eq_refl) by (cbn; lia). done.
Defined.
