(* ===== verification/SegmentStore.v ===== *)
(** * Clients of SharedMemory: who owns which descriptor, and which name

    A client program creates, opens, wraps, moves, swaps, maps, closes, destroys and unlinks named
    segments.  Two ledgers of [Objects] follow each descriptor and each name; no code of its own. *)
From stdpp Require Import gmap.
From S2P Require Import Prelude Posix Solace File Objects SharedMemory.

Section Client.
Context {P : Type} `{PathOps P}.

(** The statements of a client.  [rest] is what moving leaves of a path. *)
Inductive segment_op :=
  | seg_create (x : nat) (pathname : P) (memSize : Z) (mode : AccessMode) (permissionsMode : Z)
  | seg_open (x : nat) (pathname : P) (mode : AccessMode)
  | seg_fromFd (x : nat) (d : Z)
  | seg_default (x : nat)
  | seg_moved (rest : P) (x y : nat)
  | seg_assign (x y : nat)
  | seg_swap (x y : nat)
  | seg_map (x : nat) (mapping : Access) (access mapSize : Z)
  | seg_size (x : nat)
  | seg_close (x : nat)
  | seg_destroy (x : nat)
  | seg_unlink (pathname : P).

Definition exec_segment (o : segment_op) : prog posix (gmap nat (SharedMemory P)) unit :=
  match o with
  | seg_create x pathname memSize mode permissionsMode => construct_from x (shm_create pathname memSize mode permissionsMode)
  | seg_open x pathname mode => construct_from x (shm_open pathname mode)
  | seg_fromFd x d => construct x (shm_fromFd d)
  | seg_default x => construct x SharedMemory_default
  | seg_moved rest x y => construct_moved (shm_move rest) x y
  | seg_assign x y => on_two shm_move_assign x y
  | seg_swap x y => on_two shm_swap x y
  | seg_map x mapping access mapSize => _ ← on_object x (map mapping access mapSize); mret tt
  | seg_size x => _ ← on_object x shm_size; mret tt
  | seg_close x => on_object x shm_close
  | seg_destroy x => destruct_object x shm_destroy
  | seg_unlink pathname => unlink pathname
  end.

End Client.
Arguments segment_op P : clear implicits.
Abbreviation exec_segments := (exec_all exec_segment).

(** ** What the calls account for *)

(** [shm_open] gave the descriptor [d]. *)
Definition opens_fd (d : Z) (e : event posix) : bool :=
  match ev_op e in posix T return T → bool with
  | sys_shm_open _ _ _ => λ r, rv r =? d | _ => λ _, false end (ev_res e).

(** [ftruncate] failed. *)
Definition unsized_fd (d : Z) (e : event posix) : bool :=
  match ev_op e in posix T return T → bool with
  | sys_ftruncate d' _ => λ r, (d' =? d) && (rv r =? -1) | _ => λ _, false end (ev_res e).

(** [close] answered that it succeeded, or that it failed. *)
Definition closes_fd (ok : bool) (d : Z) (e : event posix) : bool :=
  match ev_op e in posix T return T → bool with
  | sys_close d' => λ r, (d' =? d) && Bool.eqb (rv r =? 0) ok | _ => λ _, false end (ev_res e).

(** The name [n] was created, or unlinked. *)
Definition creates_name (n : string) (e : event posix) : bool :=
  match ev_op e in posix T return T → bool with
  | sys_shm_open s flags _ => λ r, (String.eqb s n) && has_flag flags O_CREAT && negb (rv r =? -1)
  | _ => λ _, false end (ev_res e).
Definition unlinks_name (n : string) (e : event posix) : bool :=
  match ev_op e with sys_shm_unlink s => String.eqb s n | _ => false end.

Definition truncate_failed (e : event posix) : bool :=
  match ev_op e in posix T return T → bool with
  | sys_ftruncate _ _ => λ r, rv r =? -1 | _ => λ _, false end (ev_res e).
Definition close_succeeded (e : event posix) : bool :=
  match ev_op e in posix T return T → bool with
  | sys_close _ => λ r, rv r =? 0 | _ => λ _, false end (ev_res e).

Section Ledgers.
Context {P : Type} `{PathOps P}.

(** The object holds the descriptor; the object will unlink the name. *)
Definition holds (d : Z) (s : SharedMemory P) : Z := Z.b2z (shm_fd s =? d).
Definition bears (n : string) (s : SharedMemory P) : Z :=
  Z.b2z (shm_isOpened s && path_is_set (linkedPath s) && String.eqb (c_str (path_toString (linkedPath s))) n).

(** What the client itself brings: descriptors that it wraps, names that it unlinks. *)
Definition wraps (d : Z) (o : segment_op P) : Z := match o with seg_fromFd _ d' => Z.b2z (d' =? d) | _ => 0 end.
Definition unlinks (n : string) (o : segment_op P) : Z :=
  match o with seg_unlink p => Z.b2z (String.eqb (c_str (path_toString p)) n) | _ => 0 end.
Definition closing (o : segment_op P) : bool := match o with seg_close _ => true | _ => false end.
Definition destroying (o : segment_op P) : bool := match o with seg_destroy _ => true | _ => false end.

(** *** Descriptors *)

(** What the operation [o] loses of [d]: the descriptor whose [close] fails in a destructor. *)
Definition forgets (d : Z) (o : segment_op P) (t : trace posix) : Z :=
  if destroying o then count (closes_fd false d) t else 0.

Section Descriptor.
Context (d : Z) (Hd : d ≠ InvalidFd) (o : segment_op P).

Definition fd_paid (t : trace posix) : Z := count (opens_fd d) t - count (closes_fd true d) t - count (unsized_fd d) t.
Definition fd_due (t : trace posix) : Z := fd_paid t - forgets d o t.

Abbreviation balanced := (balanced (holds d) fd_due (λ _, 0)).
Abbreviation accounts := (accounts (holds d) fd_due (λ _, 0)).

(** The entry of one call. *)
Lemma fd_entry e t :
  fd_due (e :: t) = fd_due t + Z.b2z (opens_fd d e) - Z.b2z (closes_fd true d e) - Z.b2z (unsized_fd d e)
    - Z.b2z (destroying o && closes_fd false d e).
Proof. unfold fd_due, fd_paid, forgets. rewrite !count_cons. destruct (destroying o); cbn; lia. Qed.

Lemma fd_unpaid e :
  opens_fd d e = false → closes_fd true d e = false → closes_fd false d e = false → unsized_fd d e = false →
  unpaid fd_due (λ _, 0) e.
Proof. intros H1 H2 H3 H4 t. rewrite fd_entry, H1, H2, H3, H4, andb_false_r. cbn. lia. Qed.

Lemma size_fds : balanced shm_size.
Proof. unfold shm_size, shm_validateFd. apply balanced_idle; [idle_tac|emits_tac; by apply fd_unpaid]. Qed.

Lemma map_fds mapping access n : balanced (map mapping access n).
Proof. unfold map, mapMem, mapMemory, shm_size, shm_validateFd. apply balanced_idle; [idle_tac|emits_tac; by apply fd_unpaid]. Qed.

(** A close. *)
Lemma close_entry fd r t :
  fd_due (Event (sys_close fd) r :: t) = fd_due t
    - Z.b2z ((fd =? d) && ((rv r =? 0) || destroying o)).
Proof. rewrite fd_entry. cbn. destruct (fd =? d), (rv r =? 0), (destroying o); cbn; lia. Qed.

Lemma holds_closed p : holds d (MkShm InvalidFd p) = 0.
Proof. unfold holds. cbn [shm_fd]. by destruct (Z.eqb_spec InvalidFd d). Qed.

(** A close that fails keeps the descriptor. *)
Lemma close_fds : destroying o = false → balanced shm_close.
Proof.
  intros Ho K [fd p] t. unfold shm_close, shm_validateFd, shm_isOpened, shm_isClosed. unfold_prog.
  destruct (fd =? InvalidFd); cbn -[fd_due holds]; [lia|].
  pose proof (close_entry fd (K _ t (sys_close fd)) t) as Hp. rewrite Ho, orb_false_r in Hp. unfold truthy.
  destruct (rv (K _ t (sys_close fd)) =? 0); cbn -[fd_due holds]; rewrite Hp, ?holds_closed;
    unfold holds; cbn; destruct (fd =? d); cbn; lia.
Qed.

(** The destructor gives the descriptor up in any case. *)
Lemma destroy_fds : destroying o = true → balanced shm_destroy.
Proof.
  intros Ho K [fd p] t. unfold shm_destroy. unfold_prog. destruct (fd =? InvalidFd); cbn -[fd_due holds]; [lia|].
  pose proof (close_entry fd (K _ t (sys_close fd)) t) as Hp. rewrite Ho, orb_true_r, andb_true_r in Hp.
  assert (Hu : ∀ name r t', fd_due (Event (sys_shm_unlink name) r :: t') = fd_due t') by (intros; by apply fd_unpaid).
  destruct (path_is_set p); cbn -[fd_due holds]; rewrite ?Hu, Hp, holds_closed; unfold holds; cbn; destruct (fd =? d); cbn; lia.
Qed.

(** The constructors gain the descriptor that they return, or none when they raise. *)
Lemma open_gains x p mode : accounts 0 (construct_from x (shm_open p mode)).
Proof.
  apply accounts_from. intros K m t. unfold shm_open. unfold_prog. destruct (NAME_MAX <=? path_length p); [split; [done|lia]|].
  set (op := sys_shm_open _ _ _). set (r := K _ t op). pose proof (fd_entry (Event op r) t) as Hp.
  cbn in Hp. rewrite andb_false_r in Hp.
  destruct (Z.eqb_spec (rv r) (-1)) as [Hr|Hr]; cbn -[fd_due holds]; (split; [done|]); rewrite Hp; unfold holds; cbn.
  - destruct (Z.eqb_spec (rv r) d); [unfold InvalidFd in *; lia|]. cbn. lia.
  - destruct (rv r =? d); cbn; lia.
Qed.

Lemma create_gains x p n mode perms : accounts 0 (construct_from x (shm_create p n mode perms)).
Proof.
  apply accounts_from. intros K m t. unfold shm_create. unfold_prog. destruct (n =? 0); [split; [done|lia]|].
  destruct (NAME_MAX <=? path_length p); [split; [done|lia]|].
  set (op := sys_shm_open _ _ _). set (r := K _ t op). pose proof (fd_entry (Event op r) t) as Hp. cbn in Hp.
  rewrite andb_false_r in Hp. destruct (Z.eqb_spec (rv r) (-1)) as [Hr|Hr]; cbn -[fd_due holds].
  - split; [done|]. rewrite Hp. destruct (Z.eqb_spec (rv r) d); [unfold InvalidFd in *; lia|]. cbn. lia.
  - set (op2 := sys_ftruncate _ _). set (r2 := K _ _ op2). pose proof (fd_entry (Event op2 r2) (Event op r :: t)) as Hp2.
    cbn in Hp2. rewrite andb_false_r in Hp2. destruct (rv r2 =? -1); cbn -[fd_due holds]; (split; [done|]);
      rewrite Hp2, Hp; unfold holds; cbn; destruct (rv r =? d); cbn; lia.
Qed.

Lemma unlink_accounts p : accounts 0 (unlink p).
Proof.
  intros K m t. unfold unlink. unfold_prog. set (e := Event _ _).
  assert (Hu : unpaid fd_due (λ _, 0) e) by by apply fd_unpaid. destruct (Hu t) as [Hp _].
  destruct (truthy _); unfold settled; rewrite Hp; lia.
Qed.

End Descriptor.

Lemma segment_accounts d o : d ≠ InvalidFd → accounts (holds d) (fd_due d o) (λ _, 0) (wraps d o) (exec_segment o).
Proof.
  intros Hd. destruct o as [x p n mode perms|x p mode|x e|x|rest x y|x y|x y|x mapping access n|x|x|x|p]; cbn [exec_segment wraps].
  - by apply create_gains.
  - by apply open_gains.
  - apply (accounts_construct (holds d) _ _ x (shm_fromFd e)).
  - replace 0 with (holds d SharedMemory_default) by by apply holds_closed. apply (accounts_construct (holds d) _ _ x SharedMemory_default).
  - apply accounts_moved. intros s. unfold shm_move, shm_invalidateFd. cbn [fst snd]. rewrite holds_closed by done. unfold holds. cbn. lia.
  - apply accounts_on_two. intros s s'. unfold holds. cbn. lia.
  - apply accounts_on_two. intros s s'. unfold holds. cbn. lia.
  - apply accounts_bind; [by apply accounts_on_object, map_fds|]. intros. apply accounts_ret.
  - apply accounts_bind; [by apply accounts_on_object, size_fds|]. intros. apply accounts_ret.
  - by apply accounts_on_object, close_fds.
  - apply accounts_destruct; [by apply destroy_fds|]. intros K [fd q] t. unfold shm_destroy. unfold_prog.
    destruct (Z.eqb_spec fd InvalidFd) as [->|]; cbn [negb]; [by apply holds_closed|].
    destruct (path_is_set q); cbn; by apply holds_closed.
  - apply unlink_accounts.
Qed.

(** *** Names *)

(** What the theorems use of paths: an unset path is the empty path. *)
Section Name.
Context (n : string) (lax : bool).
Context (Hnone : path_is_set (path_none : P) = false) (Hset : ∀ p : P, c_str (path_toString p) = n → path_is_set p = true).

Definition name_paid (t : trace posix) : Z := count (creates_name n) t - count (unlinks_name n) t.

(** A created name outlives its objects when [ftruncate] fails, and when they are closed first. *)
Definition name_slack (t : trace posix) : Z := count truncate_failed t + if lax then count close_succeeded t else 0.

Abbreviation balanced := (balanced (bears n) name_paid name_slack).
Abbreviation accounts := (accounts (bears n) name_paid name_slack).

Lemma name_entry e t :
  name_paid (e :: t) = name_paid t + Z.b2z (creates_name n e) - Z.b2z (unlinks_name n e) ∧
  name_slack (e :: t) = name_slack t + Z.b2z (truncate_failed e) + Z.b2z (lax && close_succeeded e).
Proof. unfold name_paid, name_slack. rewrite !count_cons. destruct lax; cbn; lia. Qed.

Lemma name_unpaid e :
  creates_name n e = false → unlinks_name n e = false → truncate_failed e = false → close_succeeded e = false →
  unpaid name_paid name_slack e.
Proof. intros H1 H2 H3 H4 t. destruct (name_entry e t) as [-> ->]. rewrite H1, H2, H3, H4, andb_false_r. cbn. lia. Qed.

Lemma size_bears : balanced shm_size.
Proof. unfold shm_size, shm_validateFd. apply balanced_idle; [idle_tac|emits_tac; by apply name_unpaid]. Qed.

Lemma map_bears mapping access m : balanced (map mapping access m).
Proof. unfold map, mapMem, mapMemory, shm_size, shm_validateFd. apply balanced_idle; [idle_tac|emits_tac; by apply name_unpaid]. Qed.

Lemma bears_closed p : bears n (MkShm InvalidFd p) = 0.
Proof. done. Qed.

Lemma bears_unnamed fd : bears n (SharedMemory_fd fd) = 0.
Proof. unfold bears. cbn. by rewrite Hnone, andb_false_r. Qed.

Lemma bears_range s : 0 ≤ bears n s ≤ 1.
Proof. unfold bears. destruct (_ && _); cbn; lia. Qed.

Lemma bears_open fd p : fd ≠ InvalidFd → bears n (MkShm fd p) = Z.b2z (String.eqb (c_str (path_toString p)) n).
Proof.
  intros Hf%Z.eqb_neq. unfold bears, shm_isOpened, shm_isClosed. cbn [shm_fd linkedPath]. rewrite Hf. cbn.
  destruct (String.eqb_spec (c_str (path_toString p)) n) as [He|]; [by rewrite (Hset p He)|by rewrite andb_false_r].
Qed.

Lemma close_bears : lax = true → balanced shm_close.
Proof.
  intros Hlax K [fd p] t. unfold shm_close, shm_validateFd, shm_isOpened, shm_isClosed. unfold_prog.
  destruct (fd =? InvalidFd); cbn -[name_paid name_slack bears]; [lia|].
  set (e := Event _ _). destruct (name_entry e t) as [Hp Hs]. rewrite Hlax in Hs. cbn in Hp, Hs. unfold truthy.
  pose proof (bears_range (MkShm fd p)).
  destruct (rv _ =? 0); cbn -[name_paid name_slack bears]; rewrite Hp, Hs, ?bears_closed; cbn; lia.
Qed.

Lemma destroy_bears : balanced shm_destroy.
Proof.
  intros K [fd p] t. unfold shm_destroy. unfold_prog.
  destruct (Z.eqb_spec fd InvalidFd) as [|Hf]; cbn -[name_paid name_slack bears]; [lia|].
  set (e := Event (sys_close fd) _). destruct (name_entry e t) as [Hp Hs]. cbn in Hp, Hs.
  assert (Hb : 0 ≤ Z.b2z (lax && (rv (K _ t (sys_close fd)) =? 0))) by (destruct (_ && _); cbn; lia).
  rewrite bears_open by done. destruct (path_is_set p) eqn:Hp'; cbn -[name_paid name_slack bears]; rewrite bears_closed.
  - set (e2 := Event (sys_shm_unlink _) _). destruct (name_entry e2 (e :: t)) as [Hp2 Hs2]. cbn in Hp2, Hs2.
    rewrite Hp2, Hs2, Hp, Hs, andb_false_r. cbn. lia.
  - rewrite Hp, Hs. destruct (String.eqb_spec (c_str (path_toString p)) n) as [He|]; [by rewrite (Hset p He) in Hp'|]. cbn. lia.
Qed.

Lemma open_names x p mode : accounts 0 (construct_from x (shm_open p mode)).
Proof.
  apply accounts_from. intros K m t. unfold shm_open. unfold_prog. destruct (NAME_MAX <=? path_length p); [split; [done|lia]|].
  set (op := sys_shm_open _ _ _). set (r := K _ t op). destruct (name_entry (Event op r) t) as [Hp Hs].
  assert (Hc : creates_name n (Event op r) = false) by (cbn; destruct mode; cbn; by rewrite andb_false_r).
  rewrite Hc in Hp. cbn in Hp, Hs. rewrite andb_false_r in Hs.
  destruct (rv r =? -1); cbn -[name_paid name_slack bears]; (split; [done|]); rewrite Hp, Hs, ?bears_unnamed; cbn; lia.
Qed.

Lemma create_names x p size mode perms : accounts 0 (construct_from x (shm_create p size mode perms)).
Proof.
  apply accounts_from. intros K m t. unfold shm_create. unfold_prog. destruct (size =? 0); [split; [done|lia]|].
  destruct (NAME_MAX <=? path_length p); [split; [done|lia]|].
  set (op := sys_shm_open _ _ _). set (r := K _ t op). destruct (name_entry (Event op r) t) as [Hp Hs].
  assert (Hc : creates_name n (Event op r) = String.eqb (c_str (path_toString p)) n && negb (rv r =? -1))
    by (cbn; destruct mode; cbn; by rewrite andb_true_r).
  rewrite Hc in Hp. cbn in Hp, Hs. rewrite andb_false_r in Hs.
  destruct (Z.eqb_spec (rv r) (-1)) as [Hr|Hr]; cbn -[name_paid name_slack bears].
  - split; [done|]. rewrite Hp, Hs, andb_false_r. cbn. lia.
  - set (op2 := sys_ftruncate _ _). set (r2 := K _ _ op2). destruct (name_entry (Event op2 r2) (Event op r :: t)) as [Hp2 Hs2].
    cbn in Hp2, Hs2. rewrite andb_false_r in Hs2. rewrite andb_true_r in Hp.
    assert (Hb : 0 ≤ Z.b2z (String.eqb (c_str (path_toString p)) n) ≤ 1) by (destruct (String.eqb _ _); cbn; lia).
    destruct (rv r2 =? -1); cbn -[name_paid name_slack bears]; (split; [done|]);
      rewrite Hp2, Hs2, Hp, Hs, ?bears_open by done; cbn; lia.
Qed.

Lemma unlink_names p : accounts (Z.b2z (String.eqb (c_str (path_toString p)) n)) (unlink p).
Proof.
  intros K m t. unfold unlink. unfold_prog. set (e := Event _ _). destruct (name_entry e t) as [Hp Hs].
  cbn in Hp, Hs. rewrite andb_false_r in Hs. destruct (truthy _); unfold settled; rewrite Hp, Hs; cbn; lia.
Qed.

Lemma segment_names o : lax = true ∨ closing o = false → accounts (unlinks n o) (exec_segment o).
Proof.
  intros Hlax. destruct o as [x p m mode perms|x p mode|x e|x|rest x y|x y|x y|x mapping access m|x|x|x|p]; cbn [exec_segment unlinks].
  - apply create_names.
  - apply open_names.
  - replace 0 with (bears n (shm_fromFd e)) by apply bears_unnamed. apply (accounts_construct (bears n) _ _ x (shm_fromFd e)).
  - apply (accounts_construct (bears n) _ _ x SharedMemory_default).
  - apply accounts_moved. intros [fd p]. unfold shm_move, shm_invalidateFd. cbn [fst snd shm_fd linkedPath]. rewrite bears_closed. lia.
  - apply accounts_on_two. intros [fd p] [fd2 p2]. cbn [shm_move_assign shm_swap fst snd shm_fd linkedPath]. lia.
  - apply accounts_on_two. intros [fd p] [fd2 p2]. cbn [shm_swap fst snd shm_fd linkedPath]. lia.
  - apply accounts_bind; [apply accounts_on_object, map_bears|]. intros. apply accounts_ret.
  - apply accounts_bind; [apply accounts_on_object, size_bears|]. intros. apply accounts_ret.
  - apply accounts_on_object, close_bears. by destruct Hlax.
  - apply accounts_destruct; [apply destroy_bears|]. intros K [fd q] t. unfold shm_destroy. unfold_prog.
    destruct (Z.eqb_spec fd InvalidFd) as [->|]; cbn [negb]; [done|]. by destruct (path_is_set q).
  - apply unlink_names.
Qed.

End Name.
End Ledgers.

(** ** Properties of every client *)

Section Clients.
Context {P : Type} `{PathOps P} (K : world posix).

(** C15.  Conservation of the descriptors of segments.  Whatever a client does with SharedMemory
    objects and whatever the kernel answers, every descriptor that [shm_open] gave it, or that it
    wrapped, is accounted for exactly: it was closed with success, or is held by a live object, or
    leaked in one of two ways, which are counted: [create] forgets the descriptor of a segment that
    it could not give its size ([unsized_fd]), and the destructor, and nothing else, one whose
    [close] failed ([charged], over the destructions of the client).  So none is closed twice, none
    is shared, and a [close()] that fails keeps its descriptor. *)
Theorem segments_conserved d (ops : list (segment_op P)) :
  let r := exec_segments ops K ∅ [] in
  let calls f := count f (tr r) in
  d ≠ InvalidFd → (∀ u, out r ≠ Stuck u) →
  calls (opens_fd d) + sum (wraps d) ops =
  calls (closes_fd true d) + total (holds d) (st r) + calls (unsized_fd d) + charged exec_segment (forgets d) ops K ∅ [].
Proof.
  cbn zeta. intros Hd Hs.
  assert (Hops : Forall (λ o, accounts (holds d) (fd_due d o) (λ _, 0) (wraps d o) (exec_segment o)) ops)
    by (apply Forall_true; intros; by apply segment_accounts).
  pose proof (charged_all exec_segment (forgets d) (holds d) (fd_paid d) (wraps d) ops K ∅ [] Hops) as Ha.
  rewrite total_empty in Ha. change (fd_paid d []) with 0 in Ha. unfold fd_paid in Ha.
  destruct (exec_segments ops K ∅ []) as [[] m' t']; cbn [tr st]; [lia..|by destruct (Hs u)].
Qed.

(** C16.  Who removes which name.  The objects of a client never unlink a name that the client did
    not create: with those that it asked for itself, it unlinks a name at most as often as it
    created it, and each object that will still unlink it has a creation of its own.  The
    difference are names that outlive their objects, because [ftruncate] failed after the name was
    made or because the object was closed before it was destroyed; a client that never closes an
    object itself leaves a name behind only when [ftruncate] fails. *)
Theorem names_conserved n (ops : list (segment_op P)) :
  let r := exec_segments ops K ∅ [] in
  let calls f := count f (tr r) in
  path_is_set (path_none : P) = false → (∀ p : P, c_str (path_toString p) = n → path_is_set p = true) →
  (∀ u, out r ≠ Stuck u) →
  ∃ kept, calls (creates_name n) + sum (unlinks n) ops = calls (unlinks_name n) + total (bears n) (st r) + kept ∧
    0 ≤ kept ≤ calls truncate_failed + calls close_succeeded ∧
    (Forall (λ o, closing o = false) ops → kept ≤ calls truncate_failed).
Proof.
  cbn zeta. intros Hnone Hset Hs.
  assert (Ha : ∀ lax, Forall (λ o, lax = true ∨ closing o = false) ops →
    match exec_segments ops K ∅ [] with
    | Run (Stuck _) _ _ => True
    | Run _ m' t' => settled (bears n) (name_paid n) (name_slack lax) (sum (unlinks n) ops) ∅ [] m' t' end).
  { intros lax Hl. apply accounts_all. eapply Forall_impl; [exact Hl|]. intros o. by apply segment_names. }
  pose proof (Ha true (Forall_true _ _ (λ _, or_introl eq_refl))) as Ht. specialize (Ha false).
  unfold settled, name_paid, name_slack in Ha, Ht. rewrite total_empty, !count_nil in Ha, Ht.
  set (r := exec_segments ops K ∅ []) in *. exists (count (creates_name n) (tr r) + sum (unlinks n) ops
    - count (unlinks_name n) (tr r) - total (bears n) (st r)).
  assert (Hstrict : Forall (λ o, closing o = false) ops → Forall (λ o, false = true ∨ closing o = false) ops)
    by (intros Hc; eapply Forall_impl; [exact Hc|]; auto).
  destruct r as [[] m' t']; [..|by destruct (Hs u)]; cbv iota in Ha, Ht; rewrite ?count_nil in Ht; cbn [tr st].
  all: split_and!; [lia..|]; intros Hc; specialize (Ha (Hstrict Hc)); lia.
Qed.

End Clients.

(** ** On an input *)

#[local] Existing Instance Concrete.path_ops.

(** The kernel gives the descriptors 5, 6, ...; the second segment cannot get its size. *)
Definition demo_kernel : world posix := world_of (λ R n op,
  match op in posix R return option R with
  | sys_shm_open _ _ _ => Some (Sys (5 + Z.of_nat n) 0)
  | sys_ftruncate _ size => Some (if size =? 8192 then failed 28 else sys0)
  | _ => None end).

(** A segment is created, moved, mapped and destroyed; another one is never made; a third one is
    closed first, and keeps its name. *)
Definition demo_segments : list (segment_op string) :=
  [seg_create 0 "/a" 4096 ReadWrite 0x180; seg_moved "" 1 0; seg_map 1 Shared 3 0; seg_destroy 0; seg_destroy 1;
   seg_create 2 "/b" 8192 ReadWrite 0x180; seg_create 2 "/b" 64 ReadWrite 0x180; seg_close 2; seg_destroy 2].

(** The same, when the first [close] of a segment fails and the second one, in its destructor, too:
    only that one loses the descriptor. *)
Definition failing_kernel : world posix := world_of (λ R n op,
  match op in posix R return option R with
  | sys_shm_open _ _ _ => Some (Sys (5 + Z.of_nat n) 0)
  | sys_close _ => Some (failed 5)
  | _ => None end).

Lemma segments_conserved_witness :
  let r := exec_segments demo_segments demo_kernel ∅ [] in
  let ops := [seg_open 0 "/a" ReadWrite; seg_close 0; seg_destroy 0] in
  let f := exec_segments ops failing_kernel ∅ [] in
  count (opens_fd 5) (tr r) + sum (wraps 5) demo_segments =
    count (closes_fd true 5) (tr r) + total (holds 5) (st r) + count (unsized_fd 5) (tr r) +
    charged exec_segment (forgets 5) demo_segments demo_kernel ∅ [] ∧
  count (opens_fd 5) (tr f) + sum (wraps 5) ops =
    count (closes_fd true 5) (tr f) + total (holds 5) (st f) + count (unsized_fd 5) (tr f) +
    charged exec_segment (forgets 5) ops failing_kernel ∅ [] ∧
  count (closes_fd false 5) (tr f) = 2 ∧ charged exec_segment (forgets 5) ops failing_kernel ∅ [] = 1.
Proof.
  cbn zeta. split; [|split; [|by vm_compute]].
  - apply (segments_conserved demo_kernel 5 demo_segments); [done|]. intros u. by vm_compute.
  - apply (segments_conserved failing_kernel 5 [seg_open 0 "/a" ReadWrite; seg_close 0; seg_destroy 0]); [done|]. intros u. by vm_compute.
Defined.

Lemma names_conserved_witness :
  let r := exec_segments demo_segments demo_kernel ∅ [] in
  count (unlinks_name "/a") (tr r) = 1 ∧ count (unlinks_name "/b") (tr r) = 0 ∧
  ∃ kept, count (creates_name "/b") (tr r) + sum (unlinks "/b") demo_segments =
    count (unlinks_name "/b") (tr r) + total (bears "/b") (st r) + kept ∧ 0 ≤ kept.
Proof.
  intros r. split; [by vm_compute|]. split; [by vm_compute|].
  destruct (names_conserved demo_kernel "/b" demo_segments) as (kept & Hk & [Hpos _] & _); [done| | |].
  - intros p Hp. cbn. destruct (String.eqb_spec p ""); [by subst|done].
  - intros u. by vm_compute.
  - exists kept. split; [exact Hk|exact Hpos].
Defined.
