(* ===== verification/SignalDispatcher.v ===== *)
(** * SignalDispatcher: POSIX signal handlers

    include/cadence/io/signalDispatcher.hpp and src/io/signalDispatcher.cpp.  A
    client's handler is a function of the environment, known by its address.  Here handlers
    do not attach handlers while they run; SignalReentrancy.v lets them. *)
From stdpp Require Import sorting sets.
From S2P Require Import Prelude Posix Solace.

(** A [std::function<void(int)>] of the map: the client's, or the closure that
    [attachHandler] makes of the previous action. *)
Inductive handler :=
  | Client (f : Z)
  | Chained (old_action : sigaction_t).

(** [std::multimap]: sorted by key, equal keys in the order of insertion. *)
Abbreviation signal_map := (list (Z * handler)).

Fixpoint emplace (k : Z) (h : handler) (m : signal_map) : signal_map :=
  match m with
  | [] => [(k, h)]
  | (k', h') :: m' => if k <? k' then (k, h) :: m else (k', h') :: emplace k h m'
  end.

Definition equal_range (k : Z) (m : signal_map) : list handler :=
  map snd (filter (λ e, e.1 = k) m).

Section SignalDispatcher.
(** The address of [signalHandler]. *)
Context (signalHandler_addr : Z).

Definition invoke {S} (h : handler) (signum : Z) : prog posix S unit :=
  match h with
  | Client f => perform (call_handler f signum false)
  | Chained old_action =>
      if Z.land (sa_flags old_action) SA_SIGINFO =? SA_SIGINFO
      then perform (call_handler (sa_handler old_action) signum true)
      else perform (call_handler (sa_handler old_action) signum false)
  end.

Fixpoint invoke_all {S} (hs : list handler) (signum : Z) : prog posix S unit :=
  match hs with
  | [] => mret tt
  | h :: hs' => _ ← invoke h signum; invoke_all hs' signum
  end.

(** [signalHandler], what the kernel calls. *)
Definition signalHandler (signum : Z) : prog posix signal_map unit :=
  mapping ← get;
  invoke_all (equal_range signum mapping) signum.

(** [attachHandler], over what inserting into the mapping does to the state. *)
Definition attachHandler_in {S} (emplace : Z → handler → S → S) (signalNumber : Z) (f : Z) : prog posix S unit :=
  r ← perform (sys_sigaction signalNumber (Sigaction signalHandler_addr 0));
  if rv r.1 <? 0 then raise (IOException (errno r.1) "")
  else
    let old_action := r.2 in
    _ ← (if truthy (sa_handler old_action) && negb (sa_handler old_action =? signalHandler_addr)
         then modify (emplace signalNumber (Chained old_action)) else mret tt);
    modify (emplace signalNumber (Client f)).

Definition attachHandler : Z → Z → prog posix signal_map unit := attachHandler_in emplace.

(** A client attaches handlers. *)
Fixpoint attach_all (l : list (Z * Z)) : prog posix signal_map unit :=
  match l with
  | [] => mret tt
  | (signum, f) :: l' => _ ← attachHandler signum f; attach_all l'
  end.

(** ** Properties *)

Definition key_le (a b : Z * handler) : Prop := a.1 ≤ b.1.

Lemma emplace_In k h m e : e ∈ emplace k h m ↔ e = (k, h) ∨ e ∈ m.
Proof.
  induction m as [|[k' h'] m IH]; cbn; [set_solver|].
  case_match; rewrite ?elem_of_cons, ?IH; tauto.
Qed.

Lemma emplace_sorted k h m : StronglySorted key_le m → StronglySorted key_le (emplace k h m).
Proof.
  induction 1 as [|[k' h'] m Hs IH Hf]; cbn; [by repeat constructor|].
  destruct (Z.ltb_spec k k').
  - constructor; [by constructor|]. constructor; [unfold key_le; cbn; lia|].
    eapply Forall_impl; [exact Hf|]. unfold key_le. cbn. intros; lia.
  - constructor; [done|]. rewrite Forall_forall in *. intros e [->|?]%emplace_In; [|auto].
    unfold key_le. cbn. lia.
Qed.

Lemma range_empty k m : (∀ e, e ∈ m → k < e.1) → equal_range k m = [].
Proof.
  unfold equal_range. induction m as [|[k' h'] m IH]; intros Hm; [done|].
  rewrite filter_cons_False; [apply IH; set_solver|].
  specialize (Hm (k', h') ltac:(set_solver)). cbn in *. lia.
Qed.

Lemma range_emplace k k' h m :
  StronglySorted key_le m →
  equal_range k (emplace k' h m) = equal_range k m ++ (if decide (k' = k) then [h] else []).
Proof.
  induction 1 as [|[k2 h2] m Hs IH Hf]; cbn [emplace].
  - unfold equal_range. rewrite filter_cons. cbn. by case_decide.
  - destruct (Z.ltb_spec k' k2).
    + assert (He : k' = k → equal_range k ((k2, h2) :: m) = []).
      { intros <-. apply range_empty. rewrite Forall_forall in Hf.
        intros e [->|He]%elem_of_cons; [done|]. specialize (Hf e He). unfold key_le in Hf. cbn in Hf. lia. }
      unfold equal_range at 1. rewrite filter_cons. cbn [fst].
      destruct (decide (k' = k)); cbn [map snd]; fold (equal_range k ((k2, h2) :: m)).
      * by rewrite He.
      * by rewrite app_nil_r.
    + unfold equal_range in *. rewrite !filter_cons. cbn [fst].
      destruct (decide (k2 = k)); cbn [map snd]; rewrite IH; done.
Qed.

(** What the kernel holds for a signal after the calls of a trace. *)
Fixpoint current (init : Z → sigaction_t) (t : trace posix) (signum : Z) : sigaction_t :=
  match t with
  | [] => init signum
  | e :: t' =>
      match ev_op e with
      | sys_sigaction s act => if s =? signum then act else current init t' signum
      | _ => current init t' signum
      end
  end.

(** [sigaction] as documented: on a valid signal it succeeds, and answers the action it
    replaces. *)
Definition kernel_sigaction (valid : Z → Prop) (init : Z → sigaction_t) (K : world posix) : Prop :=
  ∀ t s act, valid s →
    0 ≤ rv (K _ t (sys_sigaction s act)).1 ∧ (K _ t (sys_sigaction s act)).2 = current init t s.

Definition chained (a : sigaction_t) : list handler :=
  if truthy (sa_handler a) && negb (sa_handler a =? signalHandler_addr) then [Chained a] else [].

(** The clients' handlers for a signal, in the order they were attached. *)
Definition attached (s : Z) (l : list (Z * Z)) : list Z := map snd (filter (λ p, p.1 = s) l).

(** What a signal is to run: the action the process had before, then the clients'. *)
Definition expected (before : sigaction_t) (fs : list Z) : list handler :=
  match fs with [] => [] | _ => chained before ++ map Client fs end.

(** The call that running a handler is. *)
Definition call_of (signum : Z) (h : handler) : event posix :=
  match h with
  | Client f => Event (call_handler f signum false) tt
  | Chained a => Event (call_handler (sa_handler a) signum (Z.land (sa_flags a) SA_SIGINFO =? SA_SIGINFO)) tt
  end.

Lemma invoke_call {S} h signum K (s : S) t : invoke h signum K s t = Run (Ret tt) s (call_of signum h :: t).
Proof.
  destruct h as [f|a]; cbn; unfold perform; [by destruct (K _ _ _)|].
  by case_match; cbn; destruct (K _ _ _).
Qed.

Lemma invoke_all_calls {S} hs signum K (s : S) t :
  invoke_all hs signum K s t = Run (Ret tt) s (rev (map (call_of signum) hs) ++ t).
Proof.
  revert t. induction hs as [|h hs IH]; intros t; cbn; [done|].
  unfold mbind, prog_bind. rewrite invoke_call, IH. by rewrite <- app_assoc.
Qed.

Section Kernel.
Context (valid : Z → Prop) (init : Z → sigaction_t) (K : world posix).
Context (HK : kernel_sigaction valid init K).

Lemma attach_one s f m t :
  valid s → StronglySorted key_le m →
  ∃ m' t', attachHandler s f K m t = Run (Ret tt) m' t' ∧ StronglySorted key_le m' ∧
    (∀ k, equal_range k m' = equal_range k m ++ if decide (s = k) then chained (current init t s) ++ [Client f] else []) ∧
    (∀ k, current init t' k = if decide (s = k) then Sigaction signalHandler_addr 0 else current init t k).
Proof.
  intros Hs Hm. destruct (HK t s (Sigaction signalHandler_addr 0) Hs) as [Hr Hold].
  unfold attachHandler, attachHandler_in, chained. unfold_prog. destruct (Z.ltb_spec (rv (K _ t (sys_sigaction s (Sigaction signalHandler_addr 0))).1) 0);
    [lia|]. rewrite Hold.
  destruct (truthy (sa_handler (current init t s)) && _); do 2 eexists;
    (split; [reflexivity|]); (split; [by repeat apply emplace_sorted|]); split; intros k.
  - rewrite range_emplace, range_emplace by auto using emplace_sorted. rewrite <- app_assoc. by case_decide.
  - cbn. destruct (Z.eqb_spec s k); by case_decide.
  - rewrite range_emplace by done. by case_decide.
  - cbn. destruct (Z.eqb_spec s k); by case_decide.
Qed.

Lemma chained_self : chained (Sigaction signalHandler_addr 0) = [].
Proof. unfold chained. cbn. by rewrite Z.eqb_refl, andb_false_r. Qed.

Lemma attach_all_ranges l m t :
  (∀ p, p ∈ l → valid p.1) → StronglySorted key_le m →
  ∃ m' t', attach_all l K m t = Run (Ret tt) m' t' ∧
    ∀ k, equal_range k m' = equal_range k m ++ expected (current init t k) (attached k l).
Proof.
  revert m t. induction l as [|[s f] l IH]; intros m t Hv Hm; cbn [attach_all].
  { do 2 eexists. split; [done|]. intros. by rewrite app_nil_r. }
  destruct (attach_one s f m t) as (m1 & t1 & Hrun & Hm1 & Hr & Hc); [by apply (Hv (s, f)); set_solver|done|].
  destruct (IH m1 t1) as (m' & t' & Hrun' & Hr'); [set_solver|done|].
  unfold mbind, prog_bind. rewrite Hrun, Hrun'. do 2 eexists. split; [done|].
  intros k. rewrite Hr', Hr, Hc. unfold attached. rewrite filter_cons. cbn [fst].
  case_decide as Hk; [|by rewrite app_nil_r]. subst k. cbn [map snd].
  fold (attached s l). rewrite <- !app_assoc. do 2 f_equal. cbn.
  destruct (attached s l) as [|g gs]; cbn; [done|]. by rewrite chained_self.
Qed.

End Kernel.

(** C13.  Dispatching a signal.  After any sequence of attachments, on a kernel whose
    [sigaction] succeeds for the signals concerned, the dispatcher of a signal calls
    exactly: the handler that the process had before the first attachment for it, unless
    there was none or it was this dispatcher, and then the clients' handlers for this
    signal in the order they were attached; each is called once, with the number of the
    signal.  A signal that was ignored ([SIG_IGN], the address 1) counts as a handler. *)
Theorem signal_dispatch valid init (K : world posix) l (t0 : trace posix) :
  kernel_sigaction valid init K → (∀ p, p ∈ l → valid p.1) →
  ∃ m t1, attach_all l K [] t0 = Run (Ret tt) m t1 ∧
    ∀ signum t, signalHandler signum K m t =
      Run (Ret tt) m
        (rev (map (call_of signum) (expected (current init t0 signum) (attached signum l))) ++ t).
Proof.
  intros HK Hv. destruct (attach_all_ranges valid init K HK l [] t0 Hv) as (m & t1 & Hrun & Hr); [constructor|].
  exists m, t1. split; [done|]. intros signum t.
  unfold signalHandler. unfold mbind, prog_bind, get. cbn. by rewrite invoke_all_calls, Hr.
Qed.

End SignalDispatcher.

(** A kernel, for the witnesses: signal 2 is ignored, 15 has a handler at 4096, 9 cannot be
    caught. *)
Definition demo_init (s : Z) : sigaction_t :=
  if s =? 2 then Sigaction SIG_IGN 0 else if s =? 15 then Sigaction 4096 SA_SIGINFO else Sigaction SIG_DFL 0.

Definition demo_kernel : world posix := λ R t op,
  match op in posix R return R with
  | sys_sigaction s _ => (if s =? 9 then failed 22 else sys0, current demo_init t s)
  | op => zero_answer op
  end.

(** The ignored signal 2 jumps to address 1. *)
Lemma signal_dispatch_witness :
  ∃ m t1, attach_all 77 [(15, 500); (2, 600); (15, 700)] demo_kernel [] [] = Run (Ret tt) m t1 ∧
    tr (signalHandler 15 demo_kernel m []) =
      [Event (call_handler 700 15 false) tt; Event (call_handler 500 15 false) tt;
       Event (call_handler 4096 15 true) tt] ∧
    tr (signalHandler 2 demo_kernel m []) =
      [Event (call_handler 600 2 false) tt; Event (call_handler 1 2 false) tt].
Proof.
  destruct (signal_dispatch 77 (λ s, s ≠ 9) demo_init demo_kernel [(15, 500); (2, 600); (15, 700)] [])
    as (m & t1 & Hrun & Hd).
  - intros t s act Hs. cbn. by rewrite (proj2 (Z.eqb_neq s 9) Hs).
  - set_solver.
  - exists m, t1. split; [done|]. rewrite !Hd. done.
Defined.
