(* ===== verification/SignalReentrancy.v ===== *)
(** * SignalDispatcher: handlers that attach handlers

    src/io/signalDispatcher.cpp again.  [signalHandler] walks over the multimap with two
    iterators; a handler that runs may call [attachHandler], which inserts into the multimap
    under them.  What a handler attaches is the client's: [body], a function from the address
    of the handler and the number it is called with. *)
From stdpp Require Import sorting sets.
From S2P Require Import Prelude Posix Solace SignalDispatcher.

(** [upper_bound], where [emplace] inserts, and [lower_bound]. *)
Definition upper_bound (k : Z) (m : signal_map) : nat := length (filter (λ e, e.1 ≤ k) m).
Definition lower_bound (k : Z) (m : signal_map) : nat := length (filter (λ e, e.1 < k) m).

(** A walk under way: the iterators [handlerRange] and [ret.second] as the positions of the
    nodes they designate. *)
Record walk := Walk { w_map : signal_map; w_cur : nat; w_end : nat }.

(** Insertion does not invalidate iterators: they stay with their nodes, whose positions grow
    when the new node comes before them. *)
Definition shift (p i : nat) : nat := if (p <=? i)%nat then S i else i.
Definition emplace_walk (k : Z) (h : handler) (w : walk) : walk :=
  let p := upper_bound k (w_map w) in
  Walk (emplace k h (w_map w)) (shift p (w_cur w)) (shift p (w_end w)).

Section Reentrancy.
Context (signalHandler_addr : Z) (body : Z → Z → list (Z * Z)).

(** The address that running a handler jumps to. *)
Definition address (h : handler) : Z := match h with Client f => f | Chained a => sa_handler a end.

(** [attachHandler], called several times. *)
Fixpoint attach_list (l : list (Z * Z)) : prog posix walk unit :=
  match l with
  | [] => mret tt
  | (signum, f) :: l' => _ ← attachHandler_in signalHandler_addr emplace_walk signum f; attach_list l'
  end.

(** [handlerRange->second(signum)]. *)
Definition invoke_walk (h : handler) (signum : Z) : prog posix walk unit :=
  _ ← invoke h signum; attach_list (body (address h) signum).

(** The loop of [signalHandler]. *)
Fixpoint walk_loop (fuel : nat) (signum : Z) : prog posix walk unit :=
  match fuel with
  | O => stuck OutOfFuel
  | S fuel' =>
      w ← get;
      if (w_cur w =? w_end w)%nat then mret tt
      else match w_map w !! w_cur w with
           | None => stuck OutOfBounds
           | Some (_, h) =>
               _ ← invoke_walk h signum;
               _ ← modify (λ w, Walk (w_map w) (S (w_cur w)) (w_end w));
               walk_loop fuel' signum
           end
  end.

Definition signalHandler_walk (fuel : nat) (signum : Z) : prog posix signal_map unit :=
  zoom (λ m, Walk m (lower_bound signum m) (upper_bound signum m)) (λ w _, w_map w) (walk_loop fuel signum).

(** A signal that arrives in [attachHandler] after the kernel was told and before the mapping
    is changed: the dispatcher runs there, on the mapping as it is. *)
Definition attachHandler_interrupted (arriving signalNumber f : Z) : prog posix signal_map unit :=
  r ← perform (sys_sigaction signalNumber (Sigaction signalHandler_addr 0));
  if rv r.1 <? 0 then raise (IOException (errno r.1) "")
  else
    let old_action := r.2 in
    _ ← signalHandler arriving;
    _ ← (if truthy (sa_handler old_action) && negb (sa_handler old_action =? signalHandler_addr)
         then modify (emplace signalNumber (Chained old_action)) else mret tt);
    modify (emplace signalNumber (Client f)).

(** ** Positions *)

Lemma upper_bound_app k l1 l2 : upper_bound k (l1 ++ l2) = (upper_bound k l1 + upper_bound k l2)%nat.
Proof. unfold upper_bound. by rewrite filter_app, length_app. Qed.

Lemma upper_bound_le k l : (upper_bound k l ≤ length l)%nat.
Proof. unfold upper_bound. apply length_filter. Qed.

Lemma filter_all {A} (P : A → Prop) `{∀ x, Decision (P x)} l : Forall P l → filter P l = l.
Proof. induction 1 as [|x l Hx Hl IH]; [done|]. rewrite filter_cons_True by done. by rewrite IH. Qed.

Lemma filter_none {A} (P : A → Prop) `{∀ x, Decision (P x)} l : Forall (λ x, ¬ P x) l → filter P l = [].
Proof. induction 1 as [|x l Hx Hl IH]; [done|]. by rewrite filter_cons_False. Qed.

Lemma upper_bound_all k l : Forall (λ e, e.1 ≤ k) l → upper_bound k l = length l.
Proof. intros Hl. unfold upper_bound. by rewrite filter_all. Qed.

Lemma upper_bound_none k l : Forall (λ e, k < e.1) l → upper_bound k l = 0%nat.
Proof.
  intros Hl. unfold upper_bound. rewrite filter_none; [done|].
  eapply Forall_impl; [exact Hl|]. cbn. lia.
Qed.

Lemma emplace_before k h l1 l2 : Forall (λ e, k < e.1) l2 → emplace k h (l1 ++ l2) = emplace k h l1 ++ l2.
Proof.
  intros Hl. induction l1 as [|[k1 h1] l1 IH]; cbn.
  - destruct Hl as [|[k2 h2] l2 Hk Hl]; cbn; [done|]. cbn in Hk. by rewrite (proj2 (Z.ltb_lt k k2) Hk).
  - destruct (k <? k1); [done|]. cbn. by rewrite IH.
Qed.

Lemma emplace_after k h l1 l2 : Forall (λ e, e.1 ≤ k) l1 → emplace k h (l1 ++ l2) = l1 ++ emplace k h l2.
Proof.
  induction 1 as [|[k1 h1] l1 Hk Hl IH]; [done|]. cbn in *.
  rewrite (proj2 (Z.ltb_ge k k1)) by lia. by rewrite IH.
Qed.

Lemma emplace_length k h m : length (emplace k h m) = S (length m).
Proof. induction m as [|[k1 h1] m IH]; cbn; [done|]. case_match; cbn; [done|]. by rewrite IH. Qed.

(** A sorted map splits around a key. *)
Lemma sorted_split k m :
  StronglySorted key_le m →
  ∃ pre mid post, m = pre ++ mid ++ post ∧ Forall (λ e, e.1 < k) pre ∧ Forall (λ e, e.1 = k) mid ∧
    Forall (λ e, k < e.1) post ∧ equal_range k m = map snd mid.
Proof.
  induction 1 as [|[k1 h1] m Hs IH Hf]; [by exists [], [], []|].
  destruct IH as (pre & mid & post & -> & Hpre & Hmid & Hpost & Hr).
  unfold equal_range in *. rewrite filter_cons. cbn [fst].
  assert (Hge : Forall (λ e, k1 ≤ e.1) (pre ++ mid ++ post)).
  { eapply Forall_impl; [exact Hf|]. done. }
  destruct (Z.lt_trichotomy k1 k) as [Hlt|[->|Hgt]].
  - exists ((k1, h1) :: pre), mid, post. rewrite decide_False by lia.
    split_and!; [done|by constructor|done|done|done].
  - assert (pre = []) as ->.
    { destruct pre as [|e pre]; [done|]. cbn in Hge. apply Forall_cons in Hge as [He _].
      apply Forall_cons in Hpre as [He' _]. lia. }
    exists [], ((k, h1) :: mid), post. rewrite decide_True by done. cbn in *. rewrite Hr.
    split_and!; [done|done|by constructor|done|done].
  - exists [], [], ((k1, h1) :: pre ++ mid ++ post). rewrite decide_False by lia.
    assert (Forall (λ e, k < e.1) (pre ++ mid ++ post)) as Hall by (eapply Forall_impl; [exact Hge|]; cbn; lia).
    split_and!; [done|done|done|by constructor|].
    rewrite filter_none; [done|]. eapply Forall_impl; [exact Hall|]. cbn. lia.
Qed.

(** ** The walk *)

(** The walk stands before [mid], the nodes that are left to visit. *)
Definition shape (signum : Z) (w : walk) (pre mid post : signal_map) : Prop :=
  w = Walk (pre ++ mid ++ post) (length pre) (length pre + length mid) ∧
  Forall (λ e, e.1 ≤ signum) pre ∧ Forall (λ e, e.1 = signum) mid ∧ Forall (λ e, signum < e.1) post.

(** Signals that can be attached without disturbing the walk: smaller ones, and those that are
    not before the node where the walk ends. *)
Definition outside (signum : Z) (post : signal_map) (s : Z) : Prop :=
  s < signum ∨ ∃ e rest, post = e :: rest ∧ e.1 ≤ s.

Lemma emplace_shape signum w pre mid post s h :
  shape signum w pre mid post → outside signum post s →
  ∃ pre' post', shape signum (emplace_walk s h w) pre' mid post' ∧
    ∀ s', outside signum post s' → outside signum post' s'.
Proof.
  intros (-> & Hpre & Hmid & Hpost) [Hs|(e & rest & -> & He)]; unfold emplace_walk; cbn [w_map w_cur w_end].
  - assert (Hr : Forall (λ e, s < e.1) (mid ++ post)).
    { apply Forall_app. split; (eapply Forall_impl; [eassumption|]); cbn; lia. }
    exists (emplace s h pre), post. split; [|done].
    rewrite upper_bound_app, (upper_bound_none s (mid ++ post)), emplace_before, Nat.add_0_r by done.
    pose proof (upper_bound_le s pre). unfold shift. rewrite !(proj2 (Nat.leb_le _ _)) by lia.
    split; [by rewrite emplace_length|]. split_and!; [|done|done].
    apply Forall_forall. intros x [->|Hx]%emplace_In; [cbn; lia|]. by apply (proj1 (Forall_forall _ _) Hpre).
  - apply Forall_cons in Hpost as Hp. destruct Hp as [He' Hrest].
    assert (Hl : Forall (λ e, e.1 ≤ s) (pre ++ mid ++ [e])).
    { rewrite !Forall_app. split_and!; [eapply Forall_impl; [exact Hpre|]|eapply Forall_impl; [exact Hmid|]|
        by constructor]; cbn; lia. }
    exists pre, (e :: emplace s h rest). split; [|intros s' [?|(e' & r' & [= <- <-] & ?)]; [by left|right; by do 2 eexists]].
    replace (pre ++ mid ++ e :: rest) with ((pre ++ mid ++ [e]) ++ rest) by (by rewrite <- !app_assoc).
    rewrite upper_bound_app, (upper_bound_all s (pre ++ _)), emplace_after by done.
    unfold shift. rewrite !length_app, !(proj2 (Nat.leb_gt _ _)) by (cbn; lia).
    split; [by rewrite <- !app_assoc|]. split_and!; [done|done|].
    constructor; [done|]. apply Forall_forall. intros x [->|Hx]%emplace_In; [cbn; lia|].
    by apply (proj1 (Forall_forall _ _) Hrest).
Qed.

(** A call of [attachHandler] that the kernel accepts. *)
Lemma attach_in_run {S} (emp : Z → handler → S → S) s f (K : world posix) w (t : trace posix) :
  let op := sys_sigaction s (Sigaction signalHandler_addr 0) in
  0 ≤ rv (K _ t op).1 →
  attachHandler_in signalHandler_addr emp s f K w t =
  Run (Ret tt) (emp s (Client f) (foldl (λ w h, emp s h w) w (chained signalHandler_addr (K _ t op).2)))
    (Event op (K _ t op) :: t).
Proof.
  intros op Hr. unfold attachHandler_in, chained. unfold_prog. fold op.
  rewrite (proj2 (Z.ltb_ge _ _) Hr). by case_if.
Qed.

(** The calls of a trace. *)
Definition is_call (e : event posix) : bool := match ev_op e with call_handler _ _ _ => true | _ => false end.
Definition calls (t : trace posix) : trace posix := List.filter is_call t.

Section Kernel.
Context (valid : Z → Prop) (init : Z → sigaction_t) (K : world posix).
Context (HK : kernel_sigaction valid init K).

(** The map [m'] after attaching [l] to [m], by what it holds for each signal. *)
Definition grown (l : list (Z * Z)) (m : signal_map) (t : trace posix) (m' : signal_map) (t' : trace posix) : Prop :=
  StronglySorted key_le m' ∧
  ∀ k, equal_range k m' = equal_range k m ++ expected signalHandler_addr (current init t k) (attached k l) ∧
       current init t' k = match attached k l with [] => current init t k | _ => Sigaction signalHandler_addr 0 end.

Lemma grown_nil m t : StronglySorted key_le m → grown [] m t m t.
Proof. intros Hm. split; [done|]. intros k. by rewrite app_nil_r. Qed.

Lemma expected_app c l1 l2 :
  expected signalHandler_addr c l1 ++
  expected signalHandler_addr (match l1 with [] => c | _ => Sigaction signalHandler_addr 0 end) l2 =
  expected signalHandler_addr c (l1 ++ l2).
Proof.
  destruct l1 as [|f l1]; [done|]. destruct l2 as [|g l2]; cbn; [by rewrite !app_nil_r|].
  rewrite chained_self, <- app_assoc. cbn. by rewrite map_app.
Qed.

Lemma grown_trans l1 l2 m t m1 t1 m2 t2 :
  grown l1 m t m1 t1 → grown l2 m1 t1 m2 t2 → grown (l1 ++ l2) m t m2 t2.
Proof.
  intros [_ H1] [Hs H2]. split; [done|]. intros k. destruct (H1 k) as [Hr1 Hc1]. destruct (H2 k) as [Hr2 Hc2].
  unfold attached in *. rewrite filter_app, map_app. rewrite Hr2, Hc1, Hr1, <- app_assoc, expected_app.
  split; [done|]. rewrite Hc2, Hc1. by destruct (map snd (filter _ l1)), (map snd (filter _ l2)).
Qed.

(** Calls do not change what the kernel holds. *)
Lemma grown_call l m t m' t' signum h : grown l m (call_of signum h :: t) m' t' → grown l m t m' t'.
Proof. intros [Hs Hg]. split; [done|]. intros k. specialize (Hg k). by destruct h. Qed.

Lemma grown_one s f m t :
  valid s → StronglySorted key_le m →
  let op := sys_sigaction s (Sigaction signalHandler_addr 0) in
  grown [(s, f)] m t (emplace s (Client f) (foldl (λ w h, emplace s h w) m (chained signalHandler_addr (K _ t op).2)))
    (Event op (K _ t op) :: t).
Proof.
  intros Hs Hm op. destruct (HK t s (Sigaction signalHandler_addr 0) Hs) as [Hr _].
  destruct (attach_one signalHandler_addr valid init K HK s f m t Hs Hm) as (m' & t' & Hrun & Hm' & Hrange & Hcur).
  unfold attachHandler in Hrun. rewrite attach_in_run in Hrun by done. injection Hrun as <- <-.
  split; [done|]. intros k. rewrite Hrange, Hcur. unfold attached. rewrite filter_cons. cbn [fst].
  by case_decide; subst; split.
Qed.

Lemma attach_walk signum w pre mid post s f t :
  valid s → shape signum w pre mid post → outside signum post s → StronglySorted key_le (w_map w) →
  ∃ w' t' pre' post', attachHandler_in signalHandler_addr emplace_walk s f K w t = Run (Ret tt) w' t' ∧
    shape signum w' pre' mid post' ∧ (∀ s', outside signum post s' → outside signum post' s') ∧
    calls t' = calls t ∧ grown [(s, f)] (w_map w) t (w_map w') t'.
Proof.
  intros Hv Hsh Ho Hm. destruct (HK t s (Sigaction signalHandler_addr 0) Hv) as [Hr _].
  pose proof (grown_one s f (w_map w) t Hv Hm) as Hg. rewrite attach_in_run by done.
  unfold chained in *. cbn zeta in Hg. destruct (truthy _ && _); cbn [foldl] in *.
  - destruct (emplace_shape signum w pre mid post s
      (Chained (K _ t (sys_sigaction s (Sigaction signalHandler_addr 0))).2) Hsh Ho) as (pre1 & post1 & Hsh1 & Ho1).
    destruct (emplace_shape signum _ pre1 mid post1 s (Client f) Hsh1 (Ho1 s Ho)) as (pre2 & post2 & Hsh2 & Ho2).
    do 4 eexists. split; [reflexivity|]. split; [exact Hsh2|]. split_and!; [auto|done|exact Hg].
  - destruct (emplace_shape signum w pre mid post s (Client f) Hsh Ho) as (pre1 & post1 & Hsh1 & Ho1).
    do 4 eexists. split; [reflexivity|]. split; [exact Hsh1|]. split_and!; [auto|done|exact Hg].
Qed.

Lemma attach_list_walk signum l : ∀ w pre mid post t,
  (∀ p, p ∈ l → valid p.1 ∧ outside signum post p.1) →
  shape signum w pre mid post → StronglySorted key_le (w_map w) →
  ∃ w' t' pre' post', attach_list l K w t = Run (Ret tt) w' t' ∧
    shape signum w' pre' mid post' ∧ (∀ s', outside signum post s' → outside signum post' s') ∧
    calls t' = calls t ∧ grown l (w_map w) t (w_map w') t'.
Proof.
  induction l as [|[s f] l IH]; intros w pre mid post t Hl Hsh Hm.
  { exists w, t, pre, post. split_and!; try done. by apply grown_nil. }
  destruct (Hl (s, f)) as [Hv Ho]; [by left|].
  destruct (attach_walk signum w pre mid post s f t Hv Hsh Ho Hm) as (w1 & t1 & pre1 & post1 & Hr1 & Hsh1 & Ho1 & Hc1 & Hg1).
  destruct (IH w1 pre1 mid post1 t1) as (w2 & t2 & pre2 & post2 & Hr2 & Hsh2 & Ho2 & Hc2 & Hg2);
    [intros p Hp; destruct (Hl p); [by right|auto]|done|apply Hg1|].
  exists w2, t2, pre2, post2. cbn [attach_list]. rewrite bind_run, Hr1, Hr2.
  split_and!; [done|done|auto|congruence|]. by apply (grown_trans [(s, f)] l _ _ (w_map w1) t1).
Qed.

(** What the handlers of a range attach, in order. *)
Definition bodies (signum : Z) (hs : list handler) : list (Z * Z) :=
  concat (map (λ h, body (address h) signum) hs).

Lemma bodies_cons signum (k : Z) h (mid : signal_map) :
  bodies signum (map snd ((k, h) :: mid)) = body (address h) signum ++ bodies signum (map snd mid).
Proof. done. Qed.

Lemma walk_loop_run signum fuel : ∀ (mid : signal_map) w pre post t,
  (∀ p, p ∈ bodies signum (map snd mid) → valid p.1 ∧ outside signum post p.1) →
  shape signum w pre mid post → StronglySorted key_le (w_map w) → (length mid < fuel)%nat →
  ∃ w' t', walk_loop fuel signum K w t = Run (Ret tt) w' t' ∧
    calls t' = rev (map (call_of signum) (map snd mid)) ++ calls t ∧
    grown (bodies signum (map snd mid)) (w_map w) t (w_map w') t'.
Proof.
  induction fuel as [|fuel IH]; intros mid w pre post t Hb Hsh Hm Hf; [lia|]. cbn [walk_loop].
  rewrite bind_get. pose proof Hsh as (Hw & Hpre & Hmid & Hpost). destruct mid as [|[k h] mid].
  { subst w. cbn [w_cur w_end length]. rewrite Nat.add_0_r, Nat.eqb_refl. do 2 eexists. split; [done|].
    split; [done|]. by apply grown_nil. }
  apply Forall_cons in Hmid as [Hk Hmid]. cbn [fst] in Hk. subst k.
  assert (Hlook : w_map w !! w_cur w = Some (signum, h)).
  { subst w. cbn [w_map w_cur]. by rewrite lookup_app_r, Nat.sub_diag. }
  assert (Hne : (w_cur w =? w_end w)%nat = false) by (subst w; apply Nat.eqb_neq; cbn; lia).
  rewrite Hne, Hlook, bind_run. unfold invoke_walk. rewrite bind_run, invoke_call.
  destruct (attach_list_walk signum (body (address h) signum) w pre ((signum, h) :: mid) post (call_of signum h :: t))
    as (w1 & t1 & pre1 & post1 & Hr1 & (Hw1 & Hpre1 & _ & Hpost1) & Ho1 & Hc1 & Hg1); [|done|done|].
  { intros p Hp. apply Hb. rewrite bodies_cons. apply elem_of_app. by left. }
  rewrite Hr1. rewrite bind_run. unfold modify. set (w2 := Walk (w_map w1) (S (w_cur w1)) (w_end w1)).
  destruct (IH mid w2 (pre1 ++ [(signum, h)]) post1 t1) as (w' & t' & Hr' & Hc' & Hg').
  - intros p Hp. destruct (Hb p) as [Hv Ho]; [rewrite bodies_cons; apply elem_of_app; by right|]. auto.
  - subst w2. rewrite Hw1. split; [|split_and!; [|done|done]].
    + cbn [w_map w_cur w_end]. rewrite length_app, <- !app_assoc. cbn. f_equal; lia.
    + apply Forall_app. split; [done|]. constructor; [cbn; lia|done].
  - apply Hg1.
  - cbn in Hf. lia.
  - exists w', t'. split; [done|]. split.
    + rewrite Hc', Hc1. cbn. rewrite <- app_assoc. cbn. by destruct h.
    + rewrite bodies_cons. apply grown_trans with (w_map w1) t1; [|exact Hg']. by eapply grown_call.
Qed.

Lemma bounds_split signum pre mid post :
  Forall (λ e, e.1 < signum) pre → Forall (λ e, e.1 = signum) mid → Forall (λ e, signum < e.1) post →
  lower_bound signum (pre ++ mid ++ post) = length pre ∧
  upper_bound signum (pre ++ mid ++ post) = (length pre + length mid)%nat.
Proof.
  intros Hpre Hmid Hpost. split.
  - unfold lower_bound. rewrite !filter_app, filter_all, !filter_none; [by rewrite !app_nil_r|..]; try done;
      (eapply Forall_impl; [eassumption|]); cbn; lia.
  - rewrite !upper_bound_app, (upper_bound_all signum pre), (upper_bound_all signum mid), upper_bound_none;
      [lia|done|..]; (eapply Forall_impl; [eassumption|]); cbn; lia.
Qed.

(** In a sorted map the first node above a signal is the smallest. *)
Lemma sorted_head l e0 rest e : StronglySorted key_le (l ++ e0 :: rest) → e ∈ e0 :: rest → e0.1 ≤ e.1.
Proof.
  induction l as [|x l IH]; cbn; intros Hs He; apply StronglySorted_inv in Hs as [Hs Hf]; [|by apply IH].
  apply elem_of_cons in He as [->|He]; [done|]. by apply (proj1 (Forall_forall _ _) Hf).
Qed.

(** C9.  Handlers that attach handlers.  The walk over the handlers of a signal ends, and calls
    each of them once and in order, as long as what they attach is for smaller signals or for
    signals not below the next one that has handlers; and afterwards every signal has the
    handlers it had before, followed by those attached on the way, in order, after the action
    that the kernel held for the signal if it was attached to for the first time. *)
Theorem reentrant_dispatch signum m t fuel :
  StronglySorted key_le m → (length (equal_range signum m) < fuel)%nat →
  let attached_now := bodies signum (equal_range signum m) in
  (∀ p, p ∈ attached_now → valid p.1 ∧
     (p.1 < signum ∨ ∃ e, e ∈ m ∧ signum < e.1 ∧ e.1 ≤ p.1)) →
  ∃ m' t', signalHandler_walk fuel signum K m t = Run (Ret tt) m' t' ∧
    calls t' = rev (map (call_of signum) (equal_range signum m)) ++ calls t ∧
    grown attached_now m t m' t'.
Proof.
  intros Hm Hf attached_now Hb. subst attached_now.
  destruct (sorted_split signum m Hm) as (pre & mid & post & -> & Hpre & Hmid & Hpost & Hr).
  destruct (bounds_split signum pre mid post Hpre Hmid Hpost) as [Hlow Hup].
  unfold signalHandler_walk, zoom. rewrite Hlow, Hup. rewrite Hr in *.
  destruct (walk_loop_run signum fuel mid (Walk (pre ++ mid ++ post) (length pre) (length pre + length mid)) pre post t)
    as (w' & t' & Hrun & Hc & Hg).
  - intros p Hp. destruct (Hb p Hp) as [Hv [Hlt|(e & He & Hlt & Hle)]]; (split; [done|]); [by left|right].
    assert (He' : e ∈ post).
    { rewrite !elem_of_app in He. rewrite Forall_forall in Hpre, Hmid.
      destruct He as [He|[He|He]]; [specialize (Hpre e He)|specialize (Hmid e He)|done]; cbn in *; lia. }
    destruct post as [|e0 post']; [by apply elem_of_nil in He'|]. exists e0, post'. split; [done|].
    rewrite app_assoc in Hm. pose proof (sorted_head _ _ _ _ Hm He'). lia.
  - split; [done|]. split_and!; [eapply Forall_impl; [exact Hpre|]; cbn; lia|done|done].
  - done.
  - by rewrite length_map in Hf.
  - rewrite Hrun. by exists (w_map w'), t'.
Qed.

(** One turn of the loop. *)
Lemma walk_loop_step fuel signum k h w t w1 t1 :
  w_map w !! w_cur w = Some (k, h) → w_cur w ≠ w_end w →
  attach_list (body (address h) signum) K w (call_of signum h :: t) = Run (Ret tt) w1 t1 →
  walk_loop (S fuel) signum K w t =
  walk_loop fuel signum K (Walk (w_map w1) (S (w_cur w1)) (w_end w1)) t1.
Proof.
  intros Hl Hne Ha. cbn [walk_loop]. rewrite bind_get, (proj2 (Nat.eqb_neq _ _) Hne), Hl, bind_run.
  unfold invoke_walk. by rewrite bind_run, invoke_call, Ha.
Qed.

(** A node inserted at the end of the walk belongs to it. *)
Lemma emplace_inside signum pre mid post k h :
  Forall (λ e, e.1 ≤ signum) pre → Forall (λ e, e.1 = signum) mid → mid ≠ [] →
  signum ≤ k → Forall (λ e, k < e.1) post →
  emplace_walk k h (Walk (pre ++ mid ++ post) (length pre) (length pre + length mid)) =
  Walk (pre ++ (mid ++ [(k, h)]) ++ post) (length pre) (length pre + S (length mid)).
Proof.
  intros Hpre Hmid Hne Hk Hpost. unfold emplace_walk. cbn [w_map w_cur w_end].
  assert (Hl : Forall (λ e, e.1 ≤ k) (pre ++ mid)).
  { apply Forall_app. split; (eapply Forall_impl; [eassumption|]); cbn; lia. }
  assert (0 < length mid)%nat by (destruct mid; cbn; [done|lia]).
  rewrite app_assoc, upper_bound_app, (upper_bound_all k (pre ++ mid)), upper_bound_none, Nat.add_0_r by done.
  rewrite emplace_before, <- (app_nil_r (pre ++ mid)), emplace_after by done. cbn [emplace].
  rewrite app_nil_r. unfold shift. rewrite length_app, (proj2 (Nat.leb_gt _ (length pre))), Nat.leb_refl by lia.
  f_equal; [by rewrite <- !app_assoc|lia].
Qed.

(** A handler that attaches itself to the signal it is called for. *)
Lemma self_attach_diverges s f fuel : ∀ mid pre post t,
  body f s = [(s, f)] → valid s → Forall (λ e, e.1 ≤ s) pre → Forall (λ e, e = (s, Client f)) mid →
  mid ≠ [] → Forall (λ e, s < e.1) post → current init t s = Sigaction signalHandler_addr 0 →
  out (walk_loop fuel s K (Walk (pre ++ mid ++ post) (length pre) (length pre + length mid)) t) = Stuck OutOfFuel.
Proof.
  induction fuel as [|fuel IH]; intros mid pre post t Hb Hv Hpre Hmid Hne Hpost Hc; [done|].
  assert (Hkeys : Forall (λ e, e.1 = s) mid) by (eapply Forall_impl; [exact Hmid|]; by intros ? ->).
  destruct mid as [|x mid]; [done|]. apply Forall_cons in Hmid as [-> Hmid].
  destruct (HK (call_of s (Client f) :: t) s (Sigaction signalHandler_addr 0) Hv) as [Hr Hold].
  erewrite (walk_loop_step _ s s (Client f)); [| | |cbn [address]; rewrite Hb; cbn [attach_list]; rewrite bind_run, attach_in_run by done; reflexivity].
  2: { cbn [w_map w_cur]. by rewrite lookup_app_r, Nat.sub_diag. }
  2: { cbn. lia. }
  rewrite Hold. change (current init (call_of s (Client f) :: t) s) with (current init t s). rewrite Hc, chained_self.
  cbn [foldl]. rewrite (emplace_inside s) by done. cbn [w_map w_cur w_end].
  replace (pre ++ (((s, Client f) :: mid) ++ [(s, Client f)]) ++ post)
    with ((pre ++ [(s, Client f)]) ++ (mid ++ [(s, Client f)]) ++ post) by (by rewrite <- !app_assoc).
  replace (S (length pre)) with (length (pre ++ [(s, Client f)])) by (rewrite length_app; cbn; lia).
  replace (length pre + S (length ((s, Client f) :: mid)))%nat
    with (length (pre ++ [(s, Client f)]) + length (mid ++ [(s, Client f)]))%nat by (rewrite !length_app; cbn; lia).
  apply IH; [done|done|..|done|].
  - apply Forall_app. split; [done|]. constructor; [cbn; lia|done].
  - apply Forall_app. split; [done|]. by constructor.
  - by destruct mid.
  - cbn. by rewrite Z.eqb_refl.
Qed.

(** The first handler of a signal: what arrives too early is lost, for the action that was
    replaced as well. *)
Lemma early_signal_lost s f m (t : trace posix) :
  valid s → equal_range s m = [] →
  calls (tr (attachHandler_interrupted s s f K m t)) = calls t ∧
  st (attachHandler_interrupted s s f K m t) = st (attachHandler signalHandler_addr s f K m t).
Proof.
  intros Hv Hr. destruct (HK t s (Sigaction signalHandler_addr 0) Hv) as [Hok _].
  unfold attachHandler_interrupted, attachHandler, attachHandler_in, signalHandler. unfold_prog.
  rewrite (proj2 (Z.ltb_ge _ _) Hok), Hr. cbn. by case_if.
Qed.

(** C40.  What handlers that attach handlers can do to the walk.  Let [f] be the only handler of
    signal [s].  When it attaches [g'] to a signal above [s] and below the next one with
    handlers, [g'] is called in the same walk, with the number of the wrong signal; when it
    attaches itself to [s], the walk never ends.  And a signal that arrives while its first
    handler is being attached, after the kernel was told, calls nothing at all. *)
Theorem reentrant_hazards s f m (t : trace posix) :
  StronglySorted key_le m → equal_range s m = [Client f] →
  (∀ g g' fuel, body f s = [(g, g')] → body g' s = [] → s < g → (∀ e, e ∈ m → s < e.1 → g < e.1) →
     valid g → sa_handler (current init t g) = 0 → (2 < fuel)%nat →
     ∃ m' t', signalHandler_walk fuel s K m t = Run (Ret tt) m' t' ∧
       calls t' = call_of s (Client g') :: call_of s (Client f) :: calls t) ∧
  (body f s = [(s, f)] → valid s → current init t s = Sigaction signalHandler_addr 0 →
     ∀ fuel, out (signalHandler_walk fuel s K m t) = Stuck OutOfFuel) ∧
  (∀ s' f', valid s' → equal_range s' m = [] → calls (tr (attachHandler_interrupted s' s' f' K m t)) = calls t).
Proof.
  intros Hm Hr. assert (Hlost := early_signal_lost). destruct (sorted_split s m Hm) as (pre & mid & post & -> & Hpre & Hmid & Hpost & Hr').
  destruct (bounds_split s pre mid post Hpre Hmid Hpost) as [Hlow Hup].
  assert (mid = [(s, Client f)]) as ->.
  { rewrite Hr' in Hr. destruct mid as [|[k h] [|? ?]]; try done. apply Forall_cons in Hmid as [Hk _].
    cbn in *. by simplify_eq. }
  assert (Hpre' : Forall (λ e, e.1 ≤ s) pre) by (eapply Forall_impl; [exact Hpre|]; cbn; lia).
  unfold signalHandler_walk, zoom. rewrite Hlow, Hup. split_and!.
  - intros g g' fuel Hb Hb' Hg Hgap Hv Hdef Hf. destruct fuel as [|[|[|fuel]]]; try lia.
    destruct (HK (call_of s (Client f) :: t) g (Sigaction signalHandler_addr 0) Hv) as [Hok Hold].
    assert (Hpg : Forall (λ e, g < e.1) post).
    { apply Forall_forall. intros e He. apply Hgap; [set_solver|]. by apply (proj1 (Forall_forall _ _) Hpost). }
    erewrite (walk_loop_step _ s s (Client f)); [| | |cbn [address]; rewrite Hb; cbn [attach_list]; rewrite bind_run, attach_in_run by done; reflexivity].
    2: { cbn [w_map w_cur]. by rewrite lookup_app_r, Nat.sub_diag. }
    2: { cbn. lia. }
    rewrite Hold. change (current init (call_of s (Client f) :: t) g) with (current init t g).
    unfold chained. rewrite Hdef. cbn [truthy Z.eqb negb andb foldl].
    rewrite (emplace_inside s) by (done || lia). cbn [w_map w_cur w_end].
    erewrite (walk_loop_step _ s g (Client g')); [| | |cbn [address]; rewrite Hb'; reflexivity].
    2: { cbn [w_map w_cur]. rewrite lookup_app_r by lia. by replace (S (length pre) - length pre)%nat with 1%nat by lia. }
    2: { cbn. lia. }
    cbn [w_map w_cur w_end]. cbn [walk_loop]. rewrite bind_get. cbn [w_cur w_end length].
    rewrite (proj2 (Nat.eqb_eq _ _)) by lia. by do 2 eexists.
  - intros Hb Hv Hc fuel. rewrite <- (self_attach_diverges s f fuel [(s, Client f)] pre post t) by
      (done || by repeat constructor). by destruct (walk_loop _ _ _ _ _).
  - intros s' f' Hv Hs. by apply Hlost.
Qed.

End Kernel.
End Reentrancy.

(** ** Inputs *)

Lemma demo_kernel_ok : kernel_sigaction (λ s, s ≠ 9) demo_init demo_kernel.
Proof. intros t s act Hs. cbn. by rewrite (proj2 (Z.eqb_neq s 9) Hs). Qed.

(** The handler 500 of signal 2 attaches to the signals 1 and 15. *)
Lemma reentrant_dispatch_witness :
  ∃ m' t', signalHandler_walk 77 (λ f _, if f =? 500 then [(1, 700); (15, 800)] else []) 2 2 demo_kernel
      [(2, Client 500); (15, Client 600)] [] = Run (Ret tt) m' t' ∧
    calls t' = [Event (call_handler 500 2 false) tt] ∧
    equal_range 15 m' = [Client 600; Chained (Sigaction 4096 SA_SIGINFO); Client 800].
Proof.
  destruct (reentrant_dispatch 77 (λ f _, if f =? 500 then [(1, 700); (15, 800)] else [])
    (λ s, s ≠ 9) demo_init demo_kernel demo_kernel_ok 2 [(2, Client 500); (15, Client 600)] [] 2)
    as (m' & t' & Hrun & Hc & [_ Hg]).
  - repeat constructor; unfold key_le; cbn; lia.
  - by apply Nat.ltb_lt.
  - intros p Hp. cbn in Hp. apply elem_of_cons in Hp as [->|[->|[]%elem_of_nil]%elem_of_cons]; cbn.
    + split; [done|]. left. lia.
    + split; [done|]. right. exists (15, Client 600). split; [set_solver|cbn; lia].
  - exists m', t'. split; [exact Hrun|]. split; [exact Hc|]. by rewrite (proj1 (Hg 15)).
Defined.

(** The handler 500 of signal 2 attaches 700 to signal 10, before the 15 that is there. *)
Lemma reentrant_hazards_witness :
  ∃ m' t', signalHandler_walk 77 (λ f _, if f =? 500 then [(10, 700)] else []) 3 2 demo_kernel
      [(2, Client 500); (15, Client 600)] [] = Run (Ret tt) m' t' ∧
    calls t' = [Event (call_handler 700 2 false) tt; Event (call_handler 500 2 false) tt].
Proof.
  destruct (reentrant_hazards 77 (λ f _, if f =? 500 then [(10, 700)] else [])
    (λ s, s ≠ 9) demo_init demo_kernel demo_kernel_ok 2 500 [(2, Client 500); (15, Client 600)] []) as (Hgap & _ & _).
  - repeat constructor; unfold key_le; cbn; lia.
  - done.
  - apply (Hgap 10 700 3%nat); try done; try lia.
    intros e [->|[->|[]%elem_of_nil]%elem_of_cons]%elem_of_cons; cbn; lia.
Defined.
