(* ===== verification/Serial.v ===== *)
(** * Serial: a serial port

    include/cadence/io/serial.hpp and src/io/serial.cpp, as built on Linux with glibc
    before 2.42 (whose <termios.h> names the rates of [baud_code] and no others) and
    without [_BSD_SOURCE]. *)
From S2P Require Import Prelude Posix Solace File.

(** [timespec_from_ms]. *)
Definition timespec_from_ms (millis : Z) : timespec :=
  let tv_sec := millis / 1000 in
  Timespec tv_sec ((millis - tv_sec * 1000) * 1000000).

Inductive Bytesize := fivebits | sixbits | sevenbits | eightbits.
Inductive Parity := parity_none | parity_odd | parity_even | parity_mark | parity_space.
Inductive Stopbits := one | two | one_point_five.
Inductive Flowcontrol := flow_none | software | hardware.

(** ** <asm/termbits.h>, <linux/serial.h> *)
Definition CLOCAL : Z := 0x800.
Definition CREAD : Z := 0x80.
Definition ICANON : Z := 0x2.
Definition ECHO : Z := 0x8.
Definition ECHOE : Z := 0x10.
Definition ECHOK : Z := 0x20.
Definition ECHONL : Z := 0x40.
Definition ISIG : Z := 0x1.
Definition IEXTEN : Z := 0x8000.
Definition OPOST : Z := 0x1.
Definition INLCR : Z := 0x40.
Definition IGNCR : Z := 0x80.
Definition ICRNL : Z := 0x100.
Definition IGNBRK : Z := 0x1.
Definition IUCLC : Z := 0x200.
Definition PARMRK : Z := 0x8.
Definition CSIZE : Z := 0x30.
Definition CS5 : Z := 0x0.
Definition CS6 : Z := 0x10.
Definition CS7 : Z := 0x20.
Definition CS8 : Z := 0x30.
Definition CSTOPB : Z := 0x40.
Definition INPCK : Z := 0x10.
Definition ISTRIP : Z := 0x20.
Definition PARENB : Z := 0x100.
Definition PARODD : Z := 0x200.
Definition CMSPAR : Z := 0x40000000.
Definition IXON : Z := 0x400.
Definition IXOFF : Z := 0x1000.
Definition IXANY : Z := 0x800.
Definition CRTSCTS : Z := 0x80000000.
Definition TCSANOW : Z := 0.
Definition TCIFLUSH : Z := 0.
Definition TCOFLUSH : Z := 1.
Definition TIOCMGET : Z := 0x5415.
Definition TIOCMBIS : Z := 0x5416.
Definition TIOCMBIC : Z := 0x5417.
Definition TIOCINQ : Z := 0x541B.
Definition TIOCSBRK : Z := 0x5427.
Definition TIOCCBRK : Z := 0x5428.
Definition TIOCMIWAIT : Z := 0x545C.
Definition TIOCM_DTR : Z := 0x2.
Definition TIOCM_RTS : Z := 0x4.
Definition TIOCM_CTS : Z := 0x20.
Definition TIOCM_CD : Z := 0x40.
Definition TIOCM_RI : Z := 0x80.
Definition TIOCM_DSR : Z := 0x100.
Definition ASYNC_SPD_MASK : Z := 0x1030.
Definition ASYNC_SPD_CUST : Z := 0x30.
Definition FD_SETSIZE : Z := 1024.

(** The [switch] on the baud rate: [None] is its default, a custom rate. *)
Definition baud_code (baudrate : Z) : option Z :=
  match baudrate with
  | 0 => Some 0x0 | 50 => Some 0x1 | 75 => Some 0x2 | 110 => Some 0x3 | 134 => Some 0x4
  | 150 => Some 0x5 | 200 => Some 0x6 | 300 => Some 0x7 | 600 => Some 0x8 | 1200 => Some 0x9
  | 1800 => Some 0xA | 2400 => Some 0xB | 4800 => Some 0xC | 9600 => Some 0xD
  | 19200 => Some 0xE | 38400 => Some 0xF | 57600 => Some 0x1001 | 115200 => Some 0x1002
  | 230400 => Some 0x1003 | 460800 => Some 0x1004 | 576000 => Some 0x1006
  | 921600 => Some 0x1007 | 1000000 => Some 0x1008 | 1152000 => Some 0x1009
  | 1500000 => Some 0x100A | 2000000 => Some 0x100B | 2500000 => Some 0x100C
  | 3000000 => Some 0x100D | 3500000 => Some 0x100E | 4000000 => Some 0x100F
  | _ => None
  end.

Definition upd_cflag (f : Z → Z) (t : termios) : termios :=
  Termios (c_iflag t) (c_oflag t) (f (c_cflag t)) (c_lflag t) (c_vmin t) (c_vtime t) (c_ispeed t) (c_ospeed t).
Definition upd_iflag (f : Z → Z) (t : termios) : termios :=
  Termios (f (c_iflag t)) (c_oflag t) (c_cflag t) (c_lflag t) (c_vmin t) (c_vtime t) (c_ispeed t) (c_ospeed t).

Definition mask (l : list Z) : Z := foldr Z.lor 0 l.

(** Raw mode, no echo, binary. *)
Definition raw_mode (t : termios) : termios :=
  Termios
    (clear_flags (clear_flags (clear_flags (c_iflag t) (mask [INLCR; IGNCR; ICRNL; IGNBRK])) IUCLC) PARMRK)
    (clear_flags (c_oflag t) OPOST)
    (set_flags (c_cflag t) (mask [CLOCAL; CREAD]))
    (clear_flags (c_lflag t) (mask [ICANON; ECHO; ECHOE; ECHOK; ECHONL; ISIG; IEXTEN]))
    (c_vmin t) (c_vtime t) (c_ispeed t) (c_ospeed t).

(** A custom baud rate, through [TIOCGSERIAL] and [TIOCSSERIAL]. *)
Definition set_custom_baud {S} (fd baudrate : Z) : prog posix S unit :=
  r ← perform (sys_ioctl_gserial fd);
  if -1 =? rv r.1 then raise (IOException (errno r.1) "ioctl::TIOCGSERIAL")
  else
    let ser := r.2 in
    let ser := SerialStruct (ss_baud_base ser) (s32 (u32 (ss_baud_base ser) / baudrate))
                 (set_flags (clear_flags (ss_flags ser) ASYNC_SPD_MASK) ASYNC_SPD_CUST) in
    r ← perform (sys_ioctl_sserial fd ser);
    if -1 =? rv r then raise (IOException (errno r) "ioctl::TIOCSSERIAL") else mret tt.

Definition set_bytesize (bytesize : Bytesize) (t : termios) : termios :=
  upd_cflag (λ c, set_flags (clear_flags c CSIZE)
    match bytesize with eightbits => CS8 | sevenbits => CS7 | sixbits => CS6 | fivebits => CS5 end) t.

Definition set_stopbits (stopbits : Stopbits) (t : termios) : termios :=
  upd_cflag (λ c, match stopbits with
    | one => clear_flags c CSTOPB
    | one_point_five => set_flags c CSTOPB
    | two => set_flags c CSTOPB
    end) t.

Definition set_parity (parity : Parity) (t : termios) : termios :=
  let t := upd_iflag (λ i, clear_flags i (mask [INPCK; ISTRIP])) t in
  upd_cflag (λ c, match parity with
    | parity_none => clear_flags c (mask [PARENB; PARODD])
    | parity_even => set_flags (clear_flags c PARODD) PARENB
    | parity_odd => set_flags c (mask [PARENB; PARODD])
    | parity_mark => set_flags c (mask [PARENB; CMSPAR; PARODD])
    | parity_space => clear_flags (set_flags c (mask [PARENB; CMSPAR])) PARODD
    end) t.

Definition set_flowcontrol (flowcontrol : Flowcontrol) (t : termios) : termios :=
  let xonxoff_ := match flowcontrol with software => true | _ => false end in
  let rtscts_ := match flowcontrol with hardware => true | _ => false end in
  let t := upd_iflag (λ i, if xonxoff_ : bool then set_flags i (mask [IXON; IXOFF])
                           else clear_flags i (mask [IXON; IXOFF; IXANY])) t in
  upd_cflag (λ c, if rtscts_ : bool then set_flags c CRTSCTS else clear_flags c CRTSCTS) t.

(** [c_cc[VMIN] = 0; c_cc[VTIME] = 0]: a polling read. *)
Definition polling_read (t : termios) : termios :=
  Termios (c_iflag t) (c_oflag t) (c_cflag t) (c_lflag t) 0 0 (c_ispeed t) (c_ospeed t).

(** The settings that follow the baud rate, in the order of the code. *)
Definition frame (bytesize : Bytesize) (parity : Parity) (stopbits : Stopbits) (flowcontrol : Flowcontrol)
    (options : termios) : termios :=
  polling_read (set_flowcontrol flowcontrol (set_parity parity (set_stopbits stopbits (set_bytesize bytesize options)))).

Definition set_speed {S} (options : termios) (baud : Z) : prog posix S termios :=
  i ← perform (sys_cfsetispeed options baud);
  if -1 =? rv i.1 then raise (IOException (errno i.1) "cfsetispeed")
  else
    o ← perform (sys_cfsetospeed i.2 baud);
    if -1 =? rv o.1 then raise (IOException (errno o.1) "cfsetospeed")
    else mret o.2.

(** [reconfigurePort]. *)
Definition reconfigurePort {S} (fd baudrate : Z) (bytesize : Bytesize) (parity : Parity)
    (stopbits : Stopbits) (flowcontrol : Flowcontrol) : prog posix S unit :=
  if fd =? -1 then raise (IOExceptionMsg "Invalid file descriptor, is the serial port open?")
  else
    g ← perform (sys_tcgetattr fd);
    if rv g.1 =? -1 then raise (IOException (errno g.1) "tcgetattr")
    else
      let options := raw_mode g.2 in
      options ← match baud_code baudrate with
                | None => _ ← set_custom_baud fd baudrate; mret options
                | Some baud => set_speed options baud
                end;
      r ← perform (sys_tcsetattr fd TCSANOW (frame bytesize parity stopbits flowcontrol options));
      if negb (rv r =? 0) then raise (IOException (errno r) "tcsetattr(TCSANOW)") else mret tt.

(** ** The port: a [File] *)

(** The constructor: the base is built first, and destroyed when the configuration
    raises. *)
Definition Serial_open {P} `{PathOps P} (fuel : nat) (file : P) (baudrate : Z) (bytesize : Bytesize)
    (parity : Parity) (stopbits : Stopbits) (flowcontrol : Flowcontrol) : prog posix File unit :=
  _ ← File_open fuel file (Z.lor O_RDWR (Z.lor O_NOCTTY O_NONBLOCK));
  unwind (fd ← validateFd; reconfigurePort fd baudrate bytesize parity stopbits flowcontrol)
    File.destroy.

(** The default arguments of the constructor. *)
Definition Serial_open_defaults {P} `{PathOps P} (fuel : nat) (file : P) (baudrate : option Z) : prog posix File unit :=
  Serial_open fuel file (default 9600 baudrate) eightbits parity_none one flow_none.

Definition Serial_move (other : File) : File * File := File.move_ctor other.
Definition Serial_swap (this rhs : File) : File * File := File.swap this rhs.
(** [operator=(Serial&&)]. *)
Definition Serial_move_assign (this rhs : File) : File * File := Serial_swap this rhs.
Definition Serial_destroy : prog posix File unit := File.destroy.

(** [flush], [flushInput], [flushOutput], [sendBreak]: the answer is ignored. *)
Definition Serial_flush : prog posix File unit :=
  fd ← validateFd; _ ← perform (sys_tcdrain fd); mret tt.
Definition flushInput : prog posix File unit :=
  fd ← validateFd; _ ← perform (sys_tcflush fd TCIFLUSH); mret tt.
Definition flushOutput : prog posix File unit :=
  fd ← validateFd; _ ← perform (sys_tcflush fd TCOFLUSH); mret tt.
Definition sendBreak (duration : Z) : prog posix File unit :=
  fd ← validateFd; _ ← perform (sys_tcsendbreak fd (Z.quot duration 4)); mret tt.

(** An [ioctl] that raises when it answers -1. *)
Definition ioctl_or {S} (fd request : Z) (arg : ioctl_arg) (tag : string) : prog posix S Z :=
  r ← perform (sys_ioctl fd request arg);
  if -1 =? rv r.1 then raise (IOException (errno r.1) tag) else mret r.2.

Definition setBreak (level : bool) : prog posix File unit :=
  fd ← validateFd;
  _ ← (if level then ioctl_or fd TIOCSBRK No_argument "ioctl(fd, TIOCSBRK)"
       else ioctl_or fd TIOCCBRK No_argument "ioctl(fd, TIOCCBRK)");
  mret tt.

Definition setRTS (level : bool) : prog posix File unit :=
  fd ← validateFd;
  _ ← (if level then ioctl_or fd TIOCMBIS (Pointer_to TIOCM_RTS) "ioctl(TIOCMBIS)"
       else ioctl_or fd TIOCMBIC (Pointer_to TIOCM_RTS) "ioctl(TIOCMBIC)");
  mret tt.

Definition setDTR (level : bool) : prog posix File unit :=
  fd ← validateFd;
  _ ← (if level then ioctl_or fd TIOCMBIS (Pointer_to TIOCM_DTR) "ioctl(TIOCMBIS)"
       else ioctl_or fd TIOCMBIC (Pointer_to TIOCM_DTR) "ioctl(TIOCMBIC)");
  mret tt.

Definition getCTS : prog posix File bool :=
  fd ← validateFd; status ← ioctl_or fd TIOCMGET Pointer_out "ioctl(TIOCMGET)"; mret (has_flag status TIOCM_CTS).
Definition getDSR : prog posix File bool :=
  fd ← validateFd; status ← ioctl_or fd TIOCMGET Pointer_out "ioctl(TIOCMGET)"; mret (has_flag status TIOCM_DSR).
Definition getRI : prog posix File bool :=
  fd ← validateFd; status ← ioctl_or fd TIOCMGET Pointer_out "ioctl(TIOCMGET)"; mret (has_flag status TIOCM_RI).
Definition getCD : prog posix File bool :=
  fd ← validateFd; status ← ioctl_or fd TIOCMGET Pointer_out ""; mret (has_flag status TIOCM_CD).

(** [waitForChange], with [TIOCMIWAIT], which is given the address of the mask. *)
Definition waitForChange : prog posix File bool :=
  fd ← validateFd;
  _ ← ioctl_or fd TIOCMIWAIT (Pointer_to (mask [TIOCM_CD; TIOCM_DSR; TIOCM_RI; TIOCM_CTS])) "ioctl(TIOCMIWAIT)";
  mret true.

(** [waitReadable]: [FD_SET] writes outside [fd_set] for a descriptor it has no room for. *)
Definition waitReadable (timeout : Z) : prog posix File bool :=
  fd ← validateFd;
  if negb ((0 <=? fd) && (fd <? FD_SETSIZE)) then stuck OutOfBounds
  else
    r ← perform (sys_pselect (fd + 1) [fd] (timespec_from_ms timeout));
    if rv r.1 <? 0 then
      if errno r.1 =? EINTR then mret false else raise (IOException (errno r.1) "pselect")
    else if rv r.1 =? 0 then mret false
    else if negb (bool_decide (fd ∈ r.2)) then
      raise (IOExceptionMsg "pselect reported ready, but our fd isn't in the list, Not suppose to happen!")
    else mret true.

Definition available : prog posix File Z :=
  fd ← validateFd; count ← ioctl_or fd TIOCINQ Pointer_out "ioctl(TIOCINQ)"; mret (u64 count).

(** ** Properties *)

(** What the words of [termios] mean to the kernel. *)
Definition decode_bytesize (t : termios) : Z :=
  5 + Z.b2z (Z.testbit (c_cflag t) 4) + 2 * Z.b2z (Z.testbit (c_cflag t) 5).
Definition two_stopbits (t : termios) : bool := has_flag (c_cflag t) CSTOPB.
Definition decode_parity (t : termios) : Parity :=
  if negb (has_flag (c_cflag t) PARENB) then parity_none
  else match has_flag (c_cflag t) CMSPAR, has_flag (c_cflag t) PARODD with
       | true, true => parity_mark
       | true, false => parity_space
       | false, true => parity_odd
       | false, false => parity_even
       end.
Definition decode_flow (t : termios) : Flowcontrol :=
  if has_flag (c_cflag t) CRTSCTS then hardware
  else if has_flag (c_iflag t) IXON && has_flag (c_iflag t) IXOFF then software else flow_none.

Definition data_bits (b : Bytesize) : Z :=
  match b with fivebits => 5 | sixbits => 6 | sevenbits => 7 | eightbits => 8 end.

(** Evaluates the tests of bits of constants. *)
Ltac eval_testbits := repeat match goal with
  | |- context [Z.testbit ?c ?k] =>
      let v := eval vm_compute in (Z.testbit c k) in
      lazymatch v with
      | true => change (Z.testbit c k) with true
      | false => change (Z.testbit c k) with false
      end
  end.

(** The words of [frame]. *)
Ltac expose_words :=
  unfold frame, polling_read, set_flowcontrol, set_parity, set_stopbits, set_bytesize;
  cbn [c_cflag c_iflag upd_cflag upd_iflag].

(** Bits of a word that constants were set in and cleared from. *)
Ltac const_bits :=
  expose_words;
  unfold set_flags, clear_flags; repeat rewrite ?Z.lor_spec, ?Z.ldiff_spec;
  eval_testbits; cbn [negb andb orb Z.b2z];
  rewrite ?orb_false_r, ?orb_true_r, ?andb_false_r, ?andb_true_r.

(** The flags of one bit. *)
Ltac flags_as_bits :=
  change CSTOPB with (2 ^ 6); change PARENB with (2 ^ 8); change PARODD with (2 ^ 9);
  change IXON with (2 ^ 10); change IXANY with (2 ^ 11); change IXOFF with (2 ^ 12);
  change CMSPAR with (2 ^ 30); change CRTSCTS with (2 ^ 31);
  rewrite ?has_flag_bit by done.

(** A constant has no bit outside those listed. *)
Lemma const_bit_off (m : Z) (l : list Z) k :
  0 ≤ m < 2 ^ 32 →
  forallb (λ i, negb (Z.testbit m i) || bool_decide (i ∈ l)) (seqZ 0 32) = true →
  k ∉ l → Z.testbit m k = false.
Proof.
  intros Hm Hall Hk. destruct (Z.ltb_spec k 0); [by apply Z.testbit_neg_r|].
  destruct (Z.ltb_spec k 32).
  - rewrite forallb_forall in Hall. specialize (Hall k).
    rewrite <- list_elem_of_In, elem_of_seqZ in Hall. specialize (Hall ltac:(lia)).
    destruct (Z.testbit m k); [|done]. by case_bool_decide.
  - destruct (decide (m = 0)) as [->|]; [apply Z.testbit_0_l|].
    apply Z.bits_above_log2; [lia|]. apply Z.log2_lt_pow2; [lia|].
    apply (Z.lt_le_trans _ (2 ^ 32)); [lia|]. apply Z.pow_le_mono_r; lia.
Qed.

Definition within (l : list Z) (m : Z) : bool :=
  (0 <=? m) && (m <? 2 ^ 32) &&
  forallb (λ i, negb (Z.testbit m i) || bool_decide (i ∈ l)) (seqZ 0 32).

Lemma set_elsewhere l x m k : k ∉ l → within l m = true → Z.testbit (set_flags x m) k = Z.testbit x k.
Proof.
  unfold within. intros Hk Hm. bool_prop. unfold set_flags.
  by rewrite Z.lor_spec, (const_bit_off m l), orb_false_r.
Qed.

Lemma clear_elsewhere l x m k : k ∉ l → within l m = true → Z.testbit (clear_flags x m) k = Z.testbit x k.
Proof.
  unfold within. intros Hk Hm. bool_prop. unfold clear_flags.
  by rewrite Z.ldiff_spec, (const_bit_off m l), andb_true_r.
Qed.

Lemma frame_cflag_rest b p s f t k :
  k ∉ [4; 5; 6; 8; 9; 30; 31] → Z.testbit (c_cflag (frame b p s f t)) k = Z.testbit (c_cflag t) k.
Proof.
  intros Hk. destruct b, s, p, f; expose_words;
    repeat first [rewrite (set_elsewhere _ _ _ _ Hk) by done
      | rewrite (clear_elsewhere _ _ _ _ Hk) by done]; done.
Qed.

Lemma frame_iflag_rest b p s f t k :
  k ∉ [4; 5; 10; 11; 12] → Z.testbit (c_iflag (frame b p s f t)) k = Z.testbit (c_iflag t) k.
Proof.
  intros Hk. destruct f; expose_words;
    repeat first [rewrite (set_elsewhere _ _ _ _ Hk) by done
      | rewrite (clear_elsewhere _ _ _ _ Hk) by done]; done.
Qed.

Lemma frame_input_parity b p s f t :
  has_flag (c_iflag (frame b p s f t)) INPCK = false ∧ has_flag (c_iflag (frame b p s f t)) ISTRIP = false.
Proof.
  change INPCK with (2 ^ 4). change ISTRIP with (2 ^ 5). rewrite !has_flag_bit by done.
  destruct f; const_bits; done.
Qed.

Lemma frame_ixany b p s f t : f ≠ software → has_flag (c_iflag (frame b p s f t)) IXANY = false.
Proof. flags_as_bits. destruct f; [|done|]; const_bits; done. Qed.

Lemma frame_bytesize b p s f t : decode_bytesize (frame b p s f t) = data_bits b.
Proof. unfold decode_bytesize. destruct b, s, p, f; const_bits; done. Qed.

Lemma frame_stopbits b p s f t :
  two_stopbits (frame b p s f t) = match s with one => false | _ => true end.
Proof. unfold two_stopbits. flags_as_bits. destruct b, s, p, f; const_bits; done. Qed.

Lemma frame_flow b p s f t : decode_flow (frame b p s f t) = f.
Proof. unfold decode_flow. flags_as_bits. destruct b, s, p, f; const_bits; done. Qed.

Lemma frame_parity b p s f t :
  decode_parity (frame b p s f t) = if has_flag (c_cflag t) CMSPAR
    then match p with parity_even => parity_space | parity_odd => parity_mark | _ => p end else p.
Proof.
  unfold decode_parity. flags_as_bits. destruct b, s, p, f; const_bits;
    by destruct (Z.testbit (c_cflag t) 30).
Qed.

(** C25.  The line settings.  Reading back the words that [frame] hands to the kernel gives the
    bytesize, the stop bits (one and a half counts as two) and the flow control asked for; the
    parity also, except that [CMSPAR] is set for mark and space and never cleared, so that on a
    port that has it even parity reads back as space and odd as mark.  Reads are polls, no
    parity is checked on input, and no other bit changes. *)
Theorem serial_framing b p s f (t : termios) :
  let t' := frame b p s f t in
  decode_bytesize t' = data_bits b ∧
  two_stopbits t' = match s with one => false | _ => true end ∧
  decode_flow t' = f ∧
  decode_parity t' = (if has_flag (c_cflag t) CMSPAR
    then match p with parity_even => parity_space | parity_odd => parity_mark | _ => p end else p) ∧
  has_flag (c_iflag t') INPCK = false ∧ has_flag (c_iflag t') ISTRIP = false ∧ c_vmin t' = 0 ∧ c_vtime t' = 0 ∧
  (f ≠ software → has_flag (c_iflag t') IXANY = false) ∧
  c_lflag t' = c_lflag t ∧ c_oflag t' = c_oflag t ∧
  (∀ k, k ∉ [4; 5; 6; 8; 9; 30; 31] → Z.testbit (c_cflag t') k = Z.testbit (c_cflag t) k) ∧
  (∀ k, k ∉ [4; 5; 10; 11; 12] → Z.testbit (c_iflag t') k = Z.testbit (c_iflag t) k).
Proof.
  pose proof (frame_input_parity b p s f t) as [Hi Hs].
  split_and!; auto using frame_bytesize, frame_stopbits, frame_flow, frame_parity, frame_ixany,
    frame_cflag_rest, frame_iflag_rest.
Qed.

(** The timeout of a wait: the [timespec] of any 32-bit number of milliseconds is well
    formed and exact. *)
Lemma timespec_exact millis :
  0 ≤ millis < 2 ^ 32 →
  let ts := timespec_from_ms millis in
  0 ≤ tv_sec ts < 2 ^ 32 ∧ 0 ≤ tv_nsec ts < 10 ^ 9 ∧
  tv_sec ts * 10 ^ 9 + tv_nsec ts = millis * 10 ^ 6.
Proof.
  intros Hm ts. subst ts. unfold timespec_from_ms. cbn [tv_sec tv_nsec].
  change (2 ^ 32) with 4294967296 in *. change (10 ^ 9) with 1000000000. change (10 ^ 6) with 1000000.
  Z.to_euclidean_division_equations. lia.
Qed.

(** A custom rate.  The rates that the table does not know are positive, so the division
    for the divisor is defined; the divisor [d] is the largest with [d * rate ≤ baud_base], the
    driver's flags end with the custom speed selected, and both [ioctl]s must succeed. *)
Lemma custom_baud {S} fd rate (K : world posix) (s : S) (t : trace posix) :
  baud_code rate = None → 0 ≤ rate < 2 ^ 32 →
  let g := K _ t (sys_ioctl_gserial fd) in
  0 ≤ ss_baud_base g.2 < 2 ^ 31 → rv g.1 ≠ -1 →
  ∃ d fl, d * rate ≤ ss_baud_base g.2 < (d + 1) * rate ∧
    Z.land fl ASYNC_SPD_MASK = ASYNC_SPD_CUST ∧
    let op := sys_ioctl_sserial fd (SerialStruct (ss_baud_base g.2) d fl) in
    let t1 := Event (sys_ioctl_gserial fd) g :: t in
    set_custom_baud fd rate K s t =
      Run (if rv (K _ t1 op) =? -1 then Raise (IOException (errno (K _ t1 op)) "ioctl::TIOCSSERIAL") else Ret tt)
        s (Event op (K _ t1 op) :: t1).
Proof.
  intros Hc Hrate g Hbase Hrv.
  assert (Hpos : 0 < rate) by (destruct (decide (rate = 0)) as [->|]; [done|lia]).
  pose proof (Z.div_pos (ss_baud_base g.2) rate ltac:(lia) Hpos).
  pose proof (Z.mul_div_le (ss_baud_base g.2) rate Hpos).
  pose proof (Z.mul_succ_div_gt (ss_baud_base g.2) rate Hpos).
  exists (ss_baud_base g.2 / rate),
    (set_flags (clear_flags (ss_flags g.2) ASYNC_SPD_MASK) ASYNC_SPD_CUST).
  split; [lia|]. split.
  { unfold set_flags, clear_flags. by rewrite Z.land_lor_distr_l, Z.land_ldiff. }
  assert (Hg : (-1 =? rv g.1) = false) by (apply Z.eqb_neq; lia).
  cbn zeta. unfold set_custom_baud, mbind, prog_bind, perform. fold g. rewrite Hg.
  unfold u32. rewrite (wrap_unsigned_small 32) by lia.
  assert (ss_baud_base g.2 / rate < 2147483648) by (apply Z.div_lt_upper_bound; nia).
  unfold s32. rewrite (wrap_signed_small 32) by (cbn; lia).
  rewrite (Z.eqb_sym (-1)). by case_match.
Qed.

Lemma speed_steady {S} fd rate options :
  steady (match baud_code rate with
          | None => _ ← set_custom_baud fd rate; mret options
          | Some baud => set_speed options baud
          end : prog posix S termios).
Proof. destruct (baud_code rate); unfold set_speed, set_custom_baud; steady_tac. Qed.

Lemma reconfigure_steady {S} fd rate b p sb f :
  steady (reconfigurePort (S := S) fd rate b p sb f).
Proof.
  unfold reconfigurePort.
  repeat first [apply speed_steady | apply steady_bind | progress steady_tac].
Qed.

(** The answer of a call that [reconfigurePort] makes before it sets the attributes. *)
Definition answer_of (e : event posix) : option sysret :=
  match ev_op e in posix T return T → option sysret with
  | sys_tcgetattr _ => λ r, Some r.1
  | sys_cfsetispeed _ _ => λ r, Some r.1
  | sys_cfsetospeed _ _ => λ r, Some r.1
  | sys_ioctl_gserial _ => λ r, Some r.1
  | sys_ioctl_sserial _ _ => λ r, Some r
  | _ => λ _, None
  end (ev_res e).

(** It succeeded; it failed, and what is raised carries its [errno]. *)
Definition succeeded (e : event posix) : Prop := ∃ r, answer_of e = Some r ∧ rv r ≠ -1.
Definition failed_with (x : exn) (e : event posix) : Prop :=
  ∃ r tag, answer_of e = Some r ∧ rv r = -1 ∧ x = IOException (errno r) tag.

(** The calls that come first, the last one at the head, and the settings that they leave: those of
    [tcgetattr] in raw mode, with the speed that the two calls gave them, or a custom one. *)
Inductive prepared (fd rate : Z) : trace posix → termios → Prop :=
  | standard_rate code g i o :
      baud_code rate = Some code →
      prepared fd rate [Event (sys_cfsetospeed i.2 code) o; Event (sys_cfsetispeed (raw_mode g.2) code) i;
                        Event (sys_tcgetattr fd) g] o.2
  | custom_rate g u r :
      baud_code rate = None →
      let divisor := s32 (u32 (ss_baud_base u.2) / rate) in
      let flags := set_flags (clear_flags (ss_flags u.2) ASYNC_SPD_MASK) ASYNC_SPD_CUST in
      prepared fd rate [Event (sys_ioctl_sserial fd (SerialStruct (ss_baud_base u.2) divisor flags)) r;
                        Event (sys_ioctl_gserial fd) u; Event (sys_tcgetattr fd) g] (raw_mode g.2).

(** C31.  Configuring a port touches its attributes once and last, and only if every earlier call
    succeeded.  On a descriptor, either some call before fails: all those before it succeeded,
    none is made after it, the attributes are not touched and what is raised carries its error.  Or
    the attributes are read, the speed is set in them (or the custom rate in the driver), all these
    calls succeed, and then [tcsetattr] is given the framing of exactly these settings; its answer
    decides between success and the error. *)
Theorem configure_last {S} fd rate b p sb f (K : world posix) (s : S) (t : trace posix) :
  let r := reconfigurePort fd rate b p sb f K s t in
  if fd =? -1 then r = Run (Raise (IOExceptionMsg "Invalid file descriptor, is the serial port open?")) s t
  else
    (∃ e rest x, r = Run (Raise x) s (e :: rest ++ t) ∧ failed_with x e ∧ Forall succeeded rest) ∨
    (∃ new options, prepared fd rate new options ∧ Forall succeeded new ∧
       let op := sys_tcsetattr fd TCSANOW (frame b p sb f options) in
       let a := K _ (new ++ t) op in
       r = Run (if rv a =? 0 then Ret tt else Raise (IOException (errno a) "tcsetattr(TCSANOW)"))
             s (Event op a :: new ++ t)).
Proof.
  cbn zeta. unfold reconfigurePort. destruct (fd =? -1); [done|].
  rewrite !bind_perform. set (g := K _ t (sys_tcgetattr fd)). set (eg := Event (sys_tcgetattr fd) g).
  destruct (Z.eqb_spec (rv g.1) (-1)) as [Hg|Hg].
  { left. exists eg, []. eexists. split; [reflexivity|]. split; [|constructor]. by exists g.1, "tcgetattr". }
  assert (Hsg : succeeded eg) by by exists g.1.
  destruct (baud_code rate) as [code|] eqn:Hrate.
  - unfold set_speed. rewrite bind_assoc, bind_perform. set (i := K _ (eg :: t) _). set (ei := Event _ i).
    rewrite (Z.eqb_sym (-1)). destruct (Z.eqb_spec (rv i.1) (-1)) as [Hi|Hi].
    { left. exists ei, [eg]. eexists. split; [reflexivity|]. split; [by exists i.1, "cfsetispeed"|by constructor]. }
    assert (Hsi : succeeded ei) by by exists i.1.
    rewrite bind_assoc, bind_perform. set (o := K _ (ei :: eg :: t) _). set (eo := Event _ o).
    rewrite (Z.eqb_sym (-1)). destruct (Z.eqb_spec (rv o.1) (-1)) as [Ho|Ho].
    { left. exists eo, [ei; eg]. eexists. split; [reflexivity|]. split; [by exists o.1, "cfsetospeed"|by repeat constructor]. }
    assert (Hso : succeeded eo) by by exists o.1.
    right. exists [eo; ei; eg], o.2. split; [by apply standard_rate|]. split; [by repeat constructor|].
    rewrite bind_ret, bind_perform. cbn [app]. by destruct (rv _ =? 0).
  - unfold set_custom_baud. rewrite !bind_assoc, bind_perform. set (u := K _ (eg :: t) _). set (eu := Event _ u).
    rewrite (Z.eqb_sym (-1)). destruct (Z.eqb_spec (rv u.1) (-1)) as [Hu|Hu].
    { left. exists eu, [eg]. eexists. split; [reflexivity|]. split; [by exists u.1, "ioctl::TIOCGSERIAL"|by constructor]. }
    assert (Hsu : succeeded eu) by by exists u.1.
    cbn zeta. rewrite bind_assoc, bind_perform. set (w := K _ (eu :: eg :: t) _). set (ew := Event _ w).
    rewrite (Z.eqb_sym (-1)). destruct (Z.eqb_spec (rv w) (-1)) as [Hw|Hw].
    { left. exists ew, [eu; eg]. eexists. split; [reflexivity|]. split; [by exists w, "ioctl::TIOCSSERIAL"|by repeat constructor]. }
    assert (Hsw : succeeded ew) by by exists w.
    right. exists [ew; eu; eg], (raw_mode g.2). split; [by apply custom_rate|]. split; [by repeat constructor|].
    rewrite !bind_ret, bind_perform. cbn [app]. by destruct (rv _ =? 0).
Qed.

(** Waiting for a modem line to change makes one [TIOCMIWAIT].  Linux takes the mask of the lines as
    the argument itself; it is given a pointer to it. *)
Lemma wait_for_change (K : world posix) f (t : trace posix) :
  isOpened f = true →
  let op := sys_ioctl (fd f) TIOCMIWAIT (Pointer_to (mask [TIOCM_CD; TIOCM_DSR; TIOCM_RI; TIOCM_CTS])) in
  let a := K _ t op in
  waitForChange K f t =
    Run (if rv a.1 =? -1 then Raise (IOException (errno a.1) "ioctl(TIOCMIWAIT)") else Ret true) f (Event op a :: t).
Proof.
  intros Hf%isOpened_spec. cbn zeta. unfold waitForChange, ioctl_or. rewrite bind_run, validateFd_open by done.
  rewrite bind_assoc, bind_perform, (Z.eqb_sym (-1)). by case_match.
Qed.

(** The descriptor after the loop of the constructor of [File]. *)
Lemma open_loop_result fuel path flags (K : world posix) f (t : trace posix) :
  let r := open_loop fuel path flags K f t in
  match out r with
  | Ret _ => fd (st r) ≠ InvalidFd
  | Raise _ => fd (st r) = InvalidFd ∧ ∃ e t', tr r = e :: t' ∧
      match ev_op e with sys_open _ _ => True | _ => False end
  | Stuck u => u = OutOfFuel
  end.
Proof.
  revert f t. induction fuel as [|fuel IH]; intros f t; [done|].
  cbn zeta. rewrite open_loop_step. cbn zeta. case_decide; [apply IH|].
  unfold open_outcome. cbn. destruct (Z.eqb_spec (rv (K _ t (sys_open path flags))) (-1)); [|done].
  destruct (_ || _); (split; [done|by do 2 eexists]).
Qed.

(** The two ways out of the constructor, and what the object that is left owns. *)
Lemma serial_open_cases {P} `{PathOps P} fuel (path : P) rate b p sb fl (K : world posix) f (t : trace posix) :
  let r := Serial_open fuel path rate b p sb fl K f t in
  match out r with
  | Ret _ => fd (st r) ≠ InvalidFd
  | Raise _ => fd (st r) = InvalidFd ∧
      ∃ e t', tr r = e :: t' ∧
        match ev_op e with sys_open _ _ | sys_close _ => True | _ => False end
  | Stuck u => u = OutOfFuel ∨ u = Terminate
  end.
Proof.
  cbn zeta. unfold Serial_open, File_open. set (pt := c_str _). set (fg := Z.lor _ _).
  pose proof (open_loop_result fuel pt fg K f t) as Ho. cbn zeta in Ho.
  rewrite bind_run.
  destruct (open_loop fuel pt fg K f t) as [[[]|e|u] f1 t1]; cbn in Ho; [| |cbn; auto].
  2: { destruct Ho as (? & e' & t' & ? & He). cbn. split; [done|]. exists e', t'. by destruct (ev_op e'). }
  unfold unwind. rewrite bind_run, validateFd_open by done.
  destruct (reconfigure_steady (fd f1) rate b p sb fl K f1 t1) as [Hst Hout].
  destruct (reconfigurePort (fd f1) rate b p sb fl K f1 t1) as [[[]|e|u] f2 t2]; cbn in Hst, Hout; subst; cbn.
  - done.
  - unfold File.destroy, noexcept. unfold_prog. rewrite (proj2 (isOpened_spec f1) Ho). cbn.
    rewrite close_open by done. cbn zeta. case_if; [|auto]. split; [done|by do 2 eexists].
  - by destruct (Hout u).
Qed.

(** C23.  Opening a port leaves nothing behind when it fails: if the constructor returns, the
    port owns an open descriptor, and if it raises, the object that is destroyed owns none;
    the last call made was then a failed [open], or the [close] of the descriptor that the
    base class had opened. *)
Theorem serial_open_strong {P} `{PathOps P} fuel (path : P) rate b p sb fl (K : world posix) f (t : trace posix) :
  let r := Serial_open fuel path rate b p sb fl K f t in
  match out r with
  | Ret _ => fd (st r) ≠ InvalidFd
  | Raise _ => fd (st r) = InvalidFd ∧
      ∃ e t', tr r = e :: t' ∧
        match ev_op e with sys_open _ _ | sys_close _ => True | _ => False end
  | Stuck u => u = OutOfFuel ∨ u = Terminate
  end.
Proof. apply serial_open_cases. Qed.

(** Waiting for data.  On an open port one [pselect] is made, on this descriptor and for
    exactly the given time; the port is readable when the kernel says so of this descriptor; a
    timeout and an interruption give false, other errors are raised.  [FD_SET] has room for
    1024 descriptors only: on a port with a larger one the wait writes outside its set, and
    makes no call. *)
Lemma wait_readable (K : world posix) f timeout (t : trace posix) :
  0 ≤ fd f → 0 ≤ timeout < 2 ^ 32 →
  let ts := timespec_from_ms timeout in
  let op := sys_pselect (fd f + 1) [fd f] ts in
  let a := K _ t op in
  (waitReadable timeout K f t =
    if fd f <? FD_SETSIZE then
      Run (if 0 <? rv a.1 then
             if bool_decide (fd f ∈ a.2) then Ret true
             else Raise (IOExceptionMsg "pselect reported ready, but our fd isn't in the list, Not suppose to happen!")
           else if (rv a.1 =? 0) || (errno a.1 =? EINTR) then Ret false
           else Raise (IOException (errno a.1) "pselect")) f (Event op a :: t)
    else Run (Stuck OutOfBounds) f t) ∧
  0 ≤ tv_nsec ts < 10 ^ 9 ∧ tv_sec ts * 10 ^ 9 + tv_nsec ts = timeout * 10 ^ 6.
Proof.
  intros Hf Ht ts op a. split; [|apply (timespec_exact timeout Ht)]. subst ts.
  unfold waitReadable. rewrite bind_run, validateFd_open by (unfold InvalidFd; lia).
  rewrite (proj2 (Z.leb_le 0 (fd f)) Hf). cbn [andb].
  destruct (fd f <? FD_SETSIZE); [|done]. cbn [negb]. rewrite bind_perform. fold op a.
  destruct (Z.ltb_spec (rv a.1) 0), (Z.ltb_spec 0 (rv a.1)), (Z.eqb_spec (rv a.1) 0); try lia; try done;
    first [by destruct (errno a.1 =? EINTR) | by destruct (bool_decide (fd f ∈ a.2))].
Qed.
