(* ===== verification/Filesystem.v ===== *)
(** * PlatformFilesystem: buffered files and the file system

    include/cadence/io/filesystem.hpp, include/cadence/io/platformFilesystem.hpp and
    src/io/platformFilesystem.cpp. *)
From S2P Require Import Prelude Posix Solace IOObject File.

(** [PlatformFilesystem::BufferedFile]: the base, and [_fp] (0 is [nullptr]). *)
Record BufferedFile := MkBuffered { base : File; fp : Z }.

Definition set_base (f : File) (b : BufferedFile) : BufferedFile := MkBuffered f (fp b).

(** [BufferedFile(FILE* fp)]. *)
Definition BufferedFile_new {S} (fp : Z) : prog posix S BufferedFile :=
  d ← perform (c_fileno fp); mret (MkBuffered (File_fd d) fp).

(** [swap] and [operator=(BufferedFile&&)]. *)
Definition bf_swap (this rhs : BufferedFile) : BufferedFile * BufferedFile :=
  let '(b1, b2) := File.swap (base this) (base rhs) in (MkBuffered b1 (fp rhs), MkBuffered b2 (fp this)).

(** [if (!_fp) raise<NotOpen>()]. *)
Definition require_fp : prog posix BufferedFile Z :=
  b ← get; if fp b =? 0 then raise NotOpen else mret (fp b).

Section Views.
Context {V : Type} `{MemoryView V}.

Definition bf_read (buffer : V) : prog posix BufferedFile IOResult :=
  fp ← require_fp;
  bytesRead ← perform (c_fread (dataAddress buffer) (view_size buffer) fp);
  mret (Ok (rv bytesRead)).

Definition bf_write (buffer : V) : prog posix BufferedFile IOResult :=
  fp ← require_fp;
  bytesWritten ← perform (c_fwrite (dataAddress buffer) (view_size buffer) fp);
  if negb (rv bytesWritten =? view_size buffer) then raise (IOException (errno bytesWritten) "")
  else mret (Ok (rv bytesWritten)).

End Views.

Definition bf_seek (offset : Z) (type : Seek) : prog posix BufferedFile Z :=
  fp ← require_fp;
  result ← perform (c_fseeko fp (s64 offset)
    match type with SeekSet => SEEK_SET | SeekCurrent => SEEK_CUR | SeekEnd => SEEK_END end);
  if negb (0 =? rv result) then raise (IOException (errno result) "") else mret (u64 (rv result)).

Definition bf_close : prog posix BufferedFile unit :=
  b ← get;
  _ ← (if negb (fp b =? 0) then
         _ ← perform (c_fclose (fp b));
         modify (λ b, MkBuffered (base b) 0)
       else mret tt);
  modify (λ b, MkBuffered (invalidateFd (base b)).2 (fp b)).

Definition tell : prog posix BufferedFile Z :=
  fp ← require_fp; r ← perform (c_ftell fp); mret (u64 (rv r)).

(** [flush] is inherited from [File]. *)
Definition bf_flush : prog posix BufferedFile unit := zoom base set_base File.flush.

(** [~BufferedFile()], then [~File()]. *)
Definition bf_destroy : prog posix BufferedFile unit :=
  _ ← noexcept bf_close; zoom base set_base File.destroy.

(** ** The file system.  [S] is the state of the caller: the class has none. *)
Section Filesystem.
Context {P : Type} `{PathOps P}.

(** What [unwrap] raises on a path that does not parse. *)
Context (unwrap_exn : exn).
Context {S : Type}.

Definition pathString (path : P) : string := path_toString path.

Definition parse_unwrap (s : string) : prog posix S P :=
  match path_parse s with Some p => mret p | None => raise unwrap_exn end.

Definition fs_fopen (op : posix sysret) : prog posix S BufferedFile :=
  r ← perform op;
  if rv r =? 0 then raise (IOException (errno r) "") else BufferedFile_new (rv r).

Definition fs_create (path : P) : prog posix S BufferedFile := fs_fopen (c_fopen (c_str (pathString path)) "w+x").
Definition fs_open (path : P) : prog posix S BufferedFile := fs_fopen (c_fopen (c_str (pathString path)) "r+").
Definition createTemp : prog posix S BufferedFile := fs_fopen c_tmpfile.

Definition fs_unlink (path : P) : prog posix S bool :=
  err ← perform (c_remove (c_str (pathString path)));
  if truthy (rv err) then raise (IOException (errno err) "") else mret true.

Definition exists_ (path : P) : prog posix S bool :=
  r ← perform (c_stat (c_str (pathString path))); mret (rv r.1 =? 0).

(** [stat], or the exception. *)
Definition stat_or (path : P) : prog posix S stat_buf :=
  r ← perform (c_stat (c_str (pathString path)));
  if truthy (rv r.1) then raise (IOException (errno r.1) "") else mret r.2.

Definition isFile (path : P) : prog posix S bool := sb ← stat_or path; mret (S_ISREG (st_mode sb)).
Definition isDirectory (path : P) : prog posix S bool := sb ← stat_or path; mret (S_ISDIR (st_mode sb)).
Definition getTimestamp (path : P) : prog posix S Z := sb ← stat_or path; mret (st_mtime sb).
Definition getFileSize (path : P) : prog posix S Z := sb ← stat_or path; mret (u64 (st_size sb)).

Definition realPath (path : P) : prog posix S P :=
  real_path ← perform (c_realpath (c_str (pathString path)));
  match real_path with Some s => parse_unwrap s | None => mret (path_of_string "") end.

Fixpoint parse_all (l : list string) : prog posix S (list P) :=
  match l with
  | [] => mret []
  | s :: l' => p ← parse_unwrap s; ps ← parse_all l'; mret (p :: ps)
  end.

(** [glob(StringView pattern)]; [pattern] is the C string at [pattern.data()], which goes on to
    the first NUL in memory. *)
Definition glob (pattern : string) : prog posix S (list P) :=
  r ← perform (c_glob pattern false);
  if r.1 =? 0 then parse_all r.2
  else if r.1 =? GLOB_NOSPACE then raise (GenericException "glob is out of space!")
  else if r.1 =? GLOB_ABORTED then raise (GenericException "glob aborted!")
  else if r.1 =? GLOB_NOMATCH then mret []
  else raise (GenericException "Unexpected glob error code!").

(** The matches that the calls with [GLOB_APPEND] add. *)
Fixpoint glob_append (patterns : list string) (found : list string) : prog posix S (list string) :=
  match patterns with
  | [] => mret found
  | p :: ps => r ← perform (c_glob p true); glob_append ps (found ++ r.2)
  end.

(** [glob(std::initializer_list<const char*> patterns)]: what the calls return is ignored. *)
Definition glob_list (patterns : list string) : prog posix S (list P) :=
  match patterns with
  | [] => mret []
  | p :: ps =>
      r ← perform (c_glob p false);
      found ← glob_append ps r.2;
      parse_all found
  end.

(** [getExecPath], on Linux: [execPath] has 1024 bytes. *)
Definition getExecPath : prog posix S P :=
  r ← perform (c_readlink "/proc/self/exe" 1023);
  if rv r.1 <? 0 then raise (IOException (errno r.1) "")
  else if 1024 <=? rv r.1 then stuck OutOfBounds
  else parse_unwrap (c_str (String.substring 0 (Z.to_nat (rv r.1)) r.2)).

Definition getWorkingDirectory : prog posix S P :=
  r ← perform (c_getcwd 1024);
  match r.2 with None => raise (IOException (errno r.1) "") | Some buffer => parse_unwrap buffer end.

Definition setWorkingDirectory (path : P) : prog posix S unit :=
  r ← perform (c_chdir (c_str (pathString path)));
  if negb (0 =? rv r) then raise (IOException (errno r) "") else mret tt.

End Filesystem.

(** [class Filesystem]: the virtual functions; [F] is the type of its files. *)
Class Filesystem (P F : Type) := {
  filesystem_create {S} : P → prog posix S F;
  filesystem_open {S} : P → prog posix S F;
  filesystem_unlink {S} : P → prog posix S bool;
  filesystem_exists {S} : P → prog posix S bool }.

#[export] Instance PlatformFilesystem {P} `{PathOps P} : Filesystem P BufferedFile := {|
  filesystem_create := λ S path, fs_create path;
  filesystem_open := λ S path, fs_open path;
  filesystem_unlink := λ S path, fs_unlink path;
  filesystem_exists := λ S path, exists_ path |}.

(** ** Properties *)

(** A client of a buffered file, which catches what the operations raise. *)
Inductive bf_op (V : Type) :=
  | b_read (buffer : V)
  | b_write (buffer : V)
  | b_seek (offset : Z) (type : Seek)
  | b_tell
  | b_flush
  | b_close.
Arguments b_read {V}. Arguments b_write {V}. Arguments b_seek {V}.
Arguments b_tell {V}. Arguments b_flush {V}. Arguments b_close {V}.

Definition caught {S A} (m : prog posix S A) : prog posix S unit := λ K s t,
  match m K s t with
  | Run (Stuck u) s' t' => Run (Stuck u) s' t'
  | Run _ s' t' => Run (Ret tt) s' t'
  end.

Section Client.
Context {V : Type} `{MemoryView V}.

Definition bf_exec (o : bf_op V) : prog posix BufferedFile unit :=
  match o with
  | b_read v => caught (bf_read v)
  | b_write v => caught (bf_write v)
  | b_seek off ty => caught (bf_seek off ty)
  | b_tell => caught tell
  | b_flush => caught bf_flush
  | b_close => caught bf_close
  end.

Fixpoint bf_run (l : list (bf_op V)) : prog posix BufferedFile unit :=
  match l with [] => mret tt | o :: l' => _ ← bf_exec o; bf_run l' end.

(** Calls that give the stream, or the descriptor, back. *)
Definition gives_back (e : event posix) : option Z :=
  match ev_op e with c_fclose p => Some p | sys_close d => Some d | _ => None end.

Definition closed_file : BufferedFile := MkBuffered (MkFile InvalidFd) 0.

(** On a closed file every operation is refused, without a call. *)
Lemma bf_exec_closed o K t : bf_exec o K closed_file t = Run (Ret tt) closed_file t.
Proof. by destruct o. Qed.

(** On an open one, only [close] gives the stream back. *)
Lemma bf_exec_open o (K : world posix) d p t :
  p ≠ 0 → d ≠ InvalidFd →
  let b := MkBuffered (MkFile d) p in
  let r := bf_exec o K b t in
  match o with
  | b_close => r = Run (Ret tt) closed_file (Event (c_fclose p) (K _ t (c_fclose p)) :: t)
  | _ => ∃ e, r = Run (Ret tt) b (e :: t) ∧ gives_back e = None
  end.
Proof.
  intros Hp%Z.eqb_neq Hd%Z.eqb_neq. cbn zeta.
  destruct o; cbn; unfold caught, bf_read, bf_write, bf_seek, tell, bf_flush, bf_close, require_fp,
    File.flush, File.validateFd, File.isOpened; unfold_prog; rewrite ?Hp, ?Hd; cbn;
    repeat case_if; try (by eexists); done.
Qed.

Lemma bf_run_calls l K d p t :
  p ≠ 0 → d ≠ InvalidFd →
  let r := bf_run l K (MkBuffered (MkFile d) p) t in
  out r = Ret tt ∧ ∃ new, Forall (λ e, gives_back e = None) new ∧
    ((st r = MkBuffered (MkFile d) p ∧ tr r = new ++ t) ∨
     (st r = closed_file ∧ ∃ a, tr r = Event (c_fclose p) a :: new ++ t)).
Proof.
  intros Hp Hd. revert t. induction l as [|o l IH]; intros t; cbn [bf_run].
  { split; [done|]. exists []. split; [done|]. by left. }
  cbn zeta. rewrite bind_run. pose proof (bf_exec_open o K d p t Hp Hd) as Ho. cbn zeta in Ho.
  assert (Hc : ∀ t', bf_run l K closed_file t' = Run (Ret tt) closed_file t').
  { clear IH Ho. intros t'. induction l as [|o' l' IH]; [done|]. cbn [bf_run].
    by rewrite bind_run, bf_exec_closed. }
  destruct o; try (destruct Ho as (e & -> & He); destruct (IH (e :: t)) as (Hout & new & Hnew & Hst);
    split; [done|]; exists (new ++ [e]); rewrite <- app_assoc; split; [|done];
    apply Forall_app; split; [done|by constructor]).
  rewrite Ho, Hc. split; [done|]. exists []. split; [by constructor|]. right. by split; [|eexists].
Qed.

(** C26.  A buffered file gives its stream back exactly once.  Whatever a client does with an
    open buffered file (reads, writes, seeks, flushes, closes it, any number of times and in
    any order, catching what is raised), when it is destroyed [fclose] has been called once
    on its stream, that is the last call made, and [close] was never called on the
    descriptor, which belongs to the stream. *)
Theorem buffered_file_lifecycle l (K : world posix) d p (t : trace posix) :
  p ≠ 0 → d ≠ InvalidFd →
  let r := (bf_run l ≫= λ _, bf_destroy) K (MkBuffered (MkFile d) p) t in
  out r = Ret tt ∧ st r = closed_file ∧
  ∃ a new, tr r = Event (c_fclose p) a :: new ++ t ∧ Forall (λ e, gives_back e = None) new.
Proof.
  intros Hp Hd. cbn zeta. rewrite bind_run.
  destruct (bf_run_calls l K d p t Hp Hd) as (Hout & new & Hnew & Hst).
  destruct (bf_run l K _ t) as [o s t']. cbn in Hout, Hst. subst o.
  assert (Hd1 : ∀ t', bf_destroy K closed_file t' = Run (Ret tt) closed_file t') by done.
  destruct Hst as [[-> ->]|[-> [a ->]]]; [|rewrite Hd1; eauto 6].
  assert (Hd2 : bf_destroy K (MkBuffered (MkFile d) p) (new ++ t) =
    Run (Ret tt) closed_file (Event (c_fclose p) (K _ (new ++ t) (c_fclose p)) :: new ++ t)).
  { apply Z.eqb_neq in Hp. unfold bf_destroy, noexcept, bf_close. unfold_prog. by rewrite Hp. }
  rewrite Hd2. eauto 6.
Qed.

(** Reading, writing and seeking through the stream: errors and short counts.  A read
    never fails, a short one is reported as it is; a write succeeds only when everything was
    taken; a successful seek answers 0, whatever the new position, where [File::seek]
    answers the position. *)
Lemma buffered_io (K : world posix) d p (v : V) off ty (t : trace posix) :
  p ≠ 0 →
  let b := MkBuffered (MkFile d) p in
  let whence := match ty with SeekSet => SEEK_SET | SeekCurrent => SEEK_CUR | SeekEnd => SEEK_END end in
  out (bf_read v K b t) = Ret (Ok (rv (K _ t (c_fread (dataAddress v) (view_size v) p)))) ∧
  (let w := K _ t (c_fwrite (dataAddress v) (view_size v) p) in
   out (bf_write v K b t) =
     if rv w =? view_size v then Ret (Ok (view_size v)) else Raise (IOException (errno w) "")) ∧
  (let q := K _ t (c_fseeko p (s64 off) whence) in
   out (bf_seek off ty K b t) = if rv q =? 0 then Ret 0 else Raise (IOException (errno q) "")).
Proof.
  intros Hp%Z.eqb_neq. cbn zeta. unfold bf_read, bf_write, bf_seek, require_fp, mbind, prog_bind, get, perform.
  cbn [fp]. rewrite Hp. split_and!.
  - done.
  - cbn. destruct (Z.eqb_spec (rv (K _ t (c_fwrite (dataAddress v) (view_size v) p))) (view_size v)) as [E|E];
      cbn; [|done]. by rewrite E.
  - cbn [mret prog_ret]. rewrite (Z.eqb_sym 0).
    destruct (Z.eqb_spec (rv (K _ t (c_fseeko p (s64 off)
      match ty with SeekSet => SEEK_SET | SeekCurrent => SEEK_CUR | SeekEnd => SEEK_END end))) 0) as [E|E];
      cbn; [|done]. by rewrite E.
Qed.

End Client.

Section Globbing.
Context {P : Type} `{PathOps P} (unwrap_exn : exn) {S : Type}.

Lemma parse_all_total l K (s : S) t :
  parse_all unwrap_exn l K s t =
    Run (match mapM path_parse l with Some ps => Ret ps | None => Raise unwrap_exn end) s t.
Proof.
  revert t. induction l as [|x l IH]; intros t; [done|]. cbn [parse_all mapM].
  rewrite bind_run. unfold parse_unwrap. destruct (path_parse x) as [p|]; [|done].
  unfold mret at 1, prog_ret at 1. rewrite bind_run, IH. cbn. by destruct (mapM path_parse l).
Qed.

(** What the patterns match, one call each. *)
Fixpoint matches (K : world posix) (append : bool) (patterns : list string) (t : trace posix) : list string :=
  match patterns with
  | [] => []
  | p :: ps =>
      let r := K _ t (c_glob p append) in
      r.2 ++ matches K true ps (Event (c_glob p append) r :: t)
  end.

Lemma glob_append_matches ps found K (s : S) t :
  ∃ t', glob_append ps found K s t = Run (Ret (found ++ matches K true ps t)) s t'.
Proof.
  revert found t. induction ps as [|p ps IH]; intros found t; cbn [glob_append matches].
  { exists t. by rewrite app_nil_r. }
  rewrite bind_perform. cbn zeta.
  destruct (IH (found ++ (K _ t (c_glob p true)).2) (Event (c_glob p true) (K _ t (c_glob p true)) :: t))
    as [t' ->]. exists t'. by rewrite app_assoc.
Qed.

Lemma glob_list_run patterns (K : world posix) (s : S) (t : trace posix) :
  let r := glob_list unwrap_exn patterns K s t in
  st r = s ∧
  out r = match mapM path_parse (matches K false patterns t) with
          | Some ps => Ret ps
          | None => Raise unwrap_exn
          end.
Proof.
  destruct patterns as [|p ps]; [done|]. cbn [glob_list matches]. cbn zeta. rewrite bind_perform, bind_run.
  destruct (glob_append_matches ps (K _ t (c_glob p false)).2 K s (Event (c_glob p false) (K _ t (c_glob p false)) :: t))
    as [t' ->]. by rewrite parse_all_total.
Qed.

End Globbing.

#[local] Existing Instance Concrete.view_ops.

Lemma buffered_file_lifecycle_witness :
  tr ((bf_run [b_write (Concrete.View 0 8); b_close; b_seek 0 SeekSet; b_close] ≫= λ _, bf_destroy)
    zero_world (MkBuffered (MkFile 5) 4096) []) =
  [Event (c_fclose 4096) sys0; Event (c_fwrite 0 8 4096) sys0].
Proof.
  destruct (buffered_file_lifecycle
    [b_write (Concrete.View 0 8); b_close; b_seek 0 SeekSet; b_close] zero_world 5 4096 [])
    as (_ & _ & a & new & H & _); [done..|].
  by rewrite H; cbn in H; simplify_eq.
Defined.
