(* ===== verification/SerialPorts.v ===== *)
(** * Enumerating the serial ports

    src/io/serial_list_ports.cpp, and [SerialPortInfo] of include/cadence/io/serial.hpp. *)
From S2P Require Import Prelude Posix Solace Filesystem.

Definition HW_ID_NA : string := "n/a".

Definition is_empty (s : string) : bool := String.eqb s "".

Section SerialPorts.
Context {P : Type} `{PathOps P} `{!StringOps} (unwrap_exn : exn) {S : Type}.

(** [struct SerialPortInfo]. *)
Record SerialPortInfo := MkPortInfo { file : P; description : string; hardwareId : string }.

(** The first line of a file, empty when it cannot be opened. *)
Definition readLine (file : P) : prog posix S string :=
  ifs ← perform (c_read_line (c_str (path_toString file)));
  match ifs with Some line => mret line | None => mret ""%string end.

Definition usb_sysfs_friendly_name (sys_usb_path : P) : prog posix S string :=
  manufacturer ← readLine (makePath sys_usb_path ["manufacturer"%string]);
  product ← readLine (makePath sys_usb_path ["product"%string]);
  serial ← readLine (makePath sys_usb_path ["serial"%string]);
  if is_empty manufacturer && is_empty product && is_empty serial then mret ""%string
  else mret (makeStringJoin " " [manufacturer; product; serial]).

Definition usb_sysfs_hw_string (sysfs_path : P) : prog posix S string :=
  vid ← readLine (makePath sysfs_path ["idVendor"%string]);
  pid ← readLine (makePath sysfs_path ["idProduct"%string]);
  serial_number ← readLine (makePath sysfs_path ["serial"%string]);
  mret (makeString ["USB VID:PID="%string; vid; ":"%string; pid;
    if is_empty serial_number then ""%string else " SNR="%string; serial_number]).

Definition SYS_TTY_PATH : P := makePath path_root ["sys"; "class"; "tty"]%string.

(** The two names of a device that sysfs holds under [deviceSysPath]. *)
Definition usb_info (deviceSysPath : P) : prog posix S (string * string) :=
  e ← exists_ deviceSysPath;
  if e : bool then
    friendly_name ← usb_sysfs_friendly_name deviceSysPath;
    hardware_id ← usb_sysfs_hw_string deviceSysPath;
    mret (friendly_name, hardware_id)
  else mret (""%string, ""%string).

Definition get_sysfs_info (devicePath : P) : prog posix S (string * string) :=
  let device_name := getBasename devicePath in
  let sys_device_path := makePath SYS_TTY_PATH [device_name; "device"%string] in
  names ←
    (if startsWith device_name "ttyUSB" then
       p ← realPath unwrap_exn sys_device_path; usb_info (getParent (getParent p))
     else if startsWith device_name "ttyACM" then
       p ← realPath unwrap_exn sys_device_path; usb_info (getParent p)
     else
       let sys_id_path := makePath sys_device_path ["id"%string] in
       e ← exists_ sys_id_path;
       if e : bool then hwIdLine ← readLine sys_id_path; mret (""%string, makeString [hwIdLine])
       else mret (""%string, ""%string));
  let '(friendly_name, hardware_id) := names in
  let friendly_name := if is_empty friendly_name then makeString [device_name] else friendly_name in
  let hardware_id := if is_empty hardware_id then makeString [HW_ID_NA] else hardware_id in
  mret (friendly_name, hardware_id).

(** The loop over the devices. *)
Fixpoint port_infos (devices : list P) : prog posix S (list SerialPortInfo) :=
  match devices with
  | [] => mret []
  | device :: devices' =>
      info ← get_sysfs_info device;
      rest ← port_infos devices';
      mret (MkPortInfo device info.1 info.2 :: rest)
  end.

Definition port_patterns : list string :=
  ["/dev/ttyACM*"; "/dev/ttyS*"; "/dev/ttyUSB*"; "/dev/tty.*"; "/dev/cu.*"]%string.

(** [Serial::enumeratePorts]. *)
Definition enumeratePorts : prog posix S (list SerialPortInfo) :=
  devices_found ← glob_list unwrap_exn port_patterns;
  port_infos devices_found.

(** ** Properties *)

Context `{!StringLaws}.

Lemma make_string_one s : makeString [s] = s.
Proof. by rewrite make_string. Qed.

Lemma is_empty_spec s : is_empty s = true ↔ s = ""%string.
Proof. apply String.eqb_eq. Qed.

Lemma sysfs_info_named device K (s : S) t names :
  getBasename device ≠ ""%string → out (get_sysfs_info device K s t) = Ret names →
  names.1 ≠ ""%string ∧ names.2 ≠ ""%string.
Proof.
  intros Hd. unfold get_sysfs_info. cbn zeta. rewrite bind_run.
  match goal with |- context [match ?r with Run _ _ _ => _ end] => destruct r as [[[fn hw]|e|u] s' t'] end;
    cbn; try done.
  intros [=<-]. cbn. rewrite !make_string_one.
  split; case_match eqn:E; try done; intros ?%is_empty_spec; congruence.
Qed.

Lemma readLine_steady (p : P) : steady (readLine p).
Proof. unfold readLine. steady_tac. Qed.

Lemma usb_info_steady (p : P) : steady (usb_info p).
Proof.
  unfold usb_info, usb_sysfs_friendly_name, usb_sysfs_hw_string, exists_.
  repeat first [apply readLine_steady | apply steady_bind | progress steady_tac].
Qed.

Lemma get_sysfs_info_steady device : steady (get_sysfs_info device).
Proof.
  unfold get_sysfs_info, realPath, parse_unwrap, exists_.
  repeat first [apply usb_info_steady | apply readLine_steady | apply steady_bind | progress steady_tac].
Qed.

Lemma port_infos_named devices K (s : S) t infos :
  Forall (λ d, getBasename d ≠ ""%string) devices → out (port_infos devices K s t) = Ret infos →
  map file infos = devices ∧ Forall (λ i, description i ≠ ""%string ∧ hardwareId i ≠ ""%string) infos.
Proof.
  revert s t infos. induction devices as [|d ds IH]; intros s t infos Hd; cbn [port_infos].
  { intros [=<-]. done. }
  apply Forall_cons in Hd as [Hd Hds]. rewrite bind_run.
  pose proof (sysfs_info_named d K s t) as Hn.
  destruct (get_sysfs_info d K s t) as [[names|e|u] s1 t1]; [|done..].
  specialize (Hn names Hd eq_refl). rewrite bind_run.
  specialize (IH s1 t1). destruct (port_infos ds K s1 t1) as [[rest|e|u] s2 t2]; [|done..].
  intros [=<-]. destruct (IH rest Hds eq_refl) as [<- Hr]. split; [done|]. by constructor.
Qed.

(** Enumerating the ports: one entry for each device that the five patterns match, in the
    order of the patterns, and no entry has an empty description or hardware id: the
    device's name and "n/a" stand in for what sysfs does not say. *)
Lemma enumerate_ports (K : world posix) (s : S) (t : trace posix) infos :
  (∀ x p, x ∈ matches K false port_patterns t → path_parse x = Some p → getBasename p ≠ ""%string) →
  out (enumeratePorts K s t) = Ret infos →
  mapM path_parse (matches K false port_patterns t) = Some (map file infos) ∧
  Forall (λ i, description i ≠ ""%string ∧ hardwareId i ≠ ""%string) infos.
Proof.
  intros Hb. unfold enumeratePorts. rewrite bind_run.
  destruct (glob_list_run unwrap_exn port_patterns K s t) as [Hst Hout].
  destruct (glob_list unwrap_exn port_patterns K s t) as [[devices|e|u] s1 t1]; [|done..].
  cbn [out] in Hout. destruct (mapM path_parse (matches K false port_patterns t)) as [ps|] eqn:Hps; [|done].
  injection Hout as ->. intros Hr. apply port_infos_named in Hr as [<- Hf]; [by split|].
  apply mapM_Some_1 in Hps. clear -Hps Hb. revert Hb.
  generalize (matches K false port_patterns t) Hps. clear. intros l Hps.
  induction Hps as [|x p l ps Hx _ IH]; intros Hb; constructor.
  - apply (Hb x); [by left|done].
  - apply IH. intros y q Hy. apply Hb. by right.
Qed.

End SerialPorts.
Arguments SerialPortInfo P : clear implicits.

#[local] Existing Instances Concrete.path_ops Concrete.string_ops Concrete.string_laws.

(** One USB adapter, of which sysfs knows the product only. *)
Definition demo_usb : world posix := world_of (λ R n op,
  match op with
  | c_glob p _ => Some (0, if String.eqb p "/dev/ttyUSB*" then ["/dev/ttyUSB0"%string] else [])
  | c_realpath _ => Some (Some "/sys/devices/usb1"%string)
  | c_read_line p => Some (if String.eqb p "/sys/devices/usb1/product" then Some "FT232"%string else None)
  | _ => None
  end).

Definition noname : exn := GenericException "unwrap".
Definition demo_paths : PathOps string := {|
  path_toString := id; path_length := λ p, Z.of_nat (String.length p);
  path_is_set := λ p, negb (String.eqb p ""); path_parse := λ s, if String.eqb s "" then None else Some s;
  path_none := ""; path_root := "/"; makePath := λ p l, foldl (λ p s, String.append p (String.append "/" s)) p l;
  path_of_string := id; getBasename := id; getParent := id |}%string.
