(* ===== verification/SerialMonitor.v ===== *)
(** * The serial port monitor

    examples/serial.cpp: a program that waits on a serial port through a poll selector and
    copies what arrives to its standard output.  It puts together [Serial], [Selector] with its
    poll implementation, the buffered read of [IOObject], and the enumeration of ports. *)
From S2P Require Import Prelude Posix Solace IOObject File FileStore Selector PollSelector Serial SerialPorts.

Section Monitor.
Context {V B : Type} `{MemoryView V} `{!ByteStream B V} `{!ByteWriter B V}.
Context {P : Type} `{!PathOps P, !StringOps} (unwrap_exn : exn).
(** [Error::toString] and [Exception::toString] of libsolace. *)
Context (error_text : Error → string) (exn_text : exn → string).

(** The variables of [main]. *)
Record monitor := Monitor { serial : File; selector : Facade.Selector (I := PollSelectorImpl); readBuffer : B }.

Definition on_serial {A} (m : prog posix File A) : prog posix monitor A :=
  zoom serial (λ f a, Monitor f (selector a) (readBuffer a)) m.
Definition on_selector {A} (m : prog posix (Facade.Selector (I := PollSelectorImpl)) A) : prog posix monitor A :=
  zoom selector (λ s a, Monitor (serial a) s (readBuffer a)) m.

(** [serial.read(readBuffer)]. *)
Definition serial_read : prog posix monitor IOResult :=
  zoom (λ a, (serial a, readBuffer a)) (λ p a, Monitor p.1 (selector a) p.2) (IOObject.read File.read).

(** [File] derives from [IOObject] and then from [ISelectable]; both have virtual functions, so
    that the second base is not at the address of the object but after the pointer of the first,
    8 bytes further (x86-64).  [add] is given a pointer to that base. *)
Definition ISelectable_offset : Z := 8.
Definition as_selectable (self : Z) (f : File) : Selectable := MkSelectable (self + ISelectable_offset) (File.getSelectId f).

(** The body of the loop over the events; [self] is [&serial], converted to [void*] for the
    comparison.  Whether to keep on running. *)
Definition on_event (self : Z) (event : Event) : prog posix monitor bool :=
  if truthy (Z.land (ev_events event) Read) && (ev_data event =? self) then
    bytesRead ← serial_read;
    match bytesRead with
    | Ok _ =>
        a ← get;
        let dataView := viewWritten (readBuffer a) in
        _ ← perform (cout_write (dataAddress dataView) (view_size dataView));
        _ ← perform cout_flush;
        _ ← modify (λ a, Monitor (serial a) (selector a) (clear (readBuffer a)));
        mret true
    | Err e =>
        _ ← perform (cout_text "Serial port signaled as ready but no bytes read: ");
        _ ← perform (cout_text (error_text e));
        _ ← perform (cout_text ". Aborting.");
        mret false
    end
  else
    _ ← perform (cout_text "Serial port fid reported unexpected events: '");
    _ ← perform (cout_int (ev_events event));
    _ ← perform (cout_text "'. Aborting.");
    mret false.

(** [for (auto event : selector.poll())]: [keep] is [keepOnRunning]. *)
Fixpoint for_events (fuel : nat) (self : Z) (it : Iterator) (keep : bool) : prog posix monitor bool :=
  match fuel with
  | O => stuck OutOfFuel
  | S fuel' =>
      if it_neq it (it_end it) then
        event ← on_selector (Facade.on_pimpl (it_deref it));
        k ← on_event self event;
        it' ← on_selector (Facade.on_pimpl (it_incr it));
        for_events fuel' self it' (keep && k)
      else mret keep
  end.

(** [while (keepOnRunning)]. *)
Fixpoint while_loop (fuel : nat) (self pimpl : Z) : prog posix monitor unit :=
  match fuel with
  | O => stuck OutOfFuel
  | S fuel' =>
      it ← on_selector (Facade.poll pimpl (-1));
      keep ← for_events (S (Z.to_nat (it_size it))) self it true;
      if keep : bool then while_loop fuel' self pimpl else mret tt
  end.

(** The [try] block, after the port was opened: [fresh] is the writer over new memory. *)
Definition watch (fuel : nat) (self pimpl : Z) (fresh : B) : prog posix monitor unit :=
  _ ← perform (cout_text "press ^C to quit");
  _ ← modify (λ a, Monitor (serial a) (Facade.create (createPoll 2)) fresh);
  a ← get;
  _ ← on_selector (Facade.add_selectable (as_selectable self (serial a)) (Z.lor Read EvError));
  while_loop fuel self pimpl.

(** The exceptions that the handler of [IOException] catches. *)
Definition is_IOException (e : exn) : bool :=
  match e with IOException _ _ | IOExceptionMsg _ | NotOpen => true | _ => false end.

Definition catch_IOException {S A} (m : prog posix S A) (handler : exn → prog posix S A) : prog posix S A :=
  λ K s t, match m K s t with
           | Run (Raise e) s' t' => if is_IOException e then handler e K s' t' else Run (Raise e) s' t'
           | r => r
           end.

(** [serial] is destroyed on the way out of the block, whether it is left by [return] or by an
    exception. *)
Definition try_block (fuel : nat) (self pimpl : Z) (file : P) (boudRate : Z) (fresh : B) : prog posix monitor unit :=
  _ ← on_serial (Serial_open_defaults fuel file (Some boudRate));
  _ ← unwind (watch fuel self pimpl fresh) (on_serial Serial_destroy);
  on_serial Serial_destroy.

(** A tab, a dash and the text; [endl] ends the line. *)
Definition item (text : string) : string := String (Ascii.ascii_of_nat 9) (String.append " - " text).

Definition printDeviceInfo {S} (descriptor : @SerialPortInfo P) : prog posix S unit :=
  _ ← perform (cout_text (String.append (path_toString (file descriptor)) ":"));
  _ ← perform (cout_text (item (description descriptor)));
  perform (cout_text (item (hardwareId descriptor))).

Fixpoint print_ports {S} (l : list (@SerialPortInfo P)) : prog posix S unit :=
  match l with
  | [] => mret tt
  | descriptor :: l' =>
      _ ← printDeviceInfo descriptor;
      print_ports l'
  end.

Definition enumerateDevices {S} : prog posix S unit :=
  ports ← enumeratePorts unwrap_exn; print_ports ports.

(** [main]: the parser of the arguments is commented out, and [file] is the empty path. *)
Definition main (fuel : nat) (argc self pimpl : Z) (fresh : B) : prog posix monitor Z :=
  if argc <? 2 then _ ← enumerateDevices; mret 0
  else
    let boudRate := 115200 in
    let file := path_none in
    _ ← perform (cout_text (path_toString file));
    _ ← perform (cout_int boudRate);
    catch_IOException (_ ← try_block fuel self pimpl file boudRate fresh; mret 0)
      (λ e, _ ← perform (cerr_text (exn_text e)); mret 1).

End Monitor.

(** ** The contract

    What a user is promised, without selectors, iterators and buffers: the port [fd] is polled
    for input; when it has some, one read fills at most the [cap] bytes at [addr], and what it
    brought is written out at once; an error of either call ends the program with it, and so does
    an answer of poll(2) that reports something else than input.  [known] says whether the program
    recognises its port in the event: if it does not, every report is unexpected. *)
Section Echo.
Context (known : bool) (fd addr cap : Z) (K : world posix).

Definition ask : posix (sysret * list Z) := sys_poll [(fd, Z.lor POLLIN POLLPRI)] (-1).

(** What poll(2) said of the port. *)
Definition reported (a : sysret * list Z) : Z := if rv a.1 =? 0 then 0 else s16 (hd 0 a.2).

(** The events that are printed when the port is not readable. *)
Definition complaint (revents : Z) (t : trace posix) : trace posix :=
  Prelude.Event (cout_text "'. Aborting.") tt ::
  Prelude.Event (cout_int (client_events revents)) tt ::
  Prelude.Event (cout_text "Serial port fid reported unexpected events: '") tt :: t.

Definition readable (revents : Z) : bool := has_flag revents POLLIN || has_flag revents POLLPRI.

Fixpoint echo (fuel : nat) (t : trace posix) : outcome unit * trace posix :=
  match fuel with
  | O => (Stuck OutOfFuel, t)
  | S fuel' =>
      let a := K _ t ask in
      let t1 := Prelude.Event ask a :: t in
      if rv a.1 <? 0 then (Raise (IOException (errno a.1) ""), t1)
      else if negb (truthy (reported a)) then echo fuel' t1
      else if readable (reported a) && known then
        let r := K _ t1 (sys_read fd addr cap) in
        let t2 := Prelude.Event (sys_read fd addr cap) r :: t1 in
        if rv r <? 0 then (Raise (IOException (errno r) ""), t2)
        else echo fuel' (Prelude.Event cout_flush tt :: Prelude.Event (cout_write addr (rv r)) tt :: t2)
      else (Ret tt, complaint (reported a) t1)
  end.

End Echo.

(** ** Properties *)

Section Correctness.
Context {V B : Type} `{MemoryView V} `{!ByteStream B V} `{!ByteWriter B V}.
Context `{!MemoryViewLaws V, !ByteStreamLaws B V, !ByteWriterLaws B V}.
Context (error_text : Error → string).

(** The selector that watches one descriptor, registered with [data]. *)
Definition watching (d data revents : Z) : Facade.Selector :=
  Some (MkPoll [MkEvent d 0 data] [PollFd d (Z.lor POLLIN POLLPRI) revents]).

(** A registration of the port, from an empty selector. *)
Lemma register_port d self K (b : B) t :
  on_selector (Facade.add_selectable (as_selectable self (MkFile d)) (Z.lor Read EvError)) K
    (Monitor (MkFile d) (Facade.create (createPoll 2)) b) t =
  Run (Ret tt) (Monitor (MkFile d) (watching d (self + ISelectable_offset) 0) b) t.
Proof. done. Qed.

Lemma first_of_one l p K t :
  findFirstReady 0 (u32 1) K (MkPoll l [p]) t = Run (Ret (if truthy (p_revents p) then 0 else 1)) (MkPoll l [p]) t.
Proof.
  change (u32 1) with 1. unfold findFirstReady. change (Z.to_nat (1 - 0)) with 1%nat. cbn [find_loop].
  unfold_prog. change ([p] !! Z.to_nat 0) with (Some p). cbn -[truthy]. by destruct (truthy (p_revents p)).
Qed.

(** One answer of poll(2) about one descriptor. *)
Lemma poll_one d self x pimpl (K : world posix) (b : B) (t : trace posix) :
  let a := K _ t (ask d) in
  let t1 := Prelude.Event (ask d) a :: t in
  length a.2 = 1%nat →
  ∃ x', on_selector (Facade.poll pimpl (-1)) K (Monitor (MkFile d) (watching d self x) b) t =
    if rv a.1 <? 0 then Run (Raise (IOException (errno a.1) "")) (Monitor (MkFile d) (watching d self x') b) t1
    else Run (Ret (if rv a.1 =? 0 then MkIterator 0 0 pimpl
                   else MkIterator (if truthy (s16 (hd 0 a.2)) then 0 else 1) 1 pimpl))
           (Monitor (MkFile d) (watching d self (s16 (hd 0 a.2))) b) t1.
Proof.
  cbn zeta. intros Hl. unfold on_selector, zoom, watching, Facade.poll, Facade.on_pimpl, sel_poll, poll. cbn [selector PollSelector_impl].
  unfold poll_poll. unfold_prog. cbn -[findFirstReady truthy s16]. fold (ask d).
  destruct (K _ t (ask d)) as [r [|x1 [|]]] eqn:E; try done. cbn -[findFirstReady truthy s16].
  exists (s16 x1). destruct (rv r <? 0); [done|]. destruct (rv r =? 0); [done|].
  by rewrite first_of_one.
Qed.

(** The event of the one descriptor, and the end of the range after it. *)
Lemma deref_one d self x f pimpl K (b : B) t :
  on_selector (Facade.on_pimpl (it_deref (MkIterator 0 1 pimpl))) K (Monitor f (watching d self x) b) t =
    Run (Ret (MkEvent d (client_events x) self)) (Monitor f (watching d self x) b) t.
Proof. done. Qed.

Lemma incr_one d self x f pimpl K (b : B) t :
  on_selector (Facade.on_pimpl (it_incr (MkIterator 0 1 pimpl))) K (Monitor f (watching d self x) b) t =
    Run (Ret (MkIterator 1 1 pimpl)) (Monitor f (watching d self x) b) t.
Proof. done. Qed.

Lemma client_read x : truthy (Z.land (client_events x) Read) = readable x.
Proof.
  unfold client_events, readable. destruct (has_flag x POLLIN || has_flag x POLLPRI), (has_flag x POLLOUT),
    (has_flag x POLLERR), (has_flag x POLLRDHUP); done.
Qed.

(** A read of the port into an empty buffer. *)
Lemma serial_read_run d sel (K : world posix) (b : B) (t : trace posix) :
  d ≠ InvalidFd → clear b = b →
  let op := sys_read d (dataAddress (viewWritten b)) (remaining b) in
  let r := K _ t op in
  serial_read K (Monitor (MkFile d) sel b) t =
    if rv r <? 0 then Run (Raise (IOException (errno r) "")) (Monitor (MkFile d) sel b) (Prelude.Event op r :: t)
    else Run (Ret (Ok (rv r))) (Monitor (MkFile d) sel (Solace.advance (rv r) b).2) (Prelude.Event op r :: t).
Proof.
  intros Hd Hb. cbn zeta. pose proof (remaining_nonneg b).
  assert (Ha : dataAddress (slice (viewRemaining b) 0 (remaining b)) = dataAddress (viewWritten b)).
  { rewrite slice_address, written_end. rewrite <- Hb at 2. rewrite clear_written. lia. }
  assert (Hs : view_size (slice (viewRemaining b) 0 (remaining b)) = remaining b).
  { apply slice_size. rewrite remaining_view. lia. }
  unfold serial_read, zoom, IOObject.read, read_n. cbn [serial readBuffer]. rewrite bind_get, bind_get. cbn [fst snd].
  rewrite bind_run. unfold zoom, File.read. cbn [fst snd].
  rewrite bind_run, validateFd_open, bind_perform by done. cbn [fd]. rewrite Ha, Hs.
  by destruct (rv _ <? 0).
Qed.

(** The answers of calls that answer nothing. *)
Ltac unit_answers K := repeat match goal with |- context [K unit ?t ?op] => destruct (K unit t op) end.

(** The body of the loop, on the event of the port. *)
Lemma on_event_run d self data x (K : world posix) (b : B) (t : trace posix) :
  d ≠ InvalidFd → clear b = b →
  let op := sys_read d (dataAddress (viewWritten b)) (remaining b) in
  let r := K _ t op in
  let t1 := Prelude.Event op r :: t in
  let a := Monitor (MkFile d) (watching d data x) b in
  rv r ≤ remaining b →
  on_event error_text self (MkEvent d (client_events x) data) K a t =
    if readable x && (data =? self) then
      if rv r <? 0 then Run (Raise (IOException (errno r) "")) a t1
      else Run (Ret true) a (Prelude.Event cout_flush tt ::
             Prelude.Event (cout_write (dataAddress (viewWritten b)) (rv r)) tt :: t1)
    else Run (Ret false) a (complaint x t).
Proof.
  intros Hd Hb. cbn zeta. intros Hr. unfold on_event. cbn [ev_events ev_data].
  rewrite client_read. destruct (readable x && (data =? self)).
  - rewrite bind_run, serial_read_run by done. cbn zeta. destruct (Z.ltb_spec (rv (K _ t (sys_read d (dataAddress (viewWritten b)) (remaining b)))) 0); [done|].
    set (n := rv _) in *. assert (0 ≤ n ≤ remaining b) by lia.
    unfold mbind, prog_bind, get, modify, mret, prog_ret, perform. cbn [readBuffer serial selector out st tr].
    rewrite clear_advance, Hb, written_start, written_advance by done.
    assert (view_size (viewWritten b) = 0) as -> by (rewrite <- Hb; apply clear_written). rewrite Z.add_0_l. by unit_answers K.
  - unfold mbind, prog_bind, mret, prog_ret, perform, complaint.
    by unit_answers K.
Qed.

Lemma for_done n self i pimpl keep K (a : monitor (B := B)) t :
  for_events error_text (S n) self (MkIterator i i pimpl) keep K a t = Run (Ret keep) a t.
Proof. cbn [for_events]. unfold it_neq. cbn. by rewrite !Z.eqb_refl. Qed.

Lemma for_one n self pimpl keep :
  for_events (B := B) error_text (S n) self (MkIterator 0 1 pimpl) keep =
    (event ← on_selector (Facade.on_pimpl (it_deref (MkIterator 0 1 pimpl)));
     k ← on_event error_text self event;
     it' ← on_selector (Facade.on_pimpl (it_incr (MkIterator 0 1 pimpl)));
     for_events error_text n self it' (keep && k)).
Proof. done. Qed.

(** The loop, on a selector that watches the port. *)
Lemma while_loop_echoes d self data pimpl x fuel (b : B) (K : world posix) (t : trace posix) :
  let addr := dataAddress (viewWritten b) in
  let cap := remaining b in
  d ≠ InvalidFd → clear b = b →
  (∀ t', length (K _ t' (ask d)).2 = 1%nat) → (∀ t', rv (K _ t' (sys_read d addr cap)) ≤ cap) →
  let r := while_loop error_text fuel self pimpl K (Monitor (MkFile d) (watching d data x) b) t in
  (out r, tr r) = echo (data =? self) d addr cap K fuel t ∧
  serial (st r) = MkFile d ∧ readBuffer (st r) = b.
Proof.
  cbn zeta. intros Hd Hb Hp Hr. revert x t. induction fuel as [|fuel IH]; intros x t; [done|]. cbn [while_loop echo].
  destruct (poll_one d data x pimpl K b t (Hp t)) as [x' Hpoll]. rewrite bind_run, Hpoll.
  destruct (rv (K _ t (ask d)).1 <? 0); [done|]. unfold reported.
  destruct (rv (K _ t (ask d)).1 =? 0); [rewrite bind_run, for_done; apply IH|].
  destruct (truthy (s16 (hd 0 (K _ t (ask d)).2))) eqn:Et; [|rewrite bind_run, for_done; apply IH].
  cbn [negb]. set (y := s16 (hd 0 (K _ t (ask d)).2)) in *. cbn [it_size]. change (Z.to_nat 1) with 1%nat.
  rewrite for_one, bind_assoc, bind_run, deref_one, bind_assoc, bind_run, on_event_run by done.
  destruct (readable y && (data =? self)).
  2: { by rewrite bind_assoc, bind_run, incr_one, bind_run, for_done. }
  destruct (rv (K _ _ _) <? 0); [done|].
  rewrite bind_assoc, bind_run, incr_one, bind_run, for_done. apply IH.
Qed.

(** Calls that read the port or copy what was read. *)
Definition copies (e : event posix) : bool :=
  match ev_op e with sys_read _ _ _ | cout_write _ _ => true | _ => false end.

Lemma echo_unknown d addr cap (K : world posix) fuel t :
  List.filter copies (echo false d addr cap K fuel t).2 = List.filter copies t.
Proof.
  revert t. induction fuel as [|fuel IH]; intros t; [done|]. cbn [echo]. rewrite andb_false_r.
  destruct (rv _ <? 0); [done|]. destruct (negb _); [by rewrite IH|done].
Qed.

(** At the end of the input: the port hung up, poll(2) reports it readable for ever, and every
    read answers that there is nothing. *)
Lemma echo_spins d addr cap (K : world posix) fuel t :
  (∀ t', K _ t' (ask d) = (Sys 1 0, [Z.lor POLLIN POLLHUP])) → (∀ t', K _ t' (sys_read d addr cap) = Sys 0 0) →
  (echo true d addr cap K fuel t).1 = Stuck OutOfFuel.
Proof.
  intros Hp Hr. revert t. induction fuel as [|fuel IH]; intros t; [done|]. cbn [echo]. rewrite Hp. cbn -[echo ask].
  rewrite Hr. apply IH.
Qed.

(** C11.  The contract of the loop.  Watching an open port with an empty buffer, it does exactly
    what [echo] says, for as long as it runs: the same calls in the same order, the same end; the
    port stays open and the buffer is empty whenever the program waits.  So if the pointer that
    was registered were the one that the loop compares, every block of bytes that a read brought
    would be written once, at once and in full, and nothing else would be (and, with the end of
    the input taken for data, a hung-up port would be read for ever). *)
Theorem monitor_echoes d self data pimpl fuel x (b : B) (K : world posix) (t : trace posix) :
  let addr := dataAddress (viewWritten b) in
  let cap := remaining b in
  d ≠ InvalidFd → clear b = b →
  (∀ t', length (K _ t' (ask d)).2 = 1%nat) → (∀ t', rv (K _ t' (sys_read d addr cap)) ≤ cap) →
  let r := while_loop error_text fuel self pimpl K (Monitor (MkFile d) (watching d data x) b) t in
  (out r, tr r) = echo (data =? self) d addr cap K fuel t ∧
  serial (st r) = MkFile d ∧ readBuffer (st r) = b ∧
  (data = self → (∀ t', K _ t' (ask d) = (Sys 1 0, [Z.lor POLLIN POLLHUP])) →
   (∀ t', K _ t' (sys_read d addr cap) = Sys 0 0) → out r = Stuck OutOfFuel).
Proof.
  cbn zeta. intros Hd Hb Hp Hr.
  destruct (while_loop_echoes d self data pimpl x fuel b K t Hd Hb Hp Hr) as (He & Hs & Hbuf).
  split_and!; [done..|]. intros -> Hpoll Hread. rewrite Z.eqb_refl in He.
  pose proof (echo_spins d _ _ K fuel t Hpoll Hread) as Hspin. by rewrite <- He in Hspin.
Qed.

(** What the program does instead.  The port is registered by the address of its
    [ISelectable] base and compared by its own: no event is ever recognised.  The first time
    poll(2) reports anything, input included, the program complains and ends with success; it
    never reads the port and never copies a byte. *)
Lemma monitor_gives_up d self pimpl fuel sel0 (b0 b : B) (K : world posix) (t : trace posix) :
  let addr := dataAddress (viewWritten b) in
  let cap := remaining b in
  let t1 := Prelude.Event (cout_text "press ^C to quit") tt :: t in
  d ≠ InvalidFd → clear b = b →
  (∀ t', length (K _ t' (ask d)).2 = 1%nat) → (∀ t', rv (K _ t' (sys_read d addr cap)) ≤ cap) →
  let r := watch error_text fuel self pimpl b K (Monitor (MkFile d) sel0 b0) t in
  (out r, tr r) = echo false d addr cap K fuel t1 ∧
  List.filter copies (tr r) = List.filter copies t ∧
  ∀ a, K _ t1 (ask d) = a → 0 < rv a.1 → s16 (hd 0 a.2) ≠ 0 → (0 < fuel)%nat →
    out r = Ret tt ∧ tr r = complaint (s16 (hd 0 a.2)) (Prelude.Event (ask d) a :: t1).
Proof.
  cbn zeta. intros Hd Hb Hp Hr. set (t1 := Prelude.Event (cout_text "press ^C to quit") tt :: t).
  assert (Hw : watch error_text fuel self pimpl b K (Monitor (MkFile d) sel0 b0) t =
    while_loop error_text fuel self pimpl K (Monitor (MkFile d) (watching d (self + ISelectable_offset) 0) b) t1).
  { unfold watch. rewrite bind_perform. destruct (K _ t (cout_text _)). fold t1.
    rewrite bind_run. unfold modify at 1. rewrite bind_get. cbn [serial selector readBuffer].
    by rewrite bind_run, register_port. }
  rewrite Hw. destruct (while_loop_echoes d self (self + ISelectable_offset) pimpl 0 fuel b K t1 Hd Hb Hp Hr) as (He & _).
  rewrite (proj2 (Z.eqb_neq (self + ISelectable_offset) self)) in He by (unfold ISelectable_offset; lia).
  destruct (while_loop _ _ _ _ _ _ _) as [o s' t']. cbn in He |- *. split_and!; [done| |].
  - change t' with (o, t').2. by rewrite He, echo_unknown.
  - intros a Ha Hpos Hrep Hf. destruct fuel as [|fuel]; [lia|]. cbn [echo] in He. rewrite Ha in He.
    unfold reported in He. destruct (Z.ltb_spec (rv a.1) 0); [lia|]. destruct (Z.eqb_spec (rv a.1) 0); [lia|].
    rewrite (proj2 (truthy_true _) Hrep) in He. cbn [negb] in He. rewrite andb_false_r in He. by injection He as -> ->.
Qed.

(** Leaving the block, one way or the other, closes the port. *)
Definition port_closed (a : monitor (B := B)) : Prop := fd (serial a) = InvalidFd.

Lemma t_destroy (P R : monitor (B := B) → Prop) : triple P (on_serial Serial_destroy) (λ _, port_closed) R.
Proof.
  apply (triple_zoom _ _ _ (λ _, True) (λ _ f, fd f = InvalidFd) (λ _, False)); [|done..].
  intros K f t _. unfold Serial_destroy. pose proof (destroy_closed K f t) as Hc.
  destruct (File.destroy K f t) as [[]]; cbn; naive_solver.
Qed.

Lemma t_open {P} `{PathOps P} fuel (file : P) rate (Q : monitor (B := B) → Prop) :
  triple Q (on_serial (Serial_open_defaults fuel file rate)) (λ _ _, True) port_closed.
Proof.
  apply (triple_zoom _ _ _ (λ _, True) (λ _ _, True) (λ f, fd f = InvalidFd)); [|done..].
  intros K f t _. unfold Serial_open_defaults.
  pose proof (serial_open_cases fuel file (default 9600 rate) eightbits parity_none one flow_none K f t) as Ho.
  cbn zeta in Ho. destruct (Serial_open fuel file _ _ _ _ _ K f t) as [[]]; cbn in *; naive_solver.
Qed.

Lemma t_any {A} (m : prog posix (monitor (B := B)) A) : triple (λ _, True) m (λ _ _, True) (λ _, True).
Proof. intros K a t _. by destruct (out (m K a t)). Qed.

(** The program releases the port.  Whichever way [main] is left when it was asked to open
    one, by returning 0, by an [IOException] that it reports and turns into 1, or by another
    exception, the port is closed. *)
Lemma monitor_releases {P} `{PathOps P, !StringOps} unwrap_exn exn_text fuel argc self pimpl (fresh : B)
    (K : world posix) (a : monitor (B := B)) (t : trace posix) :
  2 ≤ argc →
  let r := main (P := P) unwrap_exn error_text exn_text fuel argc self pimpl fresh K a t in
  match out r with
  | Ret code => (code = 0 ∨ code = 1) ∧ port_closed (st r)
  | Raise e => is_IOException e = false ∧ port_closed (st r)
  | Stuck _ => True
  end.
Proof.
  intros Hargc. cbn zeta. unfold main. rewrite (proj2 (Z.ltb_ge argc 2)) by lia. rewrite bind_perform, bind_perform.
  unfold catch_IOException. set (t' := _ :: _ :: t).
  assert (Ht : triple (λ _, True) (try_block error_text fuel self pimpl (path_none : P) 115200 fresh) (λ _, port_closed) port_closed).
  { unfold try_block. eapply triple_bind; [apply t_open|]. intros [].
    eapply triple_bind; [apply (triple_unwind _ _ _ (λ _ _, True) (λ _, True) _ (λ _, False)); [apply t_any|apply t_destroy]|]. intros []. apply t_destroy. }
  specialize (Ht K a t' I). rewrite bind_run.
  destruct (try_block error_text fuel self pimpl path_none 115200 fresh K a t') as [[[]|e|u] a' t'']; cbn in *; [by split; [left|]| |done].
  destruct (is_IOException e) eqn:E; cbn; [by split; [right|]|by split].
Qed.

End Correctness.

(** ** On an input *)

#[local] Existing Instances Concrete.path_ops Concrete.string_ops Concrete.view_ops Concrete.writer_stream Concrete.writer_ops
  Concrete.view_laws Concrete.writer_stream_laws Concrete.writer_laws.

(** The port has input twice, which two reads bring; then its line breaks. *)
Definition demo_port : world posix := world_of (λ R n op,
  match op in posix R return option R with
  | sys_poll _ _ => Some (Sys 1 0, [if (n <? 8)%nat then POLLIN else POLLERR])
  | sys_read _ _ _ => Some (Sys (if (n <? 5)%nat then 7 else 3) 0)
  | _ => None
  end).

Definition demo_writer : Concrete.writer := Concrete.Writer 4096 120 0.

Lemma monitor_echoes_witness :
  let r := while_loop (λ _, ""%string) 5 1 2 demo_port (Monitor (MkFile 3) (watching 3 1 0) demo_writer) [] in
  (out r, tr r) = echo true 3 4096 120 demo_port 5 [] ∧
  List.filter (λ e, match ev_op e with cout_write _ _ => true | _ => false end) (tr r) =
    [Prelude.Event (cout_write 4096 3) tt; Prelude.Event (cout_write 4096 7) tt].
Proof.
  destruct (monitor_echoes (λ _, ""%string) 3 1 1 2 5 0 demo_writer demo_port [])
    as (He & _); [done|done|done| |].
  - intros t'. cbn. by case_match.
  - split; [exact He|reflexivity].
Defined.
