(* ===== verification/MonitorContents.v ===== *)
(** * What the serial monitor prints

    The serial monitor with the contents of its memory: the calls that move bytes are interpreted
    over [Memory], and the bytes that are printed are compared with those that were read, in the
    loop on a port and in the whole of the main program. *)
From stdpp Require Import gmap.
From S2P Require Import Prelude Memory Posix Solace Selector PollSelector File FileStore IOObject Serial SerialMonitor.

Section Port.
Context (input : nat → Z) (port : Z).

(** The memory, how many bytes of the input were read, and what was printed. *)
Record device := Device { contents : ram; consumed : nat; shown : list Z }.

(** read(2) stores the next bytes of the input, [cout.write] prints a run of the memory. *)
Definition effect (e : event posix) (d : device) : device :=
  match ev_op e in posix T return T → device with
  | sys_read fd addr _ => λ r,
      if fd =? port then
        let n := Z.to_nat (rv r) in
        Device (store addr (map input (seq (consumed d) n)) (contents d)) (consumed d + n) (shown d)
      else d
  | cout_write addr size => λ _, Device (contents d) (consumed d) (shown d ++ load addr size (contents d))
  | _ => λ _, d
  end (ev_res e).

(** After the calls of a trace, the newest of which is its first. *)
Definition after (t : trace posix) (d : device) : device := foldr effect d t.

(** All that was read was printed, in order. *)
Definition copied (d : device) : Prop := shown d = map input (seq 0 (consumed d)).

Lemma copied_block addr cap r d :
  0 ≤ rv r → copied d →
  copied (effect (Prelude.Event (cout_write addr (rv r)) tt) (effect (Prelude.Event (sys_read port addr cap) r) d)).
Proof.
  intros Hr Hc. unfold copied, effect. cbn. rewrite Z.eqb_refl. cbn. rewrite seq_app, map_app, <- Hc. f_equal. cbn.
  set (l := map input _). replace (rv r) with (Z.of_nat (length l)) by (unfold l; rewrite length_map, length_seq; lia).
  apply load_store_all.
Qed.

Lemma echo_copies addr cap (K : world posix) fuel t d :
  copied (after t d) → copied (after (echo true port addr cap K fuel t).2 d).
Proof.
  revert t. induction fuel as [|fuel IH]; intros t Ht; [done|]. cbn [echo]. set (a := K _ t (ask port)).
  destruct (rv a.1 <? 0); [done|]. destruct (truthy (reported a)); cbn [negb]; [|by apply IH].
  rewrite andb_true_r. destruct (readable (reported a)); [|done]. set (r := K _ _ (sys_read port addr cap)).
  destruct (Z.ltb_spec (rv r) 0) as [Hr|Hr].
  - cbn. rewrite Z.eqb_refl. unfold copied. cbn. replace (Z.to_nat (rv r)) with 0%nat by lia. by rewrite Nat.add_0_r.
  - apply IH. cbn [after foldr]. by apply (copied_block addr cap r (after (Prelude.Event (ask port) a :: t) d)).
Qed.

(** Only reads and prints count. *)
Lemma after_copies t d : after t d = after (List.filter copies t) d.
Proof.
  induction t as [|e t IH]; [done|]. cbn [after foldr List.filter]. fold (after t d). rewrite IH.
  destruct e as [R op r]. by destruct op.
Qed.

Lemma after_same t t' d : List.filter copies t' = List.filter copies t → after t' d = after t d.
Proof. intros He. by rewrite after_copies, He, <- after_copies. Qed.

End Port.

Section Copy.
Context {V B : Type} `{MemoryView V} `{!ByteStream B V} `{!ByteWriter B V}.
Context `{!MemoryViewLaws V, !ByteStreamLaws B V, !ByteWriterLaws B V}.
Context (error_text : Error → string).

(** ** The main program *)

(** A program that neither reads nor prints memory. *)
Lemma quiet_copies {S A} (p : prog posix S A) (K : world posix) s t :
  emits (λ e, copies e = false) p → List.filter copies (tr (p K s t)) = List.filter copies t.
Proof.
  intros Hp. destruct (Hp K s t) as (new & -> & Hn). rewrite List.filter_app.
  induction Hn as [|e new He _ IH]; [done|]. cbn [List.filter]. by rewrite He.
Qed.

Lemma destroy_quiet : emits (λ e, copies e = false) (on_serial (B := B) Serial_destroy).
Proof. unfold on_serial, Serial_destroy, File.destroy, File.close, validateFd. emits_tac. Qed.

Lemma open_quiet {P} `{PathOps P} fuel (file : P) rate :
  emits (λ e, copies e = false) (on_serial (B := B) (Serial_open_defaults fuel file rate)).
Proof.
  unfold on_serial, Serial_open_defaults, Serial_open, File_open. apply emits_zoom, emits_bind; [by apply open_loop_emits|]. intros [].
  unfold reconfigurePort, set_speed, set_custom_baud, File.destroy, File.close, validateFd. emits_tac.
Qed.

Section Main.
Context (K : world posix) (b : B) (Hb : clear b = b).
Context (Hpoll : ∀ d t, length (K _ t (ask d)).2 = 1%nat).
Context (Hread : ∀ d t, rv (K _ t (sys_read d (dataAddress (viewWritten b)) (remaining b))) ≤ remaining b).

Lemma watch_still fuel self pimpl (a : monitor (B := B)) t :
  fd (serial a) ≠ InvalidFd → List.filter copies (tr (watch error_text fuel self pimpl b K a t)) = List.filter copies t.
Proof.
  destruct a as [[d] sel b0]. cbn [serial fd]. intros Hd.
  destruct (monitor_gives_up error_text d self pimpl fuel sel b0 b K t) as (_ & Hf & _); auto.
Qed.

(** A port that was opened is open. *)
Lemma opened_serial {P} `{PathOps P} fuel (file : P) rate (a : monitor (B := B)) t :
  match on_serial (Serial_open_defaults fuel file (Some rate)) K a t with Run (Ret _) a' _ => fd (serial a') ≠ InvalidFd | _ => True end.
Proof.
  pose proof (serial_open_cases fuel file rate eightbits parity_none one flow_none K (serial a) t) as Hfd. cbn zeta in Hfd.
  unfold on_serial, zoom, Serial_open_defaults. change (default 9600 (Some rate)) with rate.
  by destruct (Serial_open fuel file rate _ _ _ _ K (serial a) t) as [[]].
Qed.

Lemma block_still {P} `{PathOps P} fuel self pimpl (file : P) rate (a : monitor (B := B)) t :
  List.filter copies (tr (try_block error_text fuel self pimpl file rate b K a t)) = List.filter copies t.
Proof.
  unfold try_block. rewrite bind_run. pose proof (quiet_copies _ K a t (open_quiet fuel file (Some rate))) as Ho.
  pose proof (opened_serial fuel file rate a t) as Hfd.
  destruct (on_serial (Serial_open_defaults fuel file (Some rate)) K a t) as [[[]|e|u] a1 t1]; cbn [tr] in Ho; [|exact Ho..].
  rewrite <- Ho, bind_run. pose proof (watch_still fuel self pimpl a1 t1 Hfd) as Hw.
  unfold unwind. destruct (watch error_text fuel self pimpl b K a1 t1) as [[[]|e|u] a2 t2]; cbn [tr] in Hw; rewrite <- Hw; [| |done].
  - apply quiet_copies, destroy_quiet.
  - pose proof (quiet_copies _ K a2 t2 destroy_quiet) as Hc. by destruct (on_serial Serial_destroy K a2 t2) as [[]].
Qed.

Lemma main_still {P} `{PathOps P, !StringOps} unwrap_exn exn_text fuel argc self pimpl (a : monitor (B := B)) t :
  2 ≤ argc →
  List.filter copies (tr (main (P := P) unwrap_exn error_text exn_text fuel argc self pimpl b K a t)) = List.filter copies t.
Proof.
  intros Hargc. unfold main. rewrite (proj2 (Z.ltb_ge argc 2)) by lia. rewrite !bind_perform. set (t' := _ :: _ :: t).
  change (List.filter copies t) with (List.filter copies t'). unfold catch_IOException. rewrite bind_run.
  pose proof (block_still fuel self pimpl (path_none : P) 115200 a t') as Hs.
  destruct (try_block error_text fuel self pimpl path_none 115200 b K a t') as [[[]|e|u] a' t'']; cbn [tr] in Hs; [done| |done].
  by case_match.
Qed.

End Main.

(** C12.  What becomes of the bytes of the port.  The main program, asked to open a port, reads none
    of them and prints none, nor any other memory, whatever happens: it registers the port with an
    address that its loop does not recognise.  The loop itself, on an open port that is registered
    with any pointer and with an empty buffer, never invents, loses, repeats or reorders a byte:
    what was printed is, whenever it is left or cut off, exactly what was read, however the input
    is cut into reads and whatever the memory of the buffer held before. *)
Theorem monitor_output {P} `{PathOps P, !StringOps} unwrap_exn exn_text (input : nat → Z) port self pimpl fuel (b : B)
    (K : world posix) (t : trace posix) d :
  clear b = b → (∀ p t', length (K _ t' (ask p)).2 = 1%nat) →
  (∀ p t', rv (K _ t' (sys_read p (dataAddress (viewWritten b)) (remaining b))) ≤ remaining b) →
  (∀ argc a, 2 ≤ argc →
     after input port (tr (main (P := P) unwrap_exn error_text exn_text fuel argc self pimpl b K a t)) d = after input port t d) ∧
  (∀ data x, port ≠ InvalidFd → copied input (after input port t d) →
     let r := while_loop error_text fuel self pimpl K (Monitor (MkFile port) (watching port data x) b) t in
     copied input (after input port (tr r) d)).
Proof.
  intros Hb Hpoll Hread. split.
  - intros argc a Hargc. apply after_same. by apply main_still.
  - intros data x Hp Ht. cbn zeta.
    destruct (while_loop_echoes error_text port self data pimpl x fuel b K t Hp Hb (Hpoll port) (Hread port)) as (He & _).
    change (tr ?r) with (out r, tr r).2. rewrite He. destruct (data =? self); [by apply echo_copies|].
    by rewrite (after_same input port t) by apply echo_unknown.
Qed.

End Copy.

(** ** On an input *)

#[local] Existing Instances Concrete.path_ops Concrete.string_ops Concrete.view_ops Concrete.writer_stream Concrete.writer_ops
  Concrete.view_laws Concrete.writer_stream_laws Concrete.writer_laws.

(** The input is 0, 1, 2, ...; the loop prints ten bytes of a port that it recognises; the program
    prints none. *)
Lemma monitor_output_witness :
  let d0 := Device (λ _, 99) 0 [] in
  let r := while_loop (λ _, ""%string) 5 1 2 demo_port (Monitor (MkFile 3) (watching 3 1 0) demo_writer) [] in
  let m := main (P := string) NotOpen (λ _, ""%string) (λ _, ""%string) 5 2 1 2 demo_writer demo_port
             (Monitor File_default None demo_writer) [] in
  shown (after Z.of_nat 3 (tr r) d0) = [0; 1; 2; 3; 4; 5; 6; 7; 8; 9] ∧
  out m = Ret 0 ∧ after Z.of_nat 0 (tr m) d0 = d0.
Proof.
  destruct (monitor_output (P := string) (λ _, ""%string) NotOpen (λ _, ""%string) Z.of_nat 3 1 2 5 demo_writer demo_port []
    (Device (λ _, 99) 0 []) ltac:(done)) as [_ Hloop]; [done|intros p t'; cbn; by case_match|].
  destruct (monitor_output (P := string) (λ _, ""%string) NotOpen (λ _, ""%string) Z.of_nat 0 1 2 5 demo_writer demo_port []
    (Device (λ _, 99) 0 []) ltac:(done)) as [Hmain _]; [done|intros p t'; cbn; by case_match|].
  specialize (Hloop 1 0 ltac:(done) eq_refl). cbn zeta in Hloop |- *. unfold copied in Hloop. split; [|split].
  - rewrite Hloop. vm_compute. reflexivity.
  - vm_compute. reflexivity.
  - by rewrite Hmain.
Defined.
