(* ===== verification/Asio.v ===== *)
(** * Asio, promises, and what the asynchronous channels share

    src/async/asio_helper.hpp, asynErrorDomain.hpp, asyncSystemErrorDomain.cpp and
    include/cadence/async/channel.hpp.

    Asio and libsolace's promises are not part of the repository.  Asio is the environment:
    its calls are the operations of [asio].  A completion handler is passed to it when an
    operation is initiated; a handler here is the value of [handler] that names the lambda of
    the sources and what it captures.  The library's memory is the [heap]: the client's
    buffers, which lambdas capture by reference, the promises, which they own, and the
    handlers that Asio holds. *)
From stdpp Require Import gmap.
From S2P Require Import Prelude Solace IPAddress.

(** An object of Asio, by its identity. *)
Abbreviation obj := nat (only parsing).

Inductive object_kind := K_stream_descriptor | K_tcp_socket | K_udp_socket | K_local_stream_socket
  | K_local_datagram_socket | K_serial_port | K_steady_timer | K_signal_set | K_tcp_acceptor
  | K_local_acceptor.

(** [asio::ip::address]: the family and the bytes; endpoints. *)
Inductive asio_address := address_v4 (bytes : list Z) | address_v6 (bytes : list Z).
Inductive asio_endpoint :=
  | ip_endpoint (addr : asio_address) (port : Z)
  | local_endpoint (path : string).

Inductive protocol := proto_v4 | proto_v6 | proto_local.

(** [endpoint.protocol()]. *)
Definition protocol_of (e : asio_endpoint) : protocol :=
  match e with
  | ip_endpoint (address_v4 _) _ => proto_v4
  | ip_endpoint (address_v6 _) _ => proto_v6
  | local_endpoint _ => proto_local
  end.

Inductive asio_option :=
  | reuse_address (on : bool)
  | baud_rate (rate : Z)
  | character_size (bits : Z)
  | parity (p : string)
  | stop_bits (s : string)
  | flow_control (f : string).

(** Where the address of a datagram's sender is written: the member [pe] of the [UdpImpl] of a
    socket, or a local variable of the function that initiated the operation. *)
Inductive sender_storage := member_pe (sock : obj) | local_variable.

(** Operations that end by calling a handler. *)
Inductive async_op :=
  | async_read (addr size : Z)
  | async_write (addr size : Z)
  | async_read_some (addr size : Z)
  | async_write_some (addr size : Z)
  | async_receive (addr size : Z)
  | async_send (addr size : Z)
  | async_receive_from (addr size : Z) (sender : sender_storage)
  | async_send_to (addr size : Z) (dest : asio_endpoint)
  | async_connect (ep : asio_endpoint)
  | async_accept
  | async_wait.

(** The calls of Asio.  An error code is a number, 0 when there is no error. *)
Inductive asio : Type → Type :=
  | new_object (k : object_kind) : asio obj
  | open_object (k : object_kind) (ep : asio_endpoint) : asio (Z * obj)
  | open_serial (path : string) : asio (Z * obj)
  | assign (o : obj) (fd : Z) : asio Z
  | is_open (o : obj) : asio bool
  | open (o : obj) (p : protocol) : asio Z
  | set_option (o : obj) (opt : asio_option) : asio Z
  | bind (o : obj) (ep : asio_endpoint) : asio Z
  | listen (o : obj) (backlog : Z) : asio Z
  | connect (o : obj) (ep : asio_endpoint) : asio Z
  | accept (o : obj) : asio (Z * obj)
  | sync_read (o : obj) (addr size : Z) : asio (Z * Z)
  | sync_write (o : obj) (addr size : Z) : asio (Z * Z)
  | receive (o : obj) (addr size : Z) : asio (Z * Z)
  | send (o : obj) (addr size : Z) : asio (Z * Z)
  | cancel (o : obj) : asio Z
  | close (o : obj) : asio Z
  | shutdown_both (o : obj) : asio Z
  | ip_local_endpoint (o : obj) : asio (Z * (asio_address * Z))
  | ip_remote_endpoint (o : obj) : asio (Z * (asio_address * Z))
  | path_local_endpoint (o : obj) : asio (Z * string)       (* [addr.path()] *)
  | path_remote_endpoint (o : obj) : asio (Z * string)
  | data_local_endpoint (o : obj) : asio (Z * (string * Z))  (* [data()->sa_data] and [size()] *)
  | data_remote_endpoint (o : obj) : asio (Z * (string * Z))
  | non_blocking (o : obj) : asio bool
  | set_non_blocking (o : obj) (mode : bool) : asio Z
  | native_non_blocking (o : obj) : asio bool
  | set_native_non_blocking (o : obj) (mode : bool) : asio Z
  | expires_after (o : obj) (msec : Z) : asio Z
  | expiry (o : obj) : asio Z
  | signal_add (o : obj) (signum : Z) : asio Z
  | start (o : obj) (op : async_op) (id : nat) : asio unit
  (* io_context *)
  | ctx_poll (c : obj) : asio Z
  | ctx_run (c : obj) : asio unit
  | ctx_run_for (c : obj) (msec : Z) : asio unit
  | ctx_stopped (c : obj) : asio bool
  | ctx_reset (c : obj) : asio unit
  | ctx_stop (c : obj) : asio unit
  | ctx_notify_fork (c : obj) (child : bool) : asio unit
  (* the two system calls that the channels make themselves *)
  | sys_eventfd : asio (Z * Z)
  | eventfd_write (o : obj) (v : Z) : asio (Z * Z)
  | sys_pipe2 : asio (Z * Z * (Z * Z))
  (* the server's callback, on the socket's implementation *)
  | call_accept_handler (kind : object_kind) (o : obj) : asio unit
  (* what the programs over the library do besides: the encoder of libsolace, which answers how
     many bytes it wrote to [dst], a byte stored, and lines printed *)
  | base16_encode (src size dst cap : Z) : asio Z
  | store_byte (addr value : Z) : asio unit
  | print (line : string) : asio unit.

(** ** Errors *)

(** [kAsyncErrorCatergory], [makeError(AsyncError, ...)], [fromAsioError]. *)
Definition kAsyncErrorCatergory : string := "pasy".
Definition makeError_async (errCode : Z) (tag : string) : Error := MkError kAsyncErrorCatergory errCode tag.
Definition fromAsioError (err : Z) (tag : string) : Error := makeError_async err tag.

(** [AsyncErrorDomain]. *)
Definition domain_getName : string := "AsyncErrorDomain".
Definition domain_getMessage (code : Z) : string := "".

(** [asio::error::address_family_not_supported], Linux. *)
Definition EAFNOSUPPORT : Z := 97.

(** ** The memory *)

(** A [StreamSocket] that a promise carries: its loop, and the implementation it owns. *)
Record StreamSocket := MkStreamSocket { ss_ioContext : obj; ss_pimpl : option (object_kind * obj) }.

Inductive pvalue :=
  | VUnit
  | VInt (z : Z)
  | VEndpoint (p : IPEndpoint)
  | VSocket (s : StreamSocket).

Inductive promise := Pending | HasValue (v : pvalue) | HasError (e : Error).

(** The lambdas passed to Asio, with their captures: [dest] is a reference to a buffer, [pm] a
    promise moved into the lambda. *)
Inductive handler :=
  | H_transfer (tag : string) (dest pm : nat)        (* advance the buffer on success *)
  | H_transfer_always (tag : string) (dest pm : nat) (* advance it in any case *)
  | H_transfer_from (tag : string) (dest pm : nat)   (* as [H_transfer]; the sender in a local *)
  | H_done (tag : string) (pm : nat)                 (* no buffer, a void promise *)
  | H_timer (pm : nat)
  | H_signal (pm : nat)
  | H_read_from (sock dest pm : nat)                 (* [ReadFromHandler] of [UdpImpl] *)
  | H_accept (kind : object_kind) (loop pm : nat).

(** The promise a handler owns. *)
Definition handler_promise (h : handler) : nat :=
  match h with
  | H_transfer _ _ pm | H_transfer_always _ _ pm | H_transfer_from _ _ pm | H_done _ pm | H_timer pm | H_signal pm
  | H_read_from _ _ pm | H_accept _ _ pm => pm
  end.

(** What Asio gives to a handler. *)
Record completion := Completion { c_error : Z; c_length : Z; c_signal : Z; c_peer : obj }.

(** An [AsyncServer], which the continuation of its accept loop captures by reference: the
    acceptor's loop and implementation, and whether there is a connection handler. *)
Record server := Server { srv_loop : obj; srv_pimpl : option (object_kind * obj); srv_handler : bool }.

Record heap (B : Type) := Heap {
  buffers : gmap nat B;
  promises : gmap nat promise;
  continuations : gmap nat nat;            (* [then]: the server whose loop goes on *)
  servers : gmap nat server;
  waiting : gmap nat handler;              (* initiated, not completed *)
  ready : list (handler * completion);     (* completed, to be run *)
  peers : gmap nat (asio_address * Z);          (* [UdpImpl::pe], by socket *)
  fresh : nat }.
Arguments Heap {B}. Arguments buffers {B}. Arguments promises {B}. Arguments continuations {B}. Arguments servers {B}.
Arguments waiting {B}. Arguments ready {B}. Arguments peers {B}. Arguments fresh {B}.

Section Memory.
Context {V B : Type} `{MemoryView V} `{!ByteStream B V}.

Definition upd_buffers (f : gmap nat B → gmap nat B) (h : heap B) : heap B :=
  Heap (f (buffers h)) (promises h) (continuations h) (servers h) (waiting h) (ready h) (peers h) (fresh h).
Definition upd_promises (f : gmap nat promise → gmap nat promise) (h : heap B) : heap B :=
  Heap (buffers h) (f (promises h)) (continuations h) (servers h) (waiting h) (ready h) (peers h) (fresh h).
Definition upd_continuations (f : gmap nat nat → gmap nat nat) (h : heap B) : heap B :=
  Heap (buffers h) (promises h) (f (continuations h)) (servers h) (waiting h) (ready h) (peers h) (fresh h).
Definition upd_servers (f : gmap nat server → gmap nat server) (h : heap B) : heap B :=
  Heap (buffers h) (promises h) (continuations h) (f (servers h)) (waiting h) (ready h) (peers h) (fresh h).
Definition upd_waiting (f : gmap nat handler → gmap nat handler) (h : heap B) : heap B :=
  Heap (buffers h) (promises h) (continuations h) (servers h) (f (waiting h)) (ready h) (peers h) (fresh h).
Definition upd_ready (f : list (handler * completion) → list (handler * completion)) (h : heap B) : heap B :=
  Heap (buffers h) (promises h) (continuations h) (servers h) (waiting h) (f (ready h)) (peers h) (fresh h).
Definition upd_peers (f : gmap nat (asio_address * Z) → gmap nat (asio_address * Z)) (h : heap B) : heap B :=
  Heap (buffers h) (promises h) (continuations h) (servers h) (waiting h) (ready h) (f (peers h)) (fresh h).
Definition upd_fresh (f : nat → nat) (h : heap B) : heap B :=
  Heap (buffers h) (promises h) (continuations h) (servers h) (waiting h) (ready h) (peers h) (f (fresh h)).

(** A fresh identity. *)
Definition allocate : prog asio (heap B) nat :=
  h ← get; _ ← modify (upd_fresh S); mret (fresh h).

(** [Promise<T> promise; auto f = promise.getFuture();]: the future is known by its promise. *)
Definition new_promise : prog asio (heap B) nat :=
  pm ← allocate; _ ← modify (upd_promises <[pm := Pending]>); mret pm.

(** [setValue], [setError]. *)
Definition setValue (pm : nat) (v : pvalue) : prog asio (heap B) unit :=
  modify (upd_promises <[pm := HasValue v]>).
Definition setError (pm : nat) (e : Error) : prog asio (heap B) unit :=
  modify (upd_promises <[pm := HasError e]>).

(** A buffer the client gave by reference. *)
Definition buffer_at (dest : nat) : prog asio (heap B) B :=
  h ← get;
  match buffers h !! dest with Some b => mret b | None => stuck DanglingPointer end.

(** [dest.advance(n)]. *)
Definition advance_buffer (dest : nat) (n : Z) : prog asio (heap B) (Result unit) :=
  b ← buffer_at dest;
  _ ← modify (upd_buffers <[dest := (advance n b).2]>);
  mret (advance n b).1.

(** [asio_buffer]: the address of the slice, and the size asked for. *)
Definition asio_buffer (dest : nat) (bytes : Z) : prog asio (heap B) (Z * Z) :=
  b ← buffer_at dest;
  mret (dataAddress (slice (viewRemaining b) 0 bytes), bytes).

(** Passing a handler to Asio. *)
Definition initiate (o : obj) (op : async_op) (h : handler) : prog asio (heap B) unit :=
  id ← allocate;
  _ ← perform (start o op id);
  modify (upd_waiting <[id := h]>).

(** The throwing overloads of Asio. *)
Definition throwing (op : asio Z) : prog asio (heap B) unit :=
  ec ← perform op; if truthy ec then raise (AsioError ec) else mret tt.

(** The same, for the overloads with a result. *)
Definition throwing_with {R} (op : asio (Z * R)) : prog asio (heap B) R :=
  r ← perform op; if truthy r.1 then raise (AsioError r.1) else mret r.2.

(** [*_pimpl], [_pimpl->]. *)
Definition deref {A} (p : option A) : prog asio (heap B) A :=
  match p with Some a => mret a | None => stuck NullPointer end.

(** What the [asyncRead] and [asyncWrite] of every channel do: a promise, the buffer, the
    operation, whose handler owns the promise. *)
Definition async_transfer (mk : nat → nat → handler) (o : obj) (op : Z → Z → async_op)
    (dest : nat) (bytes : Z) : prog asio (heap B) nat :=
  pm ← new_promise;
  buf ← asio_buffer dest bytes;
  _ ← initiate o (op buf.1 buf.2) (mk dest pm);
  mret pm.

(** The synchronous transfers: those that ignore what [advance] answers, and those that
    return it. *)
Definition sync_transfer (op : Z → Z → asio (Z * Z)) (tag : string) (dest : nat) (bytes : Z) :
    prog asio (heap B) (Result unit) :=
  buf ← asio_buffer dest bytes;
  r ← perform (op buf.1 buf.2);
  if truthy r.1 then mret (Err (fromAsioError r.1 tag))
  else _ ← advance_buffer dest r.2; mret (Ok tt).

Definition sync_transfer_advance (op : Z → Z → asio (Z * Z)) (tag : string) (dest : nat) (bytes : Z) :
    prog asio (heap B) (Result unit) :=
  buf ← asio_buffer dest bytes;
  r ← perform (op buf.1 buf.2);
  if truthy r.1 then mret (Err (fromAsioError r.1 tag))
  else advance_buffer dest r.2.

End Memory.

(** ** [Channel]: the base of every channel *)

Record Channel (I : Type) := MkChannel { _ioContext : option obj; _pimpl : option I }.
Arguments MkChannel {I}. Arguments _ioContext {I}. Arguments _pimpl {I}.

Section Channel.
Context {I : Type}.

Definition Channel_new (ioContext : obj) (impl : I) : Channel I := MkChannel (Some ioContext) (Some impl).

(** The move constructors: the base exchanges its context with null, the implementation
    pointer is moved.  The new object, and what is left of [rhs]. *)
Definition Channel_move (rhs : Channel I) : Channel I * Channel I :=
  (MkChannel (_ioContext rhs) (_pimpl rhs), MkChannel None None).

(** [Channel::swap], and the [swap] of the derived classes, which swaps only [_pimpl]. *)
Definition Channel_swap (this rhs : Channel I) : Channel I * Channel I :=
  (MkChannel (_ioContext rhs) (_pimpl this), MkChannel (_ioContext this) (_pimpl rhs)).
Definition derived_swap (this rhs : Channel I) : Channel I * Channel I :=
  (MkChannel (_ioContext this) (_pimpl rhs), MkChannel (_ioContext rhs) (_pimpl this)).

Context {V B : Type} `{MemoryView V} `{!ByteStream B V}.

(** [getIOContext()]: [*_ioContext]. *)
Definition getIOContext (c : Channel I) : prog asio (heap B) obj := deref (_ioContext c).

(** The overloads without a count transfer what remains in the buffer. *)
Definition whole {A} (op : nat → Z → prog asio (heap B) A) (buf : nat) : prog asio (heap B) A :=
  b ← buffer_at buf; op buf (remaining b).

(** A method of the facade: [return _pimpl->method(...)]. *)
Definition forward {A} (c : Channel I) (method : I → prog asio (heap B) A) : prog asio (heap B) A :=
  impl ← deref (_pimpl c); method impl.

End Channel.

(** A world for the witnesses: every call succeeds; [f] overrides some answers. *)
Definition zero_asio_answer {R} (op : asio R) : R :=
  match op in asio R return R with
  | new_object _ => 0%nat
  | open_object _ _ | open_serial _ | accept _ => (0, 0%nat)
  | is_open _ | non_blocking _ | native_non_blocking _ | ctx_stopped _ => false
  | sync_read _ _ n | sync_write _ _ n | receive _ _ n | send _ _ n => (0, n)
  | ip_local_endpoint _ | ip_remote_endpoint _ => (0, (address_v4 [0; 0; 0; 0], 0))
  | path_local_endpoint _ | path_remote_endpoint _ => (0, ""%string)
  | data_local_endpoint _ | data_remote_endpoint _ => (0, (""%string, 0))
  | start _ _ _ | ctx_run _ | ctx_run_for _ _ | ctx_reset _ | ctx_stop _ | ctx_notify_fork _ _
  | call_accept_handler _ _ | store_byte _ _ | print _ => tt
  | base16_encode _ size _ cap => Z.min (2 * size) cap
  | sys_eventfd | eventfd_write _ _ => (0, 0)
  | sys_pipe2 => (0, 0, (0, 0))
  | _ => 0
  end.

Definition asio_world (f : ∀ R, nat → asio R → option R) : world asio :=
  λ R t op, match f R (length t) op with Some r => r | None => zero_asio_answer op end.
Definition zero_asio : world asio := asio_world (λ _ _ _, None).
