(* ===== verification/AsyncObjects.v ===== *)
(** * The event loop, and the channels that are not sockets

    include/cadence/async/eventloop.hpp, event.hpp, timer.hpp, signalSet.hpp, pipe.hpp,
    serial.hpp, and src/async/eventLoop.cpp, event.cpp, timer.cpp, signalSet.cpp, pipe.cpp,
    serialChannel.cpp. *)
From stdpp Require Import gmap.
From S2P Require Import Prelude Solace IPAddress Serial Asio.

(** ** EventLoop *)
Module EventloopImpl.
Section EventloopImpl.
Context {B : Type}.

(** The member [_io_service]. *)
Record EventloopImpl := MkImpl { _io_service : obj }.

(** The count is narrowed to 32 bits. *)
Definition poll (i : EventloopImpl) : prog asio (heap B) Z := n ← perform (ctx_poll (_io_service i)); mret (u32 n).
Definition run (i : EventloopImpl) : prog asio (heap B) unit := perform (ctx_run (_io_service i)).
Definition runFor (i : EventloopImpl) (msec : Z) : prog asio (heap B) unit :=
  perform (ctx_run_for (_io_service i) msec).
Definition isStopped (i : EventloopImpl) : prog asio (heap B) bool := perform (ctx_stopped (_io_service i)).
Definition reset (i : EventloopImpl) : prog asio (heap B) unit := perform (ctx_reset (_io_service i)).
Definition stop (i : EventloopImpl) : prog asio (heap B) unit := perform (ctx_stop (_io_service i)).
Definition onForkChild (i : EventloopImpl) : prog asio (heap B) unit := perform (ctx_notify_fork (_io_service i) true).
Definition onForkParent (i : EventloopImpl) : prog asio (heap B) unit := perform (ctx_notify_fork (_io_service i) false).
Definition getIOService (i : EventloopImpl) : prog asio (heap B) obj := mret (_io_service i).

End EventloopImpl.
End EventloopImpl.

Module EventLoop.
Section EventLoop.
Context {B : Type}.

(** [_pimpl]: null in a loop that was swapped with such a loop. *)
Record EventLoop := MkLoop { loop_pimpl : option EventloopImpl.EventloopImpl }.

Definition create (ctx : obj) : EventLoop := MkLoop (Some (EventloopImpl.MkImpl ctx)).

(** [swap] returns its argument, [operator=] what [swap] returns. *)
Inductive which := This | Rhs.
Definition swap (this rhs : EventLoop) : EventLoop * EventLoop * which := (rhs, this, Rhs).

(** [_pimpl->method()]. *)
Definition on {R} (l : EventLoop) (method : EventloopImpl.EventloopImpl → prog asio (heap B) R) : prog asio (heap B) R :=
  i ← deref (loop_pimpl l); method i.

Definition poll (l : EventLoop) : prog asio (heap B) Z := on l EventloopImpl.poll.
Definition run (l : EventLoop) : prog asio (heap B) unit := on l EventloopImpl.run.
Definition runFor (l : EventLoop) (msec : Z) : prog asio (heap B) unit := on l (λ i, EventloopImpl.runFor i msec).
Definition isStopped (l : EventLoop) : prog asio (heap B) bool := on l EventloopImpl.isStopped.
Definition reset (l : EventLoop) : prog asio (heap B) unit := on l EventloopImpl.reset.
Definition stop (l : EventLoop) : prog asio (heap B) unit := on l EventloopImpl.stop.
Definition getIOService (l : EventLoop) : prog asio (heap B) obj := on l EventloopImpl.getIOService.

End EventLoop.
End EventLoop.

(** ** Event *)
Module EventImpl.
Section EventImpl.
Context {B : Type}.

(** The descriptor of the eventfd; the address of the member [_readBuffer] is not modelled. *)
Record EventImpl := MkImpl { _eventFd : obj }.

(** The throwing constructor of a [stream_descriptor] over what [eventfd] answers. *)
Definition create : prog asio (heap B) EventImpl :=
  fd ← perform sys_eventfd;
  o ← perform (new_object K_stream_descriptor);
  _ ← throwing (assign o fd.1);
  mret (MkImpl o).

(** [eventfd_write], with [errno]. *)
Definition notify (i : EventImpl) : prog asio (heap B) unit :=
  result ← perform (eventfd_write (_eventFd i) 1);
  if result.1 <? 0 then raise (IOException result.2 "") else mret tt.

Definition asyncWait (readBuffer : Z) (i : EventImpl) : prog asio (heap B) nat :=
  pm ← new_promise;
  _ ← initiate (_eventFd i) (async_read_some readBuffer 8) (H_done "asyncAwait" pm);
  mret pm.

End EventImpl.
End EventImpl.

Module Event.
Section Event.
Context {B : Type}.

Record Event := MkEvent { ev_pimpl : option EventImpl.EventImpl }.

Definition create (loop : EventLoop.EventLoop) : prog asio (heap B) Event :=
  _ ← EventLoop.getIOService loop; i ← EventImpl.create; mret (MkEvent (Some i)).
Definition move (rhs : Event) : Event * Event := (MkEvent (ev_pimpl rhs), MkEvent None).
Definition swap (this rhs : Event) : Event * Event := (rhs, this).
Definition notify (e : Event) : prog asio (heap B) unit := i ← deref (ev_pimpl e); EventImpl.notify i.
Definition asyncWait (readBuffer : Z) (e : Event) : prog asio (heap B) nat :=
  i ← deref (ev_pimpl e); EventImpl.asyncWait readBuffer i.

End Event.
End Event.

(** ** Timer *)
Module TimerImpl.
Section TimerImpl.
Context {B : Type}.

Record TimerImpl := MkImpl { _timer : obj }.

Definition create : prog asio (heap B) TimerImpl := o ← perform (new_object K_steady_timer); mret (MkImpl o).
Definition create_for (duration : Z) : prog asio (heap B) TimerImpl :=
  o ← perform (new_object K_steady_timer);
  _ ← throwing (expires_after o duration);
  mret (MkImpl o).
Definition setTimeout (i : TimerImpl) (timeoutDuration : Z) : prog asio (heap B) unit :=
  throwing (expires_after (_timer i) timeoutDuration).
Definition getTimeout (i : TimerImpl) : prog asio (heap B) Z := perform (expiry (_timer i)).
Definition cancel (i : TimerImpl) : prog asio (heap B) unit := throwing (Asio.cancel (_timer i)).
Definition asyncWait (i : TimerImpl) : prog asio (heap B) nat :=
  pm ← new_promise;
  _ ← initiate (_timer i) async_wait (H_timer pm);
  mret pm.

End TimerImpl.
End TimerImpl.

Module Timer.
Section Timer.
Context {B : Type}.

Record Timer := MkTimer { tm_pimpl : option TimerImpl.TimerImpl }.

Definition create (loop : EventLoop.EventLoop) : prog asio (heap B) Timer :=
  _ ← EventLoop.getIOService loop; i ← TimerImpl.create; mret (MkTimer (Some i)).
Definition create_for (loop : EventLoop.EventLoop) (durationFromNow : Z) : prog asio (heap B) Timer :=
  _ ← EventLoop.getIOService loop; i ← TimerImpl.create_for durationFromNow; mret (MkTimer (Some i)).
Definition move (rhs : Timer) : Timer * Timer := (MkTimer (tm_pimpl rhs), MkTimer None).
Definition swap (this rhs : Timer) : Timer * Timer := (rhs, this).
Definition setTimeout (t : Timer) (timeoutDuration : Z) : prog asio (heap B) unit :=
  i ← deref (tm_pimpl t); TimerImpl.setTimeout i timeoutDuration.
Definition getTimeout (t : Timer) : prog asio (heap B) Z := i ← deref (tm_pimpl t); TimerImpl.getTimeout i.
Definition cancel (t : Timer) : prog asio (heap B) unit := i ← deref (tm_pimpl t); TimerImpl.cancel i.
Definition asyncWait (t : Timer) : prog asio (heap B) nat := i ← deref (tm_pimpl t); TimerImpl.asyncWait i.

End Timer.
End Timer.

(** ** SignalSet *)
Module SignalSetImpl.
Section SignalSetImpl.
Context {B : Type}.

Record SignalSetImpl := MkImpl { _signals : obj }.

Fixpoint add_all (o : obj) (signal : list Z) : prog asio (heap B) unit :=
  match signal with
  | [] => mret tt
  | i :: rest => _ ← throwing (signal_add o i); add_all o rest
  end.

Definition create (signal : list Z) : prog asio (heap B) SignalSetImpl :=
  o ← perform (new_object K_signal_set);
  _ ← add_all o signal;
  mret (MkImpl o).

Definition asyncWait (i : SignalSetImpl) : prog asio (heap B) nat :=
  pm ← new_promise;
  _ ← initiate (_signals i) async_wait (H_signal pm);
  mret pm.

End SignalSetImpl.
End SignalSetImpl.

Module SignalSet.
Section SignalSet.
Context {B : Type}.

Record SignalSet := MkSet { set_pimpl : option SignalSetImpl.SignalSetImpl }.

Definition create (loop : EventLoop.EventLoop) (signal : list Z) : prog asio (heap B) SignalSet :=
  _ ← EventLoop.getIOService loop; i ← SignalSetImpl.create signal; mret (MkSet (Some i)).
Definition move (rhs : SignalSet) : SignalSet * SignalSet := (MkSet (set_pimpl rhs), MkSet None).
(** [swap] returns its argument. *)
Definition swap (this rhs : SignalSet) : SignalSet * SignalSet * EventLoop.which := (rhs, this, EventLoop.Rhs).
Definition asyncWait (s : SignalSet) : prog asio (heap B) nat := i ← deref (set_pimpl s); SignalSetImpl.asyncWait i.

End SignalSet.
End SignalSet.

(** ** Pipe *)
Module PipeImpl.
Section PipeImpl.
Context {V B : Type} `{MemoryView V} `{!ByteStream B V}.

Record PipeImpl := MkImpl { _in : obj; _out : obj }.

Definition createNonblockingPipe : prog asio (heap B) (Z * Z) :=
  r ← perform sys_pipe2;
  let '(rv, errno, fds) := r in
  if rv <? 0 then raise (IOException errno "pipe2") else mret fds.

(** When the second [assign] throws, the member [_in] is destroyed, which closes what it was
    assigned; a descriptor that no member took is not closed. *)
Definition create : prog asio (heap B) PipeImpl :=
  in_ ← perform (new_object K_stream_descriptor);
  out_ ← perform (new_object K_stream_descriptor);
  fds ← createNonblockingPipe;
  _ ← throwing (assign in_ fds.1);
  _ ← unwind (throwing (assign out_ fds.2)) (_ ← perform (Asio.close in_); mret tt);
  mret (MkImpl in_ out_).

Definition asyncRead (i : PipeImpl) (dest : nat) (n : Z) : prog asio (heap B) nat :=
  async_transfer (H_transfer "asyncRead") (_in i) async_read_some dest n.
Definition asyncWrite (i : PipeImpl) (src : nat) (n : Z) : prog asio (heap B) nat :=
  async_transfer (H_transfer "asyncWrite") (_out i) async_write_some src n.
Definition read (i : PipeImpl) (dest : nat) (n : Z) : prog asio (heap B) (Result unit) :=
  sync_transfer (sync_read (_in i)) "read" dest n.
Definition write (i : PipeImpl) (src : nat) (n : Z) : prog asio (heap B) (Result unit) :=
  sync_transfer (sync_write (_out i)) "write" src n.
Definition cancel (i : PipeImpl) : prog asio (heap B) unit :=
  _ ← throwing (Asio.cancel (_in i)); throwing (Asio.cancel (_out i)).
Definition close (i : PipeImpl) : prog asio (heap B) unit :=
  _ ← throwing (Asio.close (_in i)); throwing (Asio.close (_out i)).
(** [_in.is_open() && _out.is_open()]. *)
Definition isOpen (i : PipeImpl) : prog asio (heap B) bool :=
  a ← perform (is_open (_in i)); if a : bool then perform (is_open (_out i)) else mret false.
Definition isClosed (i : PipeImpl) : prog asio (heap B) bool := a ← isOpen i; mret (negb a).

End PipeImpl.
End PipeImpl.

Module Pipe.
Section Pipe.
Context {V B : Type} `{MemoryView V} `{!ByteStream B V}.

Definition Pipe := Channel PipeImpl.PipeImpl.

Definition create (loop : EventLoop.EventLoop) (self : obj) : prog asio (heap B) Pipe :=
  _ ← EventLoop.getIOService loop; i ← PipeImpl.create; mret (Channel_new self i).

Definition asyncRead (p : Pipe) (dest : nat) (n : Z) : prog asio (heap B) nat :=
  forward p (λ i, PipeImpl.asyncRead i dest n).
Definition asyncWrite (p : Pipe) (src : nat) (n : Z) : prog asio (heap B) nat :=
  forward p (λ i, PipeImpl.asyncWrite i src n).
Definition read (p : Pipe) (dest : nat) (n : Z) : prog asio (heap B) (Result unit) :=
  forward p (λ i, PipeImpl.read i dest n).
Definition write (p : Pipe) (src : nat) (n : Z) : prog asio (heap B) (Result unit) :=
  forward p (λ i, PipeImpl.write i src n).

Definition cancel (p : Pipe) : prog asio (heap B) unit :=
  forward p (λ i, PipeImpl.cancel i).
Definition close (p : Pipe) : prog asio (heap B) unit :=
  forward p (λ i, PipeImpl.close i).

Definition isOpen (p : Pipe) : prog asio (heap B) bool :=
  forward p (λ i, PipeImpl.isOpen i).
Definition isClosed (p : Pipe) : prog asio (heap B) bool :=
  forward p (λ i, PipeImpl.isClosed i).

Definition move : Pipe → Pipe * Pipe := Channel_move.
Definition swap : Pipe → Pipe → Pipe * Pipe := derived_swap.

End Pipe.
End Pipe.

(** ** SerialChannel *)
Module SerialImpl.
Section SerialImpl.
Context {V B P : Type} `{MemoryView V} `{!ByteStream B V} `{PathOps P}.

Record SerialImpl := MkImpl { _serial : obj }.

(** Asio's parities are none, odd and even. *)
Definition toAsioParity {S} (p : Parity) : prog asio S string :=
  match p with
  | parity_even => mret "even"%string
  | parity_odd => mret "odd"%string
  | parity_none => mret "none"%string
  | _ => raise (IllegalArgumentException "Not supported parity type")
  end.

Definition toAsioStopbits (s : Stopbits) : string :=
  match s with one => "one" | two => "two" | one_point_five => "onepointfive" end.

Definition toAsioFlowcontrol (f : Flowcontrol) : string :=
  match f with flow_none => "none" | software => "software" | hardware => "hardware" end.

Definition bits_value (b : Bytesize) : Z :=
  match b with fivebits => 5 | sixbits => 6 | sevenbits => 7 | eightbits => 8 end.

(** The options, each of which throws when it is refused. *)
Definition set_options (o : obj) (baudrate : Z) (bytesize : Bytesize) (p : Parity) (stopbits : Stopbits)
    (flowcontrol : Flowcontrol) : prog asio (heap B) unit :=
  _ ← throwing (set_option o (baud_rate baudrate));
  _ ← throwing (set_option o (character_size (bits_value bytesize)));
  pr ← toAsioParity p;
  _ ← throwing (set_option o (parity pr));
  _ ← throwing (set_option o (stop_bits (toAsioStopbits stopbits)));
  throwing (set_option o (flow_control (toAsioFlowcontrol flowcontrol))).

(** Opening throws; so does every option, after which the member [_serial] is destroyed,
    which closes it. *)
Definition create (file : P) (baudrate : Z) (bytesize : Bytesize)
    (p : Parity) (stopbits : Stopbits) (flowcontrol : Flowcontrol) : prog asio (heap B) SerialImpl :=
  r ← perform (open_serial (c_str (path_toString file)));
  if truthy r.1 then raise (AsioError r.1)
  else
    let o := r.2 in
    _ ← unwind (set_options o baudrate bytesize p stopbits flowcontrol) (_ ← perform (Asio.close o); mret tt);
    mret (MkImpl o).

Definition asyncRead (i : SerialImpl) (dest : nat) (n : Z) : prog asio (heap B) nat :=
  async_transfer (H_transfer "asyncRead") (_serial i) async_read_some dest n.
Definition asyncWrite (i : SerialImpl) (src : nat) (n : Z) : prog asio (heap B) nat :=
  async_transfer (H_transfer "asyncWrite") (_serial i) async_write_some src n.
Definition read (i : SerialImpl) (dest : nat) (n : Z) : prog asio (heap B) (Result unit) :=
  sync_transfer (sync_read (_serial i)) "read" dest n.
Definition write (i : SerialImpl) (src : nat) (n : Z) : prog asio (heap B) (Result unit) :=
  sync_transfer (sync_write (_serial i)) "write" src n.
Definition cancel (i : SerialImpl) : prog asio (heap B) unit :=
  throwing (Asio.cancel (_serial i)).
Definition close (i : SerialImpl) : prog asio (heap B) unit :=
  throwing (Asio.close (_serial i)).
Definition isOpen (i : SerialImpl) : prog asio (heap B) bool :=
  perform (is_open (_serial i)).
Definition isClosed (i : SerialImpl) : prog asio (heap B) bool :=
  o ← perform (is_open (_serial i)); mret (negb o).

End SerialImpl.
End SerialImpl.

Module SerialChannel.
Section SerialChannel.
Context {V B P : Type} `{MemoryView V} `{!ByteStream B V} `{PathOps P}.

Definition SerialChannel := Channel SerialImpl.SerialImpl.

Definition create (loop : EventLoop.EventLoop) (self : obj) (file : P) (baudrate : Z) (bytesize : Bytesize)
    (p : Parity) (stopbits : Stopbits) (flowcontrol : Flowcontrol) : prog asio (heap B) SerialChannel :=
  _ ← EventLoop.getIOService loop;
  i ← SerialImpl.create file baudrate bytesize p stopbits flowcontrol;
  mret (Channel_new self i).

Definition asyncRead (c : SerialChannel) (dest : nat) (n : Z) : prog asio (heap B) nat :=
  forward c (λ i, SerialImpl.asyncRead i dest n).
Definition asyncWrite (c : SerialChannel) (src : nat) (n : Z) : prog asio (heap B) nat :=
  forward c (λ i, SerialImpl.asyncWrite i src n).
Definition read (c : SerialChannel) (dest : nat) (n : Z) : prog asio (heap B) (Result unit) :=
  forward c (λ i, SerialImpl.read i dest n).
Definition write (c : SerialChannel) (src : nat) (n : Z) : prog asio (heap B) (Result unit) :=
  forward c (λ i, SerialImpl.write i src n).
Definition cancel (c : SerialChannel) : prog asio (heap B) unit :=
  forward c (λ i, SerialImpl.cancel i).
Definition close (c : SerialChannel) : prog asio (heap B) unit :=
  forward c (λ i, SerialImpl.close i).
Definition isOpen (c : SerialChannel) : prog asio (heap B) bool :=
  forward c (λ i, SerialImpl.isOpen i).
Definition isClosed (c : SerialChannel) : prog asio (heap B) bool :=
  forward c (λ i, SerialImpl.isClosed i).
Definition move : SerialChannel → SerialChannel * SerialChannel := Channel_move.
Definition swap : SerialChannel → SerialChannel → SerialChannel * SerialChannel := derived_swap.

End SerialChannel.
End SerialChannel.

(** ** Properties *)

(** An option that was set on [o], whatever the answer. *)
Definition is_option_of (o : obj) (e : Prelude.event asio) : Prop :=
  match ev_op e with set_option o' _ => o' = o | _ => False end.

(** The parities that Asio knows. *)
Definition asio_parity (p : Parity) : option string :=
  match p with
  | parity_even => Some "even"%string
  | parity_odd => Some "odd"%string
  | parity_none => Some "none"%string
  | _ => None
  end.

Section SerialOpen.
Context {V B P : Type} `{MemoryView V} `{!ByteStream B V} `{PathOps P}.

Lemma toAsioParity_run {S} p (K : world asio) (s : S) t :
  SerialImpl.toAsioParity p K s t =
  match asio_parity p with
  | Some text => Run (Ret text) s t
  | None => Run (Raise (IllegalArgumentException "Not supported parity type")) s t
  end.
Proof. by destruct p. Qed.

(** Setting an option, and going on. *)
Lemma throwing_run {A} (op : asio Z) (rest : unit → prog asio (heap B) A) K h t :
  (throwing op ≫= rest) K h t =
  if truthy (K _ t op) then Run (Raise (AsioError (K _ t op))) h (Prelude.Event op (K _ t op) :: t)
  else rest tt K h (Prelude.Event op 0 :: t).
Proof.
  unfold throwing, mbind, prog_bind, perform. destruct (truthy (K _ t op)) eqn:E; [done|].
  apply truthy_false in E. by rewrite E.
Qed.

(** What was made of the options: all accepted, in order, or an exception after some. *)
Definition options_set (o : obj) rate b p sb f (t1 : trace asio) (r : run asio (heap B) unit) : Prop :=
  let set opt := Prelude.Event (set_option o opt) 0 in
  match out r with
  | Ret _ => ∃ text, asio_parity p = Some text ∧
      tr r = [set (flow_control (SerialImpl.toAsioFlowcontrol f)); set (stop_bits (SerialImpl.toAsioStopbits sb));
              set (parity text); set (character_size (SerialImpl.bits_value b)); set (baud_rate rate)] ++ t1
  | Raise _ => ∃ new, tr r = new ++ t1 ∧ Forall (is_option_of o) new
  | Stuck _ => False
  end.

(** One option: it is refused after the options [new], or the rest runs. *)
Lemma option_step o opt new rate b p sb f K h t1 (rest : unit → prog asio (heap B) unit) (Q : Prop) :
  let op := set_option o opt in
  let t := new ++ t1 in
  Forall (is_option_of o) new →
  (let r := rest tt K h (Prelude.Event op 0 :: t) in
   st r = h ∧ options_set o rate b p sb f t1 r ∧ (Q → (∀ t' opt', K _ t' (set_option o opt') = 0) → out r = Ret tt)) →
  let r := (throwing op ≫= rest) K h t in
  st r = h ∧ options_set o rate b p sb f t1 r ∧ (Q → (∀ t' opt', K _ t' (set_option o opt') = 0) → out r = Ret tt).
Proof.
  cbn zeta. intros Hnew Hrest. rewrite throwing_run. destruct (truthy (K _ _ _)) eqn:E; [|done].
  split; [done|]. split; [|by intros _ Hall; rewrite Hall in E].
  exists (Prelude.Event (set_option o opt) (K _ (new ++ t1) (set_option o opt)) :: new). split; [done|by constructor].
Qed.

Lemma set_options_run o rate b p sb f K (h : heap B) t1 :
  let r := SerialImpl.set_options o rate b p sb f K h t1 in
  st r = h ∧ options_set o rate b p sb f t1 r ∧
  (is_Some (asio_parity p) → (∀ t' opt, K _ t' (set_option o opt) = 0) → out r = Ret tt).
Proof.
  unfold SerialImpl.set_options. cbn zeta.
  apply (option_step o _ []); [done|]. apply (option_step o _ [_]); [by repeat constructor|].
  rewrite bind_run, toAsioParity_run. destruct (asio_parity p) as [text|] eqn:Ep.
  2: { split; [done|]. split; [|by intros [? ?]]. eexists [_; _]. split; [done|by repeat constructor]. }
  apply (option_step o _ [_; _]); [by repeat constructor|].
  apply (option_step o _ [_; _; _]); [by repeat constructor|].
  unfold throwing, mbind, prog_bind, perform. destruct (truthy (K _ _ _)) eqn:E.
  - split; [done|]. split; [|by intros _ Hall; rewrite Hall in E].
    eexists [_; _; _; _; _]. split; [done|by repeat constructor].
  - apply truthy_false in E. split; [done|]. split; [|done]. exists text. split; [done|]. cbn in E |- *. by rewrite E.
Qed.

Lemma getIOService_create (ctx : obj) K (h : heap B) t :
  EventLoop.getIOService (EventLoop.create ctx) K h t = Run (Ret ctx) h t.
Proof. done. Qed.

(** C39.  Opening a serial channel.  When Asio can not open the device its error is raised and
    nothing else is called.  Otherwise the constructor returns only when the rate, the size,
    the parity, the stop bits and the flow control were all accepted, in this order; every
    other way out raises an exception after closing the device as the last call, with only
    options set in between.  And it does return when the parity is one that Asio has and the
    device accepts every option. *)
Theorem serial_channel_open (ctx self : obj) (file : P) rate b p sb f (K : world asio) (h : heap B) (t : trace asio) :
  let open_op := open_serial (c_str (path_toString file)) in
  let a := K _ t open_op in
  let o := a.2 in
  let t1 := Prelude.Event open_op a :: t in
  let opened := Channel_new self (SerialImpl.MkImpl o) in
  let set opt := Prelude.Event (set_option o opt) 0 in
  let r := SerialChannel.create (EventLoop.create ctx) self file rate b p sb f K h t in
  if truthy a.1 then r = Run (Raise (AsioError a.1)) h t1
  else
    st r = h ∧
    match out r with
    | Ret c => c = opened ∧ ∃ text, asio_parity p = Some text ∧
        tr r = [set (flow_control (SerialImpl.toAsioFlowcontrol f)); set (stop_bits (SerialImpl.toAsioStopbits sb));
                set (parity text); set (character_size (SerialImpl.bits_value b)); set (baud_rate rate)] ++ t1
    | Raise _ => ∃ ans new, tr r = Prelude.Event (Asio.close o) ans :: new ++ t1 ∧ Forall (is_option_of o) new
    | Stuck _ => False
    end ∧
    (is_Some (asio_parity p) → (∀ t' opt, K _ t' (set_option o opt) = 0) → out r = Ret opened).
Proof.
  cbn zeta. unfold SerialChannel.create, SerialImpl.create.
  rewrite bind_run, getIOService_create, bind_assoc, bind_perform. set (a := K _ t _). destruct (truthy a.1); [done|].
  set (t1 := Prelude.Event _ a :: t). rewrite bind_assoc, bind_run. unfold unwind.
  destruct (set_options_run a.2 rate b p sb f K h t1) as (Hst & Hset & Hall).
  destruct (SerialImpl.set_options a.2 rate b p sb f K h t1) as [[[]|e|u] h' t']; cbn in *; subst.
  - split_and!; done.
  - destruct Hset as (new & -> & Hnew). split; [done|]. split; [by do 2 eexists|].
    intros Hp Hk. by specialize (Hall Hp Hk).
  - done.
Qed.

End SerialOpen.
