(* ===== verification/StreamSockets.v ===== *)
(** * Stream sockets

    include/cadence/async/streamsocket.hpp, src/async/streamsocket.cpp, tcpsocket.cpp,
    streamdomainsocket.cpp, streamsocket_impl.hpp, asio_helper_tcp.hpp and
    asio_helper_local.hpp. *)
From stdpp Require Import gmap.
From S2P Require Import Prelude Solace IPAddress Asio.

(** ** Endpoints *)

(** [fromAsioEndpoint] of an IP endpoint; [junk] is what the memory of the address held. *)
Definition fromAsioIP (junk : list Z) (addr : asio_address) (port : Z) : IPEndpoint :=
  MkEndpoint port match addr with
    | address_v4 bytes => IPAddress_bytes4 bytes junk
    | address_v6 bytes => IPAddress_bytes16 bytes
    end.

Definition toAsioIPAddress (addr : IPAddress) : asio_address :=
  if isV4 addr then address_v4 (getBytes_v4 addr) else address_v6 (getBytes_v6 addr).

(** [toAsioTCPEndpoint], [toAsioUDPEndpoint]. *)
Definition toAsioEndpoint (addr : IPEndpoint) : asio_endpoint :=
  ip_endpoint (toAsioIPAddress (getAddress addr)) (getPort addr).

(** [toAsioIPEndpoint]: the endpoint, and the error code. *)
Definition toAsioIPEndpoint (e : endian) (addr : NetworkEndpoint) : asio_endpoint * Z :=
  match addr with
  | NE_IP arg => (toAsioEndpoint arg, 0)
  | NE_Unix _ => (toAsioEndpoint (MkEndpoint 0 (any e [])), EAFNOSUPPORT)
  end.

(** [sizeof(sockaddr_un::sun_path)]. *)
Definition sun_path_size : nat := 108.

(** [toAsioLocalEndpoint]: the name is cut at the size of the array, and a NUL is written after
    what was copied. *)
Definition toAsioLocalEndpoint {S} (addr : NetworkEndpoint) : prog asio S (asio_endpoint * Z) :=
  match addr with
  | NE_Unix arg =>
      let addrNameView := UnixEndpoint_toString arg in
      let totalSize := Nat.min (String.length addrNameView) sun_path_size in
      if (sun_path_size <=? totalSize)%nat then stuck OutOfBounds
      else mret (local_endpoint (c_str (String.substring 0 totalSize addrNameView)), 0)
  | NE_IP _ => mret (local_endpoint "", EAFNOSUPPORT)
  end.

Definition fromAsioLocal (path : string) : NetworkEndpoint := NE_Unix (MkUnix path).

(** ** The interface of the implementations *)

(** [StreamSocket::StreamSocketImpl]. *)
Class StreamSocketImpl (V B I : Type) `{MemoryView V, !ByteStream B V} := {
  impl_asyncRead : I → nat → Z → prog asio (heap B) nat;
  impl_asyncWrite : I → nat → Z → prog asio (heap B) nat;
  impl_read : I → nat → Z → prog asio (heap B) (Result unit);
  impl_write : I → nat → Z → prog asio (heap B) (Result unit);
  impl_cancel : I → prog asio (heap B) unit;
  impl_close : I → prog asio (heap B) unit;
  impl_isOpen : I → prog asio (heap B) bool;
  impl_isClosed : I → prog asio (heap B) bool;
  impl_getLocalEndpoint : I → prog asio (heap B) NetworkEndpoint;
  impl_getRemoteEndpoint : I → prog asio (heap B) NetworkEndpoint;
  impl_shutdown : I → prog asio (heap B) unit;
  impl_asyncConnect : I → NetworkEndpoint → prog asio (heap B) nat;
  impl_connect : I → NetworkEndpoint → prog asio (heap B) (Result unit) }.

(** ** TCP *)
Module TcpSocketImpl.
Section TcpSocketImpl.
Context {V B : Type} `{MemoryView V} `{!ByteStream B V} (e : endian) (junk : list Z).

Record TcpSocketImpl := MkTcp { _socket : obj }.

Definition asyncRead (i : TcpSocketImpl) (dest : nat) (n : Z) : prog asio (heap B) nat :=
  async_transfer (H_transfer "asyncRead") (_socket i) async_read dest n.
Definition asyncWrite (i : TcpSocketImpl) (src : nat) (n : Z) : prog asio (heap B) nat :=
  async_transfer (H_transfer "asyncWrite") (_socket i) async_write src n.
Definition read (i : TcpSocketImpl) (dest : nat) (n : Z) : prog asio (heap B) (Result unit) :=
  sync_transfer_advance (sync_read (_socket i)) "read" dest n.
Definition write (i : TcpSocketImpl) (src : nat) (n : Z) : prog asio (heap B) (Result unit) :=
  sync_transfer_advance (sync_write (_socket i)) "write" src n.
Definition cancel (i : TcpSocketImpl) : prog asio (heap B) unit := throwing (Asio.cancel (_socket i)).
Definition close (i : TcpSocketImpl) : prog asio (heap B) unit := throwing (Asio.close (_socket i)).
Definition isOpen (i : TcpSocketImpl) : prog asio (heap B) bool := perform (is_open (_socket i)).
Definition isClosed (i : TcpSocketImpl) : prog asio (heap B) bool :=
  o ← perform (is_open (_socket i)); mret (negb o).
Definition getLocalEndpoint (i : TcpSocketImpl) : prog asio (heap B) NetworkEndpoint :=
  a ← throwing_with (ip_local_endpoint (_socket i)); mret (NE_IP (fromAsioIP junk a.1 a.2)).
Definition getRemoteEndpoint (i : TcpSocketImpl) : prog asio (heap B) NetworkEndpoint :=
  a ← throwing_with (ip_remote_endpoint (_socket i)); mret (NE_IP (fromAsioIP junk a.1 a.2)).
Definition shutdown (i : TcpSocketImpl) : prog asio (heap B) unit := throwing (shutdown_both (_socket i)).

Definition asyncConnect (i : TcpSocketImpl) (endpoint : NetworkEndpoint) : prog asio (heap B) nat :=
  pm ← new_promise;
  let '(asioEndpoint, ec) := toAsioIPEndpoint e endpoint in
  if truthy ec then _ ← setError pm (fromAsioError ec "asyncConnect: to ip endpoint"); mret pm
  else _ ← initiate (_socket i) (async_connect asioEndpoint) (H_done "asyncConnect" pm); mret pm.

Definition connect (i : TcpSocketImpl) (endpoint : NetworkEndpoint) : prog asio (heap B) (Result unit) :=
  let '(asioEndpoint, ec) := toAsioIPEndpoint e endpoint in
  if truthy ec then mret (Err (fromAsioError ec "connect: to ip endpoint"))
  else
    ec ← perform (Asio.connect (_socket i) asioEndpoint);
    if truthy ec then mret (Err (fromAsioError ec "connect")) else mret (Ok tt).

#[export] Instance tcp_impl : StreamSocketImpl V B TcpSocketImpl := {|
  impl_asyncRead := asyncRead; impl_asyncWrite := asyncWrite; impl_read := read; impl_write := write;
  impl_cancel := cancel; impl_close := close; impl_isOpen := isOpen; impl_isClosed := isClosed;
  impl_getLocalEndpoint := getLocalEndpoint; impl_getRemoteEndpoint := getRemoteEndpoint;
  impl_shutdown := shutdown; impl_asyncConnect := asyncConnect; impl_connect := connect |}.

End TcpSocketImpl.
End TcpSocketImpl.

(** ** Unix domain *)
Module StreamDomainSocketImpl.
Section StreamDomainSocketImpl.
Context {V B : Type} `{MemoryView V} `{!ByteStream B V}.

Record StreamDomainSocketImpl := MkUnixStream { _socket : obj }.

(** The handlers of these two advance the buffer before they look at the error. *)
Definition asyncRead (i : StreamDomainSocketImpl) (dest : nat) (n : Z) : prog asio (heap B) nat :=
  async_transfer (H_transfer_always "asyncRead") (_socket i) async_read dest n.
Definition asyncWrite (i : StreamDomainSocketImpl) (src : nat) (n : Z) : prog asio (heap B) nat :=
  async_transfer (H_transfer_always "asyncWrite") (_socket i) async_write src n.
Definition read (i : StreamDomainSocketImpl) (dest : nat) (n : Z) : prog asio (heap B) (Result unit) :=
  sync_transfer (sync_read (_socket i)) "read" dest n.
Definition write (i : StreamDomainSocketImpl) (src : nat) (n : Z) : prog asio (heap B) (Result unit) :=
  sync_transfer (sync_write (_socket i)) "write" src n.
Definition cancel (i : StreamDomainSocketImpl) : prog asio (heap B) unit := throwing (Asio.cancel (_socket i)).
Definition close (i : StreamDomainSocketImpl) : prog asio (heap B) unit := throwing (Asio.close (_socket i)).
Definition isOpen (i : StreamDomainSocketImpl) : prog asio (heap B) bool := perform (is_open (_socket i)).
Definition isClosed (i : StreamDomainSocketImpl) : prog asio (heap B) bool :=
  o ← perform (is_open (_socket i)); mret (negb o).
Definition getLocalEndpoint (i : StreamDomainSocketImpl) : prog asio (heap B) NetworkEndpoint :=
  p ← throwing_with (path_local_endpoint (_socket i)); mret (fromAsioLocal p).
Definition getRemoteEndpoint (i : StreamDomainSocketImpl) : prog asio (heap B) NetworkEndpoint :=
  p ← throwing_with (path_remote_endpoint (_socket i)); mret (fromAsioLocal p).
Definition shutdown (i : StreamDomainSocketImpl) : prog asio (heap B) unit := throwing (shutdown_both (_socket i)).

Definition asyncConnect (i : StreamDomainSocketImpl) (endpoint : NetworkEndpoint) : prog asio (heap B) nat :=
  pm ← new_promise;
  r ← toAsioLocalEndpoint endpoint;
  if truthy r.2 then _ ← setError pm (fromAsioError r.2 "asyncConnect: local-endpoint"); mret pm
  else _ ← initiate (_socket i) (async_connect r.1) (H_done "asyncConnect" pm); mret pm.

Definition connect (i : StreamDomainSocketImpl) (endpoint : NetworkEndpoint) : prog asio (heap B) (Result unit) :=
  r ← toAsioLocalEndpoint endpoint;
  if truthy r.2 then mret (Err (fromAsioError r.2 "connect: to-local-endpoint"))
  else
    ec ← perform (Asio.connect (_socket i) r.1);
    if truthy ec then mret (Err (fromAsioError ec "connect")) else mret (Ok tt).

#[export] Instance unix_impl : StreamSocketImpl V B StreamDomainSocketImpl := {|
  impl_asyncRead := asyncRead; impl_asyncWrite := asyncWrite; impl_read := read; impl_write := write;
  impl_cancel := cancel; impl_close := close; impl_isOpen := isOpen; impl_isClosed := isClosed;
  impl_getLocalEndpoint := getLocalEndpoint; impl_getRemoteEndpoint := getRemoteEndpoint;
  impl_shutdown := shutdown; impl_asyncConnect := asyncConnect; impl_connect := connect |}.

End StreamDomainSocketImpl.
End StreamDomainSocketImpl.

(** ** The facade *)
Module Facade.
Section Facade.
Context {V B I : Type} `{StreamSocketImpl V B I}.

Definition StreamSocket_new (ioContext : obj) (impl : I) : Channel I := Channel_new ioContext impl.
Definition asyncRead (s : Channel I) (dest : nat) (n : Z) := forward s (λ i, impl_asyncRead i dest n).
Definition asyncWrite (s : Channel I) (src : nat) (n : Z) := forward s (λ i, impl_asyncWrite i src n).
Definition read (s : Channel I) (dest : nat) (n : Z) := forward s (λ i, impl_read i dest n).
Definition write (s : Channel I) (src : nat) (n : Z) := forward s (λ i, impl_write i src n).
Definition cancel (s : Channel I) := forward s impl_cancel.
Definition close (s : Channel I) := forward s impl_close.
Definition isOpen (s : Channel I) := forward s impl_isOpen.
Definition isClosed (s : Channel I) := forward s impl_isClosed.
Definition getLocalEndpoint (s : Channel I) := forward s impl_getLocalEndpoint.
Definition getRemoteEndpoint (s : Channel I) := forward s impl_getRemoteEndpoint.
Definition shutdown (s : Channel I) := forward s impl_shutdown.
Definition asyncConnect (s : Channel I) (ep : NetworkEndpoint) := forward s (λ i, impl_asyncConnect i ep).
Definition connect (s : Channel I) (ep : NetworkEndpoint) := forward s (λ i, impl_connect i ep).

(** The defaulted move constructor, and [swap]. *)
Definition move : Channel I → Channel I * Channel I := Channel_move.
Definition swap : Channel I → Channel I → Channel I * Channel I := derived_swap.

End Facade.
End Facade.

(** [createTCPSocket], [createUnixSocket]: a fresh socket, or one that was accepted. *)
Definition createTCPSocket {B} (loop : obj) : prog asio (heap B) StreamSocket :=
  o ← perform (new_object K_tcp_socket); mret (MkStreamSocket loop (Some (K_tcp_socket, o))).
Definition createTCPSocket_from (loop socket : obj) : StreamSocket :=
  MkStreamSocket loop (Some (K_tcp_socket, socket)).
Definition createUnixSocket {B} (loop : obj) : prog asio (heap B) StreamSocket :=
  o ← perform (new_object K_local_stream_socket); mret (MkStreamSocket loop (Some (K_local_stream_socket, o))).
Definition createUnixSocket_from (loop socket : obj) : StreamSocket :=
  MkStreamSocket loop (Some (K_local_stream_socket, socket)).

(** [~StreamSocket()]: the implementation goes, and Asio's socket with it, which closes itself and
    ignores errors. *)
Definition destroy_channel {S} (c : StreamSocket) : prog asio S unit :=
  match ss_pimpl c with
  | Some i => _ ← perform (Asio.close i.2); mret tt
  | None => mret tt
  end.

(** ** Properties *)

(** Endpoints go to Asio and come back: an IP endpoint keeps its port and an equal address,
    whatever the memory of the new address held; an endpoint of the other family is refused
    by TCP and by Unix sockets with "address family not supported". *)
Lemma endpoint_roundtrip {S} en junk p u (K : world asio) (s : S) (t : trace asio) :
  valid (ipAddress p) →
  (∃ addr, toAsioIPEndpoint en (NE_IP p) = (ip_endpoint addr (port p), 0) ∧
     port (fromAsioIP junk addr (port p)) = port p ∧
     ipAddress (fromAsioIP junk addr (port p)) ≡ ipAddress p) ∧
  (toAsioIPEndpoint en (NE_Unix u)).2 = EAFNOSUPPORT ∧
  toAsioLocalEndpoint (NE_IP p) K s t = Run (Ret (local_endpoint "", EAFNOSUPPORT)) s t.
Proof.
  intros Hv. split; [|split; reflexivity].
  exists (toAsioIPAddress (ipAddress p)). split; [reflexivity|]. split; [reflexivity|].
  pose proof (from_bytes (ipAddress p) junk Hv) as Hb. unfold toAsioIPAddress. by destruct (isV4 (ipAddress p)).
Qed.
