(* ===== verification/Datagrams.v ===== *)
(** * Datagram sockets

    include/cadence/async/udpsocket.hpp, datagramdomainsocket.hpp and src/async/udpsocket.cpp,
    datagramdomainsocket.cpp. *)
From stdpp Require Import gmap.
From S2P Require Import Prelude Solace IPAddress Asio AsyncObjects StreamSockets.

(** ** UDP *)
Module UdpImpl.
Section UdpImpl.
Context {V B : Type} `{MemoryView V} `{!ByteStream B V} (junk : list Z).

(** [UdpImpl]: the socket; the endpoint [pe] that receives share is in the heap, under the
    socket. *)
Record UdpImpl := MkUdp { _socket : obj }.

(** The constructors: [open(udp::v4())], or bound to a port. *)
Definition create : prog asio (heap B) UdpImpl :=
  o ← perform (new_object K_udp_socket);
  _ ← throwing (Asio.open o proto_v4);
  mret (MkUdp o).

Definition create_port (port : Z) : prog asio (heap B) UdpImpl :=
  o ← throwing_with (open_object K_udp_socket (ip_endpoint (address_v4 [0; 0; 0; 0]) port));
  mret (MkUdp o).

Definition asyncRead (i : UdpImpl) (dest : nat) (n : Z) : prog asio (heap B) nat :=
  async_transfer (H_transfer "asyncRead") (_socket i) async_receive dest n.
Definition asyncReadFrom (i : UdpImpl) (dest : nat) (n : Z) : prog asio (heap B) nat :=
  async_transfer (H_read_from (_socket i)) (_socket i)
    (λ a s, async_receive_from a s (member_pe (_socket i))) dest n.
Definition asyncWrite (i : UdpImpl) (src : nat) (n : Z) : prog asio (heap B) nat :=
  async_transfer (H_transfer "asyncWrite") (_socket i) async_send src n.
(** [asyncWriteTo]: a closed socket is opened first. *)
Definition send_to (i : UdpImpl) (pm : nat) (destEndpoint : asio_endpoint) (src : nat) (n : Z) :
    prog asio (heap B) nat :=
  buf ← asio_buffer src n;
  _ ← initiate (_socket i) (async_send_to buf.1 buf.2 destEndpoint)
        (H_transfer "asyncWriteTo:async_send_to" src pm);
  mret pm.
Definition asyncWriteTo (i : UdpImpl) (addr : IPEndpoint) (src : nat) (n : Z) : prog asio (heap B) nat :=
  pm ← new_promise;
  let destEndpoint := toAsioEndpoint addr in
  opened ← perform (is_open (_socket i));
  if negb opened then
    ec ← perform (Asio.open (_socket i) (protocol_of destEndpoint));
    if negb (truthy ec) then _ ← setError pm (fromAsioError ec "asyncWriteTo:open"); mret pm
    else send_to i pm destEndpoint src n
  else send_to i pm destEndpoint src n.
Definition read (i : UdpImpl) (dest : nat) (n : Z) : prog asio (heap B) (Result unit) :=
  sync_transfer_advance (receive (_socket i)) "read" dest n.
Definition write (i : UdpImpl) (src : nat) (n : Z) : prog asio (heap B) (Result unit) :=
  sync_transfer_advance (send (_socket i)) "write" src n.
Definition cancel (i : UdpImpl) : prog asio (heap B) unit :=
  throwing (Asio.cancel (_socket i)).
Definition close (i : UdpImpl) : prog asio (heap B) unit :=
  throwing (Asio.close (_socket i)).
Definition connect (i : UdpImpl) (addr : IPEndpoint) : prog asio (heap B) (Result unit) :=
  ec ← perform (Asio.connect (_socket i) (toAsioEndpoint addr));
  if truthy ec then mret (Err (fromAsioError ec "connect")) else mret (Ok tt).
Definition isOpen (i : UdpImpl) : prog asio (heap B) bool :=
  perform (is_open (_socket i)).
Definition open (i : UdpImpl) : prog asio (heap B) (Result unit) :=
  ec ← perform (Asio.open (_socket i) proto_v4);
  if truthy ec then mret (Err (fromAsioError ec "open")) else mret (Ok tt).
Definition getLocalEndpoint (i : UdpImpl) : prog asio (heap B) IPEndpoint :=
  a ← throwing_with (ip_local_endpoint (_socket i)); mret (fromAsioIP junk a.1 a.2).
Definition getRemoteEndpoint (i : UdpImpl) : prog asio (heap B) IPEndpoint :=
  a ← throwing_with (ip_remote_endpoint (_socket i)); mret (fromAsioIP junk a.1 a.2).
Definition shutdown (i : UdpImpl) : prog asio (heap B) unit :=
  throwing (shutdown_both (_socket i)).

End UdpImpl.
End UdpImpl.

Module UdpSocket.
Section UdpSocket.
Context {V B : Type} `{MemoryView V} `{!ByteStream B V} (junk : list Z).

Definition UdpSocket := Channel UdpImpl.UdpImpl.

Definition create (loop : EventLoop.EventLoop) (self : obj) : prog asio (heap B) UdpSocket :=
  _ ← EventLoop.getIOService loop; i ← UdpImpl.create; mret (Channel_new self i).
Definition create_port (loop : EventLoop.EventLoop) (self : obj) (port : Z) : prog asio (heap B) UdpSocket :=
  _ ← EventLoop.getIOService loop; i ← UdpImpl.create_port port; mret (Channel_new self i).

Definition asyncRead (u : UdpSocket) (dest : nat) (n : Z) : prog asio (heap B) nat :=
  forward u (λ i, UdpImpl.asyncRead i dest n).

Definition asyncReadFrom (u : UdpSocket) (dest : nat) (n : Z) : prog asio (heap B) nat :=
  forward u (λ i, UdpImpl.asyncReadFrom i dest n).

Definition asyncWrite (u : UdpSocket) (src : nat) (n : Z) : prog asio (heap B) nat :=
  forward u (λ i, UdpImpl.asyncWrite i src n).

Definition asyncWriteTo (u : UdpSocket) (addr : IPEndpoint) (src : nat) (n : Z) : prog asio (heap B) nat :=
  forward u (λ i, UdpImpl.asyncWriteTo i addr src n).

Definition read (u : UdpSocket) (dest : nat) (n : Z) : prog asio (heap B) (Result unit) :=
  forward u (λ i, UdpImpl.read i dest n).
Definition write (u : UdpSocket) (src : nat) (n : Z) : prog asio (heap B) (Result unit) :=
  forward u (λ i, UdpImpl.write i src n).
Definition cancel (u : UdpSocket) : prog asio (heap B) unit :=
  forward u (λ i, UdpImpl.cancel i).
Definition close (u : UdpSocket) : prog asio (heap B) unit :=
  forward u (λ i, UdpImpl.close i).

Definition connect (u : UdpSocket) (addr : IPEndpoint) : prog asio (heap B) (Result unit) :=
  forward u (λ i, UdpImpl.connect i addr).

Definition isOpen (u : UdpSocket) : prog asio (heap B) bool :=
  forward u (λ i, UdpImpl.isOpen i).
Definition isClosed (u : UdpSocket) : prog asio (heap B) bool :=
  forward u (λ i, o ← UdpImpl.isOpen i; mret (negb o)).

Definition open (u : UdpSocket) : prog asio (heap B) (Result unit) :=
  forward u (λ i, UdpImpl.open i).

Definition getLocalEndpoint (u : UdpSocket) : prog asio (heap B) IPEndpoint :=
  forward u (λ i, UdpImpl.getLocalEndpoint junk i).
Definition getRemoteEndpoint (u : UdpSocket) : prog asio (heap B) IPEndpoint :=
  forward u (λ i, UdpImpl.getRemoteEndpoint junk i).
Definition shutdown (u : UdpSocket) : prog asio (heap B) unit :=
  forward u (λ i, UdpImpl.shutdown i).
Definition move : UdpSocket → UdpSocket * UdpSocket := Channel_move.
Definition swap : UdpSocket → UdpSocket → UdpSocket * UdpSocket := derived_swap.

End UdpSocket.
End UdpSocket.

(** ** Unix domain datagrams *)

(** [toAsioLocalDatagramEndpoint]: the NUL is written over the last byte that was copied; of an
    empty name, before the array. *)
Definition toAsioLocalDatagramEndpoint {S} (addr : UnixEndpoint) : prog asio S asio_endpoint :=
  let addrNameView := UnixEndpoint_toString addr in
  let totalSize := Nat.min (String.length addrNameView) sun_path_size in
  match totalSize with
  | O => stuck OutOfBounds
  | S last => mret (local_endpoint (c_str (String.substring 0 last addrNameView)))
  end.

Module SocketImpl.
Section SocketImpl.
Context {V B : Type} `{MemoryView V} `{!ByteStream B V}.

Record SocketImpl := MkDgram { _socket : obj }.

Definition create : prog asio (heap B) SocketImpl :=
  o ← perform (new_object K_local_datagram_socket); mret (MkDgram o).

Definition create_bound (endpoint : UnixEndpoint) : prog asio (heap B) SocketImpl :=
  ep ← toAsioLocalDatagramEndpoint endpoint;
  o ← throwing_with (open_object K_local_datagram_socket ep);
  mret (MkDgram o).

Definition asyncConnect (i : SocketImpl) (peer : UnixEndpoint) : prog asio (heap B) nat :=
  pm ← new_promise;
  endpoint ← toAsioLocalDatagramEndpoint peer;
  _ ← initiate (_socket i) (async_connect endpoint) (H_done "asyncConnect" pm);
  mret pm.
Definition asyncRead (i : SocketImpl) (dest : nat) (n : Z) : prog asio (heap B) nat :=
  async_transfer (H_transfer "asynRead") (_socket i) async_receive dest n.
(** [destination] is a local variable, and where Asio is to write the sender's address. *)
Definition asyncReadFrom (i : SocketImpl) (dest : nat) (n : Z) (endpoint : UnixEndpoint) : prog asio (heap B) nat :=
  pm ← new_promise;
  destination ← toAsioLocalDatagramEndpoint endpoint;
  buf ← asio_buffer dest n;
  _ ← initiate (_socket i) (async_receive_from buf.1 buf.2 local_variable) (H_transfer_from "asyncReadFrom" dest pm);
  mret pm.
Definition asyncWrite (i : SocketImpl) (src : nat) (n : Z) : prog asio (heap B) nat :=
  async_transfer (H_transfer "asyncWrite") (_socket i) async_send src n.
Definition asyncWriteTo (i : SocketImpl) (src : nat) (n : Z) (endpoint : UnixEndpoint) : prog asio (heap B) nat :=
  pm ← new_promise;
  destination ← toAsioLocalDatagramEndpoint endpoint;
  buf ← asio_buffer src n;
  _ ← initiate (_socket i) (async_send_to buf.1 buf.2 destination) (H_transfer "asyncWriteTo" src pm);
  mret pm.
Definition connect (i : SocketImpl) (endpoint : UnixEndpoint) : prog asio (heap B) (Result unit) :=
  destination ← toAsioLocalDatagramEndpoint endpoint;
  ec ← perform (Asio.connect (_socket i) destination);
  if truthy ec then mret (Err (fromAsioError ec "connect")) else mret (Ok tt).
Definition read (i : SocketImpl) (dest : nat) (n : Z) : prog asio (heap B) (Result unit) :=
  sync_transfer_advance (receive (_socket i)) "read" dest n.
Definition write (i : SocketImpl) (src : nat) (n : Z) : prog asio (heap B) (Result unit) :=
  sync_transfer_advance (send (_socket i)) "write" src n.
Definition cancel (i : SocketImpl) : prog asio (heap B) unit :=
  throwing (Asio.cancel (_socket i)).
Definition close (i : SocketImpl) : prog asio (heap B) unit :=
  throwing (Asio.close (_socket i)).
Definition isOpen (i : SocketImpl) : prog asio (heap B) bool :=
  perform (is_open (_socket i)).
(** [makeString(data->sa_data, endpoint.size())]. *)
Definition getLocalEndpoint (i : SocketImpl) : prog asio (heap B) UnixEndpoint :=
  a ← throwing_with (data_local_endpoint (_socket i));
  mret (MkUnix (String.substring 0 (Z.to_nat a.2) a.1)).
Definition getRemoteEndpoint (i : SocketImpl) : prog asio (heap B) UnixEndpoint :=
  a ← throwing_with (data_remote_endpoint (_socket i));
  mret (MkUnix (String.substring 0 (Z.to_nat a.2) a.1)).
Definition shutdown (i : SocketImpl) : prog asio (heap B) unit :=
  throwing (shutdown_both (_socket i)).

End SocketImpl.
End SocketImpl.

Module DatagramDomainSocket.
Section DatagramDomainSocket.
Context {V B : Type} `{MemoryView V} `{!ByteStream B V}.

Definition DatagramDomainSocket := Channel SocketImpl.SocketImpl.

Definition create (loop : EventLoop.EventLoop) (self : obj) : prog asio (heap B) DatagramDomainSocket :=
  _ ← EventLoop.getIOService loop; i ← SocketImpl.create; mret (Channel_new self i).
Definition create_bound (loop : EventLoop.EventLoop) (self : obj) (endpoint : UnixEndpoint) :
    prog asio (heap B) DatagramDomainSocket :=
  _ ← EventLoop.getIOService loop; i ← SocketImpl.create_bound endpoint; mret (Channel_new self i).

Definition asyncConnect (d : DatagramDomainSocket) (peer : UnixEndpoint) : prog asio (heap B) nat :=
  forward d (λ i, SocketImpl.asyncConnect i peer).

Definition asyncRead (d : DatagramDomainSocket) (dest : nat) (n : Z) : prog asio (heap B) nat :=
  forward d (λ i, SocketImpl.asyncRead i dest n).

Definition asyncReadFrom (d : DatagramDomainSocket) (dest : nat) (n : Z) (endpoint : UnixEndpoint) : prog asio (heap B) nat :=
  forward d (λ i, SocketImpl.asyncReadFrom i dest n endpoint).

Definition asyncWrite (d : DatagramDomainSocket) (src : nat) (n : Z) : prog asio (heap B) nat :=
  forward d (λ i, SocketImpl.asyncWrite i src n).

Definition asyncWriteTo (d : DatagramDomainSocket) (src : nat) (n : Z) (endpoint : UnixEndpoint) : prog asio (heap B) nat :=
  forward d (λ i, SocketImpl.asyncWriteTo i src n endpoint).

(** The facade's [connect] returns nothing. *)
Definition connect (d : DatagramDomainSocket) (endpoint : UnixEndpoint) : prog asio (heap B) unit :=
  forward d (λ i, _ ← SocketImpl.connect i endpoint; mret tt).

Definition read (d : DatagramDomainSocket) (dest : nat) (n : Z) : prog asio (heap B) (Result unit) :=
  forward d (λ i, SocketImpl.read i dest n).
Definition write (d : DatagramDomainSocket) (src : nat) (n : Z) : prog asio (heap B) (Result unit) :=
  forward d (λ i, SocketImpl.write i src n).
Definition cancel (d : DatagramDomainSocket) : prog asio (heap B) unit :=
  forward d (λ i, SocketImpl.cancel i).
Definition close (d : DatagramDomainSocket) : prog asio (heap B) unit :=
  forward d (λ i, SocketImpl.close i).
Definition isOpen (d : DatagramDomainSocket) : prog asio (heap B) bool :=
  forward d (λ i, SocketImpl.isOpen i).
Definition isClosed (d : DatagramDomainSocket) : prog asio (heap B) bool :=
  forward d (λ i, o ← SocketImpl.isOpen i; mret (negb o)).

Definition getLocalEndpoint (d : DatagramDomainSocket) : prog asio (heap B) UnixEndpoint :=
  forward d (λ i, SocketImpl.getLocalEndpoint i).
Definition getRemoteEndpoint (d : DatagramDomainSocket) : prog asio (heap B) UnixEndpoint :=
  forward d (λ i, SocketImpl.getRemoteEndpoint i).
Definition shutdown (d : DatagramDomainSocket) : prog asio (heap B) unit :=
  forward d (λ i, SocketImpl.shutdown i).
Definition move : DatagramDomainSocket → DatagramDomainSocket * DatagramDomainSocket := Channel_move.
Definition swap : DatagramDomainSocket → DatagramDomainSocket → DatagramDomainSocket * DatagramDomainSocket := derived_swap.

End DatagramDomainSocket.
End DatagramDomainSocket.

(** ** Properties *)

Lemma c_str_substring n s : c_str s = s → c_str (String.substring 0 n s) = String.substring 0 n s.
Proof.
  revert n. induction s as [|c s IH]; intros [|n] Hs; cbn in *; try done.
  destruct (Ascii.eqb c Ascii.zero); [done|]. injection Hs as Hs. by rewrite IH.
Qed.

Lemma substring_all s : String.substring 0 (String.length s) s = s.
Proof. induction s as [|c s IH]; cbn; [done|]. by rewrite IH. Qed.

(** C38.  The names of Unix sockets.  A name without NULs and shorter than the 108 bytes of
    [sun_path] reaches a stream socket as it is, and a longer one makes the conversion write
    outside the array; a datagram socket is given the name without its last character (and
    108 characters are read of a longer one), and an empty name makes the conversion write
    before the array. *)
Theorem unix_names {S} name (K : world asio) (s : S) (t : trace asio) :
  c_str name = name →
  let len := String.length name in
  toAsioLocalEndpoint (NE_Unix (MkUnix name)) K s t =
    (if (len <? 108)%nat then Run (Ret (local_endpoint name, 0)) s t else Run (Stuck OutOfBounds) s t) ∧
  toAsioLocalDatagramEndpoint (MkUnix name) K s t =
    (if (len =? 0)%nat then Run (Stuck OutOfBounds) s t
     else Run (Ret (local_endpoint (String.substring 0 (Nat.min len 108 - 1) name))) s t) ∧
  fromAsioLocal name = NE_Unix (MkUnix name).
Proof.
  intros Hn. cbn zeta. split_and!; [| |done].
  - unfold toAsioLocalEndpoint, UnixEndpoint_toString, sun_path_size. cbn [unix_str].
    destruct (Nat.ltb_spec (String.length name) 108).
    + rewrite Nat.min_l by lia. destruct (Nat.leb_spec 108 (String.length name)); [lia|].
      by rewrite substring_all, Hn.
    + rewrite Nat.min_r by lia. done.
  - unfold toAsioLocalDatagramEndpoint, UnixEndpoint_toString, sun_path_size. cbn [unix_str].
    destruct (Nat.eqb_spec (String.length name) 0) as [->|Hne]; [done|].
    destruct (Nat.min (String.length name) 108) as [|last] eqn:E; [lia|].
    by rewrite c_str_substring, Nat.sub_1_r.
Qed.

Lemma unix_names_witness :
  out (toAsioLocalDatagramEndpoint (MkUnix "/tmp/x") zero_asio tt []) = Ret (local_endpoint "/tmp/").
Proof. destruct (unix_names "/tmp/x" zero_asio tt [] ltac:(done)) as (_ & -> & _). done. Defined.

Section WriteTo.
Context {V B : Type} `{MemoryView V} `{!ByteStream B V}.

(** [UdpSocket::asyncWriteTo] on a closed socket takes the wrong branch after opening it:
    when the open succeeds the future fails at once, with the code of success, and nothing
    is sent; when it fails the datagram is handed to Asio on the closed socket. *)
Lemma udp_write_to_closed ctx i addr src n b (K : world asio) (h : heap B) (t : trace asio) :
  K _ t (is_open (UdpImpl._socket i)) = false → buffers h !! src = Some b →
  let sock := UdpImpl._socket i in
  let dest := toAsioEndpoint addr in
  let open_op := Asio.open sock (protocol_of dest) in
  let t1 := Prelude.Event (is_open sock) false :: t in
  let ec := K _ t1 open_op in
  let t2 := Prelude.Event open_op ec :: t1 in
  let send_op := start sock (async_send_to (dataAddress (slice (viewRemaining b) 0 n)) n dest) (S (fresh h)) in
  let r := UdpSocket.asyncWriteTo (Channel_new ctx i) addr src n K h t in
  out r = Ret (fresh h) ∧
  (ec = 0 → tr r = t2 ∧ waiting (st r) = waiting h ∧
     promises (st r) !! fresh h = Some (HasError (MkError "pasy" 0 "asyncWriteTo:open"))) ∧
  (ec ≠ 0 → tr r = Prelude.Event send_op (K _ t2 send_op) :: t2 ∧
     waiting (st r) !! S (fresh h) = Some (H_transfer "asyncWriteTo:async_send_to" src (fresh h)) ∧
     promises (st r) !! fresh h = Some Pending).
Proof.
  intros Hopen Hb. cbn zeta. unfold UdpSocket.asyncWriteTo, forward, deref, Channel_new. cbn [_pimpl].
  unfold UdpImpl.asyncWriteTo, UdpImpl.send_to, asio_buffer, buffer_at, initiate, new_promise, allocate, setError.
  unfold mbind, prog_bind, get, modify, mret, prog_ret, perform. cbn -[lookup insert truthy]. rewrite Hopen.
  cbn -[lookup insert truthy]. set (ec := K _ (_ :: t) (Asio.open _ _)). unfold truthy.
  destruct (Z.eqb_spec ec 0) as [E|E]; cbn -[lookup insert]; rewrite ?Hb; cbn -[lookup insert];
    rewrite ?lookup_insert_eq; split_and!; try done; intros; try done.
  rewrite E. by split_and!.
Qed.

End WriteTo.

#[local] Existing Instances Concrete.view_ops Concrete.stream_ops.
