(* ===== verification/Acceptors.v ===== *)
(** * Acceptors

    include/cadence/async/acceptor.hpp and src/async/tcpacceptor.cpp,
    streamdomainacceptor.cpp, acceptor.cpp. *)
From stdpp Require Import gmap.
From S2P Require Import Prelude Solace IPAddress Asio StreamSockets.

(** [const int backlog = 16]. *)
Definition backlog : Z := 16.

(** A step of [open]: a call with an error code, and the tag of its error. *)
Definition or_error {B} (op : asio Z) (tag : string) (rest : prog asio (heap B) (Result unit)) :
    prog asio (heap B) (Result unit) :=
  ec ← perform op;
  if truthy ec then mret (Err (fromAsioError ec tag)) else rest.

Section Steps.
Context {B : Type}.

(** [bind], then [listen]. *)
Definition bind_and_listen (acceptor : obj) (e : asio_endpoint) : prog asio (heap B) (Result unit) :=
  or_error (bind acceptor e) "open:bind"
    (or_error (listen acceptor backlog) "open:listen" (mret (Ok tt))).

(** Opening the acceptor unless it is open. *)
Definition open_if_closed (acceptor : obj) (e : asio_endpoint) (rest : prog asio (heap B) (Result unit)) :
    prog asio (heap B) (Result unit) :=
  opened ← perform (is_open acceptor);
  if negb opened then or_error (Asio.open acceptor (protocol_of e)) "open" rest else rest.

End Steps.

(** ** TcpAcceptor *)
Module TcpAcceptor.
Section TcpAcceptor.
Context {B : Type} (en : endian) (junk : list Z).

Record TcpAcceptor := MkTcpAcceptor { _loop : obj; _acceptor : obj }.

Definition open (a : TcpAcceptor) (endpoint : NetworkEndpoint) : prog asio (heap B) (Result unit) :=
  let '(e, ec) := toAsioIPEndpoint en endpoint in
  if truthy ec then mret (Err (fromAsioError ec "open: to ip endpoint"))
  else
    open_if_closed (_acceptor a) e
      (or_error (set_option (_acceptor a) (reuse_address true)) "open: set_option"
         (bind_and_listen (_acceptor a) e)).

Definition isOpen (a : TcpAcceptor) : prog asio (heap B) bool := perform (is_open (_acceptor a)).
Definition close (a : TcpAcceptor) : prog asio (heap B) unit := throwing (Asio.close (_acceptor a)).
Definition isClosed (a : TcpAcceptor) : prog asio (heap B) bool :=
  opened ← perform (is_open (_acceptor a)); mret (negb opened).

Definition accept (a : TcpAcceptor) : prog asio (heap B) (Result StreamSocket) :=
  r ← perform (Asio.accept (_acceptor a));
  if truthy r.1 then mret (Err (fromAsioError r.1 "accept"))
  else mret (Ok (createTCPSocket_from (_loop a) r.2)).

Definition asyncAccept (a : TcpAcceptor) : prog asio (heap B) nat :=
  prom ← new_promise;
  _ ← initiate (_acceptor a) async_accept (H_accept K_tcp_acceptor (_loop a) prom);
  mret prom.

Definition nonBlocking (a : TcpAcceptor) : prog asio (heap B) bool := perform (non_blocking (_acceptor a)).
Definition set_nonBlocking (a : TcpAcceptor) (mode : bool) : prog asio (heap B) unit :=
  throwing (set_non_blocking (_acceptor a) mode).
Definition nativeNonBlocking (a : TcpAcceptor) : prog asio (heap B) bool := perform (native_non_blocking (_acceptor a)).
Definition set_nativeNonBlocking (a : TcpAcceptor) (mode : bool) : prog asio (heap B) unit :=
  throwing (set_native_non_blocking (_acceptor a) mode).
Definition cancel (a : TcpAcceptor) : prog asio (heap B) unit := throwing (Asio.cancel (_acceptor a)).

Definition getLocalEndpoint (a : TcpAcceptor) : prog asio (heap B) NetworkEndpoint :=
  r ← throwing_with (ip_local_endpoint (_acceptor a)); mret (NE_IP (fromAsioIP junk r.1 r.2)).

(** [createTCPAcceptor]. *)
Definition createTCPAcceptor (loop : obj) : prog asio (heap B) TcpAcceptor :=
  o ← perform (new_object K_tcp_acceptor); mret (MkTcpAcceptor loop o).

End TcpAcceptor.
End TcpAcceptor.

(** ** StremDomainAcceptor *)
Module StremDomainAcceptor.
Section StremDomainAcceptor.
Context {B : Type}.

Record StremDomainAcceptor := MkLocalAcceptor { _loop : obj; _acceptor : obj }.

(** The option is set before the acceptor is opened. *)
Definition open (a : StremDomainAcceptor) (endpoint : NetworkEndpoint) : prog asio (heap B) (Result unit) :=
  r ← toAsioLocalEndpoint endpoint;
  let '(e, ec) := r in
  if truthy ec then mret (Err (fromAsioError ec "open: to endpoint"))
  else
    or_error (set_option (_acceptor a) (reuse_address true)) "open:set_option"
      (open_if_closed (_acceptor a) e (bind_and_listen (_acceptor a) e)).

Definition isOpen (a : StremDomainAcceptor) : prog asio (heap B) bool := perform (is_open (_acceptor a)).
Definition close (a : StremDomainAcceptor) : prog asio (heap B) unit := throwing (Asio.close (_acceptor a)).
Definition isClosed (a : StremDomainAcceptor) : prog asio (heap B) bool :=
  opened ← perform (is_open (_acceptor a)); mret (negb opened).

Definition accept (a : StremDomainAcceptor) : prog asio (heap B) (Result StreamSocket) :=
  r ← perform (Asio.accept (_acceptor a));
  if truthy r.1 then mret (Err (fromAsioError r.1 "accept"))
  else mret (Ok (createUnixSocket_from (_loop a) r.2)).

Definition asyncAccept (a : StremDomainAcceptor) : prog asio (heap B) nat :=
  prom ← new_promise;
  _ ← initiate (_acceptor a) async_accept (H_accept K_local_acceptor (_loop a) prom);
  mret prom.

Definition nonBlocking (a : StremDomainAcceptor) : prog asio (heap B) bool := perform (non_blocking (_acceptor a)).
Definition set_nonBlocking (a : StremDomainAcceptor) (mode : bool) : prog asio (heap B) unit :=
  throwing (set_non_blocking (_acceptor a) mode).
Definition nativeNonBlocking (a : StremDomainAcceptor) : prog asio (heap B) bool := perform (native_non_blocking (_acceptor a)).
Definition set_nativeNonBlocking (a : StremDomainAcceptor) (mode : bool) : prog asio (heap B) unit :=
  throwing (set_native_non_blocking (_acceptor a) mode).
Definition cancel (a : StremDomainAcceptor) : prog asio (heap B) unit := throwing (Asio.cancel (_acceptor a)).

Definition getLocalEndpoint (a : StremDomainAcceptor) : prog asio (heap B) NetworkEndpoint :=
  p ← throwing_with (path_local_endpoint (_acceptor a)); mret (fromAsioLocal p).

(** [createUnixDomainAcceptor]. *)
Definition createUnixDomainAcceptor (loop : obj) : prog asio (heap B) StremDomainAcceptor :=
  o ← perform (new_object K_local_acceptor); mret (MkLocalAcceptor loop o).

End StremDomainAcceptor.
End StremDomainAcceptor.

(** ** Acceptor *)
Module Acceptor.
Section Acceptor.
Context {B : Type} `{!ErrorOps} (en : endian) (junk : list Z).

(** The two implementations of [Acceptor::AcceptorImpl]. *)
Inductive AcceptorImpl :=
  | Tcp (a : TcpAcceptor.TcpAcceptor)
  | Local (a : StremDomainAcceptor.StremDomainAcceptor).

Record Acceptor := MkAcceptor { _loop : obj; _pimpl : option AcceptorImpl }.

Definition create (ioContext : obj) : Acceptor := MkAcceptor ioContext None.

(** The virtual calls. *)
Definition dispatch {A} (i : AcceptorImpl) (tcp : TcpAcceptor.TcpAcceptor → A)
    (local : StremDomainAcceptor.StremDomainAcceptor → A) : A :=
  match i with Tcp a => tcp a | Local a => local a end.

(** The factory that the endpoint selects. *)
Definition create_impl (loop : obj) (endpoint : NetworkEndpoint) : prog asio (heap B) AcceptorImpl :=
  match endpoint with
  | NE_Unix _ => a ← StremDomainAcceptor.createUnixDomainAcceptor loop; mret (Local a)
  | NE_IP _ => a ← TcpAcceptor.createTCPAcceptor loop; mret (Tcp a)
  end.

(** [open] on [*this]: the result, and the object after the call. *)
Definition open (self : Acceptor) (endpoint : NetworkEndpoint) : prog asio (heap B) (Result unit * Acceptor) :=
  match _pimpl self with
  | Some _ => mret (Err (makeError_system ISCONN "Acceptor::open"), self)
  | None =>
      impl ← create_impl (_loop self) endpoint;
      r ← dispatch impl (λ a, TcpAcceptor.open en a endpoint) (λ a, StremDomainAcceptor.open a endpoint);
      mret (r, MkAcceptor (_loop self) (Some impl))
  end.

Definition on_impl {A} (self : Acceptor) (f : AcceptorImpl → prog asio (heap B) A) : prog asio (heap B) A :=
  impl ← deref (_pimpl self); f impl.

Definition nonBlocking (self : Acceptor) :=
  on_impl self (λ i, dispatch i TcpAcceptor.nonBlocking StremDomainAcceptor.nonBlocking).
Definition nativeNonBlocking (self : Acceptor) :=
  on_impl self (λ i, dispatch i TcpAcceptor.nativeNonBlocking StremDomainAcceptor.nativeNonBlocking).
Definition set_nativeNonBlocking (self : Acceptor) (mode : bool) :=
  on_impl self (λ i, dispatch i (λ a, TcpAcceptor.set_nativeNonBlocking a mode) (λ a, StremDomainAcceptor.set_nativeNonBlocking a mode)).
Definition cancel (self : Acceptor) :=
  on_impl self (λ i, dispatch i TcpAcceptor.cancel StremDomainAcceptor.cancel).
Definition close (self : Acceptor) :=
  on_impl self (λ i, dispatch i TcpAcceptor.close StremDomainAcceptor.close).
Definition isOpen (self : Acceptor) :=
  on_impl self (λ i, dispatch i TcpAcceptor.isOpen StremDomainAcceptor.isOpen).
Definition isClosed (self : Acceptor) :=
  on_impl self (λ i, dispatch i TcpAcceptor.isClosed StremDomainAcceptor.isClosed).
Definition getLocalEndpoint (self : Acceptor) :=
  on_impl self (λ i, dispatch i (TcpAcceptor.getLocalEndpoint junk) StremDomainAcceptor.getLocalEndpoint).
Definition accept (self : Acceptor) :=
  on_impl self (λ i, dispatch i TcpAcceptor.accept StremDomainAcceptor.accept).
Definition asyncAccept (self : Acceptor) :=
  on_impl self (λ i, dispatch i TcpAcceptor.asyncAccept StremDomainAcceptor.asyncAccept).

(** The defaulted move constructor: the new object, and what is left of [rhs]. *)
Definition move (rhs : Acceptor) : Acceptor * Acceptor :=
  (MkAcceptor (_loop rhs) (_pimpl rhs), MkAcceptor (_loop rhs) None).

(** [swap] exchanges the implementations, not the loops. *)
Definition swap (this rhs : Acceptor) : Acceptor * Acceptor :=
  (MkAcceptor (_loop this) (_pimpl rhs), MkAcceptor (_loop rhs) (_pimpl this)).

End Acceptor.
End Acceptor.

(** ** Properties *)

(** A sequence of calls with an error code, each with the tag of its error: they are made in
    order up to the first that fails. *)
Inductive ran (K : world asio) : trace asio → list (asio Z * string) → trace asio → Result unit → Prop :=
  | ran_nil t : ran K t [] t (Ok tt)
  | ran_fail t op tag rest :
      K _ t op ≠ 0 →
      ran K t ((op, tag) :: rest) (Prelude.Event op (K _ t op) :: t) (Err (MkError "pasy" (K _ t op) tag))
  | ran_next t op tag rest t' r :
      K _ t op = 0 → ran K (Prelude.Event op 0 :: t) rest t' r →
      ran K t ((op, tag) :: rest) t' r.

Section Open.
Context {B : Type} `{!ErrorOps} (en : endian) (junk : list Z).

(** [p] makes the calls [steps] in order, answers as they do and keeps the memory. *)
Definition runs (p : prog asio (heap B) (Result unit)) (steps : list (asio Z * string)) : Prop :=
  ∀ K h t, ∃ t' r, p K h t = Run (Ret r) h t' ∧ ran K t steps t' r.

Lemma runs_done : runs (mret (Ok tt)) [].
Proof. intros K h t. exists t, (Ok tt). split; [done|constructor]. Qed.

Lemma runs_or_error op tag rest steps : runs rest steps → runs (or_error op tag rest) ((op, tag) :: steps).
Proof.
  intros Hr K h t. unfold or_error. rewrite bind_perform. destruct (truthy (K _ t op)) eqn:E.
  - apply truthy_true in E. by do 2 eexists; split; [done|apply ran_fail].
  - apply truthy_false in E. rewrite E. destruct (Hr K h (Prelude.Event op 0 :: t)) as (t' & r & Hp & Hran).
    exists t', r. by split; [|apply ran_next].
Qed.

Lemma runs_bind_and_listen o e :
  runs (bind_and_listen o e) [(bind o e, "open:bind"%string); (listen o backlog, "open:listen"%string)].
Proof. by apply runs_or_error, runs_or_error, runs_done. Qed.

(** Opening unless open, as an error-coded sequence. *)
Lemma runs_open_if_closed o e rest steps (opened : bool) : runs rest steps →
  runs (if negb opened then or_error (open o (protocol_of e)) "open" rest else rest)
    ((if opened then [] else [(open o (protocol_of e), "open"%string)]) ++ steps).
Proof. intros Hr. destruct opened; cbn [negb app]; [done|by apply runs_or_error]. Qed.

(** The first [open]: the implementation that the endpoint selects is created and opened. *)
Lemma open_creates loop ep i r K (h h1 h' : heap B) t t1 t' :
  Acceptor.create_impl loop ep K h t = Run (Ret i) h1 t1 →
  Acceptor.dispatch i (λ a, TcpAcceptor.open en a ep) (λ a, StremDomainAcceptor.open a ep) K h1 t1 = Run (Ret r) h' t' →
  Acceptor.open en (Acceptor.create loop) ep K h t = Run (Ret (r, Acceptor.MkAcceptor loop (Some i))) h' t'.
Proof.
  intros Hc Ho. unfold Acceptor.open, Acceptor.create. cbn [Acceptor._pimpl Acceptor._loop].
  by rewrite bind_run, Hc, bind_run, Ho.
Qed.

(** C27.  [Acceptor::open] of an IP endpoint, on an acceptor that was not opened before: a TCP
    acceptor is created, asked whether it is open, and then opened (unless it is), given
    [SO_REUSEADDR], bound to the endpoint and made to listen with a backlog of 16, in this
    order; the first failure ends the sequence and is the answer. *)
Theorem tcp_open_calls (loop : obj) (p : IPEndpoint) (K : world asio) (h : heap B) (t : trace asio) :
  let o := K _ t (new_object K_tcp_acceptor) in
  let t1 := Prelude.Event (new_object K_tcp_acceptor) o :: t in
  let opened := K _ t1 (is_open o) in
  let e := toAsioEndpoint p in
  ∃ t' r,
    Acceptor.open en (Acceptor.create loop) (NE_IP p) K h t =
      Run (Ret (r, Acceptor.MkAcceptor loop (Some (Acceptor.Tcp (TcpAcceptor.MkTcpAcceptor loop o))))) h t' ∧
    ran K (Prelude.Event (is_open o) opened :: t1)
      ((if opened then [] else [(open o (protocol_of e), "open")]) ++
       [(set_option o (reuse_address true), "open: set_option"); (bind o e, "open:bind");
        (listen o 16, "open:listen")]) t' r.
Proof.
  cbn zeta. set (o := K _ t (new_object K_tcp_acceptor)). set (t1 := Prelude.Event _ o :: t).
  set (opened := K _ t1 (is_open o)). set (t2 := Prelude.Event (is_open o) opened :: t1).
  destruct (runs_open_if_closed o (toAsioEndpoint p) _ _ opened
    (runs_or_error (set_option o (reuse_address true)) "open: set_option" _ _ (runs_bind_and_listen o (toAsioEndpoint p)))
    K h t2) as (t' & r & Hp & Hran). exists t', r. split; [|done].
  eapply open_creates; [reflexivity|]. unfold Acceptor.dispatch, TcpAcceptor.open, toAsioIPEndpoint.
  cbn [TcpAcceptor._acceptor truthy negb Z.eqb]. unfold open_if_closed. rewrite bind_perform.
  fold o t1 opened t2. by rewrite Hp.
Qed.

Lemma local_endpoint_short {S} name (K : world asio) (s : S) (t : trace asio) :
  (String.length name < 108)%nat →
  toAsioLocalEndpoint (NE_Unix (MkUnix name)) K s t =
    Run (Ret (local_endpoint (c_str (String.substring 0 (String.length name) name)), 0)) s t.
Proof.
  intros Hlen. unfold toAsioLocalEndpoint, UnixEndpoint_toString, sun_path_size. cbn [unix_str].
  rewrite Nat.min_l by lia. by destruct (Nat.leb_spec 108 (String.length name)); [lia|].
Qed.

(** [Acceptor::open] of a Unix endpoint whose name fits [sun_path], on an acceptor that was
    not opened before.  [SO_REUSEADDR] is set on the acceptor that was just created, before
    it is opened: when that fails (as it does on a closed acceptor), the answer is that failure,
    and [open], [bind] and [listen] are never called.  Otherwise the acceptor is asked whether
    it is open, opened unless it is, bound and made to listen, in this order, up to the first
    failure, which is the answer. *)
Lemma local_open_calls (loop : obj) (name : string) (K : world asio) (h : heap B) (t : trace asio) :
  let o := K _ t (new_object K_local_acceptor) in
  let t1 := Prelude.Event (new_object K_local_acceptor) o :: t in
  let ec := K _ t1 (set_option o (reuse_address true)) in
  let t2 := Prelude.Event (set_option o (reuse_address true)) ec :: t1 in
  let opened := K _ t2 (is_open o) in
  let e := local_endpoint (c_str (String.substring 0 (String.length name) name)) in
  let self := Acceptor.MkAcceptor loop (Some (Acceptor.Local (StremDomainAcceptor.MkLocalAcceptor loop o))) in
  (String.length name < 108)%nat →
  ∃ t' r,
    Acceptor.open en (Acceptor.create loop) (NE_Unix (MkUnix name)) K h t = Run (Ret (r, self)) h t' ∧
    if truthy ec then t' = t2 ∧ r = Err (MkError "pasy" ec "open:set_option")
    else ran K (Prelude.Event (is_open o) opened :: t2)
           ((if opened then [] else [(open o (protocol_of e), "open")]) ++
            [(bind o e, "open:bind"); (listen o 16, "open:listen")]) t' r.
Proof.
  cbn zeta. intros Hlen. set (o := K _ t (new_object K_local_acceptor)). set (t1 := Prelude.Event _ o :: t).
  set (ec := K _ t1 (set_option o (reuse_address true))). set (t2 := Prelude.Event _ ec :: t1).
  set (opened := K _ t2 (is_open o)). set (t3 := Prelude.Event (is_open o) opened :: t2).
  set (e := local_endpoint _).
  destruct (runs_open_if_closed o e _ _ opened (runs_bind_and_listen o e) K h t3) as (t' & r & Hp & Hran).
  exists (if truthy ec then t2 else t'), (if truthy ec then Err (MkError "pasy" ec "open:set_option") else r).
  split; [|by destruct (truthy ec)].
  eapply open_creates; [reflexivity|]. fold o t1. unfold Acceptor.dispatch, StremDomainAcceptor.open.
  rewrite bind_run, local_endpoint_short by done. cbn [StremDomainAcceptor._acceptor truthy negb Z.eqb].
  fold e. unfold or_error at 1. rewrite bind_perform. fold ec t2. destruct (truthy ec); [done|].
  unfold open_if_closed. rewrite bind_perform. fold opened t3. by rewrite Hp.
Qed.

(** An [Acceptor] is opened once: whatever [open] answered, and after [close], which does
    not touch the pointer, every further [open] answers "is connected" and makes no call.  Before
    the first [open] every operation goes through the null pointer. *)
Lemma acceptor_one_shot (self self' : Acceptor.Acceptor) (ep ep2 : NetworkEndpoint) r
    (K K2 : world asio) (h h' h2 : heap B) (t t' t2 : trace asio) :
  Acceptor.open en self ep K h t = Run (Ret (r, self')) h' t' →
  Acceptor.open en self' ep2 K2 h2 t2 =
    Run (Ret (Err (makeError_system ISCONN "Acceptor::open"), self')) h2 t2 ∧
  let never := Acceptor.create (Acceptor._loop self) in
  out (Acceptor.isOpen never K2 h2 t2) = Stuck NullPointer ∧
  out (Acceptor.close never K2 h2 t2) = Stuck NullPointer ∧
  out (Acceptor.cancel never K2 h2 t2) = Stuck NullPointer ∧
  out (Acceptor.accept never K2 h2 t2) = Stuck NullPointer ∧
  out (Acceptor.asyncAccept never K2 h2 t2) = Stuck NullPointer ∧
  out (Acceptor.getLocalEndpoint junk never K2 h2 t2) = Stuck NullPointer.
Proof.
  intros Hopen. split; [|by split_and!]. assert (is_Some (Acceptor._pimpl self')) as [i Hi].
  { unfold Acceptor.open in Hopen. destruct (Acceptor._pimpl self) as [i|] eqn:E.
    - injection Hopen as <- <- <- <-. by rewrite E.
    - rewrite !bind_run in Hopen.
      destruct (Acceptor.create_impl _ _ K h t) as [[i| |] h1 t1]; [|done..].
      rewrite bind_run in Hopen. match type of Hopen with match ?m with _ => _ end = _ => destruct m as [[x| |] h3 t3]; [|done..] end.
      cbn in Hopen. by injection Hopen as <- <- <- <-. }
  unfold Acceptor.open. by rewrite Hi.
Qed.

End Open.

#[local] Existing Instance Concrete.error_ops.

(** Setting the option of the acceptor that was just created fails with "bad descriptor". *)
Definition refusing_asio : world asio :=
  asio_world (λ R _ op, match op in asio R return option R with set_option _ _ => Some 9 | _ => None end).
