(* ===== verification/AsyncServer.v ===== *)
(** * AsyncServer and the accept loop; the completion handlers

    include/cadence/asyncServer.hpp and src/asyncServer.cpp, and the bodies of the lambdas that
    the channels pass to Asio (src/async). *)
From stdpp Require Import gmap.
From S2P Require Import Prelude Solace IPAddress Asio StreamSockets Acceptors.

Section AsyncServer.
Context {V B : Type} `{MemoryView V} `{!ByteStream B V} `{!ErrorOps} (en : endian) (junk : list Z).

(** The member [_acceptor] of a server. *)
Definition server_acceptor (s : server) : Acceptor.Acceptor :=
  Acceptor.MkAcceptor (srv_loop s)
    match srv_pimpl s with
    | Some (K_local_acceptor, o) => Some (Acceptor.Local (StremDomainAcceptor.MkLocalAcceptor (srv_loop s) o))
    | Some (_, o) => Some (Acceptor.Tcp (TcpAcceptor.MkTcpAcceptor (srv_loop s) o))
    | None => None
    end.

Definition impl_kind (i : Acceptor.AcceptorImpl) : object_kind * obj :=
  match i with
  | Acceptor.Tcp a => (K_tcp_acceptor, TcpAcceptor._acceptor a)
  | Acceptor.Local a => (K_local_acceptor, StremDomainAcceptor._acceptor a)
  end.

(** A server, by reference. *)
Definition server_at (sid : nat) : prog asio (heap B) server :=
  h ← get;
  match servers h !! sid with Some s => mret s | None => stuck DanglingPointer end.

(** [AsyncServer(eventLoop, cb)]. *)
Definition create (loop : obj) (cb : bool) : prog asio (heap B) nat :=
  sid ← allocate; _ ← modify (upd_servers <[sid := Server loop None cb]>); mret sid.

(** The defaulted move constructor: a new server takes the acceptor and the handler.  What is
    left of the handler is not specified ([left]: whether it still answers true); the
    continuations keep their references to the old server. *)
Definition move (left : bool) (rhs : nat) : prog asio (heap B) nat :=
  s ← server_at rhs;
  sid ← allocate;
  _ ← modify (upd_servers (λ m, <[sid := s]> (<[rhs := Server (srv_loop s) None left]> m)));
  mret sid.

(** [doAcceptSession]: [then] leaves the continuation with the promise. *)
Definition doAcceptSession (sid : nat) : prog asio (heap B) unit :=
  s ← server_at sid;
  pm ← Acceptor.asyncAccept (server_acceptor s);
  modify (upd_continuations <[pm := sid]>).

(** The continuation, on the socket that was accepted.  The handler, if there is one, takes the
    socket; otherwise the socket goes when the continuation is done. *)
Definition session_accepted (sid : nat) (socket : StreamSocket) : prog asio (heap B) unit :=
  s ← server_at sid;
  _ ← match srv_handler s, ss_pimpl socket with
      | true, Some impl => perform (call_accept_handler impl.1 impl.2)
      | _, _ => mret tt
      end;
  opened ← Acceptor.isOpen (server_acceptor s);
  _ ← (if opened : bool then doAcceptSession sid else mret tt);
  if srv_handler s then mret tt else destroy_channel socket.

Definition stop (sid : nat) : prog asio (heap B) unit :=
  s ← server_at sid; Acceptor.close (server_acceptor s).

Definition startListen (sid : nat) (endpoint : NetworkEndpoint) : prog asio (heap B) (Result unit) :=
  s ← server_at sid;
  r ← Acceptor.open en (server_acceptor s) endpoint;
  let '(result, acceptor) := r in
  _ ← modify (upd_servers <[sid := Server (srv_loop s)
        (option_map impl_kind (Acceptor._pimpl acceptor)) (srv_handler s)]>);
  match result with
  | Ok _ => _ ← doAcceptSession sid; mret (Ok tt)
  | Err e => mret (Err e)
  end.

(** ** The completion handlers *)

(** [setValue], and the continuation that [then] attached: it runs at once, on values only. *)
Definition fulfil (pm : nat) (v : pvalue) : prog asio (heap B) unit :=
  _ ← setValue pm v;
  h ← get;
  match continuations h !! pm, v with
  | Some sid, VSocket socket => session_accepted sid socket
  | _, _ => mret tt
  end.

(** What [UdpImpl::pe] holds when it is read. *)
Definition peer_of (sock : nat) (h : heap B) : asio_address * Z :=
  default (address_v4 [0; 0; 0; 0], 0) (peers h !! sock).

(** The lambda of reads and writes: of TCP sockets, pipes, serial channels and datagram sockets. *)
Definition transfer_handler (tag : string) (dest pm : nat) (c : completion) : prog asio (heap B) unit :=
  if truthy (c_error c) then setError pm (fromAsioError (c_error c) tag)
  else _ ← advance_buffer dest (c_length c); fulfil pm VUnit.

(** The lambda of Unix stream sockets. *)
Definition transfer_always_handler (tag : string) (dest pm : nat) (c : completion) : prog asio (heap B) unit :=
  _ ← advance_buffer dest (c_length c);
  if truthy (c_error c) then setError pm (fromAsioError (c_error c) tag) else fulfil pm VUnit.

(** The lambda of connects, and of the wait for an event. *)
Definition done_handler (tag : string) (pm : nat) (c : completion) : prog asio (heap B) unit :=
  if truthy (c_error c) then setError pm (fromAsioError (c_error c) tag) else fulfil pm VUnit.

Definition timer_handler (pm : nat) (c : completion) : prog asio (heap B) unit :=
  if truthy (c_error c) then setError pm (fromAsioError (c_error c) "asyncWait") else fulfil pm (VInt 1).

Definition signal_handler (pm : nat) (c : completion) : prog asio (heap B) unit :=
  if truthy (c_error c) then setError pm (fromAsioError (c_error c) "asyncWait")
  else fulfil pm (VInt (c_signal c)).

(** [UdpImpl::ReadFromHandler]. *)
Definition read_from_handler (sock dest pm : nat) (c : completion) : prog asio (heap B) unit :=
  if truthy (c_error c) then setError pm (fromAsioError (c_error c) "asyncReadFrom")
  else
    _ ← advance_buffer dest (c_length c);
    h ← get;
    let pe := peer_of sock h in
    fulfil pm (VEndpoint (fromAsioIP junk pe.1 pe.2)).

(** The lambdas of both acceptors. *)
Definition accept_handler (kind : object_kind) (loop pm : nat) (c : completion) : prog asio (heap B) unit :=
  if truthy (c_error c) then setError pm (fromAsioError (c_error c) "asyncAccept")
  else fulfil pm (VSocket match kind with
    | K_local_acceptor => createUnixSocket_from loop (c_peer c)
    | _ => createTCPSocket_from loop (c_peer c)
    end).

(** [operator()] of the lambda that a handler stands for. *)
Definition run_handler (hd : handler) (c : completion) : prog asio (heap B) unit :=
  match hd with
  | H_transfer tag dest pm | H_transfer_from tag dest pm => transfer_handler tag dest pm c
  | H_transfer_always tag dest pm => transfer_always_handler tag dest pm c
  | H_done tag pm => done_handler tag pm c
  | H_timer pm => timer_handler pm c
  | H_signal pm => signal_handler pm c
  | H_read_from sock dest pm => read_from_handler sock dest pm c
  | H_accept kind loop pm => accept_handler kind loop pm c
  end.

End AsyncServer.

(** ** Properties *)

(** The loop's next round on an acceptor that is there: a promise, the accept operation, and
    the continuation. *)
Definition next_round (k : object_kind) (o : obj) (s : server) (sid : nat) {B} (h : heap B) : heap B :=
  Heap (buffers h) (<[fresh h := Pending]> (promises h)) (<[fresh h := sid]> (continuations h)) (servers h)
    (<[S (fresh h) := H_accept k (srv_loop s) (fresh h)]> (waiting h)) (ready h) (peers h) (S (S (fresh h))).

Section Loop.
Context {V B : Type} `{MemoryView V} `{!ByteStream B V} `{!ErrorOps} (junk : list Z).

(** C24.  The accept loop of a server.  When an accept operation of a listening server fails,
    the error goes to its promise, nothing is called and no other operation is started, so
    the loop is over whether or not the acceptor is still open.  When it succeeds, the
    connection handler is called with the accepted socket, if there is one, the acceptor is
    asked whether it is open, and if so exactly one new accept operation is started, whose
    promise again carries the loop; otherwise none is.  When there is no handler, nobody took the
    socket, and it is closed at last. *)
Theorem accept_loop (k : object_kind) (o : obj) (s : server) (sid pm loop : nat) (c : completion)
    (K : world asio) (h : heap B) (t : trace asio) :
  k = K_tcp_acceptor ∨ k = K_local_acceptor →
  continuations h !! pm = Some sid → servers h !! sid = Some s → srv_pimpl s = Some (k, o) →
  let call := call_accept_handler
    match k with K_local_acceptor => K_local_stream_socket | _ => K_tcp_socket end (c_peer c) in
  let t1 := if srv_handler s then Prelude.Event call (K _ t call) :: t else t in
  let opened := K _ t1 (is_open o) in
  let t2 := Prelude.Event (is_open o) opened :: t1 in
  let start_op := start o async_accept (S (fresh h)) in
  let t3 := if opened then Prelude.Event start_op (K _ t2 start_op) :: t2 else t2 in
  let close_op := Asio.close (c_peer c) in
  let r := run_handler junk (H_accept k loop pm) c K h t in
  if truthy (c_error c) then
    r = Run (Ret tt) (upd_promises <[pm := HasError (MkError "pasy" (c_error c) "asyncAccept")]> h) t
  else
    out r = Ret tt ∧
    (∃ v, st r = (let h1 := upd_promises <[pm := HasValue (VSocket v)]> h in
                  if opened then next_round k o s sid h1 else h1) ∧
          ss_pimpl v = Some (match k with K_local_acceptor => K_local_stream_socket | _ => K_tcp_socket end, c_peer c)) ∧
    tr r = if srv_handler s then t3 else Prelude.Event close_op (K _ t3 close_op) :: t3.
Proof.
  intros Hk Hc Hs Hp. cbn zeta. unfold run_handler, accept_handler. destruct (truthy (c_error c)); [done|].
  unfold fulfil, setValue, session_accepted, server_at, doAcceptSession, server_acceptor.
  unfold mbind, prog_bind, get, modify, mret, prog_ret, perform. cbn -[lookup insert truthy].
  rewrite Hc. cbn -[lookup insert truthy]. rewrite Hs. cbn -[lookup insert truthy]. rewrite Hp.
  destruct Hk as [-> | ->]; cbn -[lookup insert]; destruct (srv_handler s); cbn -[lookup insert].
  all: unfold Acceptor.isOpen, Acceptor.on_impl, Acceptor.dispatch, TcpAcceptor.isOpen, StremDomainAcceptor.isOpen, server_at, perform, mbind, prog_bind; cbn -[lookup insert].
  all: case_if; [|by split_and!; try eexists].
  all: rewrite ?Hs; cbn -[lookup insert]; rewrite ?Hp; cbn -[lookup insert].
  all: split_and!; [done|eexists|done].
  all: by split.
Qed.

(** What a completed transfer does.  The handler that every channel registers for a read or
    a write advances the client's buffer by the number of bytes Asio reports and resolves the
    promise; on an error the buffer is left alone and the error carries Asio's code and the
    operation's tag.  The handler of Unix stream sockets advances the buffer in both cases. *)
Lemma transfer_completion tag dest pm b (c : completion) (K : world asio) (h : heap B) (t : trace asio) :
  buffers h !! dest = Some b → continuations h !! pm = None →
  let advanced := upd_buffers <[dest := (advance (c_length c) b).2]> h in
  let failure := HasError (MkError "pasy" (c_error c) tag) in
  run_handler junk (H_transfer tag dest pm) c K h t =
    Run (Ret tt) (if c_error c =? 0 then upd_promises <[pm := HasValue VUnit]> advanced
                  else upd_promises <[pm := failure]> h) t ∧
  run_handler junk (H_transfer_always tag dest pm) c K h t =
    Run (Ret tt) (upd_promises <[pm := if c_error c =? 0 then HasValue VUnit else failure]> advanced) t.
Proof.
  intros Hb Hc. cbn zeta. unfold run_handler, transfer_handler, transfer_always_handler, fulfil, setValue, setError, advance_buffer, buffer_at, truthy.
  split; destruct (c_error c =? 0); cbn [negb];
    unfold mbind, prog_bind, get, modify, mret, prog_ret; rewrite ?Hb; cbn; by rewrite ?Hc.
Qed.

(** A server can be moved while it listens, but its loop stays with the old object: the
    new one holds the acceptor, and the next connection that is accepted makes the loop read
    through the null pointer that the move left behind. *)
Lemma moved_server_fault (k : object_kind) (s : server) (rest : bool) (sid pm loop : nat) (c : completion)
    (K K' : world asio) (h : heap B) (t t' : trace asio) :
  continuations h !! pm = Some sid → servers h !! sid = Some s → sid ≠ fresh h → c_error c = 0 →
  let r := move rest sid K h t in
  out r = Ret (fresh h) ∧ servers (st r) !! fresh h = Some s ∧ tr r = t ∧
  out (run_handler junk (H_accept k loop pm) c K' (st r) t') = Stuck NullPointer.
Proof.
  intros Hc Hs Hne He. cbn zeta. unfold move, server_at, allocate.
  unfold mbind, prog_bind, get, modify, mret, prog_ret. rewrite Hs. cbn -[lookup insert].
  split_and!; [done|by rewrite lookup_insert_eq|done|].
  unfold run_handler, accept_handler. rewrite He. change (truthy 0) with false. cbn iota.
  unfold fulfil, setValue, session_accepted, server_at. unfold mbind, prog_bind, get, modify, mret, prog_ret.
  cbn -[lookup insert]. rewrite Hc. cbn -[lookup insert]. rewrite lookup_insert_ne, lookup_insert_eq by done. cbn -[lookup insert].
  by destruct rest, k.
Qed.

End Loop.

#[local] Existing Instances Concrete.view_ops Concrete.stream_ops Concrete.error_ops.

(** A TCP server with a handler, whose acceptor is open. *)
Definition listening_heap : heap Concrete.stream :=
  Heap ∅ {[4%nat := Pending]} {[4%nat := 2%nat]} {[2%nat := Server 0 (Some (K_tcp_acceptor, 3%nat)) true]} ∅ [] ∅ 5.
Definition open_asio : world asio :=
  asio_world (λ R _ op, match op in asio R return option R with is_open _ => Some true | _ => None end).

Lemma accept_loop_witness :
  tr (run_handler [] (H_accept K_tcp_acceptor 0 4) (Completion 0 0 0 9) open_asio listening_heap []) =
  [Prelude.Event (start 3 async_accept 6) tt; Prelude.Event (is_open 3) true;
   Prelude.Event (call_accept_handler K_tcp_socket 9) tt].
Proof.
  destruct (accept_loop [] K_tcp_acceptor 3 (Server 0 (Some (K_tcp_acceptor, 3%nat)) true) 2 4 0
    (Completion 0 0 0 9) open_asio listening_heap [] ltac:(by left) ltac:(done) ltac:(done) ltac:(done))
    as (_ & _ & Ht). exact Ht.
Defined.

(** Two buffers, of eight bytes each. *)
Definition demo_buffers : gmap nat Concrete.stream := {[ 1%nat := Concrete.Stream 100 8; 2%nat := Concrete.Stream 200 8 ]}.
