(* ===== verification/EchoServer.v ===== *)
(** * The echo server

    examples/async_server.cpp: sessions that read ten bytes, answer with their hexadecimal text
    and a newline, and read again.  It puts together the stream sockets, the promises and the
    completion handlers; the continuations that the program attaches with [then] are its own, kept
    here beside the memory of the library. *)
From stdpp Require Import gmap.
From S2P Require Import Prelude Solace IPAddress Asio AsyncObjects StreamSockets AsyncServer.

Section EchoServer.
Context {V B : Type} `{MemoryView V} `{!ByteStream B V} `{!ByteWriter B V}.
Context `{!Inet, !StringOps, !ErrorOps} (junk : list Z) (error_text : Error → string) (number_text : Z → string).

(** [class Session]; [outBuffer] is the address of the member, the buffers are known by their
    place in the memory. *)
Record session := MkSession {
  channel : StreamSocket;
  remoteEndpoint : NetworkEndpoint;
  outBuffer : Z;
  reader : nat;
  writer : nat }.

(** The lambdas given to [then]: those of a session, each with a [shared_ptr] to it, and that of
    [main], with references to the server and the loop. *)
Inductive closure := AfterRead (sid : nat) | AfterWrite (sid : nat) | AfterSignal (srv : nat) (loop : obj).

(** The memory of the library, the sessions that are referred to, the closures by the promise
    they wait for, and the counter. *)
Record app := App {
  mem : heap B;
  sessions : gmap nat session;
  closures : gmap nat closure;
  NbSessions : Z }.

Definition on_mem {A} (m : prog asio (heap B) A) : prog asio app A :=
  zoom mem (λ h a, App h (sessions a) (closures a) (NbSessions a)) m.
Definition upd_sessions (f : gmap nat session → gmap nat session) (a : app) : app :=
  App (mem a) (f (sessions a)) (closures a) (NbSessions a).
Definition upd_closures (f : gmap nat closure → gmap nat closure) (a : app) : app :=
  App (mem a) (sessions a) (f (closures a)) (NbSessions a).
Definition upd_NbSessions (f : Z → Z) (a : app) : app := App (mem a) (sessions a) (closures a) (f (NbSessions a)).

(** [operator<<]. *)
Definition endpoint_line (e : NetworkEndpoint) : string :=
  match e with NE_IP p => IPEndpoint_toString p | NE_Unix u => UnixEndpoint_toString u end.

(** A method of the stream socket, which the implementation it holds selects. *)
Definition through {A} (s : StreamSocket) (tcp : TcpSocketImpl.TcpSocketImpl → prog asio (heap B) A)
    (unix : StreamDomainSocketImpl.StreamDomainSocketImpl → prog asio (heap B) A) : prog asio (heap B) A :=
  i ← deref (ss_pimpl s);
  match i.1 with
  | K_local_stream_socket => unix (StreamDomainSocketImpl.MkUnixStream i.2)
  | _ => tcp (TcpSocketImpl.MkTcp i.2)
  end.

Definition isClosed (s : StreamSocket) : prog asio (heap B) bool :=
  through s TcpSocketImpl.isClosed StreamDomainSocketImpl.isClosed.
Definition getRemoteEndpoint (s : StreamSocket) : prog asio (heap B) NetworkEndpoint :=
  through s (TcpSocketImpl.getRemoteEndpoint junk) StreamDomainSocketImpl.getRemoteEndpoint.
(** The overloads that transfer what remains in the buffer. *)
Definition asyncRead (s : StreamSocket) (dest : nat) : prog asio (heap B) nat :=
  whole (λ dest n, through s (λ i, TcpSocketImpl.asyncRead i dest n) (λ i, StreamDomainSocketImpl.asyncRead i dest n)) dest.
Definition asyncWrite (s : StreamSocket) (src : nat) : prog asio (heap B) nat :=
  whole (λ src n, through s (λ i, TcpSocketImpl.asyncWrite i src n) (λ i, StreamDomainSocketImpl.asyncWrite i src n)) src.

Definition session_at (sid : nat) : prog asio app session :=
  a ← get; match sessions a !! sid with Some s => mret s | None => stuck DanglingPointer end.

(** The last [shared_ptr] to a session goes: [~Session()], then its members, the socket among
    them. *)
Definition release (sid : nat) : prog asio app unit :=
  s ← session_at sid;
  _ ← perform (print (makeString ["Session from "%string; endpoint_line (remoteEndpoint s); " closed"%string]));
  _ ← modify (upd_NbSessions (λ n, u32 (n - 1)));
  _ ← modify (upd_sessions (delete sid));
  destroy_channel (channel s).

(** A change of a buffer of the session. *)
Definition on_buffer (f : B → B) (buf : nat) : prog asio app unit :=
  on_mem (b ← buffer_at buf; modify (upd_buffers <[buf := f b]>)).

(** [Session::doRead]; when it starts no operation, the caller's [shared_ptr] is the last. *)
Definition doRead (sid : nat) : prog asio app unit :=
  s ← session_at sid;
  closed ← on_mem (isClosed (channel s));
  stopped ← (if closed : bool then mret true else perform (ctx_stopped (ss_ioContext (channel s))));
  if stopped : bool then release sid
  else
    _ ← on_buffer clear (writer s);
    pm ← on_mem (asyncRead (channel s) (writer s));
    modify (upd_closures <[pm := AfterRead sid]>).

(** The lambda that runs when a read is done.  [encodedResponce] is a writer over [outBuffer];
    what its operations answer is ignored. *)
Definition read_done (sid : nat) : prog asio app unit :=
  s ← session_at sid;
  received ← on_mem (buffer_at (writer s));
  let view := viewWritten received in
  n ← perform (base16_encode (dataAddress view) (view_size view) (outBuffer s) 21);
  _ ← (if n <? 21 then perform (store_byte (outBuffer s + n) 10) else mret tt);
  pm ← on_mem (asyncWrite (channel s) (reader s));
  modify (upd_closures <[pm := AfterWrite sid]>).

(** The lambda that runs when a write is done. *)
Definition write_done (sid : nat) : prog asio app unit :=
  s ← session_at sid;
  _ ← on_buffer rewind (reader s);
  doRead sid.

(** The lambda of [main]: [server.stop(); loop.stop();]. *)
Definition signalled (srv : nat) (loop : obj) (sig : Z) : prog asio app unit :=
  _ ← perform (print (makeString ["Signal: "%string; number_text sig; ", stopping server"%string]));
  _ ← on_mem (stop srv);
  _ ← perform (ctx_stop loop);
  a ← get;
  perform (print (makeString ["Dangling sessions: "%string; number_text (NbSessions a)])).

(** What waits for a promise, when it gets its value. *)
Definition run_closure (k : closure) (v : pvalue) : prog asio app unit :=
  match k with
  | AfterRead sid => read_done sid
  | AfterWrite sid => write_done sid
  | AfterSignal srv loop => match v with VInt sig => signalled srv loop sig | _ => mret tt end
  end.

(** When it gets an error, the closure is dropped, with its reference to the session; a write
    has an [onError], which prints. *)
Definition drop_closure (k : closure) (e : Error) : prog asio app unit :=
  match k with
  | AfterRead sid => release sid
  | AfterWrite sid => _ ← perform (print (makeString ["Failed to write respoce: "%string; error_text e])); release sid
  | AfterSignal _ _ => mret tt
  end.

(** A completed operation: the handler of the library, and then the closure that waits for its
    promise. *)
Definition completed (hd : handler) (c : completion) : prog asio app unit :=
  _ ← on_mem (run_handler junk hd c);
  a ← get;
  match closures a !! handler_promise hd, promises (mem a) !! handler_promise hd with
  | Some k, Some (HasValue v) => _ ← modify (upd_closures (delete (handler_promise hd))); run_closure k v
  | Some k, Some (HasError e) => _ ← modify (upd_closures (delete (handler_promise hd))); drop_closure k e
  | _, _ => mret tt
  end.

(** [Session(StreamSocket&&)]: the members are at the addresses [inBuf] and [outBuf].  When the
    endpoint of the peer can not be told, the socket, already a member, goes. *)
Definition create (inBuf outBuf : Z) (c : StreamSocket) : prog asio app nat :=
  ep ← unwind (on_mem (getRemoteEndpoint c)) (destroy_channel c);
  r ← on_mem allocate;
  _ ← on_mem (modify (upd_buffers <[r := wrapMemory outBuf 21]>));
  w ← on_mem allocate;
  _ ← on_mem (modify (upd_buffers <[w := wrapMemory inBuf 10]>));
  sid ← on_mem allocate;
  _ ← modify (upd_NbSessions (λ n, u32 (n + 1)));
  _ ← modify (upd_sessions <[sid := MkSession c ep outBuf r w]>);
  mret sid.

(** The socket goes as well when its endpoint can not be printed; the constructor takes it. *)
Definition onNewConnection (inBuf outBuf : Z) (c : StreamSocket) : prog asio app unit :=
  ep ← unwind (on_mem (getRemoteEndpoint c)) (destroy_channel c);
  _ ← perform (print (makeString ["New connection from "%string; endpoint_line ep]));
  sid ← create inBuf outBuf c;
  doRead sid.

(** A session left to itself: the operation under way completes with the first of [cs], and so
    on, as long as there is one. *)
Fixpoint serve (cs : list completion) : prog asio app unit :=
  match cs with
  | [] => mret tt
  | c :: cs' =>
      a ← get;
      match map_to_list (waiting (mem a)) with
      | [] => mret tt
      | (id, hd) :: _ =>
          _ ← on_mem (modify (upd_waiting (delete id)));
          _ ← completed hd c;
          serve cs'
      end
  end.

End EchoServer.

(** ** The dialog

    What a peer and the system see of one session: whose turn it is, and the calls.  [inBuf] and
    [outBuf] are the addresses of its buffers, [o] its socket, [loop] the context, [line] what is
    printed when it is closed and [complaint] when a write failed with a code. *)
Inductive turn := Reading | Writing | Gone.
#[export] Instance turn_eq_dec : EqDecision turn.
Proof. solve_decision. Defined.

Section Dialog.
Context (inBuf outBuf : Z) (loop o : obj) (line : string) (complaint : Z → string) (K : world asio).

Definition call {R} (op : asio R) (t : trace asio) : trace asio := Prelude.Event op (K _ t op) :: t.

(** The session is destroyed, and its socket closed. *)
Definition closing (t : trace asio) : trace asio := call (Asio.close o) (call (print line) t).

(** What a read that brought [n] bytes is answered with: a text of at most 20 characters and
    a newline, if there is room for it; the whole of the 21 bytes is written. *)
Definition answering (n : Z) (id : nat) (t : trace asio) : trace asio :=
  let encode := base16_encode inBuf n outBuf 21 in
  let m := K _ t encode in
  let t1 := Prelude.Event encode m :: t in
  call (start o (async_write outBuf 21) id) (if m <? 21 then call (store_byte (outBuf + m) 10) t1 else t1).

(** The bytes of a completed read; more than was asked for are not taken. *)
Definition received (c : completion) : Z := if c_length c <=? 10 then c_length c else 0.

(** One completion: the turn and the calls before, and after. *)
Inductive exchange (c : completion) : turn → trace asio → turn → trace asio → Prop :=
  | read_failed t : truthy (c_error c) = true → exchange c Reading t Gone (closing t)
  | read_answered t id :
      truthy (c_error c) = false → exchange c Reading t Writing (answering (received c) id t)
  | write_failed t :
      truthy (c_error c) = true → exchange c Writing t Gone (closing (call (print (complaint (c_error c))) t))
  | found_closed t :
      truthy (c_error c) = false → K _ t (is_open o) = false → exchange c Writing t Gone (closing (call (is_open o) t))
  | found_stopped t :
      truthy (c_error c) = false → K _ t (is_open o) = true → K _ (call (is_open o) t) (ctx_stopped loop) = true →
      exchange c Writing t Gone (closing (call (ctx_stopped loop) (call (is_open o) t)))
  | reads_again t id :
      truthy (c_error c) = false → K _ t (is_open o) = true → K _ (call (is_open o) t) (ctx_stopped loop) = false →
      exchange c Writing t Reading
        (call (start o (async_read inBuf 10) id) (call (ctx_stopped loop) (call (is_open o) t))).

(** One after the other; nothing follows the end. *)
Inductive dialog : turn → trace asio → list completion → turn → trace asio → Prop :=
  | dialog_done u t : dialog u t [] u t
  | dialog_gone t c cs : dialog Gone t (c :: cs) Gone t
  | dialog_next u t c u1 t1 cs u' t' :
      exchange c u t u1 t1 → dialog u1 t1 cs u' t' → dialog u t (c :: cs) u' t'.

End Dialog.

(** ** Properties *)

Section Session.
Context {V B : Type} `{MemoryView V} `{!ByteStream B V} `{!ByteWriter B V}.
Context `{!MemoryViewLaws V, !ByteStreamLaws B V, !ByteWriterLaws B V}.
Context `{!Inet, !StringOps, !ErrorOps} (junk : list Z) (error_text : Error → string) (number_text : Z → string).
Context (sid : nat) (s : session) (inBuf : Z) (k : object_kind) (o : obj).
Context (Hsock : ss_pimpl (channel s) = Some (k, o)) (Hbufs : reader s ≠ writer s).

(** The lambda that the socket registers. *)
Definition transfer_of (tag : string) (dest pm : nat) : handler :=
  match k with K_local_stream_socket => H_transfer_always tag dest pm | _ => H_transfer tag dest pm end.

Abbreviation complaint :=
  (λ code, makeString ["Failed to write respoce: "%string; error_text (MkError "pasy" code "asyncWrite")]).
Abbreviation closed_line :=
  (makeString ["Session from "%string; endpoint_line (remoteEndpoint s); " closed"%string]).

Lemma release_run h S C n (K : world asio) t :
  S !! sid = Some s →
  release (B := B) sid K (App h S C n) t = Run (Ret tt) (App h (delete sid S) C (u32 (n - 1))) (closing o closed_line K t).
Proof.
  intros Hs. unfold release, session_at, destroy_channel. unfold_prog. cbn -[lookup delete]. rewrite Hs. cbn -[lookup delete].
  rewrite Hsock. done.
Qed.

(** Starting a transfer of the whole of a buffer. *)
Definition started (tag : string) (buf : nat) (h : heap B) : heap B :=
  Heap (buffers h) (<[fresh h := Pending]> (promises h)) (continuations h) (servers h)
    (<[S (fresh h) := transfer_of tag buf (fresh h)]> (waiting h)) (ready h) (peers h) (S (S (fresh h))).

Lemma transfer_run (read : bool) buf addr size h S C n (K : world asio) t :
  0 ≤ size → buffers h !! buf = Some (wrapMemory addr size) →
  on_mem (if read then asyncRead (channel s) buf else asyncWrite (channel s) buf) K (App h S C n) t =
    Run (Ret (fresh h)) (App (started (if read then "asyncRead" else "asyncWrite") buf h) S C n)
      (call K (start o (if read then async_read addr size else async_write addr size) (Datatypes.S (fresh h))) t).
Proof.
  intros Hsize Hb. unfold on_mem, zoom. cbn [mem sessions closures NbSessions].
  assert (Hr : remaining (wrapMemory (B := B) addr size) = size) by by apply wrap_remaining.
  destruct read; unfold asyncRead, asyncWrite, whole, through, deref, TcpSocketImpl.asyncRead, TcpSocketImpl.asyncWrite,
    StreamDomainSocketImpl.asyncRead, StreamDomainSocketImpl.asyncWrite, async_transfer, asio_buffer, buffer_at, initiate,
    new_promise, allocate;
    unfold_prog; rewrite Hb; cbn -[lookup insert]; rewrite Hsock, Hr; unfold started, transfer_of, call;
    destruct k; cbn -[lookup insert]; unfold_prog; cbn -[lookup insert]; rewrite Hb; cbn -[lookup insert];
    by rewrite slice_address, wrap_address.
Qed.

Lemma on_buffer_run (f : B → B) buf b (h : heap B) S C n (K : world asio) t :
  buffers h !! buf = Some b →
  on_buffer f buf K (App h S C n) t = Run (Ret tt) (App (upd_buffers <[buf := f b]> h) S C n) t.
Proof. intros Hb. unfold on_buffer, on_mem, zoom, buffer_at. unfold_prog. cbn -[lookup insert]. by rewrite Hb. Qed.

(** The next round of a session, or its end. *)
Lemma doRead_run w (h : heap B) S C n (K : world asio) (t : trace asio) :
  S !! sid = Some s → buffers h !! writer s = Some w → clear w = wrapMemory inBuf 10 →
  let loop := ss_ioContext (channel s) in
  let t1 := call K (is_open o) t in
  let t2 := call K (ctx_stopped loop) t1 in
  let gone := App h (delete sid S) C (u32 (n - 1)) in
  doRead (B := B) sid K (App h S C n) t =
    if K _ t (is_open o) then
      if K _ t1 (ctx_stopped loop) then Run (Ret tt) gone (closing o closed_line K t2)
      else Run (Ret tt)
        (App (started "asyncRead" (writer s) (upd_buffers <[writer s := wrapMemory inBuf 10]> h)) S
           (<[fresh h := AfterRead sid]> C) n)
        (call K (start o (async_read inBuf 10) (Datatypes.S (fresh h))) t2)
    else Run (Ret tt) gone (closing o closed_line K t1).
Proof.
  intros Hs Hw Hc. cbn zeta. unfold doRead, session_at. rewrite bind_run, bind_get. cbn [sessions]. rewrite Hs.
  cbn [mret prog_ret]. rewrite bind_run.
  assert (Hclosed : on_mem (isClosed (channel s)) K (App h S C n) t =
    Run (Ret (negb (K _ t (is_open o)))) (App h S C n) (call K (is_open o) t)).
  { unfold on_mem, zoom, isClosed, through, deref. rewrite Hsock. by destruct k. }
  rewrite Hclosed. destruct (K _ t (is_open o)); cbn [negb]; [|by rewrite bind_ret, release_run].
  rewrite bind_perform. fold (call K (ctx_stopped (ss_ioContext (channel s))) (call K (is_open o) t)).
  destruct (K _ _ (ctx_stopped _)) eqn:E; cbn iota.
  { by rewrite release_run. }
  rewrite bind_run, (on_buffer_run _ _ w), Hc by done. rewrite bind_run.
  rewrite (transfer_run true _ inBuf 10); [|done|cbn; by rewrite lookup_insert_eq]. done.
Qed.

(** A completed transfer, up to the closure that waits for it. *)
Lemma completed_run tag buf b id pm cl c (h : heap B) S C n (K : world asio) t :
  buffers h !! buf = Some b → continuations h !! pm = None → C !! pm = Some cl →
  let h0 := upd_waiting (delete id) h in
  let advanced := upd_buffers <[buf := (advance (c_length c) b).2]> h0 in
  let e := MkError "pasy" (c_error c) tag in
  (_ ← on_mem (modify (upd_waiting (delete id))); completed junk error_text number_text (transfer_of tag buf pm) c) K (App h S C n) t =
    if truthy (c_error c) then
      drop_closure error_text cl e K
        (App (upd_promises <[pm := HasError e]> match k with K_local_stream_socket => advanced | _ => h0 end) S (delete pm C) n) t
    else run_closure number_text cl VUnit K (App (upd_promises <[pm := HasValue VUnit]> advanced) S (delete pm C) n) t.
Proof.
  intros Hb Hc Hcl. cbn zeta. rewrite bind_run. unfold completed, on_mem, zoom, modify. rewrite bind_run.
  cbn [mem sessions closures NbSessions]. set (h0 := upd_waiting (delete id) h).
  assert (Hrun : run_handler junk (transfer_of tag buf pm) c K h0 t =
    Run (Ret tt) (if truthy (c_error c)
      then upd_promises <[pm := HasError (MkError "pasy" (c_error c) tag)]>
             match k with K_local_stream_socket => upd_buffers <[buf := (advance (c_length c) b).2]> h0 | _ => h0 end
      else upd_promises <[pm := HasValue VUnit]> (upd_buffers <[buf := (advance (c_length c) b).2]> h0)) t).
  { unfold run_handler, transfer_of, transfer_handler, transfer_always_handler, fulfil, setValue, setError, advance_buffer, buffer_at.
    destruct k, (truthy (c_error c)); unfold_prog; cbn -[lookup insert]; rewrite ?Hb; cbn -[lookup insert]; by rewrite ?Hc. }
  rewrite Hrun, bind_get. cbn [closures mem].
  assert (handler_promise (transfer_of tag buf pm) = pm) as -> by (unfold transfer_of; by destruct k).
  rewrite Hcl. destruct (truthy (c_error c)); cbn [upd_promises promises]; by rewrite lookup_insert_eq, bind_run.
Qed.

(** The answer to what was read. *)
Lemma read_done_run w (h : heap B) S C n (K : world asio) (t : trace asio) :
  S !! sid = Some s → buffers h !! writer s = Some w → dataAddress (viewWritten w) = inBuf →
  buffers h !! reader s = Some (wrapMemory (outBuffer s) 21) →
  read_done (B := B) sid K (App h S C n) t =
    Run (Ret tt) (App (started "asyncWrite" (reader s) h) S (<[fresh h := AfterWrite sid]> C) n)
      (answering inBuf (outBuffer s) o K (view_size (viewWritten w)) (Datatypes.S (fresh h)) t).
Proof.
  intros Hs Hw Ha Hr. unfold read_done, session_at. rewrite bind_run, bind_get. cbn [sessions]. rewrite Hs.
  cbn [mret prog_ret]. rewrite bind_run.
  assert (Hb : on_mem (buffer_at (writer s)) K (App h S C n) t = Run (Ret w) (App h S C n) t)
    by (unfold on_mem, zoom, buffer_at; unfold_prog; cbn -[lookup]; by rewrite Hw).
  rewrite Hb, bind_perform, Ha. unfold answering. set (m := K _ t _). rewrite bind_run.
  destruct (m <? 21); unfold perform; cbn [mret prog_ret];
    rewrite bind_run, (transfer_run false _ (outBuffer s) 21) by done; done.
Qed.

(** What is done with an answer that was written. *)
Lemma write_done_run r (h : heap B) S C n (K : world asio) (t : trace asio) :
  S !! sid = Some s → buffers h !! reader s = Some r →
  write_done (B := B) sid K (App h S C n) t =
    doRead sid K (App (upd_buffers <[reader s := rewind r]> h) S C n) t.
Proof.
  intros Hs Hr. unfold write_done, session_at. rewrite bind_run, bind_get. cbn [sessions]. rewrite Hs. cbn [mret prog_ret].
  rewrite bind_run. by rewrite (on_buffer_run rewind _ r).
Qed.

(** *** One step of a session, among others *)

Abbreviation exchange_of := (exchange inBuf (outBuffer s) (ss_ioContext (channel s)) o closed_line complaint).

(** What its buffers hold when an operation is under way. *)
Definition ready_for (u : turn) (bufs : gmap nat B) : Prop :=
  match u with
  | Reading => bufs !! reader s = Some (wrapMemory (outBuffer s) 21) ∧ bufs !! writer s = Some (wrapMemory inBuf 10)
  | Writing => bufs !! reader s = Some (wrapMemory (outBuffer s) 21) ∧ ∃ w, bufs !! writer s = Some w ∧ clear w = wrapMemory inBuf 10
  | Gone => True
  end.

(** The operation under way, and the closure that waits for it. *)
Definition operation (u : turn) (pm : nat) : handler :=
  match u with Writing => transfer_of "asyncWrite" (reader s) pm | _ => transfer_of "asyncRead" (writer s) pm end.
Definition awaiting (u : turn) : closure := match u with Writing => AfterWrite sid | _ => AfterRead sid end.

(** The program goes on with the next operation, or without the session. *)
Definition go_on (u : turn) (h : heap B) (S : gmap nat session) (C : gmap nat closure) (n : Z) : app (B := B) :=
  match u with
  | Gone => App h (delete sid S) C (u32 (n - 1))
  | Reading => App (started "asyncRead" (writer s) h) S (<[fresh h := AfterRead sid]> C) n
  | Writing => App (started "asyncWrite" (reader s) h) S (<[fresh h := AfterWrite sid]> C) n
  end.

(** The memory when the promise was resolved, and the buffers of the session changed. *)
Definition resolved (id pm : nat) (p : promise) (bufs : gmap nat B) (h : heap B) : heap B :=
  Heap bufs (<[pm := p]> (promises h)) (continuations h) (servers h) (delete id (waiting h)) (ready h) (peers h) (fresh h).

Definition same_elsewhere (bufs bufs' : gmap nat B) : Prop := ∀ d, d ≠ reader s → d ≠ writer s → bufs' !! d = bufs !! d.

Lemma same_insert d b bufs : d = reader s ∨ d = writer s → same_elsewhere bufs (<[d := b]> bufs).
Proof. intros Hd d' Hr Hw. rewrite lookup_insert_ne; [done|]. intros <-. by destruct Hd. Qed.

Lemma same_trans b1 b2 b3 : same_elsewhere b1 b2 → same_elsewhere b2 b3 → same_elsewhere b1 b3.
Proof. intros H12 H23 d Hr Hw. by rewrite H23, H12. Qed.

(** It does one exchange, and touches nothing of the others. *)
Definition stepped (u : turn) (id pm : nat) c (h : heap B) S C n (K : world asio) (t : trace asio) : Prop :=
  ∃ u' bufs p t',
    (_ ← on_mem (modify (upd_waiting (delete id))); completed junk error_text number_text (operation u pm) c) K (App h S C n) t =
      Run (Ret tt) (go_on u' (resolved id pm p bufs h) S (delete pm C) n) t' ∧
    p ≠ Pending ∧ ready_for u' bufs ∧ same_elsewhere (buffers h) bufs ∧ exchange_of K c u t u' t'.

Lemma reading_step id pm c h S C n K t :
  ready_for Reading (buffers h) → continuations h !! pm = None → C !! pm = Some (AfterRead sid) → S !! sid = Some s →
  0 ≤ c_length c → stepped Reading id pm c h S C n K t.
Proof.
  intros [Hr Hw] Hc Hcl Hs Hlen. destruct (received_run (c_length c) inBuf 10 ltac:(lia) Hlen) as (Hclr & _ & Had & Hsz).
  set (w := (advance (c_length c) (wrapMemory inBuf 10)).2) in *. unfold stepped, operation.
  rewrite (completed_run _ _ (wrapMemory inBuf 10) _ _ (AfterRead sid)) by done. fold w. cbn [drop_closure run_closure].
  destruct (truthy (c_error c)) eqn:E.
  - rewrite release_run by done. set (h1 := match k with K_local_stream_socket => _ | _ => _ end).
    exists Gone, (buffers h1). do 2 eexists. split_and!; [by destruct k|done|done|..|by apply read_failed].
    destruct k; try done. apply same_insert. by right.
  - rewrite (read_done_run w); [|done|cbn; by rewrite lookup_insert_eq|done|cbn; by rewrite lookup_insert_ne].
    exists Writing, (<[writer s := w]> (buffers h)), (HasValue VUnit). eexists. split_and!; [reflexivity|done| | |].
    + split; [by rewrite lookup_insert_ne|]. exists w. by rewrite lookup_insert_eq.
    + apply same_insert. by right.
    + rewrite Hsz. by apply read_answered.
Qed.

Lemma writing_step id pm c h S C n K t :
  ready_for Writing (buffers h) → continuations h !! pm = None → C !! pm = Some (AfterWrite sid) → S !! sid = Some s →
  0 ≤ c_length c → stepped Writing id pm c h S C n K t.
Proof.
  intros (Hr & w & Hw & Hcl) Hc Hclo Hs Hlen. destruct (received_run (c_length c) (outBuffer s) 21 ltac:(lia) Hlen) as (_ & Hrew & _).
  unfold stepped, operation. rewrite (completed_run _ _ (wrapMemory (outBuffer s) 21) _ _ (AfterWrite sid)) by done.
  cbn [drop_closure run_closure]. destruct (truthy (c_error c)) eqn:E.
  - rewrite bind_perform, release_run by done. set (h1 := match k with K_local_stream_socket => _ | _ => _ end).
    exists Gone, (buffers h1). do 2 eexists. split_and!; [by destruct k|done|done|..|by apply write_failed].
    destruct k; try done. apply same_insert. by left.
  - set (r := (advance (c_length c) (wrapMemory (outBuffer s) 21)).2) in *.
    set (bufs1 := <[reader s := r]> (buffers h)). set (bufs2 := <[reader s := wrapMemory (outBuffer s) 21]> bufs1).
    rewrite (write_done_run r), Hrew by (try done; cbn; by rewrite lookup_insert_eq).
    assert (Hsame : same_elsewhere (buffers h) bufs2) by (eapply same_trans; by apply same_insert; left).
    rewrite (doRead_run w); [|done|cbn; by rewrite !lookup_insert_ne|done].
    assert (Hr2 : bufs2 !! reader s = Some (wrapMemory (outBuffer s) 21)) by apply lookup_insert_eq.
    destruct (K _ t (is_open o)) eqn:Eo; [destruct (K _ _ (ctx_stopped _)) eqn:Es|].
    + exists Gone, bufs2, (HasValue VUnit). eexists. split_and!; [reflexivity|done..|by apply found_stopped].
    + exists Reading, (<[writer s := wrapMemory inBuf 10]> bufs2), (HasValue VUnit). eexists.
      split_and!; [reflexivity|done| | |by apply reads_again].
      * split; [by rewrite lookup_insert_ne|by rewrite lookup_insert_eq].
      * eapply same_trans; [exact Hsame|]. apply same_insert. by right.
    + exists Gone, bufs2, (HasValue VUnit). eexists. split_and!; [reflexivity|done..|by apply found_closed].
Qed.

(** The program with this session only: one operation is under way, whose promise one closure
    waits for, which holds the session; or the session is gone, and nothing is under way. *)
Inductive phase : turn → app (B := B) → Prop :=
  | phase_on u pm id bufs proms srvs prs n :
      u ≠ Gone → ready_for u bufs →
      phase u (App (Heap bufs proms ∅ srvs {[id := operation u pm]} [] prs n) {[sid := s]} {[pm := awaiting u]} 1)
  | phase_gone bufs proms srvs prs n :
      phase Gone (App (Heap bufs proms ∅ srvs ∅ [] prs n) ∅ ∅ 0).

Lemma phase_count u a : phase u a → NbSessions a = match u with Gone => 0 | _ => 1 end.
Proof. by intros [[] | ]. Qed.

(** The program goes on in the next phase. *)
Lemma go_on_phase u bufs proms srvs prs n :
  ready_for u bufs → phase u (go_on u (Heap bufs proms ∅ srvs ∅ [] prs n) {[sid := s]} ∅ 1).
Proof.
  intros Hr. destruct u; cbn [go_on]; [by apply (phase_on Reading)|by apply (phase_on Writing)|].
  rewrite delete_singleton_eq. apply phase_gone.
Qed.

Lemma phase_step u a c K t :
  phase u a → 0 ≤ c_length c →
  u = Gone ∨ ∃ id hd u1 a1 t1,
    waiting (mem a) = {[id := hd]} ∧
    (_ ← on_mem (modify (upd_waiting (delete id))); completed junk error_text number_text hd c) K a t = Run (Ret tt) a1 t1 ∧
    phase u1 a1 ∧ exchange_of K c u t u1 t1.
Proof.
  intros [u' pm id bufs proms srvs prs n Hu Hr|] Hc; [right|by left].
  set (h := Heap bufs proms ∅ srvs {[id := operation u' pm]} [] prs n).
  assert (stepped u' id pm c h {[sid := s]} {[pm := awaiting u']} 1 K t) as (u1 & bufs1 & p & t1 & Hrun & _ & Hr1 & _ & Hex).
  { destruct u'; [apply reading_step|apply writing_step|done]; try done; apply lookup_singleton_eq. }
  unfold resolved in Hrun. cbn -[insert delete go_on] in Hrun. rewrite !delete_singleton_eq in Hrun.
  exists id, (operation u' pm), u1. do 2 eexists. split_and!; [done|exact Hrun|by apply go_on_phase|done].
Qed.

(** C19.  A session keeps its dialog.  Alone in the program, with a read under way, whatever the
    operations complete with: nothing faults or raises, and the calls are exactly those of
    [dialog].  A read of ten bytes and a write of the whole answer alternate, on the same two
    buffers, each operation started only when the one before is done; the first error, and a closed
    socket or a stopped loop between two rounds, end the session, which is destroyed once, with
    its socket closed, the counter back at its value and nothing left under way. *)
Theorem session_dialog cs u (a : app (B := B)) (K : world asio) (t : trace asio) :
  phase u a → Forall (λ c, 0 ≤ c_length c) cs →
  let r := serve junk error_text number_text cs K a t in
  out r = Ret tt ∧
  ∃ u', phase u' (st r) ∧
    dialog inBuf (outBuffer s) (ss_ioContext (channel s)) o closed_line complaint K u t cs u' (tr r).
Proof.
  cbn zeta. intros Hph Hcs. revert u a t Hph. induction Hcs as [|c cs Hc Hcs IH]; intros u a t Hph.
  { split; [done|]. exists u. split; [done|constructor]. }
  destruct (phase_step u a c K t Hph Hc) as [->|(id & hd & u1 & a1 & t1 & Hw & Hrun & Hph1 & Hex)].
  { inversion Hph; subst; [done|]. split; [done|]. exists Gone. split; [done|constructor]. }
  destruct (IH u1 a1 t1 Hph1) as (Ho & u' & Hp & Hd). cbn [serve]. rewrite bind_get, Hw, map_to_list_singleton.
  rewrite <- bind_assoc, bind_run, Hrun. split; [done|]. exists u'. split; [done|]. by eapply dialog_next.
Qed.

End Session.

(** ** The beginning of a session *)

Section Connection.
Context {V B : Type} `{MemoryView V} `{!ByteStream B V} `{!ByteWriter B V}.
Context `{!MemoryViewLaws V, !ByteStreamLaws B V, !ByteWriterLaws B V}.
Context `{!Inet, !StringOps, !ErrorOps} (junk : list Z).

Lemma remote_steady (c : StreamSocket) k o : ss_pimpl c = Some (k, o) → steady (getRemoteEndpoint (B := B) junk c).
Proof.
  intros Hs. unfold getRemoteEndpoint, through, deref, TcpSocketImpl.getRemoteEndpoint,
    StreamDomainSocketImpl.getRemoteEndpoint, throwing_with. rewrite Hs. cbn -[truthy]. by destruct k; steady_tac.
Qed.

(** Asking for the endpoint raises, and the socket is closed, or goes on; the program is as it was. *)
Lemma remote_then {R} (c : StreamSocket) k o (f : NetworkEndpoint → prog asio app R) (a : app (B := B)) (K : world asio) t
    (Q : Prelude.run asio app R → Prop) :
  ss_pimpl c = Some (k, o) →
  (∀ e t', Q (Run (Raise e) a t')) → (∀ ep t', Q (f ep K a t')) →
  Q ((ep ← unwind (on_mem (getRemoteEndpoint junk c)) (destroy_channel c); f ep) K a t).
Proof.
  intros Hs Hraise Hret. rewrite bind_run. unfold unwind, on_mem, zoom. destruct a as [h S C n]. cbn [mem sessions closures NbSessions].
  destruct (remote_steady c k o Hs K h t) as [Hst Ho].
  destruct (getRemoteEndpoint junk c K h t) as [[ep|e|u] h' t']; cbn in Hst, Ho; subst; [done| |by destruct (Ho u)].
  unfold destroy_channel. rewrite Hs. apply Hraise.
Qed.

(** A new connection: the program as it was, with the exception that says that the endpoint of
    the peer is not known; or a session with a read under way; or one that is gone again. *)
Lemma connection_run inBuf outBuf (c : StreamSocket) k o (h : heap B) S C n (K : world asio) (t : trace asio) :
  ss_pimpl c = Some (k, o) →
  let a := App h S C n in
  let sid := Datatypes.S (Datatypes.S (fresh h)) in
  let r := onNewConnection junk inBuf outBuf c K a t in
  (∃ e, out r = Raise e ∧ st r = a) ∨
  ∃ ep u bufs t',
    let s := MkSession c ep outBuf (fresh h) (Datatypes.S (fresh h)) in
    let h' := Heap bufs (promises h) (continuations h) (servers h) (waiting h) (ready h) (peers h) (Datatypes.S sid) in
    r = Run (Ret tt) (go_on sid s k u h' (<[sid := s]> S) C (u32 (n + 1))) t' ∧
    u ≠ Writing ∧ ready_for s inBuf u bufs ∧ (∀ d, (d < fresh h)%nat → bufs !! d = buffers h !! d).
Proof.
  intros Hs. cbn zeta. unfold onNewConnection, create. set (a := App _ _ _ _).
  set (Q := λ r : Prelude.run asio app unit, (∃ e, out r = Raise e ∧ st r = a) ∨ ∃ ep u bufs t',
    r = Run (Ret tt) (go_on (Datatypes.S (Datatypes.S (fresh h))) (MkSession c ep outBuf (fresh h) (Datatypes.S (fresh h))) k u
      (Heap bufs (promises h) (continuations h) (servers h) (waiting h) (ready h) (peers h) (Datatypes.S (Datatypes.S (Datatypes.S (fresh h)))))
      (<[Datatypes.S (Datatypes.S (fresh h)) := MkSession c ep outBuf (fresh h) (Datatypes.S (fresh h))]> S) C (u32 (n + 1))) t' ∧
    u ≠ Writing ∧ ready_for (MkSession c ep outBuf (fresh h) (Datatypes.S (fresh h))) inBuf u bufs ∧
    (∀ d, (d < fresh h)%nat → bufs !! d = buffers h !! d)).
  apply (remote_then c k o _ a K t Q Hs); [intros; left; by eexists|].
  intros ep t1. rewrite bind_perform, bind_assoc.
  apply (remote_then c k o _ a K _ Q Hs); [intros; left; by eexists|].
  intros ep2 t2. set (sid := Datatypes.S (Datatypes.S (fresh h))). set (s := MkSession c ep2 outBuf (fresh h) (Datatypes.S (fresh h))).
  set (bufs := <[Datatypes.S (fresh h) := wrapMemory inBuf 10]> (<[fresh h := wrapMemory outBuf 21]> (buffers h))).
  set (h' := Heap bufs (promises h) (continuations h) (servers h) (waiting h) (ready h) (peers h) (Datatypes.S sid)).
  change (Q (doRead sid K (App h' (<[sid := s]> S) C (u32 (n + 1))) t2)).
  assert (Hr : bufs !! fresh h = Some (wrapMemory outBuf 21)) by (unfold bufs; rewrite lookup_insert_ne, lookup_insert_eq by lia; done).
  assert (Hlow : ∀ d, (d < fresh h)%nat → bufs !! d = buffers h !! d) by (intros d Hd; unfold bufs; by rewrite !lookup_insert_ne by lia).
  rewrite (doRead_run sid s inBuf k o Hs (wrapMemory inBuf 10)); [|apply lookup_insert_eq|apply lookup_insert_eq|apply clear_wrap].
  right. exists ep2. case_match; [case_match|]; [exists Gone, bufs|exists Reading, (<[Datatypes.S (fresh h) := wrapMemory inBuf 10]> bufs)|exists Gone, bufs];
    eexists; (split; [reflexivity|split_and!; try done]).
  - cbn. rewrite lookup_insert_eq, lookup_insert_ne by lia. done.
  - intros d Hd. rewrite lookup_insert_ne by lia. by apply Hlow.
Qed.

End Connection.

(** ** On an input *)

#[local] Existing Instances LetterInet.inet Concrete.string_ops Concrete.error_ops Concrete.view_ops Concrete.writer_stream
  Concrete.writer_ops Concrete.view_laws Concrete.writer_stream_laws Concrete.writer_laws.

(** The socket is open; what it is asked to transfer is never asked twice. *)
Definition demo_peer : world asio := asio_world (λ R _ op, match op in asio R return option R with is_open _ => Some true | _ => None end).

Definition demo_session : session := MkSession (createUnixSocket_from 1 9) (NE_Unix (MkUnix "")) 200 0 1.

(** The program with this session, which waits for its first read. *)
Definition demo_program : app (B := Concrete.writer) :=
  App (Heap {[0%nat := wrapMemory 200 21; 1%nat := wrapMemory 100 10]} {[3%nat := Pending]} ∅ ∅
         {[4%nat := H_transfer_always "asyncRead" 1 3]} [] ∅ 5)
    {[2%nat := demo_session]} {[3%nat := AfterRead 2]} 1.

(** It is what a peer that connects to the idle program gets. *)
Example demo_connects :
  st (onNewConnection [] 100 200 (createUnixSocket_from 1 9) demo_peer (App (Heap ∅ ∅ ∅ ∅ ∅ [] ∅ 0) ∅ ∅ 0) []) = demo_program.
Proof. vm_compute. reflexivity. Qed.

(** Seven bytes are read and answered; then the peer closes the connection. *)
Lemma session_dialog_witness :
  let cs := [Completion 0 7 0 0; Completion 0 21 0 0; Completion 2 0 0 0] in
  let r := serve [] (λ _, ""%string) (λ _, ""%string) cs demo_peer demo_program [] in
  out r = Ret tt ∧ NbSessions (st r) = 0 ∧
  dialog 100 200 1 9 "Session from  closed" (λ _, "Failed to write respoce: "%string) demo_peer Reading [] cs Gone (tr r).
Proof.
  intros cs r.
  destruct (session_dialog [] (λ _, ""%string) (λ _, ""%string) 2 demo_session 100 K_local_stream_socket 9 ltac:(done) ltac:(done) cs Reading demo_program demo_peer [])
    as (Ho & u' & Hp & Hd).
  - by apply (phase_on 2 demo_session 100 K_local_stream_socket Reading 3 4).
  - repeat constructor; discriminate.
  - fold cs in Ho, Hp, Hd. fold r in Ho, Hp, Hd. apply phase_count in Hp.
    assert (NbSessions (st r) = 0) as Hn by (vm_compute; reflexivity).
    rewrite Hn in Hp. split; [exact Ho|]. split; [exact Hn|]. destruct u'; [discriminate..|exact Hd].
Defined.
