(* ===== verification/EchoContents.v ===== *)
(** * What the echo server answers

    A session of the echo server with the contents of its buffers: what Asio reads is stored, the
    encoder writes its digits, and the bytes that are sent are compared with those that were
    received. *)
From stdpp Require Import gmap.
From S2P Require Import Prelude Memory Solace IPAddress Asio AsyncObjects StreamSockets AsyncServer EchoServer.

Section Wire.
Context (hex : Z → list Z) (inBuf outBuf : Z) (loop o : obj) (line : string) (complaint : Z → string) (K : world asio).

(** The memory, and the messages that were sent. *)
Record peer := Peer { contents : ram; sent : list (list Z) }.

(** The text of bytes: the digits of each. *)
Definition digits (bs : list Z) : list Z := concat (map hex bs).

(** The encoder writes as many characters as it answers, a stored byte is stored, and a write that
    is started sends a run of the memory. *)
Definition effect (e : Prelude.event asio) (p : peer) : peer :=
  match ev_op e in asio T return T → peer with
  | base16_encode src n dst _ => λ m,
      Peer (store dst (take (Z.to_nat m) (digits (load src n (contents p)))) (contents p)) (sent p)
  | store_byte addr value => λ _, Peer (store addr [value] (contents p)) (sent p)
  | start o' (async_write addr size) _ => λ _,
      if decide (o' = o) then Peer (contents p) (sent p ++ [load addr size (contents p)]) else p
  | _ => λ _, p
  end (ev_res e).

Definition after (t : trace asio) (p : peer) : peer := foldr effect p t.

(** A read that completes has stored its bytes. *)
Definition arrive (u : turn) (bs : list Z) (p : peer) : peer :=
  match u with Reading => Peer (store inBuf bs (contents p)) (sent p) | _ => p end.

(** The bytes of a read that succeeded are heard. *)
Definition heard (u : turn) (c : completion) (bs : list Z) (ds : list (list Z)) : list (list Z) :=
  match u with Reading => if truthy (c_error c) then ds else bs :: ds | _ => ds end.

Abbreviation exchange := (exchange inBuf outBuf loop o line complaint K).

(** The dialog, each completion with the bytes it brings: the turn, the calls and the memory before
    and after, and the bytes that were heard. *)
Inductive conversation : turn → trace asio → peer → list (completion * list Z) →
    list (list Z) → turn → trace asio → peer → Prop :=
  | conversation_done u t p : conversation u t p [] [] u t p
  | conversation_gone t p c bs cs : conversation Gone t p ((c, bs) :: cs) [] Gone t p
  | conversation_next u t p c bs new u1 cs ds u' t' p' :
      exchange c u t u1 (new ++ t) →
      conversation u1 (new ++ t) (after new (arrive u bs p)) cs ds u' t' p' →
      conversation u t p ((c, bs) :: cs) (heard u c bs ds) u' t' p'.

(** ** The answers *)

(** The answer to [d] where [old] was the answer before: its digits, a newline, and what is left of
    the old one. *)
Definition answer (d old : list Z) : list Z := digits d ++ [10] ++ drop (S (length (digits d))) old.

Fixpoint answers (old : list Z) (ds : list (list Z)) : list (list Z) :=
  match ds with [] => [] | d :: ds' => answer d old :: answers (answer d old) ds' end.

(** Each byte has two digits, the encoder writes as many as fit, and the buffers are apart. *)
Context (hex_two : ∀ b, length (hex b) = 2%nat).
Context (Hbase16 : ∀ t src n dst cap, K _ t (base16_encode src n dst cap) = Z.min (2 * n) cap).
Context (Hapart : inBuf + 10 ≤ outBuf ∨ outBuf + 21 ≤ inBuf).

Lemma length_digits bs : length (digits bs) = (2 * length bs)%nat.
Proof. unfold digits. induction bs as [|b bs IH]; [done|]. cbn. rewrite length_app, hex_two, IH. lia. Qed.

Lemma arrive_output u bs p :
  (length bs ≤ 10)%nat → load outBuf 21 (contents (arrive u bs p)) = load outBuf 21 (contents p).
Proof. intros Hl. destruct u; [|done..]. apply load_store_apart. lia. Qed.

(** The calls of an answer, on the bytes that arrived. *)
Lemma answering_effect bs id t p new :
  (length bs ≤ 10)%nat → answering inBuf outBuf o K (Z.of_nat (length bs)) id t = new ++ t →
  let p' := arrive Reading bs p in
  let ans := answer bs (load outBuf 21 (contents p)) in
  sent (after new p') = sent p ++ [ans] ∧ load outBuf 21 (contents (after new p')) = ans.
Proof.
  intros Hl Hnew. cbn zeta. rewrite <- (arrive_output Reading bs p Hl). cbn [arrive contents sent].
  unfold answering in Hnew. rewrite Hbase16 in Hnew.
  pose proof (length_digits bs) as Hd. rewrite Z.min_l in Hnew by lia. destruct (Z.ltb_spec (2 * Z.of_nat (length bs)) 21); [|lia].
  unfold call in Hnew. apply (app_inv_tail _ [_; _; _]) in Hnew as <-. unfold after, effect. cbn -[load store digits Z.mul Z.of_nat].
  rewrite decide_True by done. cbn -[load store digits Z.mul Z.of_nat].
  rewrite load_store_all, take_ge by (rewrite Hd; lia). set (m := store inBuf bs (contents p)). set (old := load outBuf 21 m).
  assert (Hans : load outBuf 21 (store (outBuf + 2 * Z.of_nat (length bs)) [10] (store outBuf (digits bs) m)) = answer bs old).
  { replace (2 * Z.of_nat (length bs)) with (Z.of_nat (length (digits bs))) by lia.
    rewrite load_store by (cbn [length]; lia). rewrite load_store_start by lia. fold old. unfold answer.
    rewrite take_app_length. f_equal. cbn [length]. rewrite drop_app_add. rewrite drop_drop. f_equal. f_equal. lia. }
  split; [|exact Hans]. by rewrite Hans.
Qed.

(** The bytes that a completion brings are as many as the session takes it to have received. *)
Definition brings (x : completion * list Z) : Prop := 0 ≤ c_length x.1 ∧ Z.of_nat (length x.2) = received x.1.

(** No call but those of an answer sends anything or touches the buffer of the answers. *)
Lemma exchange_effect u t u1 new c bs p :
  exchange c u t u1 (new ++ t) → brings (c, bs) →
  let ds := heard u c bs [] in
  let out := load outBuf 21 (contents p) in
  let p1 := after new (arrive u bs p) in
  sent p1 = sent p ++ answers out ds ∧ load outBuf 21 (contents p1) = foldl (λ old d, answer d old) out ds.
Proof.
  intros Hex [Hc Hl]. cbn in Hl, Hc. cbn zeta.
  assert (Hbs : (length bs ≤ 10)%nat) by (unfold received in Hl; destruct (Z.leb_spec (c_length c) 10); lia).
  rewrite <- (arrive_output u bs p Hbs).
  assert (Hquiet : ∀ new', Forall (λ e, effect e = λ p, p) new' → after new' (arrive u bs p) = arrive u bs p).
  { induction 1 as [|e l He _ IH]; [done|]. cbn. fold (after l (arrive u bs p)). by rewrite IH, He. }
  assert (Hsent : sent (arrive u bs p) = sent p) by by destruct u.
  inversion Hex; subst; match goal with H : _ = new ++ t |- _ => rename H into Hnew end;
    match goal with H : truthy (c_error c) = _ |- _ => rename H into Herr end; unfold heard; rewrite ?Herr; cbn [answers foldl].
  2: { destruct (answering_effect bs id t p new Hbs) as [H1 H2].
    - by rewrite Hl, <- Hnew.
    - rewrite (arrive_output Reading bs p Hbs). by split. }
  all: rewrite app_nil_r, Hquiet; [done|]; unfold closing, call in Hnew.
  - apply (app_inv_tail _ [_; _]) in Hnew as <-. by repeat constructor.
  - apply (app_inv_tail _ [_; _; _]) in Hnew as <-. by repeat constructor.
  - apply (app_inv_tail _ [_; _; _]) in Hnew as <-. by repeat constructor.
  - apply (app_inv_tail _ [_; _; _; _]) in Hnew as <-. by repeat constructor.
  - apply (app_inv_tail _ [_; _; _]) in Hnew as <-. by repeat constructor.
Qed.

Lemma answers_app out ds ds' : answers out (ds ++ ds') = answers out ds ++ answers (foldl (λ old d, answer d old) out ds) ds'.
Proof. revert out. induction ds as [|d ds IH]; intros out; [done|]. cbn. by rewrite IH. Qed.

Lemma heard_app u c bs ds : heard u c bs ds = heard u c bs [] ++ ds.
Proof. destruct u; cbn; try case_match; done. Qed.

(** What is sent are the answers to what was heard. *)
Lemma conversation_answers u t p cs ds u' t' p' :
  conversation u t p cs ds u' t' p' → Forall brings cs →
  sent p' = sent p ++ answers (load outBuf 21 (contents p)) ds.
Proof.
  induction 1 as [| |u t p c bs new u1 cs ds u' t' p' Hex _ IH]; intros Hcs; [by rewrite app_nil_r..|].
  inversion Hcs as [|? ? Hb Hcs']; subst.
  destruct (exchange_effect u t u1 new c bs p Hex Hb) as [Hs Ho]. rewrite heard_app, IH, Hs, Ho by done.
  by rewrite <- app_assoc, <- answers_app.
Qed.

(** The answer to ten bytes fills the buffer. *)
Lemma answers_full out ds :
  length out = 21%nat → Forall (λ d, length d = 10%nat) ds → answers out ds = map (λ d, digits d ++ [10]) ds.
Proof.
  intros Ho Hds. revert out Ho. induction Hds as [|d ds Hd _ IH]; intros out Ho; [done|]. cbn [answers map].
  assert (Ha : answer d out = digits d ++ [10]).
  { unfold answer. rewrite drop_ge; [by rewrite app_nil_r|]. rewrite length_digits. lia. }
  rewrite Ha. f_equal. apply IH. rewrite length_app, length_digits, Hd. done.
Qed.

End Wire.

(** ** Properties *)

Section Answers.
Context {V B : Type} `{MemoryView V} `{!ByteStream B V} `{!ByteWriter B V}.
Context `{!MemoryViewLaws V, !ByteStreamLaws B V, !ByteWriterLaws B V}.
Context `{!Inet, !StringOps, !ErrorOps} (junk : list Z) (error_text : Error → string) (number_text : Z → string).
Context (sid : nat) (s : session) (inBuf : Z) (k : object_kind) (o : obj).
Context (Hsock : ss_pimpl (channel s) = Some (k, o)) (Hbufs : reader s ≠ writer s).
Context (hex : Z → list Z) (K : world asio).

Abbreviation complaint :=
  (λ code, makeString ["Failed to write respoce: "%string; error_text (MkError "pasy" code "asyncWrite")]).
Abbreviation closed_line :=
  (makeString ["Session from "%string; endpoint_line (remoteEndpoint s); " closed"%string]).
Abbreviation conversation :=
  (conversation hex inBuf (outBuffer s) (ss_ioContext (channel s)) o closed_line complaint K).

Lemma exchange_extends c u t u1 t1 :
  exchange inBuf (outBuffer s) (ss_ioContext (channel s)) o closed_line complaint K c u t u1 t1 → ∃ new, t1 = new ++ t.
Proof.
  intros Hex. inversion Hex; subst; unfold closing, answering, call; try case_match;
    first [eexists [_; _]; reflexivity|eexists [_; _; _]; reflexivity|eexists [_; _; _; _]; reflexivity].
Qed.

Lemma serve_converses cs u (a : app (B := B)) t p :
  phase sid s inBuf k u a → Forall brings cs →
  let r := serve junk error_text number_text (map fst cs) K a t in
  out r = Ret tt ∧ ∃ u' ds p', phase sid s inBuf k u' (st r) ∧ conversation u t p cs ds u' (tr r) p'.
Proof.
  cbn zeta. intros Hph Hcs. revert u a t p Hph. induction Hcs as [|[c bs] cs [Hc _] Hcs IH]; intros u a t p Hph.
  { split; [done|]. exists u, [], p. split; [done|constructor]. }
  cbn [map]. cbn in Hc.
  destruct (phase_step junk error_text number_text sid s inBuf k o Hsock Hbufs u a c K t Hph Hc)
    as [->|(id & hd & u1 & a1 & t1 & Hw & Hrun & Hph1 & Hex)].
  { inversion Hph; subst; [done|]. split; [done|]. exists Gone, [], p. split; [done|constructor]. }
  destruct (exchange_extends c u t u1 t1 Hex) as [new ->].
  destruct (IH u1 a1 (new ++ t) (after hex o new (arrive inBuf u bs p)) Hph1) as (Ho & u' & ds & p' & Hp & Hd).
  cbn [fst serve]. rewrite bind_get, Hw, map_to_list_singleton.
  rewrite <- bind_assoc, bind_run, Hrun. split; [done|]. exists u', (heard u c bs ds), p'. split; [done|]. by eapply conversation_next.
Qed.

(** C20.  What the peers of the echo server get.  Whatever the bytes that arrive and whatever the
    buffers held before, the messages that a session sends are the answers to the reads that
    succeeded, one for each and in order, and nothing else.  When every read that succeeds fills
    its buffer, as Asio's [async_read] does, each message is exactly the hexadecimal text of the ten
    bytes it answers and a newline.  If it could bring fewer, the rest of the message would be what
    the answer before left in the buffer. *)
Theorem echo_answers cs u (a : app (B := B)) (t : trace asio) (p : peer) :
  (∀ b, length (hex b) = 2%nat) →
  (∀ t' src n dst cap, K _ t' (base16_encode src n dst cap) = Z.min (2 * n) cap) →
  inBuf + 10 ≤ outBuffer s ∨ outBuffer s + 21 ≤ inBuf →
  phase sid s inBuf k u a → Forall brings cs →
  let r := serve junk error_text number_text (map fst cs) K a t in
  out r = Ret tt ∧
  ∃ u' ds p', conversation u t p cs ds u' (tr r) p' ∧
    sent p' = sent p ++ answers hex (load (outBuffer s) 21 (contents p)) ds ∧
    (Forall (λ d, length d = 10%nat) ds → sent p' = sent p ++ map (λ d, digits hex d ++ [10]) ds).
Proof.
  cbn zeta. intros Hhex Hbase Hapart Hph Hcs.
  destruct (serve_converses cs u a t p Hph Hcs) as (Ho & u' & ds & p' & _ & Hc). split; [done|].
  exists u', ds, p'. split; [done|].
  pose proof (conversation_answers hex _ _ _ _ _ _ K Hhex Hbase Hapart u t p cs ds u' _ p' Hc Hcs) as Hs.
  split; [done|]. intros Hd. rewrite Hs. f_equal. apply answers_full; [done| |done]. by rewrite length_load.
Qed.

End Answers.

(** ** On an input *)

#[local] Existing Instances LetterInet.inet Concrete.string_ops Concrete.error_ops Concrete.view_ops Concrete.writer_stream
  Concrete.writer_ops Concrete.view_laws Concrete.writer_stream_laws Concrete.writer_laws.

Definition demo_hex (b : Z) : list Z := let d n := if n <? 10 then 48 + n else 87 + n in [d (b / 16); d (b mod 16)].

(** The socket of [demo_session] is open, and the encoder fills what it is given. *)
Definition demo_wire : world asio :=
  asio_world (λ R _ op, match op in asio R return option R with
    | is_open _ => Some true
    | base16_encode _ n _ cap => Some (Z.min (2 * n) cap)
    | _ => None end).

(** Ten letters are read and answered; then the peer closes the connection. *)
Lemma echo_answers_witness :
  let cs := [(Completion 0 10 0 0, [97; 98; 99; 100; 101; 102; 103; 104; 105; 106]); (Completion 0 21 0 0, []); (Completion 2 0 0 0, [])] in
  let r := serve [] (λ _, ""%string) (λ _, ""%string) (map fst cs) demo_wire demo_program [] in
  out r = Ret tt ∧ ∃ u' ds p',
    conversation demo_hex 100 200 1 9 "Session from  closed" (λ _, "Failed to write respoce: "%string) demo_wire
      Reading [] (Peer (λ _, 0) []) cs ds u' (tr r) p' ∧
    sent p' = answers demo_hex (load 200 21 (λ _, 0)) ds.
Proof.
  intros cs r.
  destruct (echo_answers [] (λ _, ""%string) (λ _, ""%string) 2 demo_session 100 K_local_stream_socket 9 ltac:(done) ltac:(done)
    demo_hex demo_wire cs Reading demo_program [] (Peer (λ _, 0) [])) as (Ho & u' & ds & p' & Hc & Hs & _).
  - done.
  - done.
  - left. done.
  - by apply (phase_on 2 demo_session 100 K_local_stream_socket Reading 3 4).
  - repeat constructor; done.
  - split; [exact Ho|]. exists u', ds, p'. split; [exact Hc|exact Hs].
Defined.
