(* ===== verification/EchoProgram.v ===== *)
(** * The echo server as a program

    examples/async_server.cpp while its loop runs: [main] has started a server and waits for a
    signal, and the operations of the sessions of all its peers complete in any order while further
    peers connect. *)
From stdpp Require Import gmap relations.
From S2P Require Import Prelude Solace IPAddress Asio AsyncObjects StreamSockets Acceptors AsyncServer EchoServer.

Section Program.
Context {V B : Type} `{MemoryView V} `{!ByteStream B V} `{!ByteWriter B V}.
Context `{!Inet, !StringOps, !ErrorOps} (en : endian) (junk : list Z).
Context (error_text : Error → string) (number_text : Z → string).

(** From the server to the wait for a signal, on a loop with the context [ctx]; the server and
    the signals. *)
Definition set_up (ctx : obj) (ipEndpoint : IPEndpoint) : prog asio (app (B := B)) (nat * SignalSet.SignalSet) :=
  server ← on_mem (AsyncServer.create ctx true);
  listening ← on_mem (startListen en server (NE_IP ipEndpoint));
  _ ← perform (print match listening with
        | Ok _ => makeString ["Server listening at "%string; IPEndpoint_toString ipEndpoint]
        | Err e => error_text e
        end);
  sigs ← on_mem (SignalSet.create (EventLoop.create ctx) [2; 15]);
  pm ← on_mem (SignalSet.asyncWait sigs);
  _ ← modify (upd_closures <[pm := AfterSignal server ctx]>);
  mret (server, sigs).

(** [AsyncServer]'s continuation on an accepted socket, with the callback of this program in the
    place of [call_accept_handler]. *)
Definition accepted (place : Z * Z) (srv : nat) (socket : StreamSocket) : prog asio (app (B := B)) unit :=
  s ← on_mem (server_at srv);
  _ ← (if srv_handler s then onNewConnection junk place.1 place.2 socket else mret tt);
  opened ← on_mem (Acceptor.isOpen (server_acceptor s));
  _ ← (if opened : bool then on_mem (doAcceptSession srv) else mret tt);
  if srv_handler s then mret tt else destroy_channel socket.

(** The operation [id] is completed; if a session is allocated, its buffers are at [place]. *)
Definition delivered (place : Z * Z) (id : nat) (hd : handler) (c : completion) : prog asio (app (B := B)) unit :=
  _ ← on_mem (modify (upd_waiting (delete id)));
  match hd with
  | H_accept kind loop pm =>
      if truthy (c_error c) then completed junk error_text number_text hd c
      else
        let socket := match kind with
          | K_local_acceptor => createUnixSocket_from loop (c_peer c)
          | _ => createTCPSocket_from loop (c_peer c)
          end in
        _ ← on_mem (setValue pm (VSocket socket));
        a ← get;
        match continuations (mem a) !! pm with
        | Some srv => accepted place srv socket
        | None => mret tt
        end
  | _ => completed junk error_text number_text hd c
  end.

Definition pstate : Type := app (B := B) * trace asio.

(** The program runs: any operation under way completes, with anything.  An exception leaves
    [EventLoop::run], and with it the program. *)
Inductive pstep (K : world asio) : pstate → pstate → Prop :=
  | p_complete place id hd c a t :
      waiting (mem a) !! id = Some hd → 0 ≤ c_length c →
      let r := delivered place id hd c K a t in
      out r = Ret tt → pstep K (a, t) (st r, tr r).

(** ** The invariant *)

(** A session, and what it waits for. *)
Record task := Task {
  t_session : session;
  t_inBuf : Z;
  t_kind : object_kind;
  t_obj : obj;
  t_turn : turn;
  t_pm : nat;
  t_id : nat }.

Definition task_ok (sid : nat) (x : task) (a : app (B := B)) : Prop :=
  let s := t_session x in
  ss_pimpl (channel s) = Some (t_kind x, t_obj x) ∧ reader s ≠ writer s ∧ t_turn x ≠ Gone ∧
  ready_for s (t_inBuf x) (t_turn x) (buffers (mem a)) ∧
  waiting (mem a) !! t_id x = Some (operation s (t_kind x) (t_turn x) (t_pm x)) ∧
  closures a !! t_pm x = Some (awaiting sid (t_turn x)) ∧ continuations (mem a) !! t_pm x = None ∧
  (reader s < fresh (mem a))%nat ∧ (writer s < fresh (mem a))%nat.

(** An operation of [main]: an accept, or the wait for a signal. *)
Definition own_ok (srv : nat) (ctx : obj) (hd : handler) (a : app (B := B)) : Prop :=
  match hd with
  | H_accept _ _ pm => closures a !! pm = None ∧ continuations (mem a) !! pm = Some srv
  | H_signal pm =>
      (closures a !! pm = Some (AfterSignal srv ctx) ∨ closures a !! pm = None) ∧ continuations (mem a) !! pm = None
  | _ => False
  end.

Definition apart (x y : task) : Prop :=
  let s := t_session x in let s' := t_session y in
  reader s ≠ reader s' ∧ reader s ≠ writer s' ∧ writer s ≠ reader s' ∧ writer s ≠ writer s'.

Record running (srv : nat) (ctx acceptor : obj) (T : gmap nat task) (a : app (B := B)) : Prop := {
  r_sessions : sessions a = t_session <$> T;
  r_count : NbSessions a = u32 (Z.of_nat (size T));
  r_server : servers (mem a) !! srv = Some (Server ctx (Some (K_tcp_acceptor, acceptor)) true);
  r_task sid x : T !! sid = Some x → task_ok sid x a;
  r_apart sid x sid' x' : T !! sid = Some x → T !! sid' = Some x' → sid ≠ sid' → apart x x';
  r_waiting id hd : waiting (mem a) !! id = Some hd → (∃ sid x, T !! sid = Some x ∧ t_id x = id) ∨ own_ok srv ctx hd a;
  r_closures pm cl : closures a !! pm = Some cl → (∃ sid x, T !! sid = Some x ∧ t_pm x = pm) ∨ cl = AfterSignal srv ctx;
  r_fresh_sid sid : is_Some (T !! sid) → (sid < fresh (mem a))%nat;
  r_fresh_id id hd : waiting (mem a) !! id = Some hd → (id < fresh (mem a))%nat ∧ (handler_promise hd < fresh (mem a))%nat;
  r_fresh_closure pm : is_Some (closures a !! pm) → (pm < fresh (mem a))%nat;
  r_fresh_continuation pm : is_Some (continuations (mem a) !! pm) → (pm < fresh (mem a))%nat }.

End Program.

Section Invariant.
Context {V B : Type} `{MemoryView V} `{!ByteStream B V} `{!ByteWriter B V}.
Context (srv : nat) (ctx acceptor : obj).

Abbreviation running := (running srv ctx acceptor).

(** The memory may grow, away from what the sessions use. *)
Lemma running_mem T h h' S C n :
  running T (App (B := B) h S C n) →
  (∀ d, (d < fresh h)%nat → buffers h' !! d = buffers h !! d) → servers h' = servers h →
  waiting h' = waiting h → continuations h' = continuations h → (fresh h ≤ fresh h')%nat →
  running T (App h' S C n).
Proof.
  intros [] Hb Hs Hw Hc Hf. cbn in *. split; cbn; rewrite ?Hs, ?Hw, ?Hc; try done.
  - intros sid x Hx. destruct (r_task0 sid x Hx) as (? & ? & Hu & Hr & ? & ? & ? & Hrd & Hwr). cbn in *.
    unfold task_ok; cbn. rewrite Hw, Hc. split_and!; try done; try lia.
    destruct (t_turn x); cbn in Hr |- *; rewrite ?Hb by lia; done.
  - intros id hd [?|Ho]%r_waiting0; [by left|right]. destruct hd; cbn in *; by rewrite ?Hc.
  - intros sid ?%r_fresh_sid0. lia.
  - intros id hd ?%r_fresh_id0. lia.
  - intros pm ?%r_fresh_closure0. lia.
  - intros pm ?%r_fresh_continuation0. lia.
Qed.

Lemma operation_promise s k u pm : handler_promise (operation s k u pm) = pm.
Proof. by destruct u, k. Qed.

Lemma u32_pred n : u32 (u32 (Z.of_nat (S n)) - 1) = u32 (Z.of_nat n).
Proof. unfold u32, wrap_unsigned. rewrite Zminus_mod_idemp_l. f_equal. lia. Qed.

Lemma u32_succ n : u32 (u32 (Z.of_nat n) + 1) = u32 (Z.of_nat (S n)).
Proof. unfold u32, wrap_unsigned. rewrite Zplus_mod_idemp_l. f_equal. lia. Qed.

(** A session of which nothing is under way any more, with its buffers changed. *)
Lemma running_remove T sid x bufs p a :
  running T a → T !! sid = Some x → same_elsewhere (t_session x) (buffers (mem a)) bufs →
  running (delete sid T)
    (App (resolved (t_id x) (t_pm x) p bufs (mem (B := B) a)) (delete sid (sessions a)) (delete (t_pm x) (closures a)) (u32 (NbSessions a - 1))).
Proof.
  intros [] Hx Hsame. pose proof (r_task0 sid x Hx) as (_ & _ & _ & _ & Hw & Hcl & Hco & _).
  assert (Hids : ∀ sid' x', T !! sid' = Some x' → sid' ≠ sid → t_pm x' ≠ t_pm x ∧ t_id x' ≠ t_id x).
  { intros sid' x' Hx' Hne. pose proof (r_task0 sid' x' Hx') as (_ & _ & _ & _ & Hw' & Hcl' & _).
    assert (t_pm x' ≠ t_pm x) as Hpm.
    { intros Heq. rewrite Heq, Hcl in Hcl'. apply Hne. by destruct (t_turn x), (t_turn x'); injection Hcl'. }
    split; [done|]. intros Heq. rewrite Heq, Hw in Hw'. injection Hw' as Hop. apply Hpm.
    apply (f_equal handler_promise) in Hop. by rewrite !operation_promise in Hop. }
  split; cbn.
  - by rewrite r_sessions0, fmap_delete.
  - rewrite r_count0. assert (size T = S (size (delete sid T))) as ->.
    { rewrite map_size_delete_Some by eauto. assert (size T ≠ 0%nat); [|lia]. intros ?%map_size_empty_inv. by simplify_map_eq. }
    apply u32_pred.
  - done.
  - intros sid' x' [Hne Hx']%lookup_delete_Some. destruct (Hids sid' x' Hx') as [Hpm Hid]; [done|].
    destruct (r_apart0 sid' x' sid x Hx' Hx) as (A1 & A2 & A3 & A4); [done|].
    destruct (r_task0 sid' x' Hx') as (? & ? & ? & Hr & ? & ? & ? & ? & ?). unfold task_ok; cbn.
    rewrite !lookup_delete_ne by done. split_and!; try done.
    destruct (t_turn x'); cbn in Hr |- *; rewrite ?Hsame by done; done.
  - intros s1 x1 s2 x2 [_ H1]%lookup_delete_Some [_ H2]%lookup_delete_Some. eauto.
  - intros id hd [Hne Hid]%lookup_delete_Some. destruct (r_waiting0 id hd Hid) as [(s1 & x1 & H1 & <-)|Ho].
    + left. exists s1, x1. split; [|done]. apply lookup_delete_Some. split; [intros ->; congruence|done].
    + right. destruct hd; cbn in Ho |- *; try done; destruct Ho as [Ho ?]; split; try done.
      * rewrite lookup_delete_ne; [done|]. intros <-. rewrite Hcl in Ho. by destruct (t_turn x), Ho.
      * by apply lookup_delete_None; right.
  - intros pm cl [Hne Hpm]%lookup_delete_Some. destruct (r_closures0 pm cl Hpm) as [(s1 & x1 & H1 & <-)|Ho]; [left|by right].
    exists s1, x1. split; [|done]. apply lookup_delete_Some. split; [intros ->; congruence|done].
  - intros s1. rewrite lookup_delete_is_Some. intros [_ ?]. eauto.
  - intros id hd [_ ?]%lookup_delete_Some. eauto.
  - intros pm. rewrite lookup_delete_is_Some. intros [_ ?]. eauto.
  - done.
Qed.

(** What a session that goes on adds to the memory. *)
Definition with_operation (hd : nat → handler) (h : heap B) : heap B :=
  Heap (buffers h) (<[fresh h := Pending]> (promises h)) (continuations h) (servers h)
    (<[S (fresh h) := hd (fresh h)]> (waiting h)) (ready h) (peers h) (S (S (fresh h))).

Lemma go_on_eq sid s k u (h : heap B) S C n :
  u ≠ Gone → go_on sid s k u h S C n = App (with_operation (operation s k u) h) S (<[fresh h := awaiting sid u]> C) n.
Proof. by destruct u. Qed.

(** An operation of [main], or of a session, is started: the others keep what they have. *)
Lemma task_ok_started sid x hd h S C n cl S' n' :
  (∀ id hd, waiting h !! id = Some hd → (id < fresh h)%nat ∧ (handler_promise hd < fresh h)%nat) → (∀ pm, is_Some (C !! pm) → (pm < fresh h)%nat) →
  task_ok sid x (App h S C n) →
  task_ok sid x (App (with_operation hd h) S' (<[fresh h := cl]> C) n').
Proof.
  intros Hfw Hfc (? & ? & ? & ? & Hw & Hcl & ? & ? & ?). cbn in *.
  pose proof (Hfw _ _ Hw). pose proof (Hfc _ (mk_is_Some _ _ Hcl)).
  unfold task_ok; cbn. rewrite !lookup_insert_ne by lia. split_and!; try done; lia.
Qed.

Lemma running_add T sid s inBuf k o u h S C n :
  running T (App (B := B) h S C n) → T !! sid = None → (sid < fresh h)%nat → u ≠ Gone →
  ss_pimpl (channel s) = Some (k, o) → reader s ≠ writer s → (reader s < fresh h)%nat → (writer s < fresh h)%nat →
  ready_for s inBuf u (buffers h) →
  let x := Task s inBuf k o u (fresh h) (Datatypes.S (fresh h)) in
  (∀ sid' x', T !! sid' = Some x' → apart x x') →
  running (<[sid := x]> T) (go_on sid s k u h (<[sid := s]> S) C (u32 (n + 1))).
Proof.
  intros [] HT Hsid Hu Hs Hrw Hr Hw Hready x Hapart. rewrite go_on_eq by done. cbn in *.
  assert (Hco : continuations h !! fresh h = None).
  { destruct (continuations h !! fresh h) eqn:E; [|done]. pose proof (r_fresh_continuation0 _ (mk_is_Some _ _ E)). lia. }
  assert (Hnp : ∀ id hd, waiting h !! id = Some hd → handler_promise hd ≠ fresh h) by (intros id hd ?%r_fresh_id0; lia).
  split; cbn.
  - by rewrite r_sessions0, fmap_insert.
  - rewrite r_count0, map_size_insert_None by done. apply u32_succ.
  - done.
  - intros sid' x' [[<- <-]|[Hn Hx']]%lookup_insert_Some; [|by eapply task_ok_started; eauto].
    unfold task_ok; cbn. rewrite !lookup_insert_eq. split_and!; try done; lia.
  - intros s1 x1 s2 x2 [[<- <-]|[Hn1 H1]]%lookup_insert_Some [[<- <-]|[Hn2 H2]]%lookup_insert_Some Hs12; try done; eauto.
    destruct (Hapart s1 x1 H1) as (? & ? & ? & ?). unfold apart. split_and!; congruence.
  - intros id hd [[<- <-]|[Hn Hid]]%lookup_insert_Some.
    + left. exists sid, x. by rewrite lookup_insert_eq.
    + destruct (r_waiting0 id hd Hid) as [(s1 & x1 & H1 & H2)|Ho].
      * left. exists s1, x1. split; [|done]. rewrite lookup_insert_ne; [done|]. intros ->. congruence.
      * right. destruct hd; cbn in Ho |- *; try done; destruct Ho as [Ho Ho2]; (split; [|done]).
        all: rewrite lookup_insert_ne; [done|]; specialize (Hnp _ _ Hid); cbn in Hnp; congruence.
  - intros pm cl [[<- <-]|[Hn Hpm]]%lookup_insert_Some; [left; exists sid, x; by rewrite lookup_insert_eq|].
    destruct (r_closures0 pm cl Hpm) as [(s1 & x1 & H1 & H2)|Ho]; [left|by right].
    exists s1, x1. split; [|done]. rewrite lookup_insert_ne; [done|]. intros ->. congruence.
  - intros s1 [->|[_ ?%r_fresh_sid0]]%lookup_insert_is_Some; lia.
  - intros id hd [[<- <-]|[_ ?%r_fresh_id0]]%lookup_insert_Some; rewrite ?operation_promise; lia.
  - intros pm [->|[_ ?%r_fresh_closure0]]%lookup_insert_is_Some; lia.
  - intros pm ?%r_fresh_continuation0. lia.
Qed.

(** An operation of [main] is over. *)
Lemma running_drop T id hd f C' h S C n :
  running T (App (B := B) h S C n) → waiting h !! id = Some hd → own_ok srv ctx hd (App h S C n) →
  (C' = C ∨ ∃ pm, C' = delete pm C ∧ C !! pm = Some (AfterSignal srv ctx)) →
  running T (App (upd_promises f (upd_waiting (delete id) h)) S C' n).
Proof.
  intros [] Hid Hown HC. cbn in *.
  assert (Hsub : ∀ pm cl, C' !! pm = Some cl → C !! pm = Some cl).
  { intros pm cl. destruct HC as [->|(pm' & -> & _)]; [done|]. by intros [_ ?]%lookup_delete_Some. }
  split; cbn; try done.
  - intros sid x Hx. destruct (r_task0 sid x Hx) as (? & ? & ? & ? & Hw & Hcl & ? & ? & ?). cbn in *.
    unfold task_ok; cbn. assert (id ≠ t_id x).
    { intros ->. rewrite Hw in Hid. injection Hid as <-. by destruct (t_turn x), (t_kind x). }
    rewrite lookup_delete_ne by done. split_and!; try done.
    destruct HC as [->|(pm & -> & Hpm)]; [done|]. rewrite lookup_delete_ne; [done|]. intros ->.
    rewrite Hcl in Hpm. by destruct (t_turn x).
  - intros id' hd' [Hne Hid']%lookup_delete_Some. destruct (r_waiting0 id' hd' Hid') as [?|Ho]; [by left|right].
    destruct hd'; cbn in Ho |- *; try done; destruct Ho as [Ho ?]; (split; [|done]).
    + destruct HC as [->|(pm' & -> & Hpm)]; [done|]. destruct (decide (pm' = pm)) as [->|].
      * right. apply lookup_delete_eq.
      * by rewrite lookup_delete_ne.
    + apply eq_None_not_Some. intros [cl Hcl%Hsub]. congruence.
  - eauto.
  - intros id' hd' [_ ?]%lookup_delete_Some. eauto.
  - intros pm [cl Hcl%Hsub]. apply r_fresh_closure0. by eexists.
Qed.

(** The next accept. *)
Lemma running_round T k o s h S C n :
  running T (App (B := B) h S C n) → running T (App (next_round k o s srv h) S C n).
Proof.
  intros []. cbn in *. split; cbn; try done.
  - intros sid x Hx. destruct (r_task0 sid x Hx) as (? & ? & ? & ? & Hw & Hcl & ? & ? & ?). cbn in *.
    destruct (r_fresh_id0 _ _ Hw). pose proof (r_fresh_closure0 _ (mk_is_Some _ _ Hcl)).
    unfold task_ok; cbn. rewrite !lookup_insert_ne by lia. split_and!; try done; lia.
  - intros id hd [[<- <-]|[_ Hid]]%lookup_insert_Some.
    + right. cbn. rewrite lookup_insert_eq. split; [|done]. apply eq_None_not_Some. intros ?%r_fresh_closure0. lia.
    + destruct (r_waiting0 id hd Hid) as [?|Ho]; [by left|right]. destruct (r_fresh_id0 _ _ Hid) as [_ Hpm].
      destruct hd; cbn in Ho, Hpm |- *; try done; by rewrite lookup_insert_ne by lia.
  - intros sid ?%r_fresh_sid0. lia.
  - intros id hd [[<- <-]|[_ ?%r_fresh_id0]]%lookup_insert_Some; cbn; lia.
  - intros pm ?%r_fresh_closure0. lia.
  - intros pm [->|[_ ?%r_fresh_continuation0]]%lookup_insert_is_Some; lia.
Qed.

(** A wait for a signal. *)
Lemma running_signal T h S C n :
  running T (App (B := B) h S C n) →
  running T (App (with_operation H_signal h) S (<[fresh h := AfterSignal srv ctx]> C) n).
Proof.
  intros []. cbn in *. split; cbn; try done.
  - intros sid x Hx. eapply task_ok_started; eauto.
  - intros id hd [[<- <-]|[_ Hid]]%lookup_insert_Some.
    + right. cbn. rewrite lookup_insert_eq. split; [by left|]. apply eq_None_not_Some. intros ?%r_fresh_continuation0. lia.
    + destruct (r_waiting0 id hd Hid) as [?|Ho]; [by left|right]. destruct (r_fresh_id0 _ _ Hid) as [_ Hpm].
      destruct hd; cbn in Ho, Hpm |- *; try done; by rewrite lookup_insert_ne by lia.
  - intros pm cl [[<- <-]|[_ ?]]%lookup_insert_Some; [by right|]. eauto.
  - intros sid ?%r_fresh_sid0. lia.
  - intros id hd [[<- <-]|[_ ?%r_fresh_id0]]%lookup_insert_Some; cbn; lia.
  - intros pm [->|[_ ?%r_fresh_closure0]]%lookup_insert_is_Some; lia.
  - intros pm ?%r_fresh_continuation0. lia.
Qed.

End Invariant.

Section Steps.
Context {V B : Type} `{MemoryView V} `{!ByteStream B V} `{!ByteWriter B V}.
Context `{!MemoryViewLaws V, !ByteStreamLaws B V, !ByteWriterLaws B V}.
Context `{!Inet, !StringOps, !ErrorOps} (en : endian) (junk : list Z).
Context (error_text : Error → string) (number_text : Z → string) (srv : nat) (ctx acceptor : obj).

Abbreviation running := (running srv ctx acceptor).
Abbreviation delivered := (delivered junk error_text number_text).

(** The exchange of a session. *)
Definition exchange_of (x : task) (K : world asio) (c : completion) : turn → trace asio → turn → trace asio → Prop :=
  let s := t_session x in
  exchange (t_inBuf x) (outBuffer s) (ss_ioContext (channel s)) (t_obj x)
    (makeString ["Session from "%string; endpoint_line (remoteEndpoint s); " closed"%string])
    (λ code, makeString ["Failed to write respoce: "%string; error_text (MkError "pasy" code "asyncWrite")]) K c.

(** An operation of a session completes. *)
Lemma session_delivered place T sid x c (a : app (B := B)) K t :
  running T a → T !! sid = Some x → 0 ≤ c_length c →
  let hd := operation (t_session x) (t_kind x) (t_turn x) (t_pm x) in
  let r := delivered place (t_id x) hd c K a t in
  out r = Ret tt ∧ ∃ u' T', exchange_of x K c (t_turn x) t u' (tr r) ∧ running T' (st r).
Proof.
  intros Hrun Hx Hc. cbn zeta. set (s := t_session x).
  pose proof (r_task _ _ _ _ _ Hrun sid x Hx) as (Hs & Hrw & Hu & Hready & Hw & Hcl & Hco & Hrd & Hwr).
  assert (HS : sessions a !! sid = Some s) by (by rewrite (r_sessions _ _ _ _ _ Hrun), lookup_fmap, Hx).
  destruct a as [h S C n]. cbn in HS, Hready, Hw, Hcl, Hco, Hrd, Hwr.
  assert (stepped junk error_text number_text sid s (t_inBuf x) (t_kind x) (t_obj x) (t_turn x) (t_id x) (t_pm x) c h S C n K t)
    as (u' & bufs & p & t' & Hstep & _ & Hready' & Hsame & Hex).
  { destruct (t_turn x); [by apply reading_step|by apply writing_step|done]. }
  assert (delivered place (t_id x) (operation s (t_kind x) (t_turn x) (t_pm x)) c K (App h S C n) t =
    Run (Ret tt) (go_on sid s (t_kind x) u' (resolved (t_id x) (t_pm x) p bufs h) S (delete (t_pm x) C) n) t') as ->.
  { rewrite <- Hstep. unfold EchoProgram.delivered. by destruct (t_turn x), (t_kind x). }
  split; [done|]. exists u'. pose proof (running_remove srv ctx acceptor T sid x bufs p _ Hrun Hx Hsame) as Hrem. cbn in Hrem |- *.
  destruct (decide (u' = Gone)) as [->|Hu']; [exists (delete sid T); by split|].
  pose proof (running_add srv ctx acceptor (delete sid T) sid s (t_inBuf x) (t_kind x) (t_obj x) u' _ _ _ _ Hrem) as Hadd. cbn in Hadd.
  rewrite !insert_delete_eq, (insert_id S sid s HS) in Hadd.
  assert (Hn : u32 (u32 (n - 1) + 1) = n).
  { pose proof (r_count _ _ _ _ _ Hrun) as Hcount. pose proof (r_count _ _ _ _ _ Hrem) as Hcount'. cbn in Hcount, Hcount'.
    rewrite Hcount', u32_succ, Hcount. f_equal. rewrite map_size_delete_Some by eauto.
    assert (size T ≠ 0%nat); [|lia]. intros ?%map_size_empty_inv. by simplify_map_eq. }
  rewrite Hn in Hadd. eexists. split; [exact Hex|]. apply Hadd; try done.
  - apply lookup_delete_eq.
  - apply (r_fresh_sid _ _ _ _ _ Hrun). by eexists.
  - intros sid' x' [Hne Hx']%lookup_delete_Some. apply (r_apart _ _ _ _ _ Hrun sid x sid' x' Hx Hx' Hne).
Qed.

(** The rest of the program goes on, or there is an exception. *)
Definition goes_on (r : Prelude.run asio (app (B := B)) unit) : Prop :=
  (out r = Ret tt ∧ ∃ T', running T' (st r)) ∨ ∃ e, out r = Raise e.

(** The server, which nobody changes. *)
Definition the_server : server := Server ctx (Some (K_tcp_acceptor, acceptor)) true.

Lemma server_at_run T (a : app (B := B)) K t : running T a → on_mem (server_at srv) K a t = Run (Ret the_server) a t.
Proof.
  intros Hrun. pose proof (r_server _ _ _ _ _ Hrun) as Hs. unfold on_mem, zoom, server_at. destruct a. cbn in Hs |- *.
  unfold_prog. by rewrite Hs.
Qed.

Lemma accept_again T a K t : running T a → goes_on (on_mem (B := B) (doAcceptSession srv) K a t).
Proof.
  intros Hrun. pose proof (r_server _ _ _ _ _ Hrun) as Hs. destruct a as [h S C n]. cbn in Hs.
  left. unfold on_mem, zoom, doAcceptSession, server_at, server_acceptor. cbn [mem sessions closures NbSessions].
  rewrite !bind_assoc, bind_get, Hs, bind_ret, bind_run.
  split; [done|]. exists T. exact (running_round srv ctx acceptor T K_tcp_acceptor acceptor the_server h S C n Hrun).
Qed.

(** The callback on a new socket: the invariant, with one session more or not. *)
Lemma connection_goes_on T place c k o (a : app (B := B)) K t :
  running T a → ss_pimpl c = Some (k, o) → goes_on (onNewConnection junk place.1 place.2 c K a t).
Proof.
  intros Hrun Hs. destruct a as [h S C n].
  destruct (connection_run junk place.1 place.2 c k o h S C n K t Hs) as [(e & Ho & _)|(ep & u & bufs & t' & Hr & Hu & Hready & Hlow)];
    [right; by exists e|left]. rewrite Hr. split; [done|]. cbn in Hready |- *.
  set (sid := Datatypes.S (Datatypes.S (fresh h))) in *. set (s := MkSession c ep place.2 (fresh h) (Datatypes.S (fresh h))) in *.
  set (h' := Heap bufs _ _ _ _ _ _ _).
  assert (Hrun' : running T (App h' S C n)) by (apply (running_mem srv ctx acceptor T h); [exact Hrun|exact Hlow|done..|cbn; lia]).
  assert (HT : T !! sid = None).
  { apply eq_None_not_Some. intros Hsid%(r_fresh_sid _ _ _ _ _ Hrun). cbn in Hsid. lia. }
  destruct (decide (u = Gone)) as [->|Hg].
  - exists T. cbn. rewrite delete_insert_id by (pose proof (r_sessions _ _ _ _ _ Hrun) as Hses; cbn in Hses; by rewrite Hses, lookup_fmap, HT).
    pose proof (r_count _ _ _ _ _ Hrun) as Hn. cbn in Hn. by rewrite Hn, u32_succ, u32_pred, <- Hn.
  - eexists. apply (running_add srv ctx acceptor T sid s place.1 k o u h' S C n); try done; cbn; try lia.
    intros sid' x' Hx'. destruct (r_task _ _ _ _ _ Hrun sid' x' Hx') as (_ & _ & _ & _ & _ & _ & _ & ? & ?). cbn in *.
    unfold apart; cbn. split_and!; lia.
Qed.

Lemma goes_on_bind {A} (m : prog asio (app (B := B)) A) (f : A → prog asio (app (B := B)) unit) K a t :
  (∃ e, out (m K a t) = Raise e) ∨ (∃ v T, out (m K a t) = Ret v ∧ running T (st (m K a t)) ∧ goes_on (f v K (st (m K a t)) (tr (m K a t)))) →
  goes_on ((m ≫= f) K a t).
Proof.
  rewrite bind_run. destruct (m K a t) as [[v|e|u] a' t']; cbn; intros [[e' He]|(v' & T & Hv & Hrun & Hg)]; try done.
  - by injection Hv as ->.
  - right. by exists e.
Qed.

(** The end of the continuation, when the callback took the socket. *)
Lemma goes_on_last (m : prog asio (app (B := B)) unit) K a t : goes_on (m K a t) → goes_on ((_ ← m; mret tt) K a t).
Proof.
  rewrite bind_run. destruct (m K a t) as [[[]|e|u] a' t']; intros [[Ho Hr]|[e' He]]; try done; [by left|right; by exists e].
Qed.

Lemma still_open_run (a : app (B := B)) K t :
  on_mem (Acceptor.isOpen (server_acceptor the_server)) K a t = Run (Ret (K _ t (is_open acceptor))) a (call K (is_open acceptor) t).
Proof. by destruct a. Qed.

Lemma accepted_goes_on T place c k o (a : app (B := B)) K t :
  running T a → ss_pimpl c = Some (k, o) → goes_on (accepted junk place srv c K a t).
Proof.
  intros Hrun Hc. unfold accepted. rewrite bind_run, (server_at_run T) by done. cbn [srv_handler the_server].
  apply goes_on_bind. destruct (connection_goes_on T place c k o a K t Hrun Hc) as [(Ho & T' & Hrun')|?]; [right|by left].
  exists tt, T'. split_and!; [done..|]. rewrite bind_run, still_open_run.
  apply goes_on_last. destruct (K _ _ (is_open acceptor)); [by eapply accept_again|]. left. split; [done|]. by exists T'.
Qed.

(** The lambda of [main] changes nothing of the program's. *)
Lemma signalled_run T sig (a : app (B := B)) K t :
  running T a →
  let r := signalled number_text srv ctx sig K a t in
  st r = a ∧ (out r = Ret tt ∨ ∃ e, out r = Raise e).
Proof.
  intros Hrun. pose proof (r_server _ _ _ _ _ Hrun) as Hs. destruct a as [h S C n]. cbn in Hs.
  unfold signalled, stop, server_at. rewrite bind_perform, bind_run. unfold on_mem, zoom. cbn [mem sessions closures NbSessions].
  rewrite bind_assoc, bind_get, Hs, bind_ret.
  unfold Acceptor.close, Acceptor.on_impl, server_acceptor, TcpAcceptor.close, throwing, Acceptor.dispatch, deref.
  unfold_prog. cbn -[truthy].
  destruct (truthy _); cbn; (split; [done|]); [right; by eexists|left; f_equal; by destruct (K unit _ _)].
Qed.

Lemma signal_handler_run pm c h S C n K t :
  continuations h !! pm = None →
  on_mem (B := B) (run_handler junk (H_signal pm) c) K (App h S C n) t =
    Run (Ret tt) (App (upd_promises <[pm := if truthy (c_error c) then HasError (fromAsioError (c_error c) "asyncWait")
                                            else HasValue (VInt (c_signal c))]> h) S C n) t.
Proof.
  intros Hco. unfold run_handler, signal_handler, fulfil, setError, setValue, on_mem, zoom. cbn [mem].
  destruct (truthy (c_error c)); [done|]. unfold_prog. cbn -[lookup insert]. by rewrite Hco.
Qed.

(** An operation of [main] completes. *)
Lemma own_delivered place T id hd c (a : app (B := B)) K t :
  running T a → waiting (mem a) !! id = Some hd → own_ok srv ctx hd a → goes_on (delivered place id hd c K a t).
Proof.
  intros Hrun Hw Hown. destruct a as [h S C n]. cbn in Hw. unfold EchoProgram.delivered. rewrite bind_run.
  change (on_mem (modify (upd_waiting (delete id))) K (App h S C n) t) with (Run (Ret tt) (App (upd_waiting (delete id) h) S C n) t).
  cbn iota beta.
  pose proof (λ f C', running_drop srv ctx acceptor T id hd f C' h S C n Hrun Hw Hown) as Hdrop.
  destruct hd as [| | | | |pm| |kind loop pm]; try done; destruct Hown as [Hcl Hco]; cbn in Hcl, Hco.
  - unfold completed. rewrite bind_run, signal_handler_run, bind_get by done.
    cbn [closures mem handler_promise upd_promises promises]. rewrite lookup_insert_eq.
    destruct Hcl as [Hcl|Hcl]; rewrite Hcl; [|left; split; [done|]; exists T; apply (Hdrop <[pm := _]>); by left].
    set (p := if truthy _ then _ else _). pose proof (Hdrop <[pm := p]> (delete pm C) ltac:(right; eauto)) as Hrun'.
    unfold p in Hrun' |- *. destruct (truthy (c_error c)); [left; split; [done|]; by exists T|].
    rewrite bind_run. cbn [run_closure]. match goal with |- goes_on (match ?m with _ => _ end) => change m with (Run (Ret tt) (App (upd_promises <[pm := HasValue (VInt (c_signal c))]> (upd_waiting (delete id) h)) S (delete pm C) n) t) end.
    cbn iota beta. pose proof (signalled_run T (c_signal c) _ K t Hrun') as [Hst Ho]. cbn zeta in Hst, Ho.
    destruct Ho as [Ho|?]; [left|by right]. split; [done|]. exists T. by rewrite Hst.
  - destruct (truthy (c_error c)) eqn:E.
    + unfold completed, run_handler, accept_handler. rewrite E, bind_run. unfold on_mem at 1, zoom. cbn -[lookup insert].
      rewrite bind_get. cbn -[lookup insert]. rewrite Hcl.
      left. split; [done|]. exists T. apply (Hdrop <[pm := _]>). by left.
    + rewrite bind_run. cbn -[lookup insert]. rewrite bind_get. cbn -[lookup insert]. rewrite Hco.
      destruct kind; (eapply accepted_goes_on; [apply (Hdrop <[pm := _]>); by left|reflexivity]).
Qed.

End Steps.

(** ** The beginning *)

(** Before the first line. *)
Definition initial {B} : app (B := B) := App (Heap ∅ ∅ ∅ ∅ ∅ [] ∅ 0) ∅ ∅ 0.

Section Start.
Context {V B : Type} `{MemoryView V} `{!ByteStream B V} `{!ByteWriter B V}.
Context `{!Inet, !StringOps, !ErrorOps} (en : endian) (error_text : Error → string) (ctx : obj).

Lemma running_initial srv acceptor n :
  (srv < n)%nat →
  running srv ctx acceptor ∅
    (App (B := B) (Heap ∅ ∅ ∅ {[srv := Server ctx (Some (K_tcp_acceptor, acceptor)) true]} ∅ [] ∅ n) ∅ ∅ 0).
Proof.
  intros Hn. split; cbn.
  - by rewrite fmap_empty.
  - done.
  - apply lookup_singleton_eq.
  - done.
  - done.
  - done.
  - done.
  - intros sid [x Hx]. done.
  - done.
  - intros pm [x Hx]. done.
  - intros pm [x Hx]. done.
Qed.

Lemma open_ip_run loop p K (h : heap B) t :
  ∃ o r t', Acceptor.open en (Acceptor.create loop) (NE_IP p) K h t =
    Run (Ret (r, Acceptor.MkAcceptor loop (Some (Acceptor.Tcp (TcpAcceptor.MkTcpAcceptor loop o))))) h t'.
Proof.
  set (o := K _ t (new_object K_tcp_acceptor)). set (t1 := call K (new_object K_tcp_acceptor) t). exists o.
  destruct (runs_open_if_closed (B := B) o (toAsioEndpoint p) _ _ (K _ t1 (is_open o))
    (runs_or_error (set_option o (reuse_address true)) "open: set_option" _ _ (runs_bind_and_listen o (toAsioEndpoint p)))
    K h (call K (is_open o) t1)) as (t' & r & Hp & _). exists r, t'.
  eapply open_creates; [reflexivity|]. exact Hp.
Qed.

(** The program with a server that was not opened. *)
Definition created : app (B := B) := App (Heap ∅ ∅ ∅ {[0%nat := Server ctx None true]} ∅ [] ∅ 1) ∅ ∅ 0.

Lemma listen_run ip K t :
  ∃ acceptor res h' t', on_mem (startListen en 0 (NE_IP ip)) K created t = Run (Ret res) (App h' ∅ ∅ 0) t' ∧
    running 0 ctx acceptor ∅ (App h' ∅ ∅ 0).
Proof.
  unfold startListen, on_mem, zoom. cbn [mem sessions closures NbSessions created]. unfold server_at.
  rewrite bind_assoc, bind_get. cbn [servers]. rewrite lookup_singleton_eq, bind_ret, bind_run.
  set (h := Heap _ _ _ _ _ _ _ _). destruct (open_ip_run ctx ip K h t) as (o & r & t' & Ho).
  change (server_acceptor (Server ctx None true)) with (Acceptor.create ctx). rewrite Ho. cbn iota beta.
  set (s := Server ctx (Some (K_tcp_acceptor, o)) true).
  set (h1 := Heap (B := B) ∅ ∅ ∅ {[0%nat := s]} ∅ [] ∅ 1). pose proof (running_initial 0 o 1 ltac:(lia)) as Hrun. fold s h1 in Hrun.
  rewrite bind_run. assert (modify (E := asio) (upd_servers <[0%nat := s]>) K h t' = Run (Ret tt) h1 t') as Hm.
  { unfold modify, h, upd_servers. cbn -[insert]. by rewrite insert_singleton_eq. }
  cbn [srv_loop srv_handler Acceptor._pimpl option_map impl_kind TcpAcceptor._acceptor]. fold s. rewrite Hm. exists o.
  destruct r as [u|e]; [|by do 3 eexists].
  unfold doAcceptSession, server_at. rewrite bind_run, bind_assoc, bind_get. cbn [servers h1]. rewrite lookup_singleton_eq.
  do 3 eexists. split; [reflexivity|]. exact (running_round 0 ctx o ∅ K_tcp_acceptor o s h1 ∅ ∅ 0 Hrun).
Qed.

Lemma add_all_run o sigs K (h : heap B) t :
  st (SignalSetImpl.add_all o sigs K h t) = h ∧
  (out (SignalSetImpl.add_all o sigs K h t) = Ret tt ∨ ∃ e, out (SignalSetImpl.add_all o sigs K h t) = Raise e).
Proof.
  revert t. induction sigs as [|i sigs IH]; intros t; [split; [done|by left]|]. cbn [SignalSetImpl.add_all].
  unfold throwing. rewrite bind_assoc, bind_perform. destruct (truthy _); [|apply IH].
  split; [done|]. right. by eexists.
Qed.

Lemma signals_run sigs (a : app (B := B)) K t :
  let r := on_mem (SignalSet.create (EventLoop.create ctx) sigs) K a t in
  (∃ o, out r = Ret (SignalSet.MkSet (Some (SignalSetImpl.MkImpl o))) ∧ st r = a) ∨ ∃ e, out r = Raise e.
Proof.
  destruct a as [h S C n]. cbn zeta. unfold SignalSet.create, SignalSetImpl.create, EventLoop.getIOService, EventLoop.on, deref, on_mem, zoom. cbn [mem].
  set (o := K _ t (new_object K_signal_set)). set (t1 := call K (new_object K_signal_set) t).
  unfold_prog. cbn -[SignalSetImpl.add_all]. fold o. change (Prelude.Event _ o :: t) with t1. destruct (add_all_run o sigs K h t1) as [Hst Ho].
  destruct (SignalSetImpl.add_all o sigs K h t1) as [oc h1 t2]. cbn in Hst, Ho |- *.
  destruct Ho as [->|[e ->]]; [left; exists o|right; by exists e]. by rewrite Hst.
Qed.

Lemma set_up_run ip K t :
  let r := set_up en error_text ctx ip K initial t in
  (∃ o acceptor, out r = Ret (0%nat, SignalSet.MkSet (Some (SignalSetImpl.MkImpl o))) ∧ running 0 ctx acceptor ∅ (st r)) ∨
  ∃ e, out r = Raise e.
Proof.
  cbn zeta. unfold set_up. rewrite bind_run.
  change (on_mem (AsyncServer.create ctx true) K initial t) with (Run (Ret 0%nat) created t). cbn iota beta.
  rewrite bind_run. destruct (listen_run ip K t) as (acceptor & res & h & t1 & -> & Hrun). rewrite bind_perform, bind_run.
  set (t2 := Prelude.Event _ _ :: t1). destruct (signals_run [2; 15] (App h ∅ ∅ 0) K t2) as [(o & Ho & Hst)|[e He]].
  - destruct (on_mem _ K _ t2) as [? a' t']. cbn in Ho, Hst. subst. left. exists o, acceptor. split; [done|].
    exact (running_signal 0 ctx acceptor ∅ h ∅ ∅ 0 Hrun).
  - right. exists e. destruct (on_mem _ K _ t2) as [? a' t']. cbn in He. by subst.
Qed.

End Start.

(** ** The whole run *)

Section Main.
Context {V B : Type} `{MemoryView V} `{!ByteStream B V} `{!ByteWriter B V}.
Context `{!MemoryViewLaws V, !ByteStreamLaws B V, !ByteWriterLaws B V}.
Context `{!Inet, !StringOps, !ErrorOps} (en : endian) (junk : list Z).
Context (error_text : Error → string) (number_text : Z → string) (ctx : obj) (K : world asio).

Abbreviation delivered := (delivered junk error_text number_text).

(** Whatever completes, the invariant holds after it, or an exception leaves the loop. *)
Lemma delivered_goes_on srv acceptor T place id hd c (a : app (B := B)) t :
  running srv ctx acceptor T a → waiting (mem a) !! id = Some hd → 0 ≤ c_length c →
  goes_on srv ctx acceptor (delivered place id hd c K a t).
Proof.
  intros Hrun Hw Hc. destruct (r_waiting _ _ _ _ _ Hrun id hd Hw) as [(sid & x & Hx & <-)|Hown]; [|by eapply own_delivered].
  destruct (r_task _ _ _ _ _ Hrun sid x Hx) as (_ & _ & _ & _ & Hw' & _). rewrite Hw in Hw'. injection Hw' as ->.
  destruct (session_delivered junk error_text number_text srv ctx acceptor place T sid x c a K t Hrun Hx Hc) as (Ho & u' & T' & _ & Hrun').
  left. split; [done|]. by exists T'.
Qed.

Lemma steps_running srv acceptor T (s s' : pstate (B := B)) :
  running srv ctx acceptor T s.1 → rtc (pstep junk error_text number_text K) s s' → ∃ T', running srv ctx acceptor T' s'.1.
Proof.
  intros Hrun Hsteps. revert T Hrun. induction Hsteps as [s|s s1 s2 Hstep _ IH]; intros T Hrun; [by exists T|].
  destruct Hstep as [place id hd c a t Hw Hc r Ho].
  destruct (delivered_goes_on srv acceptor T place id hd c a t Hrun Hw Hc) as [(_ & T' & Hrun')|[e He]]; [by eapply IH|].
  unfold r in Ho. by rewrite He in Ho.
Qed.

(** C5.  The whole of the echo server.  Once it is set up, and whatever completes in whatever
    order, with any result, while peers come and go: every session has exactly one operation of
    its own under way, on buffers no other session shares, and all that waits for an operation
    of the loop is a session, an accept or the signal; the counter is the number of the
    sessions, modulo 2^32.  The next operation to complete never gets stuck on a pointer or a
    buffer that is gone: one of a session is the next exchange of its dialog and raises nothing;
    only an accept (the endpoint of the peer can not be told) and the signal (the acceptor is
    not closed) can raise, and then leave the loop. *)
Theorem echo_server_runs ip srv sigs (t0 : trace asio) (a : app (B := B)) (t : trace asio) :
  let r0 := set_up en error_text ctx ip K initial t0 in
  out r0 = Ret (srv, sigs) → rtc (pstep junk error_text number_text K) (st r0, tr r0) (a, t) →
  ∃ acceptor T,
    running srv ctx acceptor T a ∧ NbSessions a = u32 (Z.of_nat (size (sessions a))) ∧
    ∀ place id hd c, waiting (mem a) !! id = Some hd → 0 ≤ c_length c →
      let r := delivered place id hd c K a t in
      (∀ u, out r ≠ Stuck u) ∧
      ((∃ e, out r = Raise e) → (∃ kind loop pm, hd = H_accept kind loop pm) ∨ ∃ pm, hd = H_signal pm) ∧
      ∀ sid x, T !! sid = Some x → t_id x = id →
        out r = Ret tt ∧ ∃ u', exchange_of error_text x K c (t_turn x) t u' (tr r).
Proof.
  cbn zeta. intros Ho Hsteps. destruct (set_up_run en error_text ctx ip K t0) as [(o & acceptor & Ho' & Hrun0)|[e He]];
    [|by rewrite He in Ho]. rewrite Ho in Ho'. injection Ho' as -> ->.
  destruct (steps_running 0 acceptor ∅ (_, _) _ Hrun0 Hsteps) as [T Hrun]. cbn in Hrun. exists acceptor, T.
  split; [done|]. split; [by rewrite (r_count _ _ _ _ _ Hrun), (r_sessions _ _ _ _ _ Hrun), map_size_fmap|].
  intros place id hd c Hw Hc. split; [|split].
  - intros u Hu. destruct (delivered_goes_on 0 acceptor T place id hd c a t Hrun Hw Hc) as [[Hr _]|[e Hr]]; by rewrite Hr in Hu.
  - intros [e He]. destruct (r_waiting _ _ _ _ _ Hrun id hd Hw) as [(sid & x & Hx & <-)|Hown].
    + destruct (r_task _ _ _ _ _ Hrun sid x Hx) as (_ & _ & _ & _ & Hw' & _). rewrite Hw in Hw'. injection Hw' as ->.
      destruct (session_delivered junk error_text number_text 0 ctx acceptor place T sid x c a K t Hrun Hx Hc) as [Hr _]. by rewrite Hr in He.
    + destruct hd; try done; [right|left]; eauto.
  - intros sid x Hx <-. destruct (r_task _ _ _ _ _ Hrun sid x Hx) as (_ & _ & _ & _ & Hw' & _). rewrite Hw in Hw'. injection Hw' as ->.
    destruct (session_delivered junk error_text number_text 0 ctx acceptor place T sid x c a K t Hrun Hx Hc) as (Hr & u' & _ & Hex & _).
    split; [done|]. by exists u'.
Qed.

End Main.

(** ** On an input *)

#[local] Existing Instances LetterInet.inet Concrete.string_ops Concrete.error_ops Concrete.view_ops Concrete.writer_stream
  Concrete.writer_ops Concrete.view_laws Concrete.writer_stream_laws Concrete.writer_laws.

Definition quiet_text {A} (_ : A) : string := "".
Definition demo_endpoint : IPEndpoint := MkEndpoint 5640 (loopback LittleEndian []).
Definition demo_start : Prelude.run asio (app (B := Concrete.writer)) (nat * SignalSet.SignalSet) :=
  set_up LittleEndian quiet_text 1 demo_endpoint demo_peer initial [].

(** The operation [id] is completed after [r]. *)
Definition demo_next {A} (place : Z * Z) (id : nat) (hd : handler) (c : completion)
    (r : Prelude.run asio (app (B := Concrete.writer)) A) : Prelude.run asio (app (B := Concrete.writer)) unit :=
  delivered [] quiet_text quiet_text place id hd c demo_peer (st r) (tr r).

(** Two peers connect, and the first one sends three bytes. *)
Definition demo_first := demo_next (100, 200) 2 (H_accept K_tcp_acceptor 1 1) (Completion 0 0 0 21) demo_start.
Definition demo_second := demo_next (300, 400) 11 (H_accept K_tcp_acceptor 1 10) (Completion 0 0 0 22) demo_first.
Definition demo_read := H_transfer "asyncRead" 6 8.

Lemma demo_step {A} place id hd c (r : Prelude.run asio app A) :
  waiting (mem (st r)) !! id = Some hd → 0 ≤ c_length c → out (demo_next place id hd c r) = Ret tt →
  pstep [] quiet_text quiet_text demo_peer (st r, tr r) (st (demo_next place id hd c r), tr (demo_next place id hd c r)).
Proof. intros. by apply p_complete. Qed.

Lemma echo_server_runs_witness :
  NbSessions (st demo_second) = 2 ∧ waiting (mem (st demo_second)) !! 9%nat = Some demo_read ∧
  ∀ u, out (demo_next (0, 0) 9 demo_read (Completion 0 3 0 0) demo_second) ≠ Stuck u.
Proof.
  destruct (echo_server_runs LittleEndian [] quiet_text quiet_text 1 demo_peer demo_endpoint 0 (SignalSet.MkSet (Some (SignalSetImpl.MkImpl 0%nat))) []
    (st demo_second) (tr demo_second)) as (acceptor & T & Hrun & Hn & Hnext).
  - vm_compute. reflexivity.
  - eapply rtc_l; [|apply rtc_once].
    + apply (demo_step (100, 200) 2 (H_accept K_tcp_acceptor 1 1) (Completion 0 0 0 21) demo_start); [vm_compute; reflexivity|done|vm_compute; reflexivity].
    + apply (demo_step (300, 400) 11 (H_accept K_tcp_acceptor 1 10) (Completion 0 0 0 22) demo_first); [vm_compute; reflexivity|done|vm_compute; reflexivity].
  - split; [|split; [vm_compute; reflexivity|]].
    + rewrite Hn. vm_compute. reflexivity.
    + apply (Hnext (0, 0) 9%nat demo_read (Completion 0 3 0 0)); [vm_compute; reflexivity|cbn; lia].
Defined.
