(* ===== verification/EchoMain.v ===== *)
(** * The main program of the echo server

    [main] of examples/async_server.cpp, from its arguments to the destruction of its variables:
    the loop of [EchoProgram] runs in it, and what is under way when the loop returns goes with the
    loop. *)
From stdpp Require Import gmap.
From S2P Require Import Prelude Solace IPAddress Asio AsyncObjects StreamSockets Acceptors AsyncServer EchoServer EchoProgram.

Section Main.
Context {V B : Type} `{MemoryView V} `{!ByteStream B V} `{!ByteWriter B V}.
Context `{!Inet, !StringOps, !ErrorOps} (en : endian) (junk : list Z).
Context (error_text : Error → string) (number_text : Z → string).

(** The order in which an [io_context] that is destroyed destroys the handlers that did not run. *)
Context (order : gmap nat handler → list (nat * handler)).

(** What the parser of the arguments answers: an error, or the text of its help; or the port and
    the address, the latter with what follows it in memory. *)
Inductive arguments :=
  | Refused (isError : bool) (text : string)
  | Given (serverPort : Z) (serverEndpoint after : string).

(** What the loop does: an operation completes.  If its handler allocates a session, its buffers
    are at [e_place].  An operation that is not under way does not complete. *)
Record event := Event { e_place : Z * Z; e_id : nat; e_completion : completion }.

Fixpoint events (l : list event) : prog asio (app (B := B)) unit :=
  match l with
  | [] => mret tt
  | e :: l' =>
      a ← get;
      match waiting (mem a) !! e_id e with
      | Some hd => _ ← delivered junk error_text number_text (e_place e) (e_id e) hd (e_completion e); events l'
      | None => events l'
      end
  end.

(** The destructor of the set of signals, which cancels the wait. *)
Definition destroy_signals (s : SignalSet.SignalSet) : prog asio (app (B := B)) unit :=
  match SignalSet.set_pimpl s with
  | Some i => _ ← perform (Asio.cancel (SignalSetImpl._signals i)); mret tt
  | None => mret tt
  end.

(** The destructor of the server closes its acceptor. *)
Definition destroy_server (srv : nat) : prog asio (app (B := B)) unit :=
  s ← on_mem (server_at srv);
  match srv_pimpl s with
  | Some i => _ ← perform (Asio.close i.2); mret tt
  | None => mret tt
  end.

(** A handler that is destroyed, with its promise and the closure that waits for it: the
    [shared_ptr] that the closure of a session holds is the last. *)
Definition drop_operation (x : nat * handler) : prog asio (app (B := B)) unit :=
  _ ← on_mem (modify (upd_waiting (delete x.1)));
  a ← get;
  match closures a !! handler_promise x.2 with
  | Some k =>
      _ ← modify (upd_closures (delete (handler_promise x.2)));
      match k with AfterRead sid | AfterWrite sid => release sid | AfterSignal _ _ => mret tt end
  | None => mret tt
  end.

Fixpoint drop_all (l : list (nat * handler)) : prog asio (app (B := B)) unit :=
  match l with [] => mret tt | x :: l' => _ ← drop_operation x; drop_all l' end.

(** [~EventLoop()]. *)
Definition destroy_loop : prog asio (app (B := B)) unit := a ← get; drop_all (order (waiting (mem a))).

(** [main]; [l] is what happens while the loop runs. *)
Definition main (ctx : obj) (args : arguments) (l : list event) : prog asio (app (B := B)) Z :=
  match args with
  | Refused true text => _ ← perform (print (makeString ["Error: "%string; text])); mret 1
  | Refused false text => _ ← perform (print text); mret 0
  | Given serverPort serverEndpoint after =>
      match parseIPAddress serverEndpoint after junk with
      | Err e => _ ← perform (print (makeString ["Error: "%string; error_text e])); mret 1
      | Ok ip =>
          vars ← set_up en error_text ctx (MkEndpoint serverPort ip);
          _ ← on_mem (EventLoop.run (EventLoop.create ctx));
          _ ← events l;
          _ ← destroy_signals vars.2;
          _ ← destroy_server vars.1;
          _ ← destroy_loop;
          mret 0
      end
  end.

End Main.

(** ** The end *)

(** A session that ends, seen from outside. *)
Definition farewell `{!Inet, !StringOps} (K : world asio) (t : trace asio) (s : session) : trace asio :=
  match ss_pimpl (channel s) with
  | Some i => closing i.2 (makeString ["Session from "%string; endpoint_line (remoteEndpoint s); " closed"%string]) K t
  | None => t
  end.

Section Ending.
Context {V B : Type} `{MemoryView V} `{!ByteStream B V} `{!ByteWriter B V}.
Context `{!MemoryViewLaws V, !ByteStreamLaws B V, !ByteWriterLaws B V}.
Context `{!Inet, !StringOps, !ErrorOps} (srv : nat) (ctx acceptor : obj) (K : world asio).

Abbreviation running := (running srv ctx acceptor).

(** The promises are of no concern. *)
Lemma running_promises T h p S C n :
  running T (App (B := B) h S C n) → running T (App (upd_promises p h) S C n).
Proof. intros Hrun. apply (running_mem srv ctx acceptor T h); done. Qed.

(** A session goes with its operation. *)
Lemma drop_session T sid x (a : app (B := B)) t :
  running T a → T !! sid = Some x →
  ∃ a', drop_operation (t_id x, operation (t_session x) (t_kind x) (t_turn x) (t_pm x)) K a t =
          Run (Ret tt) a' (farewell K t (t_session x)) ∧
    running (delete sid T) a' ∧ waiting (mem a') = delete (t_id x) (waiting (mem a)).
Proof.
  intros Hrun Hx. pose proof (r_task _ _ _ _ _ Hrun sid x Hx) as (Hs & _ & _ & _ & _ & Hcl & _).
  assert (HS : sessions a !! sid = Some (t_session x)) by (by rewrite (r_sessions _ _ _ _ _ Hrun), lookup_fmap, Hx).
  destruct a as [h S C n]. cbn in HS, Hcl.
  pose proof (running_remove srv ctx acceptor T sid x (buffers h) Pending _ Hrun Hx ltac:(done)) as Hrem. cbn in Hrem.
  exists (App (upd_waiting (delete (t_id x)) h) (delete sid S) (delete (t_pm x) C) (u32 (n - 1))). split; [|split; [|done]].
  - unfold drop_operation. cbn [fst snd]. rewrite bind_run. unfold on_mem, zoom, modify. cbn [mem]. rewrite bind_get.
    cbn [closures]. rewrite operation_promise, Hcl, bind_run. unfold farewell. rewrite Hs.
    destruct (t_turn x); cbn [awaiting];
      apply (release_run sid (t_session x) (t_kind x) (t_obj x) Hs (upd_waiting (delete (t_id x)) h) S (delete (t_pm x) C) n K t HS).
  - eapply running_promises with (p := λ _, promises h) in Hrem. exact Hrem.
Qed.

(** An operation of [main] goes. *)
Lemma drop_own T id hd (a : app (B := B)) t :
  running T a → waiting (mem a) !! id = Some hd → own_ok srv ctx hd a →
  ∃ a', drop_operation (id, hd) K a t = Run (Ret tt) a' t ∧ running T a' ∧ waiting (mem a') = delete id (waiting (mem a)).
Proof.
  intros Hrun Hw Hown. destruct a as [h S C n]. cbn in Hw.
  assert (∃ C', (C' = C ∨ ∃ pm, C' = delete pm C ∧ C !! pm = Some (AfterSignal srv ctx)) ∧
    drop_operation (id, hd) K (App h S C n) t = Run (Ret tt) (App (upd_waiting (delete id) h) S C' n) t) as (C' & HC & Hd).
  { unfold drop_operation. cbn [fst snd]. unfold on_mem, zoom, modify, mbind, prog_bind, get. cbn -[lookup delete].
    destruct hd as [| | | | |pm| |kind loop pm]; try done; destruct Hown as [Hcl _]; cbn in Hcl |- *.
    - destruct Hcl as [Hcl|Hcl]; rewrite Hcl; eexists; (split; [|reflexivity]); [right; eauto|by left].
    - rewrite Hcl. eexists. split; [|reflexivity]. by left. }
  exists (App (upd_waiting (delete id) h) S C' n). split_and!; [done| |done].
  pose proof (running_drop srv ctx acceptor T id hd (λ _, promises h) C' h S C n Hrun Hw Hown HC) as Hrun'.
  exact Hrun'.
Qed.

(** All of them go, in any order. *)
Lemma drop_all_run l T (a : app (B := B)) t :
  running T a → l ≡ₚ map_to_list (waiting (mem a)) →
  ∃ a' xs, drop_all l K a t = Run (Ret tt) a' (foldl (farewell K) t xs) ∧
    xs ≡ₚ (map_to_list (sessions a)).*2 ∧ running ∅ a' ∧ waiting (mem a') = ∅.
Proof.
  revert T a t. induction l as [|[id hd] l IH]; intros T a t Hrun Hl.
  { symmetry in Hl. apply Permutation_nil_r in Hl. apply map_to_list_empty_iff in Hl.
    assert (T = ∅) as ->.
    { apply map_empty. intros sid. apply eq_None_not_Some. intros [x Hx].
      destruct (r_task _ _ _ _ _ Hrun sid x Hx) as (_ & _ & _ & _ & Hw & _). by rewrite Hl in Hw. }
    exists a, []. rewrite (r_sessions _ _ _ _ _ Hrun), fmap_empty, map_to_list_empty. done. }
  assert (Hw : waiting (mem a) !! id = Some hd) by (apply elem_of_map_to_list; rewrite <- Hl; by left).
  assert (Hl' : l ≡ₚ map_to_list (delete id (waiting (mem a)))).
  { apply (Permutation_cons_inv (a := (id, hd))). by rewrite Hl, map_to_list_delete. }
  cbn [drop_all]. rewrite bind_run.
  destruct (r_waiting _ _ _ _ _ Hrun id hd Hw) as [(sid & x & Hx & <-)|Hown].
  - destruct (r_task _ _ _ _ _ Hrun sid x Hx) as (_ & _ & _ & _ & Hw' & _). rewrite Hw in Hw'. injection Hw' as ->.
    destruct (drop_session T sid x a t Hrun Hx) as (a1 & -> & Hrun1 & Hw1).
    destruct (IH (delete sid T) a1 (farewell K t (t_session x)) Hrun1) as (a' & xs & Hd & Hxs & ?); [by rewrite Hw1|].
    exists a', (t_session x :: xs). split; [done|]. split; [|done]. rewrite Hxs.
    rewrite (r_sessions _ _ _ _ _ Hrun1), (r_sessions _ _ _ _ _ Hrun), fmap_delete.
    assert (Hsx : (t_session <$> T) !! sid = Some (t_session x)) by (by rewrite lookup_fmap, Hx).
    by rewrite <- (map_to_list_delete _ _ _ Hsx).
  - destruct (drop_own T id hd a t Hrun Hw Hown) as (a1 & -> & Hrun1 & Hw1).
    destruct (IH T a1 t Hrun1) as (a' & xs & Hd & Hxs & ?); [by rewrite Hw1|].
    exists a', xs. split; [done|]. split; [|done].
    by rewrite Hxs, (r_sessions _ _ _ _ _ Hrun1), (r_sessions _ _ _ _ _ Hrun).
Qed.

End Ending.

Section Whole.
Context {V B : Type} `{MemoryView V} `{!ByteStream B V} `{!ByteWriter B V}.
Context `{!MemoryViewLaws V, !ByteStreamLaws B V, !ByteWriterLaws B V}.
Context `{!Inet, !StringOps, !ErrorOps} (en : endian) (junk : list Z).
Context (error_text : Error → string) (number_text : Z → string) (ctx : obj) (K : world asio).
Context (order : gmap nat handler → list (nat * handler)) (Horder : ∀ m, order m ≡ₚ map_to_list m).

Lemma events_run srv acceptor l T (a : app (B := B)) t :
  running srv ctx acceptor T a → Forall (λ e, 0 ≤ c_length (e_completion e)) l →
  goes_on srv ctx acceptor (events junk error_text number_text l K a t).
Proof.
  intros Hrun Hl. revert T a t Hrun. induction Hl as [|e l He Hl IH]; intros T a t Hrun.
  { left. split; [done|]. by exists T. }
  cbn [events]. rewrite bind_get. destruct (waiting (mem a) !! e_id e) as [hd|] eqn:Hw; [|by eapply IH].
  apply goes_on_bind.
  destruct (delivered_goes_on junk error_text number_text ctx K srv acceptor T (e_place e) (e_id e) hd (e_completion e) a t Hrun Hw He)
    as [(Ho & T' & Hrun')|?]; [right|by left].
  exists tt, T'. split_and!; [done..|]. by eapply IH.
Qed.

(** The destruction of the variables, once the loop returned. *)
Lemma leave_run srv acceptor T o (a : app (B := B)) t :
  running srv ctx acceptor T a →
  let sigs := SignalSet.MkSet (Some (SignalSetImpl.MkImpl o)) in
  ∃ a' xs, (_ ← destroy_signals sigs; _ ← destroy_server srv; _ ← destroy_loop order; mret 0) K a t =
      Run (Ret 0) a' (foldl (farewell K) (call K (Asio.close acceptor) (call K (Asio.cancel o) t)) xs) ∧
    xs ≡ₚ (map_to_list (sessions a)).*2 ∧ running srv ctx acceptor ∅ a' ∧ waiting (mem a') = ∅.
Proof.
  intros Hrun. cbn zeta. unfold destroy_signals. cbn [SignalSet.set_pimpl SignalSetImpl._signals]. rewrite bind_assoc, bind_perform, bind_ret.
  fold (call K (Asio.cancel o) t). unfold destroy_server. rewrite bind_assoc, bind_run, (server_at_run srv ctx acceptor T) by done.
  cbn [srv_pimpl the_server snd]. rewrite bind_assoc, bind_perform, bind_ret.
  change (Prelude.Event ?op _ :: call K (Asio.cancel o) t) with (call K op (call K (Asio.cancel o) t)).
  unfold destroy_loop. rewrite bind_assoc, bind_get, bind_run.
  destruct (drop_all_run srv ctx acceptor K (order (waiting (mem a))) T a (call K (Asio.close acceptor) (call K (Asio.cancel o) t)) Hrun (Horder _))
    as (a' & xs & -> & Hend). by exists a', xs.
Qed.

(** C6.  The echo server, from the start of [main] to its end.  Whatever the system answers and
    whatever completes while the loop runs, [main] never gets stuck: it ends with an exception,
    of the set-up or of a handler, or with success.  In the latter case the wait for a signal is
    cancelled, the acceptor is closed, and then, in an order that Asio chooses, every session
    that was still there says good-bye and closes its socket, each exactly once: no session is
    left, the counter is back at zero, and nothing is under way. *)
Theorem echo_main_ends port host after ip l (t : trace asio) :
  parseIPAddress host after junk = Ok ip → Forall (λ e, 0 ≤ c_length (e_completion e)) l →
  let r := main (B := B) en junk error_text number_text order ctx (Given port host after) l K initial t in
  let r0 := set_up en error_text ctx (MkEndpoint port ip) K initial t in
  let r1 := events junk error_text number_text l K (st r0) (call K (ctx_run ctx) (tr r0)) in
  (∃ e, out r = Raise e ∧ (out r0 = Raise e ∨ out r1 = Raise e)) ∨
  out r = Ret 0 ∧ sessions (st r) = ∅ ∧ NbSessions (st r) = 0 ∧ waiting (mem (st r)) = ∅ ∧
  ∃ o acceptor xs, xs ≡ₚ (map_to_list (sessions (st r1))).*2 ∧
    tr r = foldl (farewell K) (call K (Asio.close acceptor) (call K (Asio.cancel o) (tr r1))) xs.
Proof.
  intros Hip Hl. cbn zeta. unfold main. rewrite Hip, bind_run.
  destruct (set_up_run en error_text ctx (MkEndpoint port ip) K t) as [(o & acceptor & Ho & Hrun0)|[e He]].
  2: { left. exists e. destruct (set_up _ _ _ _ _ _ _). cbn in He |- *. subst. split; [done|by left]. }
  destruct (set_up _ _ _ _ _ _ _) as [? [h S C n] t0]. cbn in Ho, Hrun0. subst. cbn [st tr]. rewrite bind_run.
  change (on_mem (EventLoop.run (EventLoop.create ctx)) K (App h S C n) t0) with
    (Run (Ret (K _ t0 (ctx_run ctx))) (App h S C n) (call K (ctx_run ctx) t0)).
  cbn iota beta. rewrite bind_run. set (t1 := call K (ctx_run ctx) t0).
  destruct (events_run 0 acceptor l ∅ _ t1 Hrun0 Hl) as [(Ho & T & Hrun)|[e He]].
  2: { left. exists e. destruct (events _ _ _ _ _ _ _). cbn in He |- *. subst. split; [done|by right]. }
  destruct (events _ _ _ _ _ _ _) as [? a1 t2]. cbn in Ho, Hrun. subst. right. cbn [fst snd st tr].
  destruct (leave_run 0 acceptor T o a1 t2 Hrun) as (a' & xs & -> & Hxs & Hend & Hw). cbn [out st tr].
  split; [done|]. split; [by rewrite (r_sessions _ _ _ _ _ Hend), fmap_empty|].
  split; [by rewrite (r_count _ _ _ _ _ Hend)|]. split; [done|]. by exists o, acceptor, xs.
Qed.

End Whole.

(** ** On an input *)

#[local] Existing Instances LetterInet.inet Concrete.string_ops Concrete.error_ops Concrete.view_ops Concrete.writer_stream
  Concrete.writer_ops Concrete.view_laws Concrete.writer_stream_laws Concrete.writer_laws.

(** Two peers connect, the first of them sends three bytes, and the loop returns. *)
Definition demo_events : list event :=
  [Event (100, 200) 2 (Completion 0 0 0 21); Event (300, 400) 11 (Completion 0 0 0 22); Event (0, 0) 9 (Completion 0 3 0 0)].

Lemma echo_main_ends_witness :
  let r := main (B := Concrete.writer) LittleEndian [] quiet_text quiet_text map_to_list 1 (Given 5640 "hpaaaaab" "") demo_events
             demo_peer initial [] in
  out r = Ret 0 ∧ NbSessions (st r) = 0 ∧
  length (List.filter (λ e, match ev_op e with Asio.close _ => true | _ => false end) (tr r)) = 3%nat.
Proof.
  destruct (echo_main_ends (B := Concrete.writer) LittleEndian [] quiet_text quiet_text 1 demo_peer map_to_list ltac:(done)
    5640 "hpaaaaab" "" (loopback LittleEndian []) demo_events [] ltac:(vm_compute; reflexivity)) as [(e & He & _)|(Ho & _ & Hn & _)].
  - repeat constructor; discriminate.
  - vm_compute in He. discriminate.
  - split; [exact Ho|]. split; [exact Hn|]. vm_compute. reflexivity.
Defined.
