(* ===== verification/SerialReader.v ===== *)
(** * The serial port reader

    examples/async_serial.cpp: a program that lists the serial ports, or opens one as an
    asynchronous channel and writes out what a read brings.  It calls both the system, through
    [Serial::enumeratePorts], and Asio. *)
From stdpp Require Import gmap.
From S2P Require Import Prelude Posix Solace Serial SerialPorts SerialMonitor Asio AsyncObjects AsyncServer.

(** What the program calls. *)
Inductive system : Type → Type :=
  | System {R} (op : posix R) : system R
  | Library {R} (op : asio R) : system R.

Section Reader.
Context {V B : Type} `{MemoryView V} `{!ByteStream B V} `{!ByteWriter B V}.
Context {P : Type} `{!PathOps P, !StringOps, !ErrorOps} (unwrap_exn : exn) (junk : list Z).

(** [MemoryManager(capacity).allocate(size)]: the address of the memory, or an exception. *)
Context (allocate_memory : Z → Z → exn + Z).

(** The memory of the library, and the promise that the lambda of [main] waits for, with the
    buffer it refers to. *)
Record reader := Reader { mem : heap B; echo : option (nat * nat) }.

Definition on_system {A} (m : prog posix reader A) : prog system reader A := embed (@System) m.
Definition on_library {A} (m : prog asio (heap B) A) : prog system reader A :=
  embed (@Library) (zoom mem (λ h a, Reader h (echo a)) m).
Definition say (op : posix unit) : prog system reader unit := perform (System op).

(** What the parser of the arguments answers: an error, or the text of its help; or the options. *)
Inductive arguments :=
  | Refused (isError : bool) (text : string)
  | Given (boudRate bufferSize : Z) (devPath : string).

(** The lambda: the bytes are written out, and the buffer is made ready for more. *)
Definition write_out (buf : nat) : prog system reader unit :=
  readBuffer ← on_library (buffer_at buf);
  let dataView := viewWritten readBuffer in
  _ ← say (cout_write (dataAddress dataView) (view_size dataView));
  _ ← say cout_flush;
  on_library (modify (upd_buffers <[buf := rewind readBuffer]>)).

(** A completed operation: the handler of the library, and the lambda if its promise gets a
    value. *)
Definition completed (hd : handler) (c : completion) : prog system reader unit :=
  _ ← on_library (run_handler junk hd c);
  a ← get;
  match echo a with
  | Some (pm, buf) =>
      match promises (mem a) !! pm with
      | Some (HasValue _) => _ ← modify (λ a, Reader (mem a) None); write_out buf
      | Some (HasError _) => modify (λ a, Reader (mem a) None)
      | _ => mret tt
      end
  | None => mret tt
  end.

(** [iocontext.run()]: the operations complete with the elements of [cs], until nothing is under
    way.  With a list that is too short it would go on waiting. *)
Fixpoint run_loop (cs : list completion) : prog system reader unit :=
  a ← get;
  match map_to_list (waiting (mem a)) with
  | [] => mret tt
  | (id, hd) :: _ =>
      match cs with
      | [] => stuck OutOfFuel
      | c :: cs' => _ ← on_library (modify (upd_waiting (delete id))); _ ← completed hd c; run_loop cs'
      end
  end.

(** The destructor of the channel, and of the serial port it owns. *)
Definition destroy_channel (serial : SerialChannel.SerialChannel) : prog system reader unit :=
  match _pimpl serial with
  | Some i => _ ← perform (Library (Asio.close (SerialImpl._serial i))); mret tt
  | None => mret tt
  end.

(** The rest of [main], with the channel open. *)
Definition read_once (ctx : obj) (bufferSize : Z) (serial : SerialChannel.SerialChannel) (cs : list completion) :
    prog system reader unit :=
  addr ← match allocate_memory 2048 bufferSize with inr addr => mret addr | inl e => raise e end;
  buf ← on_library allocate;
  _ ← on_library (modify (upd_buffers <[buf := wrapMemory addr bufferSize]>));
  pm ← on_library (whole (SerialChannel.asyncRead serial) buf);
  _ ← modify (λ a, Reader (mem a) (Some (pm, buf)));
  _ ← on_library (EventLoop.run (EventLoop.create ctx));
  run_loop cs.

Definition open_channel (ctx : obj) (devPath : string) (boudRate : Z) : prog system reader SerialChannel.SerialChannel :=
  file ← match path_parse devPath with Some file => mret file | None => raise unwrap_exn end;
  on_library (SerialChannel.create (EventLoop.create ctx) ctx file boudRate eightbits parity_none one flow_none).

Definition main (argc : Z) (ctx : obj) (args : arguments) (cs : list completion) : prog system reader Z :=
  if argc <? 2 then _ ← on_system (enumerateDevices unwrap_exn); mret 0
  else
    match args with
    | Refused true text => _ ← say (cerr_text (makeString ["Error: "%string; text])); mret 1
    | Refused false text => _ ← say (cerr_text text); mret 0
    | Given boudRate bufferSize devPath =>
        serial ← open_channel ctx devPath boudRate;
        _ ← unwind (read_once ctx bufferSize serial cs) (destroy_channel serial);
        _ ← destroy_channel serial;
        mret 0
    end.

End Reader.

(** ** Properties *)

Section Once.
Context {V B : Type} `{MemoryView V} `{!ByteStream B V} `{!ByteWriter B V}.
Context `{!MemoryViewLaws V, !ByteStreamLaws B V, !ByteWriterLaws B V}.
Context {P : Type} `{!PathOps P, !StringOps, !ErrorOps} (unwrap_exn : exn) (junk : list Z).
Context (allocate_memory : Z → Z → exn + Z) (ctx o : obj) (K : world system).

Definition called {R} (op : system R) (t : trace system) : trace system := Prelude.Event op (K _ t op) :: t.

(** What the program still does when it waits for its read, of the [size] bytes at [addr]. *)
Definition reading (addr size : Z) (t : trace system) : trace system :=
  called (Library (ctx_run ctx)) (called (Library (start o (async_read_some addr size) 2)) t).

(** What is written out when the read completes with [c]. *)
Definition echoed (addr size : Z) (c : completion) (t : trace system) : trace system :=
  if truthy (c_error c) then t
  else called (System cout_flush) (called (System (cout_write addr (if c_length c <=? size then c_length c else 0))) t).

Definition idle_reader : reader (B := B) := Reader (Heap ∅ ∅ ∅ ∅ ∅ [] ∅ 0) None.

(** The program that waits for its read. *)
Definition waiting_reader (addr size : Z) : reader (B := B) :=
  Reader (Heap {[0%nat := wrapMemory addr size]} {[1%nat := Pending]} ∅ ∅ {[2%nat := H_transfer "asyncRead" 0 1]} [] ∅ 3)
    (Some (1%nat, 0%nat)).

(** A step of the library, in the program. *)
Definition inner (t : trace system) : world asio := λ R t' op, K R (map (embed_event (@Library)) t' ++ t) (Library op).

Lemma library_run {A} (m : prog asio (heap B) A) h e t o' h' t' :
  m (inner t) h [] = Run o' h' t' →
  on_library m K (Reader h e) t = Run o' (Reader h' e) (map (embed_event (@Library)) t' ++ t).
Proof. intros Hm. unfold on_library, embed, zoom. cbn [mem]. fold (inner t). by rewrite Hm. Qed.

Lemma whole_read_run addr size serial Kl t :
  0 ≤ size → _pimpl serial = Some (SerialImpl.MkImpl o) →
  whole (SerialChannel.asyncRead serial) 0 Kl (Heap {[0%nat := wrapMemory (B := B) addr size]} ∅ ∅ ∅ ∅ [] ∅ 1) t =
    Run (Ret 1%nat) (Heap {[0%nat := wrapMemory addr size]} {[1%nat := Pending]} ∅ ∅ {[2%nat := H_transfer "asyncRead" 0 1]} [] ∅ 3)
      (Prelude.Event (start o (async_read_some addr size) 2) (Kl _ t (start o (async_read_some addr size) 2)) :: t).
Proof.
  intros Hsize Hs. unfold whole, SerialChannel.asyncRead, forward, deref, buffer_at. rewrite bind_assoc, bind_get. cbn [buffers].
  rewrite lookup_singleton_eq, bind_ret, Hs, bind_ret, wrap_remaining by done.
  unfold SerialImpl.asyncRead, async_transfer, new_promise, initiate, asio_buffer, buffer_at, allocate. unfold_prog.
  rewrite lookup_singleton_eq. cbn. by rewrite slice_address, wrap_address.
Qed.

Lemma read_starts addr size serial cs t :
  0 ≤ size → _pimpl serial = Some (SerialImpl.MkImpl o) → allocate_memory 2048 size = inr addr →
  read_once junk allocate_memory ctx size serial cs K idle_reader t =
    run_loop junk cs K (waiting_reader addr size) (reading addr size t).
Proof.
  intros Hsize Hs Ha. unfold read_once. rewrite Ha, bind_ret, bind_run. unfold idle_reader.
  erewrite library_run by reflexivity. cbn iota beta. rewrite bind_run. erewrite library_run by reflexivity. cbn iota beta.
  rewrite bind_run. erewrite library_run by (apply whole_read_run; done). cbn iota beta.
  rewrite bind_run. unfold modify at 1. rewrite bind_run. cbn [mem]. erewrite library_run by reflexivity. cbn iota beta.
  reflexivity.
Qed.

Lemma nothing_left cs h e t : waiting h = ∅ → run_loop junk cs K (Reader (B := B) h e) t = Run (Ret tt) (Reader h e) t.
Proof. intros Hw. destruct cs; cbn [run_loop]; rewrite bind_get; cbn [mem]; by rewrite Hw, map_to_list_empty. Qed.

(** The handler, on the one operation there is. *)
Lemma handler_run addr size c Kl t :
  let h b p := Heap (B := B) {[0%nat := b]} {[1%nat := p]} ∅ ∅ ∅ [] ∅ 3 in
  run_handler junk (H_transfer "asyncRead" 0 1) c Kl (h (wrapMemory addr size) Pending) t =
    Run (Ret tt) (if truthy (c_error c) then h (wrapMemory addr size) (HasError (fromAsioError (c_error c) "asyncRead"))
                  else h (advance (c_length c) (wrapMemory addr size)).2 (HasValue VUnit)) t.
Proof.
  cbn zeta. unfold run_handler, transfer_handler, fulfil, setValue, setError, advance_buffer, buffer_at, modify, upd_promises, upd_buffers.
  destruct (truthy (c_error c)); unfold_prog; rewrite ?lookup_singleton_eq; cbn -[insert lookup]; rewrite ?lookup_empty; cbn -[insert]; by rewrite ?insert_singleton_eq.
Qed.

Lemma write_out_run b h e t :
  buffers h !! 0%nat = Some b →
  let view := viewWritten b in
  write_out 0 K (Reader h e) t = Run (Ret tt) (Reader (upd_buffers <[0%nat := rewind b]> h) e)
    (called (System cout_flush) (called (System (cout_write (dataAddress view) (view_size view))) t)).
Proof.
  intros Hb. cbn zeta. unfold write_out. rewrite bind_run.
  erewrite library_run; [|unfold buffer_at; rewrite bind_get, Hb; reflexivity]. reflexivity.
Qed.

Lemma read_ends addr size c cs t :
  0 ≤ size → 0 ≤ c_length c →
  ∃ s, run_loop junk (c :: cs) K (waiting_reader addr size) t = Run (Ret tt) s (echoed addr size c t).
Proof.
  intros Hsize Hc. cbn [run_loop]. unfold waiting_reader. rewrite bind_get. cbn [mem waiting].
  rewrite map_to_list_singleton, bind_run. erewrite library_run by reflexivity. cbn iota beta.
  unfold upd_waiting. cbn [buffers promises continuations servers waiting ready peers fresh]. rewrite delete_singleton_eq, bind_run.
  destruct (received_run (B := B) (c_length c) addr size Hsize Hc) as (_ & _ & Ha & Hn). unfold completed. rewrite bind_run.
  erewrite library_run by apply handler_run. rewrite bind_get. unfold echoed. cbn [echo mem].
  destruct (truthy (c_error c)); cbn [promises]; rewrite lookup_singleton_eq.
  - unfold modify. cbn [mem]. rewrite nothing_left by done. by eexists.
  - rewrite bind_run. unfold modify. cbn [mem].
    rewrite (write_out_run (advance (c_length c) (wrapMemory addr size)).2), nothing_left by (try apply lookup_singleton_eq; done).
    rewrite Ha, Hn. by eexists.
Qed.

End Once.

Section Main.
Context {V B : Type} `{MemoryView V} `{!ByteStream B V} `{!ByteWriter B V}.
Context `{!MemoryViewLaws V, !ByteStreamLaws B V, !ByteWriterLaws B V}.
Context {P : Type} `{!PathOps P, !StringOps, !ErrorOps} (unwrap_exn : exn) (junk : list Z).
Context (allocate_memory : Z → Z → exn + Z) (ctx : obj) (K : world system).

Lemma create_run file rate (h : heap B) Kl t :
  let r := SerialChannel.create (P := P) (EventLoop.create ctx) ctx file rate eightbits parity_none one flow_none Kl h t in
  st r = h ∧ ((∃ o, out r = Ret (Channel_new ctx (SerialImpl.MkImpl o))) ∨ ∃ e, out r = Raise e).
Proof.
  cbn zeta. unfold SerialChannel.create, SerialImpl.create. rewrite bind_run, getIOService_create, bind_assoc, bind_perform.
  destruct (truthy _); [split; [done|right; by eexists]|]. set (o := (Kl _ t _).2). set (t1 := Prelude.Event _ _ :: t).
  rewrite bind_assoc, bind_run. unfold unwind.
  destruct (set_options_run o rate eightbits parity_none one flow_none Kl h t1) as (Hst & Hset & _).
  destruct (SerialImpl.set_options o rate eightbits parity_none one flow_none Kl h t1) as [[[]|e|u] h' t']; cbn in *; subst; [..|done];
    (split; [done|]); [left|right]; by eexists.
Qed.

Lemma open_run devPath rate t :
  let r := open_channel (P := P) unwrap_exn ctx devPath rate K idle_reader t in
  st r = idle_reader (B := B) ∧ ((∃ o, out r = Ret (Channel_new ctx (SerialImpl.MkImpl o))) ∨ ∃ e, out r = Raise e).
Proof.
  cbn zeta. unfold open_channel. destruct (path_parse devPath) as [file|]; [|split; [done|right; by eexists]].
  rewrite bind_ret. destruct (create_run file rate (Heap ∅ ∅ ∅ ∅ ∅ [] ∅ 0) (inner K t) []) as [Hst Ho].
  destruct (SerialChannel.create _ _ _ _ _ _ _ _ _ _ _) as [o' h' t'] eqn:E. cbn in Hst, Ho.
  rewrite Hst in E. unfold idle_reader. rewrite (library_run _ _ _ _ _ _ _ _ E). by split.
Qed.

(** The reader opens its port, reads once and ends.  When the port can not be opened, or not
    be configured, the exception leaves [main] and nothing was read.  Otherwise exactly one read
    is started, on the whole of the buffer; if it succeeds, what it brought is written out, once,
    and flushed, and if it fails, nothing is: in both cases the program ends with success,
    whatever else could still arrive.  However it ends, the port that was opened is closed, by
    the last call. *)
Lemma serial_reader_once argc devPath boudRate bufferSize c cs t :
  2 ≤ argc → 0 ≤ bufferSize → 0 ≤ c_length c →
  let opened := open_channel unwrap_exn ctx devPath boudRate K (idle_reader (B := B)) t in
  let r := main unwrap_exn junk allocate_memory argc ctx (Given boudRate bufferSize devPath) (c :: cs) K idle_reader t in
  match out opened with
  | Raise e => out r = Raise e ∧ tr r = tr opened
  | Stuck _ => False
  | Ret serial => ∃ o, _pimpl serial = Some (SerialImpl.MkImpl o) ∧
      let closed t := called K (Library (Asio.close o)) t in
      match allocate_memory 2048 bufferSize with
      | inl e => out r = Raise e ∧ tr r = closed (tr opened)
      | inr addr => out r = Ret 0 ∧
          tr r = closed (echoed K addr bufferSize c (reading ctx o K addr bufferSize (tr opened)))
      end
  end.
Proof.
  intros Hargc Hsize Hc. cbn zeta. unfold main. destruct (Z.ltb_spec argc 2); [lia|]. rewrite bind_run.
  destruct (open_run devPath boudRate t) as [Hst Ho]. destruct (open_channel _ _ _ _ _ _ _) as [oc s1 t1]. cbn in Hst, Ho |- *. subst s1.
  destruct Ho as [[o ->]|[e ->]]; [|done]. exists o. split; [done|]. set (serial := Channel_new ctx (SerialImpl.MkImpl o)).
  rewrite bind_run. unfold unwind. destruct (allocate_memory 2048 bufferSize) as [e|addr] eqn:Ea.
  - unfold read_once. rewrite Ea. done.
  - rewrite (read_starts _ _ _ o _ addr bufferSize serial) by done.
    destruct (read_ends junk K addr bufferSize c cs (reading ctx o K addr bufferSize t1) Hsize Hc) as [s ->]. done.
Qed.

End Main.

(** ** On an input *)

#[local] Existing Instances Concrete.path_ops Concrete.string_ops Concrete.error_ops Concrete.view_ops Concrete.writer_stream
  Concrete.writer_ops Concrete.view_laws Concrete.writer_stream_laws Concrete.writer_laws.

(** Every call succeeds. *)
Definition demo_system : world system := λ R t op,
  match op in system R return R with
  | System op' => zero_answer op'
  | Library op' => zero_asio_answer op'
  end.

Lemma serial_reader_once_witness :
  let r := main (P := string) (B := Concrete.writer) NotOpen [] (λ _ _, inr 4096) 2 1 (Given 9600 120 "/dev/ttyS0")
             [Completion 0 5 0 0] demo_system idle_reader [] in
  out r = Ret 0 ∧
  List.filter (λ e, match ev_op e with System (cout_write _ _) => true | _ => false end) (tr r) =
    [Prelude.Event (System (cout_write 4096 5)) tt].
Proof.
  pose proof (serial_reader_once (P := string) (B := Concrete.writer) NotOpen [] (λ _ _, inr 4096) 1 demo_system 2 "/dev/ttyS0" 9600 120
    (Completion 0 5 0 0) [] [] ltac:(done) ltac:(done) ltac:(done)) as Hr.
  cbn zeta. cbn zeta in Hr.
  destruct (out (open_channel _ _ _ _ _ _ _)) eqn:E in Hr; [|vm_compute in E; discriminate..].
  destruct Hr as (o & _ & Ho & ->). split; [exact Ho|reflexivity].
Defined.
