(* ===== verification/Reactor.v ===== *)
(** * The reactor: clients, Asio and the handlers together

    A transition system over the heap: a client calls an asynchronous operation of a channel,
    Asio completes an operation it was given, Asio runs the handler of a completed one.  Asio's
    contract is the shape of the last two steps: a handler it was given is run once, after
    completion, with the result. *)
From stdpp Require Import gmap relations.
From S2P Require Import Prelude Solace IPAddress Serial Asio AsyncObjects StreamSockets Datagrams Acceptors AsyncServer.

Section Reactor.
Context {V B : Type} `{MemoryView V} `{!ByteStream B V} `{!ErrorOps} (en : endian) (junk : list Z).

(** The asynchronous operations. *)
Inductive call :=
  | call_event_wait (readBuffer : Z) (e : AsyncObjects.Event.Event)
  | call_timer_wait (t : Timer.Timer)
  | call_signal_wait (s : SignalSet.SignalSet)
  | call_pipe_read (p : Pipe.Pipe) (dest : nat) (n : Z)
  | call_pipe_write (p : Pipe.Pipe) (src : nat) (n : Z)
  | call_serial_read (c : SerialChannel.SerialChannel) (dest : nat) (n : Z)
  | call_serial_write (c : SerialChannel.SerialChannel) (src : nat) (n : Z)
  | call_tcp_read (s : Channel TcpSocketImpl.TcpSocketImpl) (dest : nat) (n : Z)
  | call_tcp_write (s : Channel TcpSocketImpl.TcpSocketImpl) (src : nat) (n : Z)
  | call_tcp_connect (s : Channel TcpSocketImpl.TcpSocketImpl) (ep : NetworkEndpoint)
  | call_unix_read (s : Channel StreamDomainSocketImpl.StreamDomainSocketImpl) (dest : nat) (n : Z)
  | call_unix_write (s : Channel StreamDomainSocketImpl.StreamDomainSocketImpl) (src : nat) (n : Z)
  | call_unix_connect (s : Channel StreamDomainSocketImpl.StreamDomainSocketImpl) (ep : NetworkEndpoint)
  | call_udp_read (u : UdpSocket.UdpSocket) (dest : nat) (n : Z)
  | call_udp_read_from (u : UdpSocket.UdpSocket) (dest : nat) (n : Z)
  | call_udp_write (u : UdpSocket.UdpSocket) (src : nat) (n : Z)
  | call_udp_write_to (u : UdpSocket.UdpSocket) (ep : IPEndpoint) (src : nat) (n : Z)
  | call_dgram_read (d : DatagramDomainSocket.DatagramDomainSocket) (dest : nat) (n : Z)
  | call_dgram_read_from (d : DatagramDomainSocket.DatagramDomainSocket) (dest : nat) (n : Z) (ep : UnixEndpoint)
  | call_dgram_write (d : DatagramDomainSocket.DatagramDomainSocket) (src : nat) (n : Z)
  | call_dgram_write_to (d : DatagramDomainSocket.DatagramDomainSocket) (src : nat) (n : Z) (ep : UnixEndpoint)
  | call_dgram_connect (d : DatagramDomainSocket.DatagramDomainSocket) (ep : UnixEndpoint)
  | call_accept (a : Acceptor.Acceptor)
  | call_server_create (loop : obj) (cb : bool)
  | call_server_move (left : bool) (sid : nat)
  | call_server_start (sid : nat) (ep : NetworkEndpoint)
  | call_server_stop (sid : nat).

Definition void {A} (m : prog asio (heap B) A) : prog asio (heap B) unit := _ ← m; mret tt.

Definition exec (c : call) : prog asio (heap B) unit :=
  match c with
  | call_event_wait b e => void (AsyncObjects.Event.asyncWait b e)
  | call_timer_wait t => void (Timer.asyncWait t)
  | call_signal_wait s => void (SignalSet.asyncWait s)
  | call_pipe_read p dest n => void (Pipe.asyncRead p dest n)
  | call_pipe_write p src n => void (Pipe.asyncWrite p src n)
  | call_serial_read c dest n => void (SerialChannel.asyncRead c dest n)
  | call_serial_write c src n => void (SerialChannel.asyncWrite c src n)
  | call_tcp_read s dest n => void (forward s (λ i, TcpSocketImpl.asyncRead i dest n))
  | call_tcp_write s src n => void (forward s (λ i, TcpSocketImpl.asyncWrite i src n))
  | call_tcp_connect s ep => void (forward s (λ i, TcpSocketImpl.asyncConnect en i ep))
  | call_unix_read s dest n => void (forward s (λ i, StreamDomainSocketImpl.asyncRead i dest n))
  | call_unix_write s src n => void (forward s (λ i, StreamDomainSocketImpl.asyncWrite i src n))
  | call_unix_connect s ep => void (forward s (λ i, StreamDomainSocketImpl.asyncConnect i ep))
  | call_udp_read u dest n => void (UdpSocket.asyncRead u dest n)
  | call_udp_read_from u dest n => void (UdpSocket.asyncReadFrom u dest n)
  | call_udp_write u src n => void (UdpSocket.asyncWrite u src n)
  | call_udp_write_to u ep src n => void (UdpSocket.asyncWriteTo u ep src n)
  | call_dgram_read d dest n => void (DatagramDomainSocket.asyncRead d dest n)
  | call_dgram_read_from d dest n ep => void (DatagramDomainSocket.asyncReadFrom d dest n ep)
  | call_dgram_write d src n => void (DatagramDomainSocket.asyncWrite d src n)
  | call_dgram_write_to d src n ep => void (DatagramDomainSocket.asyncWriteTo d src n ep)
  | call_dgram_connect d ep => void (DatagramDomainSocket.asyncConnect d ep)
  | call_accept a => void (Acceptor.asyncAccept a)
  | call_server_create loop cb => void (AsyncServer.create loop cb)
  | call_server_move rest sid => void (AsyncServer.move rest sid)
  | call_server_start sid ep => void (startListen en sid ep)
  | call_server_stop sid => stop sid
  end.

Definition not_stuck {A} (o : outcome A) : Prop := match o with Stuck _ => False | _ => True end.

(** Asio completes the operation [id]; its handler is to run later.  The sender of a datagram
    that was received is written now, to the socket's [pe] or to the local variable the
    operation was given: the function has returned, and the write is to a dead frame. *)
Definition complete (id : nat) (hd : handler) (c : completion) (from : asio_address * Z) (h : heap B) :
    option (heap B) :=
  let h := upd_ready (λ r, r ++ [(hd, c)]) (upd_waiting (delete id) h) in
  if truthy (c_error c) then Some h
  else match hd with
       | H_read_from sock _ _ => Some (upd_peers <[sock := from]> h)
       | H_transfer_from _ _ _ => None
       | _ => Some h
       end.

Definition state : Type := heap B * trace asio.

(** What happens inside [EventLoop::run]: operations complete, handlers run. *)
Inductive asio_step (K : world asio) : state → state → Prop :=
  | step_complete id hd c from h h' t :
      waiting h !! id = Some hd → complete id hd c from h = Some h' → asio_step K (h, t) (h', t)
  | step_run hd c rest h t :
      ready h = (hd, c) :: rest →
      let r := run_handler junk hd c K (upd_ready (λ _, rest) h) t in
      not_stuck (out r) → asio_step K (h, t) (st r, tr r).

Inductive step (K : world asio) : state → state → Prop :=
  | step_new_buffer b h t :
      step K (h, t) (upd_fresh S (upd_buffers <[fresh h := b]> h), t)
  | step_call c h t :
      not_stuck (out (exec c K h t)) → step K (h, t) (st (exec c K h t), tr (exec c K h t))
  | step_asio s s' : asio_step K s s' → step K s s'.


Definition initial : heap B := Heap ∅ ∅ ∅ ∅ ∅ [] ∅ 0.

End Reactor.

(** ** Who owns a promise *)

Section Ownership.
Context {V B : Type} `{MemoryView V} `{!ByteStream B V} `{!ErrorOps} (en : endian) (junk : list Z).

(** The promises that handlers own, waiting or ready. *)
Definition owned (h : heap B) : list nat :=
  map handler_promise (map snd (map_to_list (waiting h))) ++ map (λ r, handler_promise r.1) (ready h).

(** [X] are the promises that the running code holds.  Each promise that is pending has one
    owner, and what has an owner is pending. *)
Record wf (X : list nat) (h : heap B) : Prop := {
  wf_nodup : NoDup (X ++ owned h);
  wf_pending pm : promises h !! pm = Some Pending ↔ pm ∈ X ++ owned h;
  wf_promise_fresh pm : is_Some (promises h !! pm) → (pm < fresh h)%nat;
  wf_waiting_fresh id : is_Some (waiting h !! id) → (id < fresh h)%nat }.

(** What was resolved stays as it is. *)
Definition settled (h0 h : heap B) : Prop :=
  ∀ pm r, promises h0 !! pm = Some r → r ≠ Pending → promises h !! pm = Some r.

Definition inv (h0 : heap B) (X : list nat) (h : heap B) : Prop := wf X h ∧ settled h0 h.

(** Changes that concern neither promises nor handlers. *)
Definition same_promises (h h' : heap B) : Prop :=
  promises h' = promises h ∧ waiting h' = waiting h ∧ ready h' = ready h ∧ (fresh h ≤ fresh h')%nat.

Lemma inv_same h0 X h h' : same_promises h h' → inv h0 X h → inv h0 X h'.
Proof.
  intros (Hp & Hw & Hr & Hf) [[H1 H2 H3 H4] Hs].
  assert (owned h' = owned h) as Ho by (unfold owned; by rewrite Hw, Hr).
  split; [split|].
  - by rewrite Ho.
  - intros pm. by rewrite Hp, Ho.
  - intros pm. rewrite Hp. intros ?%H3. lia.
  - intros id. rewrite Hw. intros ?%H4. lia.
  - intros pm r. rewrite Hp. apply Hs.
Qed.

Lemma inv_new_promise h0 X h :
  inv h0 X h → inv h0 (fresh h :: X) (upd_promises <[fresh h := Pending]> (upd_fresh S h)).
Proof.
  intros [[H1 H2 H3 H4] Hs].
  assert (Hn : promises h !! fresh h = None).
  { destruct (promises h !! fresh h) eqn:E; [|done]. specialize (H3 (fresh h) ltac:(by eexists)). lia. }
  assert (Hni : fresh h ∉ X ++ owned h).
  { intros Hi. apply H2 in Hi. congruence. }
  split; [split|]; cbn.
  - constructor; done.
  - intros pm. rewrite lookup_insert_Some, elem_of_cons. fold (owned h). rewrite <- H2.
    split; [intros [[-> _]|[_ ?]]; auto|].
    intros [->|Hp]; [by left|]. right. split; [congruence|done].
  - intros pm. rewrite lookup_insert_is_Some. intros [->|[_ ?%H3]]; lia.
  - intros id ?%H4. lia.
  - intros pm r Hpm Hr. cbn. rewrite lookup_insert_ne; [by apply Hs|].
    intros <-. specialize (Hs (fresh h) r Hpm Hr). congruence.
Qed.

Lemma inv_resolve h0 X pm r h :
  r ≠ Pending → inv h0 (pm :: X) h → inv h0 X (upd_promises <[pm := r]> h).
Proof.
  intros Hr [[H1 H2 H3 H4] Hs]. apply NoDup_cons in H1 as [Hni H1].
  assert (Hp : promises h !! pm = Some Pending) by (apply H2; by left).
  split; [split|]; cbn.
  - done.
  - intros q. rewrite lookup_insert_Some. fold (owned h).
    specialize (H2 q). cbn in H2. rewrite elem_of_cons in H2. split.
    + intros [[_ ?]|[Hne Hq]]; [done|]. apply H2 in Hq as [->|Hq]; done.
    + intros Hq. right. split; [by intros ->|]. apply H2. by right.
  - intros q. rewrite lookup_insert_is_Some. intros [->|[_ ?]]; apply H3; [by eexists|done].
  - done.
  - intros q r' Hq Hr'. cbn. destruct (decide (q = pm)) as [->|]; [|rewrite lookup_insert_ne by done; by apply Hs].
    specialize (Hs pm r' Hq Hr'). congruence.
Qed.

Lemma owned_insert h id hd :
  waiting h !! id = None → owned (upd_waiting <[id := hd]> h) ≡ₚ handler_promise hd :: owned h.
Proof. intros Hid. unfold owned. cbn. by rewrite map_to_list_insert. Qed.

Lemma wf_perm X h h' :
  promises h' = promises h → owned h' ≡ₚ owned h → (fresh h ≤ fresh h')%nat →
  (∀ id, is_Some (waiting h' !! id) → (id < fresh h')%nat) → wf X h → wf X h'.
Proof.
  intros Hp Ho Hf Hw [H1 H2 H3 H4]. split.
  - by rewrite Ho.
  - intros pm. by rewrite Hp, Ho.
  - intros pm. rewrite Hp. intros ?%H3. lia.
  - done.
Qed.

Lemma inv_initiate h0 X hd h :
  inv h0 (handler_promise hd :: X) h →
  inv h0 X (upd_waiting <[fresh h := hd]> (upd_fresh S h)).
Proof.
  intros [[H1 H2 H3 H4] Hs].
  assert (Hn : waiting h !! fresh h = None).
  { destruct (waiting h !! fresh h) eqn:E; [|done]. specialize (H4 (fresh h) ltac:(by eexists)). lia. }
  assert (Ho : handler_promise hd :: X ++ owned h ≡ₚ X ++ owned (upd_waiting <[fresh h := hd]> (upd_fresh S h))).
  { rewrite (owned_insert (upd_fresh S h)) by done. by rewrite Permutation_middle. }
  split; [split|].
  - by rewrite <- Ho.
  - intros pm. rewrite <- Ho. apply H2.
  - intros pm ?%H3. cbn. lia.
  - intros id. cbn. rewrite lookup_insert_is_Some. intros [->|[_ ?%H4]]; lia.
  - done.
Qed.

(** Pieces of the channels: what they do to the owners. *)
Abbreviation keeps X Y m h0 := (triple (E := asio) (inv h0 X) m (λ _, inv h0 Y) (inv h0 [])).

Lemma t_new_promise h0 X :
  triple (inv h0 X) new_promise (λ pm, inv h0 (pm :: X)) (inv h0 []).
Proof. intros K h t Hh. cbn. by apply inv_new_promise. Qed.

Lemma t_setValue h0 X pm v : keeps (pm :: X) X (setValue pm v) h0.
Proof. apply triple_modify. intros. by apply inv_resolve. Qed.

Lemma t_setError h0 X pm e : keeps (pm :: X) X (setError pm e) h0.
Proof. apply triple_modify. intros. by apply inv_resolve. Qed.

Lemma t_initiate h0 X o op hd : keeps (handler_promise hd :: X) X (initiate o op hd) h0.
Proof. intros K h t Hh. cbn. by apply inv_initiate. Qed.

Lemma t_modify_same h0 X f : (∀ h, same_promises h (f h)) → keeps X X (modify f) h0.
Proof. intros Hf. apply triple_modify. intros h. by apply inv_same. Qed.

Lemma t_buffer_at h0 X d : keeps X X (buffer_at d) h0.
Proof. intros K h t Hh. unfold buffer_at. unfold_prog. by destruct (buffers h !! d). Qed.

Lemma t_deref {A} h0 X (p : option A) : keeps X X (deref p) h0.
Proof. destruct p; [by apply triple_ret|apply triple_stuck]. Qed.

Lemma t_perform {R} h0 X (op : asio R) : keeps X X (perform op) h0.
Proof. apply triple_perform. Qed.

Lemma t_ret {A} h0 X (a : A) : keeps X X (mret a) h0.
Proof. by apply triple_ret. Qed.

Lemma t_stuck {A} h0 X Y u : triple (inv h0 X) (stuck u : prog asio (heap B) A) (λ _, inv h0 Y) (inv h0 []).
Proof. apply triple_stuck. Qed.

Lemma t_get h0 X : keeps X X get h0.
Proof. by apply triple_get. Qed.

Lemma t_throwing h0 (op : asio Z) : keeps [] [] (throwing op) h0.
Proof.
  unfold throwing. eapply triple_bind; [apply t_perform|]. intros ec.
  case_match; [by apply triple_raise|apply t_ret].
Qed.

Lemma t_server_at h0 X sid : keeps X X (server_at sid) h0.
Proof. intros K h t Hh. unfold server_at. unfold_prog. by destruct (servers h !! sid). Qed.

Hint Resolve t_new_promise t_setValue t_setError t_initiate t_buffer_at t_deref t_perform
  t_ret t_stuck t_get t_throwing t_server_at : triple.

(** Walks through a program whose pieces are in the database. *)
Ltac triple_tac :=
  repeat (intros; cbn beta iota zeta; first
    [ solve [eauto 2 with triple]
    | eapply triple_bind; [solve [eauto 2 with triple]|]
    | case_match ]).

Lemma t_advance_buffer h0 X d n : keeps X X (advance_buffer d n) h0.
Proof.
  unfold advance_buffer. eapply triple_bind; [apply t_buffer_at|]. intros b.
  eapply triple_bind; [apply t_modify_same; intros; unfold same_promises; split_and!; done|]. intros. apply t_ret.
Qed.

Lemma t_asio_buffer h0 X d n : keeps X X (asio_buffer d n) h0.
Proof. unfold asio_buffer. triple_tac. Qed.

Lemma t_toAsioLocalEndpoint h0 X ep : keeps X X (toAsioLocalEndpoint ep) h0.
Proof. unfold toAsioLocalEndpoint. triple_tac. Qed.

Lemma t_toAsioLocalDatagramEndpoint h0 X ep : keeps X X (toAsioLocalDatagramEndpoint ep) h0.
Proof. unfold toAsioLocalDatagramEndpoint. triple_tac. Qed.

Hint Resolve t_advance_buffer t_asio_buffer t_toAsioLocalEndpoint t_toAsioLocalDatagramEndpoint : triple.

(** A handler that is to own the promise last made. *)
Lemma t_initiate_pm h0 X o op hd pm : handler_promise hd = pm → keeps (pm :: X) X (initiate o op hd) h0.
Proof. intros <-. apply t_initiate. Qed.
Hint Resolve t_initiate_pm : triple.

Lemma t_async_transfer h0 X mk o op d n :
  (∀ d pm, handler_promise (mk d pm) = pm) → keeps X X (async_transfer mk o op d n) h0.
Proof. intros Hmk. unfold async_transfer. triple_tac. Qed.

Lemma t_forward {I A} h0 X (c : Channel I) (m : I → prog asio (heap B) A) :
  (∀ i, keeps X X (m i) h0) → keeps X X (forward c m) h0.
Proof. intros Hm. unfold forward. eapply triple_bind; [apply t_deref|]. auto. Qed.

Lemma t_accept_async h0 a : keeps [] [] (Acceptor.asyncAccept a) h0.
Proof.
  unfold Acceptor.asyncAccept, Acceptor.on_impl, Acceptor.dispatch,
    TcpAcceptor.asyncAccept, StremDomainAcceptor.asyncAccept. triple_tac.
Qed.

Lemma t_void {A} h0 X (m : prog asio (heap B) A) : keeps X X m h0 → keeps X X (void m) h0.
Proof. intros Hm. unfold void. eapply triple_bind; [exact Hm|]. intros. apply t_ret. Qed.

Lemma t_allocate h0 X : keeps X X allocate h0.
Proof.
  intros K h t Hh. cbn. apply (inv_same h0 X h); [|done]. unfold same_promises. cbn. split_and!; [done..|]. change (fresh h ≤ S (fresh h))%nat. lia.
Qed.

Lemma t_or_error h0 op tag rest : keeps [] [] rest h0 → keeps [] [] (or_error op tag rest) h0.
Proof. intros Hr. unfold or_error. triple_tac. Qed.

Lemma t_open_if_closed h0 a e rest : keeps [] [] rest h0 → keeps [] [] (open_if_closed a e rest) h0.
Proof. intros Hr. unfold open_if_closed. triple_tac. Qed.

Lemma t_bind_and_listen h0 a e : keeps [] [] (bind_and_listen a e) h0.
Proof. unfold bind_and_listen. apply t_or_error, t_or_error, t_ret. Qed.

Lemma t_impl_open h0 i ep : keeps [] []
  (Acceptor.dispatch i (λ a, TcpAcceptor.open en a ep) (λ a, StremDomainAcceptor.open a ep)) h0.
Proof.
  destruct i as [a|a]; cbn; unfold TcpAcceptor.open, StremDomainAcceptor.open.
  - destruct (toAsioIPEndpoint en ep) as [e ec]. case_match; [apply t_ret|].
    apply t_open_if_closed, t_or_error, t_bind_and_listen.
  - eapply triple_bind; [apply t_toAsioLocalEndpoint|]. intros [e ec]. case_match; [apply t_ret|].
    apply t_or_error, t_open_if_closed, t_bind_and_listen.
Qed.

Lemma t_create_impl h0 loop ep : keeps [] [] (Acceptor.create_impl loop ep) h0.
Proof.
  unfold Acceptor.create_impl, TcpAcceptor.createTCPAcceptor, StremDomainAcceptor.createUnixDomainAcceptor.
  destruct ep; (eapply (triple_bind _ _ _ _ (λ _, inv h0 [])); [triple_tac|]; intros; apply t_ret).
Qed.

Lemma t_acceptor_open h0 a ep : keeps [] [] (Acceptor.open en a ep) h0.
Proof.
  unfold Acceptor.open. destruct (Acceptor._pimpl a); [apply t_ret|].
  eapply triple_bind; [apply t_create_impl|]. intros i.
  eapply triple_bind; [apply t_impl_open|]. intros. apply t_ret.
Qed.

Lemma t_doAcceptSession h0 sid : keeps [] [] (doAcceptSession sid) h0.
Proof.
  unfold doAcceptSession. eapply triple_bind; [apply t_server_at|]. intros s.
  eapply triple_bind; [apply t_accept_async|]. intros pm.
  apply t_modify_same. intros. unfold same_promises. by split_and!.
Qed.

Lemma t_acceptor_isOpen h0 a : keeps [] [] (Acceptor.isOpen a) h0.
Proof. unfold Acceptor.isOpen, Acceptor.on_impl, Acceptor.dispatch, TcpAcceptor.isOpen, StremDomainAcceptor.isOpen. triple_tac. Qed.

Lemma t_session_accepted h0 sid sk : keeps [] [] (session_accepted sid sk) h0.
Proof.
  unfold session_accepted. eapply triple_bind; [apply t_server_at|]. intros s.
  eapply (triple_bind _ _ _ _ (λ _, inv h0 [])); [triple_tac|]. intros ?.
  eapply triple_bind; [apply t_acceptor_isOpen|]. intros b.
  eapply (triple_bind _ _ _ _ (λ _, inv h0 [])); [destruct b; [apply t_doAcceptSession|apply t_ret]|]. intros ?.
  unfold destroy_channel. triple_tac.
Qed.

Lemma t_fulfil h0 pm v : keeps [pm] [] (fulfil pm v) h0.
Proof.
  unfold fulfil. eapply triple_bind; [apply t_setValue|]. intros ?.
  eapply triple_bind; [apply t_get|]. intros h.
  repeat case_match; try apply t_ret. apply t_session_accepted.
Qed.

Lemma t_startListen h0 sid ep : keeps [] [] (startListen en sid ep) h0.
Proof.
  unfold startListen. eapply triple_bind; [apply t_server_at|]. intros s.
  eapply triple_bind; [apply t_acceptor_open|]. intros [res acc].
  eapply triple_bind; [apply t_modify_same; intros; unfold same_promises; by split_and!|]. intros ?.
  destruct res; [|apply t_ret].
  eapply triple_bind; [apply t_doAcceptSession|]. intros. apply t_ret.
Qed.

Lemma t_run_handler h0 hd c : keeps [handler_promise hd] [] (run_handler junk hd c) h0.
Proof.
  destruct hd; cbn [run_handler handler_promise]; unfold transfer_handler, transfer_always_handler, done_handler,
    timer_handler, signal_handler, read_from_handler, accept_handler;
  repeat first [apply t_setError | apply t_fulfil
    | eapply triple_bind; [apply t_advance_buffer || apply t_get|intros ?] | case_match].
Qed.

Lemma t_server_create h0 loop cb : keeps [] [] (AsyncServer.create loop cb) h0.
Proof.
  unfold AsyncServer.create. eapply triple_bind; [apply t_allocate|]. intros ?.
  eapply triple_bind; [apply t_modify_same; intros; unfold same_promises; by split_and!|]. intros ?.
  apply t_ret.
Qed.

Lemma t_server_move h0 left sid : keeps [] [] (AsyncServer.move left sid) h0.
Proof.
  unfold AsyncServer.move. eapply triple_bind; [apply t_server_at|]. intros ?.
  eapply triple_bind; [apply t_allocate|]. intros ?.
  eapply triple_bind; [apply t_modify_same; intros; unfold same_promises; by split_and!|]. intros ?.
  apply t_ret.
Qed.

Hint Resolve t_server_create t_server_move t_async_transfer t_allocate t_startListen t_accept_async : triple.

(** Every operation of the client keeps the owners. *)
Lemma t_exec h0 c : keeps [] [] (exec en c) h0.
Proof.
  destruct c; cbn; try apply t_void;
    unfold AsyncObjects.Event.asyncWait, EventImpl.asyncWait, Timer.asyncWait, TimerImpl.asyncWait,
      SignalSet.asyncWait, SignalSetImpl.asyncWait, Pipe.asyncRead, Pipe.asyncWrite, PipeImpl.asyncRead,
      PipeImpl.asyncWrite, SerialImpl.asyncRead, SerialImpl.asyncWrite, UdpImpl.asyncRead, UdpImpl.asyncReadFrom,
      UdpImpl.asyncWrite, UdpImpl.asyncWriteTo, UdpImpl.send_to, SocketImpl.asyncRead, SocketImpl.asyncReadFrom,
      SocketImpl.asyncWrite, SocketImpl.asyncWriteTo, SocketImpl.asyncConnect,
      SerialChannel.asyncRead, SerialChannel.asyncWrite, TcpSocketImpl.asyncRead, TcpSocketImpl.asyncWrite,
      TcpSocketImpl.asyncConnect, StreamDomainSocketImpl.asyncRead, StreamDomainSocketImpl.asyncWrite,
      StreamDomainSocketImpl.asyncConnect, UdpSocket.asyncRead, UdpSocket.asyncReadFrom, UdpSocket.asyncWrite,
      UdpSocket.asyncWriteTo, DatagramDomainSocket.asyncRead, DatagramDomainSocket.asyncReadFrom,
      DatagramDomainSocket.asyncWrite, DatagramDomainSocket.asyncWriteTo, DatagramDomainSocket.asyncConnect,
      stop, Acceptor.close, Acceptor.on_impl, Acceptor.dispatch, TcpAcceptor.close, StremDomainAcceptor.close;
    try (apply t_forward; intros); triple_tac.
Qed.

(** Completing moves a handler from one list to the other. *)
Lemma inv_complete h0 id hd c from h h' :
  waiting h !! id = Some hd → complete id hd c from h = Some h' → inv h0 [] h → inv h0 [] h'.
Proof.
  intros Hid Hc [Hwf Hs].
  set (hm := upd_ready (λ r, r ++ [(hd, c)]) (upd_waiting (delete id) h)).
  assert (Hm : inv h0 [] hm).
  { split; [|exact Hs]. apply (wf_perm [] h); [done| |done| |done].
    - subst hm. unfold owned. cbn. rewrite map_app. cbn.
      rewrite <- (map_to_list_delete (waiting h) id hd Hid). cbn.
      rewrite app_assoc. rewrite <- Permutation_cons_append. reflexivity.
    - intros j. subst hm. cbn. rewrite lookup_delete_is_Some. intros [_ Hj].
      by apply (wf_waiting_fresh [] h Hwf). }
  unfold complete in Hc. fold hm in Hc.
  destruct (truthy (c_error c)), hd; simplify_eq; try done;
    apply (inv_same h0 [] hm); try done; unfold same_promises; by split_and!.
Qed.

(** Taking a handler off the queue leaves its promise with the code that runs. *)
Lemma inv_take h hd c rest :
  ready h = (hd, c) :: rest → wf [] h → inv h [handler_promise hd] (upd_ready (λ _, rest) h).
Proof.
  intros Hr [H1 H2 H3 H4].
  assert (Ho : owned h ≡ₚ handler_promise hd :: owned (upd_ready (λ _, rest) h)).
  { unfold owned. cbn. rewrite Hr. cbn. by rewrite Permutation_middle. }
  cbn [app] in H1, H2. split; [split|].
  - cbn [app]. by rewrite <- Ho.
  - intros pm. cbn [app]. rewrite <- Ho. apply H2.
  - done.
  - done.
  - by intros ???.
Qed.

Lemma step_inv K h t h' t' :
  step en junk K (h, t) (h', t') → wf [] h → wf [] h' ∧ settled h h'.
Proof.
  intros Hstep Hwf. assert (Hi : inv h [] h) by (split; [done|by intros ???]).
  inversion Hstep as [b h1 t1|c h1 t1 Hns|s1 s2 [id hd c from h1 h2 t1 Hid Hc|hd c rest h1 t1 Hr r Hns] E1 E2]; simplify_eq.
  - apply (inv_same h [] h); [|exact Hi]. unfold same_promises. cbn. split_and!; [done..|lia].
  - pose proof (t_exec h c K h t Hi) as Ht.
    destruct (exec en c K h t) as [[[]|e|u] s' t2]; cbn in *; done.
  - by apply (inv_complete h id hd c from h).
  - pose proof (t_run_handler h hd c K (upd_ready (λ _, rest) h) t (inv_take h hd c rest Hr Hwf)) as Ht.
    subst r. destruct (run_handler junk hd c K (upd_ready (λ _, rest) h) t) as [[[]|e|u] s' t2]; cbn in *; done.
Qed.

Lemma settled_trans h1 h2 h3 : settled h1 h2 → settled h2 h3 → settled h1 h3.
Proof. intros H12 H23 pm r Hp Hr. by apply H23; [apply H12|]. Qed.

Lemma steps_inv K s s' : rtc (step en junk K) s s' → wf [] s.1 → wf [] s'.1 ∧ settled s.1 s'.1.
Proof.
  induction 1 as [s|[h1 t1] [h2 t2] s3 Hstep Hsteps IH]; intros Hwf; [split; [done|by intros ???]|].
  destruct (step_inv K h1 t1 h2 t2 Hstep Hwf) as [Hwf2 Hs2].
  destruct (IH Hwf2) as [Hwf3 Hs3]. split; [done|]. by eapply settled_trans.
Qed.

Lemma wf_initial : wf [] (initial : heap B).
Proof.
  split; cbn.
  - unfold owned. cbn. rewrite map_to_list_empty. constructor.
  - intros pm. unfold owned. cbn. rewrite map_to_list_empty. cbn.
    rewrite lookup_empty. split; [done|]. by intros ?%elem_of_nil.
  - intros pm. rewrite lookup_empty. by intros [].
  - intros id. rewrite lookup_empty. by intros [].
Qed.

(** C1.  Every future is resolved exactly once.  In every history of the library (clients that
    call any asynchronous operation of any channel on any world, completions in any order,
    handlers run in the order of completion, servers that keep accepting): a promise that
    is pending is owned by exactly one handler that Asio holds; a promise that was resolved
    is never resolved again, and keeps its value or error for ever; and when Asio holds no
    handler, no promise is left pending. *)
Theorem futures_resolved_once (K : world asio) (t0 : trace asio) (s s' : state) :
  rtc (step en junk K) (initial : heap B, t0) s → rtc (step en junk K) s s' →
  NoDup (owned s.1) ∧
  (∀ pm, promises s.1 !! pm = Some Pending ↔ pm ∈ owned s.1) ∧
  (∀ pm r, promises s.1 !! pm = Some r → r ≠ Pending → promises s'.1 !! pm = Some r) ∧
  (waiting s.1 = ∅ → ready s.1 = [] → ∀ pm, promises s.1 !! pm ≠ Some Pending).
Proof.
  intros H1 H2. apply steps_inv in H1 as [Hwf _]; [|apply wf_initial].
  apply steps_inv in H2 as [_ Hs]; [|done]. destruct Hwf as [Hd Hp _ _]. cbn [app] in *.
  split_and!; [done|done|done|].
  intros Hw Hr pm Hpm. apply Hp in Hpm. unfold owned in Hpm. rewrite Hw, Hr, map_to_list_empty in Hpm.
  by apply elem_of_nil in Hpm.
Qed.

(** Two receives on one UDP socket share the variable in which Asio leaves the sender: when
    both datagrams arrive before the first handler runs, the first future yields the sender
    of the second datagram. *)
Lemma receive_from_race sock id1 id2 d1 d2 p1 p2 c1 c2 from1 from2 b (K : world asio) (h : heap B) (t : trace asio) :
  waiting h !! id1 = Some (H_read_from sock d1 p1) → waiting h !! id2 = Some (H_read_from sock d2 p2) →
  id1 ≠ id2 → ready h = [] → c_error c1 = 0 → c_error c2 = 0 →
  buffers h !! d1 = Some b → continuations h !! p1 = None →
  ∃ h1 h2 h3 rest,
    complete id1 (H_read_from sock d1 p1) c1 from1 h = Some h1 ∧
    complete id2 (H_read_from sock d2 p2) c2 from2 h1 = Some h2 ∧
    ready h2 = (H_read_from sock d1 p1, c1) :: rest ∧
    run_handler junk (H_read_from sock d1 p1) c1 K (upd_ready (λ _, rest) h2) t = Run (Ret tt) h3 t ∧
    promises h3 !! p1 = Some (HasValue (VEndpoint (fromAsioIP junk from2.1 from2.2))).
Proof.
  intros Hw1 Hw2 Hne Hr He1 He2 Hb Hc. unfold complete. rewrite He1, He2. cbn [truthy Z.eqb negb].
  eexists _, _, _, [(H_read_from sock d2 p2, c2)]. split; [done|]. split; [done|]. cbn. rewrite Hr. split; [done|].
  unfold run_handler, read_from_handler, fulfil, setValue, advance_buffer, buffer_at. rewrite He1. cbn [truthy Z.eqb negb].
  unfold mbind, prog_bind, get, modify, mret, prog_ret. cbn. rewrite Hb. cbn. rewrite Hc. split; [done|].
  cbn. rewrite lookup_insert_eq. unfold peer_of. cbn. by rewrite lookup_insert_eq.
Qed.

(** [DatagramDomainSocket::asyncReadFrom] gives Asio a local variable for the sender's
    address: the operation it initiates has no defined successful completion.  Errors are
    delivered. *)
Lemma local_receive_from (i : SocketImpl.SocketImpl) ctx dest n ep id c from b
    (K : world asio) (h : heap B) (t : trace asio) :
  id = S (fresh h) → buffers h !! dest = Some b → (0 < String.length (unix_str ep))%nat →
  let r := DatagramDomainSocket.asyncReadFrom (Channel_new ctx i) dest n ep K h t in
  out r = Ret (fresh h) ∧ waiting (st r) !! id = Some (H_transfer_from "asyncReadFrom" dest (fresh h)) ∧
  (complete id (H_transfer_from "asyncReadFrom" dest (fresh h)) c from (st r) = None ↔ c_error c = 0).
Proof.
  intros -> Hb Hl. cbn zeta.
  assert (Hlast : ∃ last, Nat.min (String.length (unix_str ep)) sun_path_size = S last).
  { exists (pred (Nat.min (String.length (unix_str ep)) sun_path_size)).
    unfold sun_path_size. destruct (String.length (unix_str ep)); [lia|done]. }
  destruct Hlast as [last Hlast].
  unfold DatagramDomainSocket.asyncReadFrom, SocketImpl.asyncReadFrom, forward, deref, Channel_new. cbn [_pimpl].
  unfold toAsioLocalDatagramEndpoint, asio_buffer, buffer_at, initiate, new_promise, allocate.
  unfold mbind, prog_bind, get, modify, mret, prog_ret, UnixEndpoint_toString. rewrite Hlast.
  cbn -[lookup insert]. rewrite Hb. cbn -[lookup insert]. split_and!; [done|by rewrite lookup_insert_eq|].
  unfold complete, truthy. destruct (Z.eqb_spec (c_error c) 0); cbn; split; congruence.
Qed.

End Ownership.

(** ** Inputs *)

#[local] Existing Instances Concrete.view_ops Concrete.stream_ops Concrete.error_ops.
Import Concrete.

(** A timer that expires. *)
Lemma futures_resolved_once_witness :
  ∃ s, rtc (step LittleEndian [] zero_asio) (initial (B := stream), []) s ∧
    promises s.1 !! 0%nat = Some (HasValue (VInt 1)) ∧ ∀ pm, promises s.1 !! pm ≠ Some Pending.
Proof.
  pose (K := zero_asio). pose (en := LittleEndian).
  pose (timer := Timer.MkTimer (Some (TimerImpl.MkImpl 7))).
  pose (h1 := st (exec (B := stream) en (call_timer_wait timer) K initial [])).
  pose (t1 := tr (exec (B := stream) en (call_timer_wait timer) K initial [])).
  pose (c := Completion 0 0 0 0).
  pose (h2 := upd_ready (λ r, r ++ [(H_timer 0, c)]) (upd_waiting (delete 1%nat) h1)).
  pose (r := run_handler (B := stream) [] (H_timer 0) c K (upd_ready (λ _, []) h2) t1).
  assert (Hs : rtc (step en [] K) (initial (B := stream), []) (st r, tr r)).
  { eapply rtc_l; [by apply (step_call en [] K (call_timer_wait timer))|].
    eapply rtc_l; [apply step_asio; by eapply (step_complete [] K 1 (H_timer 0) c (address_v4 [], 0) h1 h2 t1)|].
    apply rtc_once, step_asio. by apply (step_run [] K (H_timer 0) c []). }
  exists (st r, tr r). split; [exact Hs|].
  destruct (futures_resolved_once en [] K [] (st r, tr r) (st r, tr r) Hs) as (_ & _ & _ & Hq).
  - apply rtc_refl.
  - split; [done|]. by apply Hq.
Defined.
