(* ===== verification/Liveness.v ===== *)
(** * The reactor can always finish

    From every state of the reactor in which what the handlers refer to is alive, Asio alone,
    without another call of the client, can come to rest with every future resolved. *)
From stdpp Require Import gmap relations.
From S2P Require Import Prelude Solace IPAddress Asio AsyncObjects StreamSockets Datagrams Acceptors AsyncServer Reactor.

Section Liveness.
Context {V B : Type} `{MemoryView V} `{!ByteStream B V} `{!ErrorOps} (en : endian) (junk : list Z).

(** The buffer that a handler refers to. *)
Definition handler_buffer (hd : handler) : option nat :=
  match hd with
  | H_transfer _ dest _ | H_transfer_always _ dest _ | H_transfer_from _ dest _ | H_read_from _ dest _ => Some dest
  | _ => None
  end.

Definition buffer_alive (h : heap B) (hd : handler) : Prop :=
  ∀ dest, handler_buffer hd = Some dest → is_Some (buffers h !! dest).

(** A server that still has its acceptor. *)
Definition server_alive (h : heap B) (sid : nat) : Prop :=
  ∃ s p, servers h !! sid = Some s ∧ srv_pimpl s = Some p.

(** What the client owes to the library: the buffers of the operations under way, and the
    servers whose loops go on, are there. *)
Record alive (h : heap B) : Prop := {
  alive_waiting id hd : waiting h !! id = Some hd → buffer_alive h hd;
  alive_ready hd c : (hd, c) ∈ ready h → buffer_alive h hd;
  alive_servers pm sid : continuations h !! pm = Some sid → server_alive h sid }.

(** What running a handler may do to the memory. *)
Record grows (h h' : heap B) : Prop := {
  grows_buffers d : is_Some (buffers h !! d) → is_Some (buffers h' !! d);
  grows_domain pm : is_Some (promises h !! pm) → is_Some (promises h' !! pm);
  grows_ready : ready h' = ready h;
  grows_servers : servers h' = servers h;
  grows_waiting id hd : waiting h' !! id = Some hd → waiting h !! id = Some hd ∨ handler_buffer hd = None;
  grows_continuations pm sid : continuations h' !! pm = Some sid → ∃ pm', continuations h !! pm' = Some sid }.

Lemma grows_refl h : grows h h.
Proof. split; eauto. Qed.

Lemma grows_trans h1 h2 h3 : grows h1 h2 → grows h2 h3 → grows h1 h3.
Proof.
  intros [B1 P1 R1 S1 W1 C1] [B2 P2 R2 S2 W2 C2]. split; [auto|auto|congruence|congruence| |].
  - intros id hd [Hw|?]%W2; [|by right]. by apply W1.
  - intros pm sid [pm' Hc]%C2. by eapply C1.
Qed.

Lemma grows_alive h h' : grows h h' → alive h → alive h'.
Proof.
  intros [HB _ HR HS HW HC] [A1 A2 A3]. split.
  - intros id hd [Hw|Hn]%HW dest Hd; [|congruence]. eapply HB, A1; eassumption.
  - intros hd c Hr dest Hd. rewrite HR in Hr. eapply HB, A2; eassumption.
  - intros pm sid [pm' Hc]%HC. unfold server_alive. rewrite HS. by eapply A3.
Qed.

(** Running code that returns and only adds to the memory. *)
Definition returns {A} (m : prog asio (heap B) A) (P : heap B → Prop) : Prop :=
  ∀ K h t, P h → ∃ a h' t', m K h t = Run (Ret a) h' t' ∧ grows h h'.

Lemma insert_is_Some {A} (m : gmap nat A) i j x : is_Some (m !! i) → is_Some (<[j:=x]> m !! i).
Proof. intros Hi. rewrite lookup_insert_is_Some. destruct (decide (j = i)); auto. Qed.
Hint Resolve insert_is_Some : core.

Lemma grows_promises pm r h : grows h (upd_promises <[pm := r]> h).
Proof. split; cbn; eauto. Qed.

Lemma advance_returns dest n : returns (advance_buffer dest n) (λ h, is_Some (buffers h !! dest)).
Proof.
  intros K h t [b Hb]. unfold advance_buffer, buffer_at. unfold mbind, prog_bind, get, modify, mret, prog_ret.
  rewrite Hb. do 3 eexists. split; [reflexivity|]. split; cbn; eauto.
Qed.

(** The next round of a server's loop. *)
Lemma doAcceptSession_returns sid :
  returns (doAcceptSession sid) (λ h, server_alive h sid ∧ ∃ pm, continuations h !! pm = Some sid).
Proof.
  intros K h t [(s & [k o] & Hs & Hp) [pm Hpm]].
  unfold doAcceptSession, server_at, server_acceptor. unfold mbind, prog_bind, get, modify, mret, prog_ret.
  rewrite Hs. cbn -[lookup insert]. rewrite Hp.
  destruct k; do 3 eexists; (split; [reflexivity|]); split; cbn; eauto.
  all: intros ? ? [[<- <-]|[_ ?]]%lookup_insert_Some; eauto.
Qed.

Lemma session_returns sid sk :
  returns (session_accepted sid sk) (λ h, server_alive h sid ∧ ∃ pm, continuations h !! pm = Some sid).
Proof.
  intros K h t Ha. pose proof Ha as [(s & [k o] & Hs & Hp) _].
  unfold session_accepted, server_at. rewrite bind_run, bind_get, Hs. cbn [mret prog_ret].
  rewrite bind_run.
  assert (∃ t1, match srv_handler s, ss_pimpl sk with
    | true, Some impl => perform (call_accept_handler impl.1 impl.2)
    | _, _ => mret tt end K h t = Run (Ret tt) h t1) as [t1 ->].
  { destruct (srv_handler s), (ss_pimpl sk); try by eexists. unfold perform. destruct (K _ t _). by eexists. }
  rewrite bind_run. unfold server_acceptor. rewrite Hp.
  assert (∃ b t2, Acceptor.isOpen (B := B) (Acceptor.MkAcceptor (srv_loop s)
      match k with
      | K_local_acceptor => Some (Acceptor.Local (StremDomainAcceptor.MkLocalAcceptor (srv_loop s) o))
      | _ => Some (Acceptor.Tcp (TcpAcceptor.MkTcpAcceptor (srv_loop s) o))
      end) K h t1 = Run (Ret b) h t2) as (b & t2 & ->) by (destruct k; by do 2 eexists).
  assert (∃ h' t', (if b : bool then doAcceptSession sid else mret tt) K h t2 = Run (Ret tt) h' t' ∧ grows h h') as (h' & t' & Hrun & Hg).
  { destruct b; [|exists h, t2; split; [done|apply grows_refl]]. destruct (doAcceptSession_returns sid K h t2 Ha) as ([] & ?). done. }
  rewrite bind_run, Hrun. unfold destroy_channel.
  destruct (srv_handler s), (ss_pimpl sk); do 3 eexists; (split; [reflexivity|done]).
Qed.

Lemma fulfil_returns pm v :
  returns (fulfil pm v) (λ h, ∀ sid, continuations h !! pm = Some sid → server_alive h sid).
Proof.
  intros K h t Hs. unfold fulfil, setValue. rewrite bind_run. unfold modify. rewrite bind_get.
  set (h1 := upd_promises _ h). change (continuations h1) with (continuations h).
  destruct (continuations h !! pm) as [sid|] eqn:E.
  2: { do 3 eexists. split; [reflexivity|]. apply grows_promises. }
  destruct v; try (do 3 eexists; split; [reflexivity|apply grows_promises]).
  destruct (session_returns sid s K h1 t) as (a & h' & t' & Hrun & Hg).
  { split; [by apply Hs|by exists pm]. }
  exists a, h', t'. split; [exact Hrun|]. eapply grows_trans; [apply grows_promises|exact Hg].
Qed.

(** Resolving, after the buffer was advanced or not. *)
Lemma resolve_returns (error : bool) pm e v :
  returns (if error then setError pm e else fulfil pm v) (λ h, ∀ sid, continuations h !! pm = Some sid → server_alive h sid).
Proof.
  destruct error; [|apply fulfil_returns]. intros K h t _. do 3 eexists. split; [reflexivity|apply grows_promises].
Qed.

Lemma advance_then dest n (rest : prog asio (heap B) unit) :
  returns rest alive → returns (_ ← advance_buffer dest n; rest) (λ h, alive h ∧ is_Some (buffers h !! dest)).
Proof.
  intros Hr K h t [Ha Hb]. destruct (advance_returns dest n K h t Hb) as (a & h1 & t1 & Hrun & Hg).
  rewrite bind_run, Hrun. destruct (Hr K h1 t1 (grows_alive _ _ Hg Ha)) as (a' & h2 & t2 & Hrun2 & Hg2).
  rewrite Hrun2. do 3 eexists. split; [reflexivity|]. by eapply grows_trans.
Qed.

Lemma returns_weaken {A} (m : prog asio (heap B) A) (P Q : heap B → Prop) :
  returns m Q → (∀ h, P h → Q h) → returns m P.
Proof. intros Hm HPQ K h t Hh. by apply Hm, HPQ. Qed.

Lemma alive_resolve error pm e v : returns (if error : bool then setError pm e else fulfil pm v) alive.
Proof. eapply returns_weaken; [apply resolve_returns|]. intros h Ha sid. by apply (alive_servers h Ha). Qed.

Lemma returns_get {A} (f : heap B → prog asio (heap B) A) (P : heap B → Prop) :
  (∀ h0, returns (f h0) P) → returns (h ← get; f h) P.
Proof. intros Hf K h t Hh. rewrite bind_get. by apply Hf. Qed.

(** Every handler returns when what it refers to is alive. *)
Lemma handler_returns hd c : returns (run_handler junk hd c) (λ h, alive h ∧ buffer_alive h hd).
Proof.
  assert (Hplain : ∀ error pm e v, returns (if error : bool then setError pm e else fulfil pm v)
    (λ h, alive h ∧ buffer_alive h hd)).
  { intros. eapply returns_weaken; [apply alive_resolve|]. by intros h []. }
  assert (Hadv : ∀ dest n (m : prog asio (heap B) unit), handler_buffer hd = Some dest → returns m alive →
    returns (_ ← advance_buffer dest n; m) (λ h, alive h ∧ buffer_alive h hd)).
  { intros dest n m Hd Hm. eapply returns_weaken; [by apply advance_then|]. intros h [Ha Hb]. auto. }
  destruct hd; cbn [run_handler];
    unfold transfer_handler, transfer_always_handler, done_handler, timer_handler, signal_handler,
      read_from_handler, accept_handler; try apply Hplain.
  1, 3, 4: destruct (truthy (c_error c)); [apply (Hplain true _ _ VUnit)|apply Hadv; [done|]].
  - apply (alive_resolve false _ (fromAsioError 0 "")).
  - apply (alive_resolve false _ (fromAsioError 0 "")).
  - apply returns_get. intros h0. apply (alive_resolve false _ (fromAsioError 0 "")).
  - apply Hadv; [done|]. apply alive_resolve.
Qed.

(** A handler that is given an error starts nothing. *)
Lemma error_starts_nothing hd c K h t :
  truthy (c_error c) = true → waiting (st (run_handler junk hd c K h t)) = waiting h.
Proof.
  intros He. destruct hd; cbn [run_handler];
    unfold transfer_handler, transfer_always_handler, done_handler, timer_handler, signal_handler,
      read_from_handler, accept_handler; rewrite He; try done.
  unfold advance_buffer, buffer_at, mbind, prog_bind, get. by destruct (buffers h !! dest).
Qed.

Definition failed (r : handler * completion) : Prop := truthy (c_error r.2) = true.

Lemma alive_pop h hd c rest : ready h = (hd, c) :: rest → alive h → alive (upd_ready (λ _, rest) h).
Proof.
  intros Hr [A1 A2 A3]. split; cbn; [exact A1| |exact A3].
  intros hd' c' Hin. eapply A2. rewrite Hr. by right.
Qed.

(** Running what is ready. *)
Lemma drain K rest : ∀ h t, ready h = rest → alive h →
  ∃ h' t', rtc (asio_step junk K) (h, t) (h', t') ∧ ready h' = [] ∧ alive h' ∧
    (∀ pm, is_Some (promises h !! pm) → is_Some (promises h' !! pm)) ∧
    (Forall failed rest → waiting h' = waiting h).
Proof.
  induction rest as [|[hd c] rest IH]; intros h t Hr Ha; [by exists h, t; split_and!|].
  set (h0 := upd_ready (λ _, rest) h).
  assert (Ha0 : alive h0) by (by eapply alive_pop).
  destruct (handler_returns hd c K h0 t) as (a & h1 & t1 & Hrun & Hg).
  { split; [done|]. apply (alive_ready h Ha hd c). rewrite Hr. by left. }
  destruct (IH h1 t1) as (h' & t' & Hsteps & Hr' & Ha' & Hd' & Hw').
  { by rewrite (grows_ready _ _ Hg). }
  { by eapply grows_alive. }
  exists h', t'. split_and!; [|done|done|intros pm Hpm; by apply Hd', (grows_domain _ _ Hg)|].
  - eapply rtc_l; [|exact Hsteps]. pose proof (step_run junk K hd c rest h t Hr) as Hstep.
    fold h0 in Hstep. rewrite Hrun in Hstep. by apply Hstep.
  - intros [Hf Hfs]%Forall_cons. rewrite (Hw' Hfs).
    pose proof (error_starts_nothing hd c K h0 t Hf) as Hw. by rewrite Hrun in Hw.
Qed.

(** [asio::error::operation_aborted]. *)
Definition aborted : completion := Completion 125 0 0 0.

(** Aborting what is under way. *)
Lemma abort_all K n : ∀ h t, size (waiting h) = n → alive h → Forall failed (ready h) →
  ∃ h', rtc (asio_step junk K) (h, t) (h', t) ∧ waiting h' = ∅ ∧ alive h' ∧ promises h' = promises h ∧ Forall failed (ready h').
Proof.
  induction n as [|n IH]; intros h t Hn Ha Hf.
  { exists h. split_and!; try done. by apply map_size_empty_inv. }
  destruct (map_choose (waiting h)) as (id & hd & Hid); [intros E; by rewrite E, map_size_empty in Hn|].
  set (h1 := upd_ready (λ r, r ++ [(hd, aborted)]) (upd_waiting (delete id) h)).
  destruct (IH h1 t) as (h' & Hsteps & Hw & Ha' & Hp' & Hf').
  - subst h1. cbn. rewrite map_size_delete_Some by done. lia.
  - destruct Ha as [A1 A2 A3]. split; cbn; [| |exact A3].
    + intros id' hd' [_ Hw]%lookup_delete_Some. by eapply A1.
    + intros hd' c' [Hin|Hin]%elem_of_app; [by eapply A2|]. apply list_elem_of_singleton in Hin as [= -> ->].
      by eapply A1.
  - subst h1. cbn. apply Forall_app. split; [done|]. by repeat constructor.
  - exists h'. split_and!; try done. eapply rtc_l; [|exact Hsteps].
    by apply (step_complete junk K id hd aborted (address_v4 [], 0)).
Qed.

(** C4.  Futures are never stuck.  From every state that clients can reach, provided that the
    buffers of the operations under way and the servers of the running loops are alive, Asio
    can come to rest without any further call of the client: all its handlers have run
    and every promise ever made is resolved. *)
Theorem futures_can_resolve (K : world asio) (t0 : trace asio) (h : heap B) (t : trace asio) :
  rtc (step en junk K) (initial, t0) (h, t) → alive h →
  ∃ h' t', rtc (asio_step junk K) (h, t) (h', t') ∧ waiting h' = ∅ ∧ ready h' = [] ∧
    (∀ pm r, promises h' !! pm = Some r → r ≠ Pending) ∧
    (∀ pm, is_Some (promises h !! pm) → is_Some (promises h' !! pm)).
Proof.
  intros Hreach Ha.
  destruct (drain K (ready h) h t eq_refl Ha) as (h1 & t1 & S1 & R1 & A1 & D1 & _).
  destruct (abort_all K _ h1 t1 eq_refl A1) as (h2 & S2 & W2 & A2 & P2 & F2); [by rewrite R1|].
  destruct (drain K (ready h2) h2 t1 eq_refl A2) as (h3 & t3 & S3 & R3 & A3 & D3 & W3).
  specialize (W3 F2). rewrite W2 in W3.
  assert (Hsteps : rtc (asio_step junk K) (h, t) (h3, t3)) by (by do 2 (etrans; [eassumption|])).
  assert (Hall : rtc (step en junk K) (h, t) (h3, t3)).
  { eapply rtc_subrel; [|exact Hsteps]. intros; by apply step_asio. }
  apply steps_inv in Hreach as [Hwf _]; [|apply wf_initial]. cbn in Hwf.
  pose proof (steps_inv en junk K _ _ Hall Hwf) as [Hwf3 Hset]. cbn in Hwf3, Hset.
  exists h3, t3. split_and!; [done|done|done| |].
  - intros pm r Hp ->. apply (wf_pending [] h3 Hwf3) in Hp. cbn in Hp. unfold owned in Hp.
    rewrite W3, R3, map_to_list_empty in Hp. by apply elem_of_nil in Hp.
  - intros pm Hp. apply D3. rewrite P2. by apply D1.
Qed.

End Liveness.

#[local] Existing Instances Concrete.view_ops Concrete.stream_ops Concrete.error_ops.

(** A client that reads from a TCP socket into a buffer of eight bytes. *)
Definition reading_heap : heap Concrete.stream :=
  st (exec LittleEndian (call_tcp_read (Channel_new 0 (TcpSocketImpl.MkTcp 7)) 0 4) zero_asio
    (Heap {[0%nat := Concrete.Stream 100 8]} ∅ ∅ ∅ ∅ [] ∅ 1) []).

Lemma futures_can_resolve_witness :
  promises reading_heap !! 1%nat = Some Pending ∧
  ∃ h' t', rtc (asio_step [] zero_asio) (reading_heap, [Prelude.Event (start 7 (async_read 100 4) 2) tt]) (h', t') ∧
    ∀ pm r, promises h' !! pm = Some r → r ≠ Pending.
Proof.
  split; [done|].
  destruct (futures_can_resolve LittleEndian [] zero_asio [] reading_heap
    [Prelude.Event (start 7 (async_read 100 4) 2) tt]) as (h' & t' & Hs & _ & _ & Hp & _).
  - eapply rtc_l; [apply (step_new_buffer _ _ _ (Concrete.Stream 100 8))|].
    apply rtc_once. exact (step_call LittleEndian [] zero_asio
      (call_tcp_read (Channel_new 0 (TcpSocketImpl.MkTcp 7)) 0 4)
      (Heap {[0%nat := Concrete.Stream 100 8]} ∅ ∅ ∅ ∅ [] ∅ 1) [] I).
  - split.
    + intros id hd Hw dest Hd. change (waiting reading_heap) with
        ({[2%nat := H_transfer "asyncRead" 0 1]} : gmap nat handler) in Hw.
      apply lookup_singleton_Some in Hw as [_ <-]. injection Hd as <-. by exists (Concrete.Stream 100 8).
    + intros hd c Hin. by apply elem_of_nil in Hin.
    + intros pm sid Hc. change (continuations reading_heap) with (∅ : gmap nat nat) in Hc. by rewrite lookup_empty in Hc.
  - exists h', t'. split; [exact Hs|exact Hp].
Defined.
