(* ===== verification/Lifetimes.v ===== *)
(** * The end of channels, buffers and servers

    The reactor of [Reactor], with clients that destroy what they gave to the library while
    operations are under way: channels (whose destructors leave the rest to Asio's objects), the
    buffers they lent, and servers.  Asio's contract for the destructor of one of its objects:
    the operations under way on it complete with [operation_aborted]; what was completed before
    stays completed. *)
From stdpp Require Import gmap relations.
From S2P Require Import Prelude Solace IPAddress Asio AsyncObjects StreamSockets Datagrams Acceptors AsyncServer Reactor Liveness.

(** The object on which an operation was started last. *)
Fixpoint started_on (t : trace asio) (id : nat) : option obj :=
  match t with
  | [] => None
  | e :: t' =>
      match ev_op e with
      | start o _ id' => if (id =? id')%nat then Some o else started_on t' id
      | _ => started_on t' id
      end
  end.

(** The object of an operation; the handler of [UdpImpl::asyncReadFrom] names it. *)
Definition operation_on (t : trace asio) (x : nat * handler) : option obj :=
  match x.2 with H_read_from sock _ _ => Some sock | _ => started_on t x.1 end.

Section Lifetimes.
Context {V B : Type} `{MemoryView V} `{!ByteStream B V} `{!ErrorOps} (en : endian) (junk : list Z).

(** The memory, and the channels that were destroyed, by their Asio objects. *)
Record program := Program { mem : heap B; gone : gset obj }.
Definition lstate : Type := program * trace asio.

(** Aborting operations, in any order. *)
Definition abort (l : list (nat * handler)) (h : heap B) : heap B :=
  foldl (λ h x, upd_ready (λ r, r ++ [(x.2, aborted)]) (upd_waiting (delete x.1) h)) h l.

(** The handlers of operations under way on [o]. *)
Definition operations (o : obj) (t : trace asio) (h : heap B) : gmap nat handler :=
  filter (λ x, operation_on t x = Some o) (waiting h).

(** Running a handler: [ReadFromHandler] refers to the member [pe] of its socket. *)
Definition run_live (dead : gset obj) (hd : handler) (c : completion) : prog asio (heap B) unit :=
  match hd with
  | H_read_from sock dest _ =>
      if negb (truthy (c_error c)) && bool_decide (sock ∈ dead)
      then _ ← advance_buffer dest (c_length c); stuck DanglingPointer
      else run_handler junk hd c
  | _ => run_handler junk hd c
  end.

(** What the client must not do: take from a handler that will run what it refers to. *)

(** No datagram that was received for [o] waits to be delivered. *)
Definition delivered (o : obj) (h : heap B) : Prop :=
  ∀ dest pm c, (H_read_from o dest pm, c) ∈ ready h → truthy (c_error c) = true.

(** No operation under way transfers to or from [d]; of those that were completed, only
    failed ones are left to run, and they do not advance [d]. *)
Definition advances_anyway (hd : handler) : bool := match hd with H_transfer_always _ _ _ => true | _ => false end.
Definition unused (d : nat) (h : heap B) : Prop :=
  (∀ id hd, waiting h !! id = Some hd → handler_buffer hd ≠ Some d) ∧
  (∀ hd c, (hd, c) ∈ ready h → handler_buffer hd = Some d → truthy (c_error c) = true ∧ advances_anyway hd = false).

(** No connection waits to be accepted, or to be handed, for the loop of the server. *)
Definition quiet (sid : nat) (h : heap B) : Prop :=
  (∀ id hd, waiting h !! id = Some hd → continuations h !! handler_promise hd ≠ Some sid) ∧
  (∀ hd c, (hd, c) ∈ ready h → continuations h !! handler_promise hd = Some sid → truthy (c_error c) = true).

(** Calls on channels that are there; a server is not moved from under its loop. *)
Definition allowed (p : program) (c : call) : Prop :=
  match c with
  | call_udp_read_from u _ _ => ∀ i, _pimpl u = Some i → UdpImpl._socket i ∉ gone p
  | call_server_move _ sid => quiet sid (mem p)
  | _ => True
  end.

Inductive lasio_step (K : world asio) : lstate → lstate → Prop :=
  | l_complete id hd c from h h' g t :
      waiting h !! id = Some hd → complete id hd c from h = Some h' →
      lasio_step K (Program h g, t) (Program h' g, t)
  | l_run hd c rest h g t :
      ready h = (hd, c) :: rest →
      let r := run_live g hd c K (upd_ready (λ _, rest) h) t in
      not_stuck (out r) → lasio_step K (Program h g, t) (Program (st r) g, tr r).

Inductive lstep (K : world asio) : lstate → lstate → Prop :=
  | l_new_buffer b h g t :
      lstep K (Program h g, t) (Program (upd_fresh S (upd_buffers <[fresh h := b]> h)) g, t)
  | l_call c h g t :
      allowed (Program h g) c → not_stuck (out (exec en c K h t)) →
      lstep K (Program h g, t) (Program (st (exec en c K h t)) g, tr (exec en c K h t))
  | l_destroy o l h g t :
      delivered o h → l ≡ₚ map_to_list (operations o t h) →
      lstep K (Program h g, t) (Program (abort l h) ({[o]} ∪ g), t)
  | l_free_buffer d h g t :
      unused d h → lstep K (Program h g, t) (Program (upd_buffers (delete d) h) g, t)
  | l_free_server sid h g t :
      quiet sid h → lstep K (Program h g, t) (Program (upd_servers (delete sid) h) g, t)
  | l_asio s s' : lasio_step K s s' → lstep K s s'.

(** ** The invariant *)

(** What a handler refers to when it runs with an error or without. *)
Definition needs (g : gset obj) (h : heap B) (hd : handler) (error : bool) : Prop :=
  match hd with
  | H_transfer _ d _ | H_transfer_from _ d _ => error = false → is_Some (buffers h !! d)
  | H_transfer_always _ d _ => is_Some (buffers h !! d)
  | H_read_from sock d _ => error = false → is_Some (buffers h !! d) ∧ sock ∉ g
  | H_accept _ _ pm => error = false → ∀ sid, continuations h !! pm = Some sid → server_alive h sid
  | H_done _ _ | H_timer _ | H_signal _ => True
  end.

Record served (g : gset obj) (h : heap B) : Prop := {
  sv_waiting id hd : waiting h !! id = Some hd → needs g h hd false;
  sv_ready hd c : (hd, c) ∈ ready h → needs g h hd (truthy (c_error c));
  sv_continuations pm : is_Some (continuations h !! pm) → (pm < fresh h)%nat;
  sv_servers sid : is_Some (servers h !! sid) → (sid < fresh h)%nat }.

Lemma needs_error g h hd error : needs g h hd false → needs g h hd error.
Proof. destruct hd, error; cbn; auto; done. Qed.

(** Nothing that handlers refer to is taken away. *)
Record extends (h h' : heap B) : Prop := {
  ex_buffers d : is_Some (buffers h !! d) → is_Some (buffers h' !! d);
  ex_continuations pm sid : continuations h' !! pm = Some sid → continuations h !! pm = Some sid ∨ server_alive h' sid;
  ex_servers sid : server_alive h sid → server_alive h' sid }.

Lemma extends_needs g h h' hd error : extends h h' → needs g h hd error → needs g h' hd error.
Proof.
  intros [Hb Hc Hs]. destruct hd; cbn; try done; auto.
  - intros Hn He. destruct (Hn He). auto.
  - intros Hn He sid [Hc'|?]%Hc; [|done]. apply Hs. by apply (Hn He).
Qed.

(** A change of the memory that leaves the handlers where they are. *)
Lemma served_extends g h h' :
  extends h h' → waiting h' = waiting h → ready h' = ready h → (fresh h ≤ fresh h')%nat →
  (∀ pm, is_Some (continuations h' !! pm) → (pm < fresh h')%nat) →
  (∀ sid, is_Some (servers h' !! sid) → (sid < fresh h')%nat) →
  served g h → served g h'.
Proof.
  intros He Hw Hr Hf Hc Hs [A1 A2 _ _]. split; [| |done..].
  - intros id hd. rewrite Hw. intros ?%A1. by eapply extends_needs.
  - intros hd c. rewrite Hr. intros ?%A2. by eapply extends_needs.
Qed.

(** ** What the calls keep *)

Section Calls.
Context (g : gset obj).

Abbreviation keeps m := (triple (E := asio) (served g) m (λ _, served g) (served g)).

Lemma k_idle {A} (m : prog asio (heap B) A) : idle m → keeps m.
Proof. intros Hm. by apply triple_idle. Qed.

Lemma k_promises f : keeps (modify (upd_promises f)).
Proof. apply triple_modify. intros h [A1 A2 A3 A4]. by split. Qed.

Lemma k_allocate : keeps allocate.
Proof.
  intros K h t [A1 A2 A3 A4]. change (served g (upd_fresh S h)). split; [done|done| |]; cbn; [intros pm ?%A3|intros sid ?%A4]; lia.
Qed.

(** The promise is new: no loop goes on with it. *)
Lemma k_new_promise : triple (E := asio) (served g) new_promise (λ pm h, served g h ∧ continuations h !! pm = None) (served g).
Proof.
  intros K h t Hs. cbn. split; [exact (k_promises _ K _ t (k_allocate K h t Hs))|].
  destruct (continuations h !! fresh h) eqn:E; [|done].
  pose proof (sv_continuations g h Hs (fresh h) ltac:(by eexists)). lia.
Qed.

Lemma k_new_promise' : keeps new_promise.
Proof. eapply triple_weaken; [apply k_new_promise|done|]. by intros pm h []. Qed.

(** A handler is given to Asio, with all that it will need. *)
Lemma k_initiate o op hd : triple (λ h, served g h ∧ needs g h hd false) (initiate o op hd) (λ _, served g) (served g).
Proof.
  intros K h t [[A1 A2 A3 A4] Hn]. change (served g (upd_waiting <[fresh h := hd]> (upd_fresh S h))). split; cbn.
  - intros id hd' [[<- <-]|[_ Hid]]%lookup_insert_Some; [exact Hn|exact (A1 id hd' Hid)].
  - exact A2.
  - intros pm ?%A3. lia.
  - intros sid ?%A4. lia.
Qed.

Lemma k_initiate_free o op hd : (∀ h, needs g h hd false) → keeps (initiate o op hd).
Proof. intros Hn. eapply triple_weaken; [apply k_initiate| |done]. by intros h Hs. Qed.

Lemma buffer_at_alive (P R : heap B → Prop) d :
  triple (E := asio) P (buffer_at d) (λ _ h, P h ∧ is_Some (buffers h !! d)) R.
Proof.
  intros K h t Hh. unfold buffer_at. unfold_prog. destruct (buffers h !! d) eqn:E; cbn; [|done]. by rewrite E.
Qed.

Lemma asio_buffer_alive (P R : heap B → Prop) d n :
  triple (E := asio) P (asio_buffer d n) (λ _ h, P h ∧ is_Some (buffers h !! d)) R.
Proof. unfold asio_buffer. eapply triple_bind; [apply buffer_at_alive|]. intros b. by apply triple_ret. Qed.

(** Transfers: the buffer is there. *)
Lemma k_transfer_from d n o op hd (pm : nat) :
  (∀ h, is_Some (buffers h !! d) → needs g h hd false) →
  keeps (buf ← asio_buffer d n; _ ← initiate o (op buf) hd; mret pm).
Proof.
  intros Hn. eapply triple_bind; [apply asio_buffer_alive|]. intros buf.
  eapply triple_bind; [|intros ?; by apply (triple_ret _ pm (served g))].
  eapply triple_weaken; [apply k_initiate| |done]. intros h [Hs Hb]. auto.
Qed.

Lemma k_receive_from d n o dst hd (pm : nat) :
  (∀ h, is_Some (buffers h !! d) → needs g h hd false) →
  keeps (buf ← asio_buffer d n; _ ← initiate o (async_receive_from buf.1 buf.2 dst) hd; mret pm).
Proof. apply (k_transfer_from d n o (λ buf, async_receive_from buf.1 buf.2 dst)). Qed.

Lemma k_transfer_to d n o ep hd (pm : nat) :
  (∀ h, is_Some (buffers h !! d) → needs g h hd false) →
  keeps (buf ← asio_buffer d n; _ ← initiate o (async_send_to buf.1 buf.2 ep) hd; mret pm).
Proof. apply (k_transfer_from d n o (λ buf, async_send_to buf.1 buf.2 ep)). Qed.

Lemma k_async_transfer mk o op d n :
  (∀ h pm, is_Some (buffers h !! d) → needs g h (mk d pm) false) → keeps (async_transfer mk o op d n).
Proof.
  intros Hn. unfold async_transfer. eapply triple_bind; [apply k_new_promise'|]. intros pm.
  apply (k_transfer_from d n o (λ buf, op buf.1 buf.2)). auto.
Qed.

Lemma k_forward {I A} (c : Channel I) (m : I → prog asio (heap B) A) :
  (∀ i, _pimpl c = Some i → keeps (m i)) → keeps (forward c m).
Proof.
  intros Hm. unfold forward, deref. destruct (_pimpl c); [|by apply triple_stuck].
  eapply triple_bind; [by apply (triple_ret _ i (served g) (λ i' h, served g h ∧ i' = i))|].
  intros i' K h t [Hs ->]. by apply Hm.
Qed.

Lemma k_void {A} (m : prog asio (heap B) A) : keeps m → keeps (void m).
Proof. intros Hm. unfold void. eapply triple_bind; [exact Hm|]. intros ?. by apply triple_ret. Qed.

(** A promise and an operation that needs nothing. *)
Lemma k_simple o op (hd : nat → handler) :
  (∀ h pm, needs g h (hd pm) false) → keeps (pm ← new_promise; _ ← initiate o op (hd pm); mret pm).
Proof.
  intros Hn. eapply triple_bind; [apply k_new_promise'|]. intros pm.
  eapply triple_bind; [by apply k_initiate_free|]. intros ?. by apply triple_ret.
Qed.

(** ** Servers *)

(** One accept is started, for a loop that goes on. *)
Lemma served_next_round k k' o s sid h :
  servers h !! sid = Some s → srv_pimpl s = Some (k, o) → served g h → served g (next_round k' o s sid h).
Proof.
  intros Hs Hp [A1 A2 A3 A4].
  assert (He : extends h (next_round k' o s sid h)).
  { split; cbn; [done| |done]. intros pm sid' [[<- <-]|[_ ?]]%lookup_insert_Some; [right|by left]. by exists s, (k, o). }
  split; cbn.
  - intros id hd [[<- <-]|[_ Hid]]%lookup_insert_Some; [|by eapply extends_needs, A1].
    intros _ sid' Hc. cbn in Hc. rewrite lookup_insert_eq in Hc. injection Hc as <-. by exists s, (k, o).
  - intros hd c Hin. by eapply extends_needs, A2.
  - intros pm [->|[_ ?%A3]]%lookup_insert_is_Some; lia.
  - intros sid' ?%A4. lia.
Qed.

Lemma k_doAcceptSession sid : keeps (doAcceptSession sid).
Proof.
  intros K h t Hs. unfold doAcceptSession, server_at, server_acceptor. unfold mbind, prog_bind, get, modify, mret, prog_ret.
  destruct (servers h !! sid) as [s|] eqn:E; cbn -[lookup insert]; [|done].
  destruct (srv_pimpl s) as [[k o]|] eqn:Ep; [|done].
  set (kind := match k with K_local_acceptor => K_local_acceptor | _ => K_tcp_acceptor end).
  pose proof (served_next_round k kind o s sid h E Ep Hs) as Hn. destruct k; exact Hn.
Qed.

Lemma idle_server_at sid : idle (server_at (B := B) sid).
Proof. unfold server_at. idle_tac. Qed.

Lemma idle_acceptor_open a ep : idle (Acceptor.open (B := B) en a ep).
Proof.
  unfold Acceptor.open, Acceptor.create_impl, TcpAcceptor.createTCPAcceptor, StremDomainAcceptor.createUnixDomainAcceptor,
    Acceptor.dispatch, TcpAcceptor.open, StremDomainAcceptor.open, toAsioLocalEndpoint, open_if_closed, bind_and_listen, or_error.
  idle_tac.
Qed.

Lemma idle_acceptor_isOpen a : idle (Acceptor.isOpen (B := B) a).
Proof. unfold Acceptor.isOpen, Acceptor.on_impl, Acceptor.dispatch, TcpAcceptor.isOpen, StremDomainAcceptor.isOpen, deref. idle_tac. Qed.

Lemma acceptor_open_pimpl a ep K (h : heap B) t res acc :
  out (Acceptor.open en a ep K h t) = Ret (res, acc) → is_Some (Acceptor._pimpl acc).
Proof.
  unfold Acceptor.open. destruct (Acceptor._pimpl a) eqn:E; [intros [= <- <-]; by rewrite E|].
  rewrite bind_run. destruct (Acceptor.create_impl _ ep K h t) as [[i|e|u] h1 t1]; [|done..].
  rewrite bind_run. match goal with |- context [Acceptor.dispatch i ?f ?f' K h1 t1] => destruct (Acceptor.dispatch i f f' K h1 t1) as [[r|e|u] h2 t2] end;
    [|done..]. by intros [= <- <-].
Qed.

(** A server that gets an acceptor, or that was not there. *)
Lemma served_server s sid h :
  (is_Some (srv_pimpl s) ∨ servers h !! sid = None) → (sid < fresh h)%nat → served g h →
  served g (upd_servers <[sid := s]> h).
Proof.
  intros Hsid Hlt Hs. pose proof Hs as [_ _ A3 A4]. apply (served_extends g h); try done.
  - split; cbn; [done|by left|]. intros sid' (s' & p' & Hs' & Hp'). unfold server_alive. cbn.
    destruct (decide (sid = sid')) as [<-|]; [|exists s', p'; by rewrite lookup_insert_ne].
    destruct Hsid as [[p Hp]|?]; [|congruence]. exists s, p. by rewrite lookup_insert_eq.
  - cbn. intros sid' [->|[_ ?%A4]]%lookup_insert_is_Some; done.
Qed.

Lemma k_session_accepted sid sk : keeps (session_accepted sid sk).
Proof.
  unfold session_accepted. eapply triple_bind; [apply k_idle, idle_server_at|]. intros s.
  eapply (triple_bind _ _ _ _ (λ _, served g)); [apply k_idle; idle_tac|]. intros _.
  eapply triple_bind; [apply k_idle, idle_acceptor_isOpen|]. intros [].
  - eapply triple_bind; [apply k_doAcceptSession|]. intros ?. apply k_idle. unfold destroy_channel. idle_tac.
  - apply k_idle. unfold destroy_channel. idle_tac.
Qed.

Lemma k_startListen sid ep : keeps (startListen en sid ep).
Proof.
  intros K h t Hs. unfold startListen, server_at. rewrite !bind_assoc, bind_get.
  destruct (servers h !! sid) as [s|] eqn:E; [|done]. rewrite bind_ret, bind_run.
  pose proof (idle_acceptor_open (server_acceptor s) ep K h t) as Hidle.
  pose proof (λ res acc, acceptor_open_pimpl (server_acceptor s) ep K h t res acc) as Hpimpl.
  destruct (Acceptor.open en (server_acceptor s) ep K h t) as [[[res acc]|e|u] h' t'] eqn:Eo; cbn in Hidle, Hpimpl; subst h'; [|done..].
  destruct (Hpimpl res acc eq_refl) as [i Hi]. rewrite bind_run, Hi. unfold modify.
  set (h1 := upd_servers _ h). assert (Hs1 : served g h1).
  { apply served_server; [by left|by apply (sv_servers g h Hs)|done]. }
  destruct res; [|done]. rewrite bind_run. pose proof (k_doAcceptSession sid K h1 t' Hs1) as Hd.
  by destruct (doAcceptSession sid K h1 t') as [[]].
Qed.

Lemma k_server_create loop cb : keeps (AsyncServer.create loop cb).
Proof.
  intros K h t Hs. assert (Hf : servers h !! fresh h = None).
  { destruct (servers h !! fresh h) eqn:E; [|done]. pose proof (sv_servers g h Hs (fresh h) ltac:(by eexists)). lia. }
  change (served g (upd_servers <[fresh h := Server loop None cb]> (upd_fresh S h))).
  apply served_server; [by right|cbn; lia|]. exact (k_allocate K h t Hs).
Qed.

(** A server whose loop is at rest is moved, or goes. *)
Lemma served_quiet sid h f :
  quiet sid h → (∀ sid', sid' ≠ sid → f (servers h) !! sid' = servers h !! sid') →
  (∀ sid', is_Some (f (servers h) !! sid') → is_Some (servers h !! sid')) →
  served g h → served g (upd_servers f h).
Proof.
  intros [Q1 Q2] Hf Hdom [A1 A2 A3 A4].
  assert (Hn : ∀ hd error, continuations h !! handler_promise hd ≠ Some sid ∨ error = true →
    needs g h hd error → needs g (upd_servers f h) hd error).
  { intros [] error Hne; cbn; try done. intros Hn He sid' Hc. destruct Hne as [Hne|]; [|congruence].
    cbn in Hne. destruct (Hn He sid' Hc) as (s & p & Hs & Hp). exists s, p. split; [|done]. cbn. rewrite Hf; congruence. }
  split; cbn.
  - intros id hd Hw. apply Hn; [left; by eapply Q1|by eapply A1].
  - intros hd c Hr. apply Hn; [|by apply A2]. destruct (decide (continuations h !! handler_promise hd = Some sid)); eauto.
  - done.
  - auto.
Qed.

Lemma k_server_move left sid h K t :
  quiet sid h → served g h → not_stuck (out (AsyncServer.move left sid K h t)) → served g (st (AsyncServer.move left sid K h t)).
Proof.
  intros Hq Hs. unfold AsyncServer.move, server_at. rewrite !bind_assoc, bind_get.
  destruct (servers h !! sid) as [s|] eqn:E; [|done]. rewrite bind_ret. intros _.
  set (h1 := upd_fresh S (upd_servers <[sid := Server (srv_loop s) None left]> h)).
  change (served g (upd_servers <[fresh h := s]> h1)).
  pose proof (sv_servers g h Hs sid ltac:(by eexists)) as Hlt.
  apply served_server; [right|cbn; lia|].
  - cbn. rewrite lookup_insert_ne by lia. destruct (servers h !! fresh h) eqn:Ef; [|done].
    pose proof (sv_servers g h Hs (fresh h) ltac:(by eexists)). lia.
  - apply (k_allocate K _ t). apply (served_quiet sid); [done| | |done].
    + intros sid' ?. by rewrite lookup_insert_ne.
    + intros sid' [<-|[_ ?]]%lookup_insert_is_Some; [by eexists|done].
Qed.

Lemma k_asyncAccept a : keeps (Acceptor.asyncAccept a).
Proof.
  unfold Acceptor.asyncAccept, Acceptor.on_impl. eapply triple_bind; [apply k_idle; unfold deref; idle_tac|]. intros i.
  assert (Hk : ∀ o k l, keeps (pm ← new_promise; _ ← initiate o async_accept (H_accept k l pm); mret pm)).
  { intros o k l. eapply triple_bind; [apply k_new_promise|]. intros pm. eapply triple_bind; [|intros ?; by apply (triple_ret _ pm (served g))].
    eapply triple_weaken; [apply k_initiate| |done]. intros h [Hs Hn]. split; [done|]. intros _ sid. by rewrite Hn. }
  destruct i; apply Hk.
Qed.

(** Walks through the calls. *)
Ltac keeps_tac :=
  repeat (intros; cbn beta iota zeta; first
    [ by apply triple_ret
    | apply k_promises
    | apply k_new_promise'
    | apply k_idle; solve [unfold deref, toAsioLocalEndpoint, toAsioLocalDatagramEndpoint; idle_tac]
    | apply k_asyncAccept
    | apply k_async_transfer; solve [cbn; auto]
    | apply k_initiate_free; done
    | apply k_transfer_to; solve [cbn; auto]
    | apply k_receive_from; solve [cbn; auto]
    | apply k_forward; intros
    | eapply triple_bind
    | case_match ]).

(** Every call of a disciplined client. *)
Lemma k_exec c h K t :
  allowed (Program h g) c → served g h → not_stuck (out (exec en c K h t)) → served g (st (exec en c K h t)).
Proof.
  assert (Hk : ∀ m : prog asio (heap B) unit, keeps m → served g h → not_stuck (out (m K h t)) → served g (st (m K h t))).
  { intros m Hm Hs Hn. specialize (Hm K h t Hs). by destruct (m K h t) as [[]]. }
  intros Ha. destruct c; cbn in Ha |- *.
  all: try (apply Hk; try apply k_void; unfold AsyncObjects.Event.asyncWait, EventImpl.asyncWait, Timer.asyncWait, TimerImpl.asyncWait,
      SignalSet.asyncWait, SignalSetImpl.asyncWait, Pipe.asyncRead, Pipe.asyncWrite, PipeImpl.asyncRead, PipeImpl.asyncWrite,
      SerialImpl.asyncRead, SerialImpl.asyncWrite, UdpImpl.asyncRead, UdpImpl.asyncWrite, UdpImpl.asyncWriteTo, UdpImpl.send_to,
      SocketImpl.asyncRead, SocketImpl.asyncReadFrom, SocketImpl.asyncWrite, SocketImpl.asyncWriteTo, SocketImpl.asyncConnect,
      SerialChannel.asyncRead, SerialChannel.asyncWrite, TcpSocketImpl.asyncRead, TcpSocketImpl.asyncWrite,
      TcpSocketImpl.asyncConnect, StreamDomainSocketImpl.asyncRead, StreamDomainSocketImpl.asyncWrite,
      StreamDomainSocketImpl.asyncConnect, UdpSocket.asyncRead, UdpSocket.asyncWrite, UdpSocket.asyncWriteTo,
      DatagramDomainSocket.asyncRead, DatagramDomainSocket.asyncReadFrom, DatagramDomainSocket.asyncWrite, DatagramDomainSocket.asyncWriteTo,
      DatagramDomainSocket.asyncConnect, stop, Acceptor.close, Acceptor.on_impl, Acceptor.dispatch, TcpAcceptor.close,
      StremDomainAcceptor.close, setError; solve [keeps_tac]).
  - apply Hk, k_void, k_server_create.
  - intros Hs. unfold void. rewrite bind_run. pose proof (k_server_move left sid h K t Ha Hs) as Hm.
    destruct (AsyncServer.move left sid K h t) as [[]]; exact Hm.
  - apply Hk, k_void, k_startListen.
Qed.

(** ** Handlers *)

Lemma k_advance_buffer d n : keeps (advance_buffer d n).
Proof.
  unfold advance_buffer. eapply triple_bind; [apply k_idle; unfold buffer_at; idle_tac|]. intros b.
  eapply triple_bind; [|intros ?; by apply (triple_ret _ _ (served g))]. apply triple_modify. intros h Hs.
  apply (served_extends g h); [|done..|apply Hs|apply Hs|done]. split; cbn; [|by left|done].
  intros d' ?. rewrite lookup_insert_is_Some. destruct (decide (d = d')); auto.
Qed.

Lemma k_fulfil pm v : keeps (fulfil pm v).
Proof.
  unfold fulfil, setValue. eapply triple_bind; [apply k_promises|]. intros ?.
  eapply triple_bind; [by apply (triple_get _ _ (λ _, served g))|]. intros h.
  repeat case_match; try by apply triple_ret. apply k_session_accepted.
Qed.

Lemma k_run_live hd c : keeps (run_live g hd c).
Proof.
  assert (Hr : keeps (run_handler junk hd c)).
  { destruct hd; cbn [run_handler]; unfold transfer_handler, transfer_always_handler, done_handler, timer_handler,
      signal_handler, read_from_handler, accept_handler, setError;
    repeat first [apply k_promises | apply k_fulfil | eapply triple_bind; [apply k_advance_buffer|intros ?]
      | eapply triple_bind; [by apply (triple_get _ _ (λ _, served g))|intros ?] | case_match]. }
  destruct hd; cbn [run_live]; try exact Hr. case_match; [|exact Hr].
  eapply triple_bind; [apply k_advance_buffer|]. intros ?. by apply triple_stuck.
Qed.

(** It returns, and the queue is as it was. *)
Definition returns_at (h : heap B) (r : run asio (heap B) unit) : Prop := out r = Ret tt ∧ ready (st r) = ready h.

Lemma returns_grows (m : prog asio (heap B) unit) P K h t : returns m P → P h → returns_at h (m K h t).
Proof. intros Hm Hh. destruct (Hm K h t Hh) as ([] & h' & t' & -> & Hg). split; [done|]. apply (grows_ready _ _ Hg). Qed.

Lemma fulfil_plain pm v K h t : (∀ s, v ≠ VSocket s) → returns_at h (fulfil pm v K h t).
Proof.
  intros Hv. unfold fulfil, setValue. rewrite bind_run. unfold modify. rewrite bind_get.
  repeat case_match; try by split. by destruct (Hv s).
Qed.

Lemma setError_returns pm e K h t : returns_at h (setError pm e K h t).
Proof. by split. Qed.

(** A buffer is advanced if it is there. *)
Lemma advanced_returns d n (m : prog asio (heap B) unit) K h t :
  is_Some (buffers h !! d) → (∀ h' t', returns_at h' (m K h' t')) → returns_at h ((_ ← advance_buffer d n; m) K h t).
Proof.
  intros Hb Hm. destruct (advance_returns d n K h t Hb) as (a & h' & t' & Hrun & Hg). rewrite bind_run, Hrun.
  destruct (Hm h' t') as [Ho Hr]. split; [done|]. by rewrite Hr, (grows_ready _ _ Hg).
Qed.

Lemma advance_gone d n (m : prog asio (heap B) unit) K h t :
  out ((_ ← advance_buffer d n; m) K h t) = Ret tt → is_Some (buffers h !! d).
Proof.
  unfold advance_buffer, buffer_at. rewrite bind_assoc, bind_run, bind_get. by destruct (buffers h !! d).
Qed.

Lemma run_live_returns hd c K h t :
  needs g h hd (truthy (c_error c)) → returns_at h (run_live g hd c K h t).
Proof.
  destruct hd; cbn [run_live run_handler needs]; unfold transfer_handler, transfer_always_handler, done_handler, timer_handler,
    signal_handler, read_from_handler, accept_handler; intros Hn.
  2: apply advanced_returns; [done|intros].
  all: destruct (truthy (c_error c)) eqn:E; cbn [negb andb]; try apply setError_returns; try by apply fulfil_plain.
  - apply advanced_returns; [by apply Hn|]. intros. by apply fulfil_plain.
  - apply advanced_returns; [by apply Hn|]. intros. by apply fulfil_plain.
  - destruct (Hn eq_refl) as [Hb Hg]. rewrite bool_decide_eq_false_2 by done.
    apply advanced_returns; [done|]. intros. rewrite bind_get. by apply fulfil_plain.
  - eapply returns_grows; [apply fulfil_returns|]. intros sid. by apply Hn.
Qed.

(** The loop of a server that is gone, or has no acceptor. *)
Lemma fulfil_needs pm sk K (h : heap B) t sid :
  out (fulfil pm (VSocket sk) K h t) = Ret tt → continuations h !! pm = Some sid → server_alive h sid.
Proof.
  unfold fulfil, setValue. rewrite bind_run. unfold modify. rewrite bind_get. cbn [upd_promises continuations]. intros Ho Hc.
  rewrite Hc in Ho. unfold session_accepted, server_at in Ho. rewrite !bind_assoc, bind_get in Ho. cbn [servers upd_promises] in Ho.
  destruct (servers h !! sid) as [s|] eqn:Es; [|done]. rewrite bind_ret in Ho. exists s.
  destruct (srv_pimpl s) as [p|] eqn:Ep; [by exists p|]. exfalso. unfold server_acceptor in Ho. rewrite Ep in Ho.
  rewrite bind_run in Ho. unfold Acceptor.isOpen, Acceptor.on_impl, deref in Ho.
  destruct (srv_handler s), (ss_pimpl sk) as [[]|]; done.
Qed.

End Calls.

(** ** The steps *)

Definition sound (s : lstate) : Prop := served (gone s.1) (mem s.1) ∧ wf [] (mem s.1).

(** Aborting is completing, one operation after the other. *)
Lemma abort_steps K l h g t :
  NoDup l.*1 → (∀ x, x ∈ l → waiting h !! x.1 = Some x.2) →
  rtc (lasio_step K) (Program h g, t) (Program (abort l h) g, t).
Proof.
  revert h. induction l as [|[id hd] l IH]; intros h Hnd Hl; [done|].
  inversion_clear Hnd as [|? ? Hnin Hnd']. eapply rtc_l.
  - by apply (l_complete K id hd aborted (address_v4 [], 0)); [apply (Hl (id, hd)); left|].
  - apply IH; [done|]. intros [id' hd'] Hin. cbn. rewrite lookup_delete_ne; [apply (Hl (id', hd')); by right|].
    intros ->. by apply Hnin, (list_elem_of_fmap_2 fst _ (id', hd')).
Qed.

(** Every result is taken, but for that of a read whose sender has nowhere to go. *)
Lemma completes id hd c from (h : heap B) :
  is_Some (complete id hd c from h) ↔ ¬ (c_error c = 0 ∧ ∃ tag dest pm, hd = H_transfer_from tag dest pm).
Proof.
  unfold complete, truthy. destruct (Z.eqb_spec (c_error c) 0) as [He|He]; cbn [negb].
  - destruct hd; try (split; [intros _ (_ & ? & ? & ? & ?); congruence|by eexists]).
    split; [by intros []|]. intros Hn. destruct Hn. split; [done|by do 3 eexists].
  - split; [by intros _ []|by eexists].
Qed.

Lemma served_complete g h id hd c from h' :
  waiting h !! id = Some hd → complete id hd c from h = Some h' → served g h → served g h'.
Proof.
  intros Hid Hc [A1 A2 A3 A4].
  set (hm := upd_ready (λ r, r ++ [(hd, c)]) (upd_waiting (delete id) h)).
  assert (Hn : ∀ hd' e, needs g h hd' e → needs g hm hd' e) by (intros hd' e; apply extends_needs; split; [done|by left|done]).
  assert (Hm : served g hm).
  { split; cbn; [| |done..].
    - intros id' hd' [_ Hw]%lookup_delete_Some. by eapply Hn, A1.
    - intros hd' c' [Hin|Hin%list_elem_of_singleton]%elem_of_app; [by apply Hn, A2|]. injection Hin as -> ->.
      by eapply Hn, needs_error, A1. }
  unfold complete in Hc. fold hm in Hc. destruct (truthy (c_error c)); [by injection Hc as <-|].
  destruct hd; try (by injection Hc as <-); [done|]. injection Hc as <-.
  apply (served_extends g hm); [split; [done|by left|done]|done..|apply A3|apply A4|exact Hm].
Qed.

Lemma served_pop g h rest hd c : ready h = (hd, c) :: rest → served g h → served g (upd_ready (λ _, rest) h).
Proof.
  intros Hr [A1 A2 A3 A4]. split; [done| |done..]. intros hd' c' Hin. apply A2. rewrite Hr. by right.
Qed.

(** Running live is running, while it is not stuck. *)
Lemma run_live_eq g hd c K h t :
  not_stuck (out (run_live g hd c K h t)) → run_live g hd c K h t = run_handler junk hd c K h t.
Proof.
  destruct hd; cbn [run_live]; try done. case_match; [|done].
  unfold advance_buffer, buffer_at. unfold_prog. by destruct (buffers h !! dest).
Qed.

(** As a step of the reactor. *)
Lemma lasio_step_wf K s s' : lasio_step K s s' → sound s → wf [] (mem s'.1) ∧ settled (mem s.1) (mem s'.1).
Proof.
  intros Hstep [_ Hwf]. destruct Hstep as [id hd c from h h' g t Hid Hc|hd c rest h g t Hr r Hns]; cbn in *.
  - eapply (step_inv en junk K h t h' t); [|done]. apply step_asio. by eapply step_complete.
  - pose proof (run_live_eq g hd c K _ t Hns) as Heq. fold r in Heq.
    eapply (step_inv en junk K h t _ (tr r)); [|done]. apply step_asio. unfold r in *. rewrite Heq in *. by apply step_run.
Qed.

Lemma lasio_sound K s s' : lasio_step K s s' → sound s → sound s'.
Proof.
  intros Hstep Hsd. split; [|by eapply lasio_step_wf]. destruct Hsd as [Hs _].
  destruct Hstep as [id hd c from h h' g t Hid Hc|hd c rest h g t Hr r Hns]; cbn in *; [by eapply served_complete|].
  pose proof (k_run_live g hd c K _ t (served_pop g h rest hd c Hr Hs)) as Hk. fold r in Hk. by destruct (out r).
Qed.

Lemma served_gone o g h :
  (∀ id hd, waiting h !! id = Some hd → ∀ d pm, hd ≠ H_read_from o d pm) → delivered o h → served g h → served ({[o]} ∪ g) h.
Proof.
  intros Hw Hd [A1 A2 A3 A4].
  assert (Hn : ∀ hd error, (∀ d pm, hd = H_read_from o d pm → error = true) → needs g h hd error → needs ({[o]} ∪ g) h hd error).
  { intros [] error Hne; cbn; try done. intros Hn He. destruct (Hn He) as [Hb Hg]. split; [done|].
    rewrite elem_of_union, elem_of_singleton. intros [->|?]; [|done]. specialize (Hne dest pm eq_refl). congruence. }
  split; [| |done..].
  - intros id hd Hid. apply Hn; [|by eapply A1]. intros d pm ->. by destruct (Hw id _ Hid d pm).
  - intros hd c Hin. apply Hn; [|by apply A2]. intros d pm ->. by eapply Hd.
Qed.

Lemma abort_waiting l h id hd :
  waiting (abort l h) !! id = Some hd → waiting h !! id = Some hd ∧ id ∉ l.*1.
Proof.
  revert h. induction l as [|[id' hd'] l IH]; intros h; [split; [done|apply not_elem_of_nil]|].
  intros [Hw Hnin]%IH. cbn in Hw. apply lookup_delete_Some in Hw as [Hne Hw]. split; [done|]. cbn. apply not_elem_of_cons. auto.
Qed.

Lemma abort_ready l h : ready (abort l h) = ready h ++ map (λ x, (x.2, aborted)) l.
Proof.
  revert h. induction l as [|x l IH]; intros h; cbn; [by rewrite app_nil_r|]. unfold abort in IH. rewrite IH. cbn.
  by rewrite <- app_assoc.
Qed.

Lemma destroy_sound (K : world asio) o l h g t :
  delivered o h → l ≡ₚ map_to_list (operations o t h) →
  sound (Program h g, t) → sound (Program (abort l h) ({[o]} ∪ g), t).
Proof.
  intros Hd Hl Hs.
  assert (Hin : ∀ x, x ∈ l → waiting h !! x.1 = Some x.2).
  { intros [id hd]. rewrite Hl, elem_of_map_to_list. unfold operations. by intros [??]%map_lookup_filter_Some. }
  assert (Hnd : NoDup l.*1) by (rewrite Hl; apply NoDup_fst_map_to_list).
  assert (sound (Program (abort l h) g, t)) as [Hs' Hwf'].
  { pose proof (abort_steps K l h g t Hnd Hin) as Hsteps. revert Hs. generalize (Program h g, t) (Program (abort l h) g, t) Hsteps.
    induction 1; [done|]. eauto using lasio_sound. }
  split; [|done]. apply served_gone; [| |done].
  - intros id hd [Hw Hnin]%abort_waiting d pm ->. apply Hnin, (list_elem_of_fmap_2 fst _ (id, H_read_from o d pm)).
    rewrite Hl, elem_of_map_to_list. unfold operations. by apply map_lookup_filter_Some.
  - intros d pm c. cbn. rewrite abort_ready, elem_of_app. intros [Hr|Hr]; [by eapply Hd|].
    apply list_elem_of_fmap in Hr as (x & [= _ ->] & _). done.
Qed.

(** A buffer that nothing refers to. *)
Lemma served_unused d g h : unused d h → served g h → served g (upd_buffers (delete d) h).
Proof.
  intros [U1 U2] [A1 A2 A3 A4].
  assert (Hn : ∀ hd error, (handler_buffer hd = Some d → error = true ∧ advances_anyway hd = false) →
    needs g h hd error → needs g (upd_buffers (delete d) h) hd error).
  { intros hd error Hd. destruct hd; cbn in *; auto.
    all: destruct (decide (dest = d)) as [->|]; [destruct (Hd eq_refl)|rewrite lookup_delete_ne by done]; intuition congruence. }
  split; cbn; [| |done..].
  - intros id hd Hw. apply Hn; [|by eapply A1]. intros Hb. by destruct (U1 id hd Hw).
  - intros hd c Hr. apply Hn; [|by apply A2]. by apply U2.
Qed.

Lemma wf_same (h h' : heap B) : same_promises h h' → wf [] h → wf [] h'.
Proof. intros Hsame Hwf. eapply (inv_same h [] h h' Hsame). split; [done|by intros ???]. Qed.

Lemma lstep_sound K s s' : lstep K s s' → sound s → sound s'.
Proof.
  intros Hstep. destruct Hstep as [b h g t|c h g t Ha Hns|o l h g t Hd Hl|d h g t Hu|sid h g t Hq|s s' Hstep].
  - intros [Hs Hwf]. split; cbn in *.
    + pose proof Hs as [A1 A2 A3 A4]. apply (served_extends g h); cbn; [|done|done|lia| | |done].
      * split; cbn; [|by left|done]. intros d ?. rewrite lookup_insert_is_Some. destruct (decide (fresh h = d)); auto.
      * intros pm ?%A3. lia.
      * intros sid ?%A4. lia.
    + apply (wf_same h); [|done]. unfold same_promises. cbn. split_and!; [done..|lia].
  - intros [Hs Hwf]. split; [by apply k_exec|]. cbn in *. eapply (step_inv en junk K h t _ _); [|done]. by apply step_call.
  - by apply destroy_sound.
  - intros [Hs Hwf]. split; [by apply served_unused|]. apply (wf_same h); [|done]. by split_and!.
  - intros [Hs Hwf]. split; [|apply (wf_same h); [by split_and!|done]]. apply (served_quiet g sid); [done| | |done].
    + intros sid' ?. by rewrite lookup_delete_ne.
    + intros sid'. rewrite lookup_delete_is_Some. by intros [].
  - by eapply lasio_sound.
Qed.

(** ** Properties *)

(** C28.  A completion handler, of any operation, runs to its end exactly when what it refers to
    is still there.  With an error, the handlers of reads and writes refer to nothing, except that
    of Unix stream sockets, which advances its buffer in any case; without, they need their buffer,
    [asyncReadFrom] of UDP sockets also its socket, and an accept of a server's loop the server. *)
Theorem handler_needs (g : gset obj) (hd : handler) (c : completion) (K : world asio) (h : heap B) (t : trace asio) :
  out (run_live g hd c K h t) = Ret tt ↔ needs g h hd (truthy (c_error c)).
Proof.
  split; [|intros Hn; by apply run_live_returns].
  destruct hd; cbn [run_live run_handler needs]; unfold transfer_handler, transfer_always_handler, accept_handler; try done.
  - intros Ho He. rewrite He in Ho. by eapply advance_gone.
  - intros Ho. by eapply advance_gone.
  - intros Ho He. rewrite He in Ho. by eapply advance_gone.
  - intros Ho He. rewrite He in Ho. cbn [negb andb] in Ho. case_bool_decide.
    + unfold advance_buffer, buffer_at in Ho. rewrite bind_assoc, bind_run, bind_get in Ho. by destruct (buffers h !! dest).
    + split; [|done]. unfold run_handler, read_from_handler in Ho. rewrite He in Ho. by eapply advance_gone.
  - intros Ho He sid. rewrite He in Ho. by eapply fulfil_needs.
Qed.

(** A handler that is given an error passes it on. *)
Lemma failed_resolves g hd c K (h : heap B) t :
  truthy (c_error c) = true → out (run_live g hd c K h t) = Ret tt →
  ∃ tag, promises (st (run_live g hd c K h t)) !! handler_promise hd = Some (HasError (fromAsioError (c_error c) tag)).
Proof.
  intros He. assert (Hset : ∀ pm tag (h : heap B) t, promises (st (setError pm (fromAsioError (c_error c) tag) K h t)) !! pm =
    Some (HasError (fromAsioError (c_error c) tag))) by (intros; cbn; by rewrite lookup_insert_eq).
  destruct hd; cbn [run_live run_handler handler_promise]; unfold transfer_handler, transfer_always_handler, done_handler,
    timer_handler, signal_handler, read_from_handler, accept_handler; rewrite He; cbn [negb andb]; intros Ho; try by eexists.
  - exists tag. unfold advance_buffer, buffer_at in Ho |- *. revert Ho. unfold_prog. destruct (buffers h !! dest); cbn; [|done].
    intros _. by rewrite lookup_insert_eq.
Qed.

(** Running what is ready: it ends, what had failed gets its error, and only what had not
    starts operations. *)
Lemma drain_live K g rest : ∀ h t, ready h = rest → sound (Program h g, t) →
  ∃ h' t', rtc (lasio_step K) (Program h g, t) (Program h' g, t') ∧ ready h' = [] ∧ settled h h' ∧
    (Forall failed rest → waiting h' = waiting h) ∧
    (∀ hd c, (hd, c) ∈ rest → truthy (c_error c) = true →
       ∃ tag, promises h' !! handler_promise hd = Some (HasError (fromAsioError (c_error c) tag))).
Proof.
  induction rest as [|[hd c] rest IH]; intros h t Hr Hsd.
  { exists h, t. split_and!; [done|done|by intros ???|done|]. by intros ? ? ?%elem_of_nil. }
  set (h0 := upd_ready (λ _, rest) h).
  assert (Hn : needs g h0 hd (truthy (c_error c))) by (apply (sv_ready g h (proj1 Hsd)); rewrite Hr; by left).
  pose proof (run_live_returns g hd c K h0 t Hn) as [Ho Hready].
  assert (Hstep : lasio_step K (Program h g, t) (Program (st (run_live g hd c K h0 t)) g, tr (run_live g hd c K h0 t))).
  { apply (l_run K hd c rest); [done|]. cbn zeta. fold h0. by rewrite Ho. }
  pose proof (lasio_sound K _ _ Hstep Hsd) as Hsd1.
  set (r := run_live g hd c K h0 t) in *.
  destruct (IH (st r) (tr r)) as (h' & t' & Hsteps & Hr' & Hset' & Hw' & Hf'); [by rewrite Hready|done|].
  assert (Hset : settled h (st r)).
  { destruct (lasio_step_wf K _ _ Hstep Hsd) as [_ Hs]. exact Hs. }
  exists h', t'. split_and!; [by eapply rtc_l|done|by eapply settled_trans| |].
  - intros [Hf Hfs]%Forall_cons. rewrite (Hw' Hfs). unfold r. rewrite run_live_eq by (fold r; by rewrite Ho).
    by rewrite error_starts_nothing.
  - intros hd' c' [[= -> ->]|Hin]%elem_of_cons Hf; [|by apply Hf'].
    destruct (failed_resolves g hd c K h0 t Hf Ho) as [tag Htag]. exists tag. fold r in Htag. by apply Hset'.
Qed.

(** Everything under way, aborted. *)
Lemma abort_everything K g h t :
  sound (Program h g, t) → Forall failed (ready h) →
  ∃ h', rtc (lasio_step K) (Program h g, t) (Program h' g, t) ∧ waiting h' = ∅ ∧ Forall failed (ready h').
Proof.
  intros Hsd Hf. set (l := map_to_list (waiting h)). exists (abort l h). split_and!.
  - apply abort_steps; [apply NoDup_fst_map_to_list|]. intros [id hd]. apply elem_of_map_to_list.
  - apply map_eq. intros id. rewrite lookup_empty. apply eq_None_not_Some. intros [hd [Hw Hnin]%abort_waiting].
    apply Hnin, (list_elem_of_fmap_2 fst _ (id, hd)). by apply elem_of_map_to_list.
  - rewrite abort_ready. apply Forall_app. split; [done|]. by apply Forall_fmap, Forall_true.
Qed.

Lemma sound_initial t0 : sound (Program initial ∅, t0).
Proof.
  split; [|apply wf_initial]. split; cbn; [by intros ? ? ?%lookup_empty_Some|by intros ? ? ?%elem_of_nil|by intros ? []..].
Qed.

Lemma lsteps_sound K s s' : rtc (lstep K) s s' → sound s → sound s'.
Proof. induction 1; [done|]. eauto using lstep_sound. Qed.

Lemma lasio_rtc_sound K s s' : rtc (lasio_step K) s s' → sound s → sound s'.
Proof. induction 1; [done|]. eauto using lasio_sound. Qed.

(** C7.  Clients that give things up in time are safe.  In every history in which clients call any
    asynchronous operation ([asyncReadFrom] of UDP sockets only on sockets that were not destroyed)
    or operation of a server (a server is moved only while its loop is at rest), destroy channels,
    free buffers and destroy servers, but never what a handler that will run refers to: the next
    handler always runs to its end; every operation can complete with any result, but for one case:
    [asyncReadFrom] of a Unix datagram socket can only complete with an error, because on success
    the sender would be written to a local variable that is gone; a pending promise has one owner;
    and Asio can come to rest by itself, with every future resolved. *)
Theorem disciplined_clients (K : world asio) (t0 : trace asio) (s : lstate) :
  rtc (lstep K) (Program initial ∅, t0) s →
  let h := mem s.1 in
  (∀ hd c rest, ready h = (hd, c) :: rest →
     out (run_live (gone s.1) hd c K (upd_ready (λ _, rest) h) s.2) = Ret tt) ∧
  (∀ id hd c from, waiting h !! id = Some hd →
     is_Some (complete id hd c from h) ↔ ¬ (c_error c = 0 ∧ ∃ tag dest pm, hd = H_transfer_from tag dest pm)) ∧
  NoDup (owned h) ∧ (∀ pm, promises h !! pm = Some Pending ↔ pm ∈ owned h) ∧
  ∃ s', rtc (lasio_step K) s s' ∧ waiting (mem s'.1) = ∅ ∧ ready (mem s'.1) = [] ∧
    ∀ pm r, promises (mem s'.1) !! pm = Some r → r ≠ Pending.
Proof.
  intros Hreach. pose proof (lsteps_sound K _ _ Hreach (sound_initial t0)) as Hsd. destruct s as [[h g] t]. cbn in *.
  pose proof Hsd as [Hs Hwf]. cbn in Hs, Hwf. split_and!.
  - intros hd c rest Hr. apply run_live_returns. apply (sv_ready g h Hs). rewrite Hr. by left.
  - intros id hd c from _. apply completes.
  - exact (wf_nodup [] h Hwf).
  - exact (wf_pending [] h Hwf).
  - destruct (drain_live K g (ready h) h t eq_refl Hsd) as (h1 & t1 & S1 & R1 & _).
    pose proof (lasio_rtc_sound K _ _ S1 Hsd) as Hsd1.
    destruct (abort_everything K g h1 t1 Hsd1) as (h2 & S2 & W2 & F2); [by rewrite R1|].
    pose proof (lasio_rtc_sound K _ _ S2 Hsd1) as Hsd2.
    destruct (drain_live K g (ready h2) h2 t1 eq_refl Hsd2) as (h3 & t3 & S3 & R3 & _ & W3 & _).
    specialize (W3 F2). rewrite W2 in W3. exists (Program h3 g, t3). cbn. split_and!; [|done|done|].
    + by do 2 (etrans; [eassumption|]).
    + intros pm r Hp ->. destruct (lasio_rtc_sound K _ _ S3 Hsd2) as [_ Hwf3]. apply (wf_pending [] h3 Hwf3) in Hp.
      cbn in Hp. unfold owned in Hp. rewrite W3, R3, map_to_list_empty in Hp. by apply elem_of_nil in Hp.
Qed.

(** C10.  Destroying a channel answers for what it had under way.  When a disciplined client destroys
    a channel, and Asio runs what is ready, then the future of every operation that was under way
    on the channel fails with [operation_aborted], and no operation is left on it. *)
Theorem destroyed_futures_fail (K : world asio) (t0 t : trace asio) (h : heap B) (g : gset obj) (o : obj) (l : list (nat * handler)) :
  rtc (lstep K) (Program initial ∅, t0) (Program h g, t) →
  delivered o h → l ≡ₚ map_to_list (operations o t h) →
  ∃ h' t', rtc (lasio_step K) (Program (abort l h) ({[o]} ∪ g), t) (Program h' ({[o]} ∪ g), t') ∧ ready h' = [] ∧
    operations o t (abort l h) = ∅ ∧
    ∀ id hd, operations o t h !! id = Some hd →
      ∃ tag, promises h' !! handler_promise hd = Some (HasError (fromAsioError 125 tag)).
Proof.
  intros Hreach Hd Hl. pose proof (lsteps_sound K _ _ Hreach (sound_initial t0)) as Hsd.
  pose proof (destroy_sound K o l h g t Hd Hl Hsd) as Hsd1.
  destruct (drain_live K _ _ _ t eq_refl Hsd1) as (h' & t' & Hsteps & Hr & _ & _ & Hf).
  exists h', t'. split_and!; [done|done| |].
  - apply map_eq. intros id. rewrite lookup_empty. apply eq_None_not_Some. intros [hd Hop].
    apply map_lookup_filter_Some in Hop as [[Hw Hnin]%abort_waiting Ho].
    apply Hnin, (list_elem_of_fmap_2 fst _ (id, hd)). rewrite Hl, elem_of_map_to_list. by apply map_lookup_filter_Some.
  - intros id hd Hop. apply (Hf hd aborted); [|done]. rewrite abort_ready. apply elem_of_app. right.
    apply (list_elem_of_fmap_2 (λ x : nat * handler, (x.2, aborted)) _ (id, hd)). by rewrite Hl, elem_of_map_to_list.
Qed.

End Lifetimes.

(** ** On an input *)

#[local] Existing Instances Concrete.view_ops Concrete.stream_ops Concrete.error_ops.

(** A datagram arrived for UDP socket 3, which is destroyed; a Unix stream socket was closed while it
    read, and its buffer freed; the same for a TCP socket. *)
Lemma handler_needs_witness :
  let h := Heap demo_buffers {[5%nat := Pending]} ∅ ∅ ∅ [] ∅ 6 in
  out (run_live [] {[3%nat]} (H_read_from 3 1 5) (Completion 0 4 0 0) zero_asio h []) ≠ Ret tt ∧
  out (run_live [] ∅ (H_transfer_always "asyncRead" 7 5) aborted zero_asio h []) ≠ Ret tt ∧
  out (run_live [] ∅ (H_transfer "asyncRead" 7 5) aborted zero_asio h []) = Ret tt.
Proof.
  intros h. split_and!.
  - intros Ho. apply (handler_needs [] {[3%nat]} (H_read_from 3 1 5) (Completion 0 4 0 0)) in Ho.
    destruct (Ho eq_refl) as [_ Hg]. apply Hg. by apply elem_of_singleton.
  - intros Ho. apply (handler_needs [] ∅ (H_transfer_always "asyncRead" 7 5) aborted) in Ho.
    destruct Ho as [b Hb]. discriminate.
  - apply (handler_needs [] ∅ (H_transfer "asyncRead" 7 5) aborted). discriminate.
Defined.

(** The client of [reading_heap]: a read from TCP socket 7 is under way. *)
Definition reading_trace : trace asio := [Prelude.Event (start 7 (async_read 100 4) 2) tt].

Lemma reading_reachable :
  rtc (lstep LittleEndian [] zero_asio) (Program (initial (B := Concrete.stream)) ∅, []) (Program reading_heap ∅, reading_trace).
Proof.
  eapply rtc_l; [apply (l_new_buffer _ _ _ (Concrete.Stream 100 8))|]. apply rtc_once.
  exact (l_call LittleEndian [] zero_asio (call_tcp_read (Channel_new 0 (TcpSocketImpl.MkTcp 7)) 0 4)
    (Heap {[0%nat := Concrete.Stream 100 8]} ∅ ∅ ∅ ∅ [] ∅ 1) ∅ [] I I).
Qed.

(** The socket is destroyed, and then the buffer freed. *)
Lemma disciplined_clients_witness :
  let l := [(2%nat, H_transfer "asyncRead" 0 1)] in
  let h := upd_buffers (delete 0%nat) (abort l reading_heap) in
  rtc (lstep LittleEndian [] zero_asio) (Program reading_heap ∅, reading_trace) (Program h ({[7%nat]} ∪ ∅), reading_trace) ∧
  ∃ s', rtc (lasio_step [] zero_asio) (Program h ({[7%nat]} ∪ ∅), reading_trace) s' ∧
    ∀ pm r, promises (mem s'.1) !! pm = Some r → r ≠ Pending.
Proof.
  intros l h.
  assert (Hs : rtc (lstep LittleEndian [] zero_asio) (Program reading_heap ∅, reading_trace)
    (Program h ({[7%nat]} ∪ ∅), reading_trace)).
  { eapply rtc_l; [apply (l_destroy _ _ _ 7 l)|].
    - intros d pm c Hin. by apply elem_of_nil in Hin.
    - vm_compute. reflexivity.
    - apply rtc_once. apply l_free_buffer. split.
      + intros id hd Hw. change (waiting (abort l reading_heap)) with (∅ : gmap nat handler) in Hw. by rewrite lookup_empty in Hw.
      + intros hd c Hin _. change (ready (abort l reading_heap)) with [(H_transfer "asyncRead" 0 1, aborted)] in Hin.
        by apply list_elem_of_singleton in Hin as [= -> ->]. }
  split; [exact Hs|].
  destruct (disciplined_clients LittleEndian [] zero_asio [] (Program h ({[7%nat]} ∪ ∅), reading_trace))
    as (_ & _ & _ & _ & s' & Hrun & _ & _ & Hp).
  - etrans; [apply reading_reachable|exact Hs].
  - by exists s'.
Defined.

Lemma destroyed_futures_fail_witness :
  let l := [(2%nat, H_transfer "asyncRead" 0 1)] in
  ∃ h' t' tag, rtc (lasio_step [] zero_asio) (Program (abort l reading_heap) ({[7%nat]} ∪ ∅), reading_trace) (Program h' ({[7%nat]} ∪ ∅), t') ∧
    promises h' !! 1%nat = Some (HasError (fromAsioError 125 tag)).
Proof.
  intros l.
  destruct (destroyed_futures_fail LittleEndian [] zero_asio [] reading_trace reading_heap ∅ 7 l) as (h' & t' & Hs & _ & _ & Hf).
  - apply reading_reachable.
  - intros d pm c Hin. by apply elem_of_nil in Hin.
  - vm_compute. reflexivity.
  - destruct (Hf 2%nat (H_transfer "asyncRead" 0 1)) as [tag Htag]; [by vm_compute|]. by exists h', t', tag.
Defined.
